(** * Storage miner and storage market actors: a shallow embedding

    The miner actor ([src/unnamed/part_000], package [miner]) and the market
    actor (the [market] package inside [src/support/vm/testing.go]) are
    embedded as functions in a state-and-abort monad over an explicit world
    (actor state, actor balance, messages sent).  An abort carries the exit
    code and the format string of the [rt.Abortf] that raised it.

    Epochs are [int64] in the source: they are integers here and every
    addition, subtraction and product on them is wrapped ([int64]).  Token
    amounts are [big.Int]: unbounded integers.  Content identifiers are
    opaque handles. *)

From Stdlib Require Import ZArith List String Bool Lia.
From stdpp Require Import base gmap list.
Import ListNotations.
Local Open Scope string_scope.
Local Open Scope list_scope.
Local Open Scope Z_scope.

(** ** Machine integers *)

Definition MaxInt64 : Z := 2 ^ 63 - 1.
Definition MinInt64 : Z := - 2 ^ 63.
Definition MaxUint64 : Z := 2 ^ 64 - 1.

(** Two's complement wrap-around of a 64-bit signed result. *)
Definition int64 (z : Z) : Z := (z + 2 ^ 63) mod 2 ^ 64 - 2 ^ 63.
Definition uint64 (z : Z) : Z := z mod 2 ^ 64.

Definition add64 (a b : Z) : Z := int64 (a + b).
Definition sub64 (a b : Z) : Z := int64 (a - b).
Definition mul64 (a b : Z) : Z := int64 (a * b).
(** Go's [/] and [%] truncate towards zero. *)
Definition div64 (a b : Z) : Z := int64 (Z.quot a b).
Definition rem64 (a b : Z) : Z := Z.rem a b.

Abbreviation Address := Z (only parsing).
Abbreviation ChainEpoch := Z (only parsing).
Abbreviation TokenAmount := Z (only parsing).
Abbreviation Cid := Z (only parsing).
Abbreviation DealID := Z (only parsing).
Abbreviation SectorNumber := Z (only parsing).

(** Ascending sort, for the places where the source sorts keys. *)
Fixpoint insertSorted (e : Z) (l : list Z) : list Z :=
  match l with
  | [] => [e]
  | x :: rest => if e <? x then e :: x :: rest else x :: insertSorted e rest
  end.
Definition sortZ (l : list Z) : list Z := fold_right insertSorted [] l.

(** [abi.ChainEpoch(-1)], the market's "undefined" epoch. *)
Definition epochUndefined : ChainEpoch := -1.

(** ** Exit codes ([go-state-types/exitcode]) *)

Module exitcode.
Abbreviation ExitCode := Z (only parsing).
Definition Ok : ExitCode := 0.
Definition SysErrInsufficientFunds : ExitCode := 6.
Definition SysErrForbidden : ExitCode := 8.
Definition ErrIllegalArgument : ExitCode := 16.
Definition ErrNotFound : ExitCode := 17.
Definition ErrForbidden : ExitCode := 18.
Definition ErrInsufficientFunds : ExitCode := 19.
Definition ErrIllegalState : ExitCode := 20.
Definition ErrSerialization : ExitCode := 21.
Definition IsSuccess (c : ExitCode) : bool := c =? Ok.
Definition IsError (c : ExitCode) : bool := negb (c =? Ok).
End exitcode.
Abbreviation ExitCode := exitcode.ExitCode (only parsing).

(** ** Bit fields

    A [bitfield.BitField] holds a set of unsigned integers; the model keeps
    the set bits in the order they were set, without repetition. *)

Module bitfield.
Abbreviation BitField := (list Z) (only parsing).
Definition New : BitField := [].
Definition IsSet (bf : BitField) (i : Z) : bool := existsb (Z.eqb i) bf.
Definition Set_ (bf : BitField) (i : Z) : BitField :=
  if IsSet bf i then bf else bf ++ [i].
Definition Count (bf : BitField) : Z := Z.of_nat (length bf).
Definition IsEmpty (bf : BitField) : bool :=
  match bf with [] => true | _ => false end.
Definition SubtractBitField (a b : BitField) : BitField :=
  filter (fun i => negb (IsSet b i)) a.
End bitfield.
Abbreviation BitField := bitfield.BitField (only parsing).

(** ** Proof structures ([runtime/proof]) *)

Module proof.

Record PoStProof : Type := mkPoStProof {
  PoStProofType : Z;
  ProofBytes : list Z
}.

Record SectorInfo : Type := mkSectorInfo {
  SealProof : Z;
  SectorNumber : SectorNumber;
  SealedCID : Cid
}.

Record WindowPoStVerifyInfo : Type := mkWindowPoStVerifyInfo {
  Randomness : list Z;
  Proofs : list PoStProof;
  ChallengedSectors : list SectorInfo;
  Prover : Address
}.

End proof.

(** ** The invocation monad

    One actor method runs against a world: the actor's committed state, its
    balance and the messages it has sent so far.  [rt.Abortf] ends the
    invocation; the caller of the actor then keeps the world it had. *)

Module rt.

Inductive Result (A : Type) : Type :=
| Done (a : A)
| Abort (code : ExitCode) (msg : string).
Arguments Done {A} a.
Arguments Abort {A} code msg.

(** What a message asks of its receiver. *)
Inductive Call : Type :=
| MethodSend
| UpdatePledgeTotal (delta : TokenAmount)
| UpdateClaimedPower (raw qa : Z)
| EnrollCronEvent (eventEpoch : ChainEpoch) (eventType : Z)
| UseBytes (client : Address) (dealSize : Z)
| RestoreBytes (client : Address) (dealSize : Z).

Record Message : Type := mkMessage {
  To : Address;
  Method : Call;
  Value : TokenAmount
}.

(** The oracle side of the runtime: what the chain and the other actors
    answer during this invocation. *)
Record Runtime : Type := mkRuntime {
  CurrEpoch : ChainEpoch;
  Caller : Address;
  (** code CID of the immediate caller *)
  CallerCode : Cid;
  Receiver : Address;
  ValueReceived : TokenAmount;
  BaseFee : TokenAmount;
  TotalFilCircSupply : TokenAmount;
  ResolveAddress : Address -> option Address;
  GetActorCodeCID : Address -> option Cid;
  (** tag, epoch, entropy *)
  GetRandomnessFromTickets : Z -> ChainEpoch -> list Z -> list Z;
  GetRandomnessFromBeacon : Z -> ChainEpoch -> list Z -> list Z;
  (** signature, signer, CID of the signed payload *)
  VerifySignature : Z -> Address -> Cid -> bool;
  VerifyPoSt : proof.WindowPoStVerifyInfo -> bool;
  (** exit code with which the receiver answers a message *)
  SendCode : Message -> ExitCode
}.

(** The same invocation under another proof verifier. *)
Definition with_VerifyPoSt (v : proof.WindowPoStVerifyInfo -> bool) (r : Runtime) : Runtime :=
  mkRuntime (CurrEpoch r) (Caller r) (CallerCode r) (Receiver r) (ValueReceived r) (BaseFee r)
    (TotalFilCircSupply r) (ResolveAddress r) (GetActorCodeCID r)
    (GetRandomnessFromTickets r) (GetRandomnessFromBeacon r) (VerifySignature r) v (SendCode r).

Record World (S : Type) : Type := mkWorld {
  state : S;
  balance : TokenAmount;
  sent : list Message
}.
Arguments mkWorld {S} _ _ _.
Arguments state {S} _.
Arguments balance {S} _.
Arguments sent {S} _.

(** State-and-abort monad: over [World S] for a method, over [S] alone for
    the body of a [rt.StateTransaction]. *)
Definition M (W A : Type) : Type := W -> Result (A * W).

Definition ret {W A} (a : A) : M W A := fun w => Done (a, w).

Definition bind {W A B} (m : M W A) (k : A -> M W B) : M W B :=
  fun w => match m w with
           | Done (a, w') => k a w'
           | Abort c s => Abort c s
           end.

Definition Abortf {W A} (code : ExitCode) (msg : string) : M W A :=
  fun _ => Abort code msg.

Definition get {W} : M W W := fun w => Done (w, w).
Definition put {W} (w : W) : M W unit := fun _ => Done (tt, w).

(** [rt.StateReadonly(&st)]. *)
Definition StateReadonly {S} : M (World S) S := fun w => Done (state w, w).

(** [rt.StateTransaction(&st, f)]: load, run [f], commit. *)
Definition StateTransaction {S A} (f : M S A) : M (World S) A :=
  fun w => match f (state w) with
           | Done (a, s') => Done (a, mkWorld s' (balance w) (sent w))
           | Abort c s => Abort c s
           end.

Definition CurrentBalance {S} : M (World S) TokenAmount :=
  fun w => Done (balance w, w).

(** [rt.Send]: the value leaves the balance when the receiver accepts; a
    value above the balance is refused by the VM. *)
Definition Send {S} (r : Runtime) (to : Address) (method : Call) (value : TokenAmount)
  : M (World S) ExitCode :=
  fun w =>
    if balance w <? value then Done (exitcode.SysErrInsufficientFunds, w)
    else
      let m := mkMessage to method value in
      let c := SendCode r m in
      if exitcode.IsSuccess c
      then Done (c, mkWorld (state w) (balance w - value) (sent w ++ [m]))
      else Done (c, w).

Definition ValidateImmediateCallerIs {W} (r : Runtime) (addrs : list Address) : M W unit :=
  if existsb (Z.eqb (Caller r)) addrs then ret tt
  else Abortf exitcode.SysErrForbidden "caller is not one of the expected addresses".

Definition ValidateImmediateCallerType {W} (r : Runtime) (types : list Cid) : M W unit :=
  if existsb (Z.eqb (CallerCode r)) types then ret tt
  else Abortf exitcode.SysErrForbidden "caller type is not one of the expected types".

(** The world after the invocation: an abort rolls everything back. *)
Definition outcome {W A} (m : M W A) (w : W) : W :=
  match m w with
  | Done (_, w') => w'
  | Abort _ _ => w
  end.

Definition exit {W A} (m : M W A) (w : W) : ExitCode :=
  match m w with
  | Done _ => exitcode.Ok
  | Abort c _ => c
  end.

(** Computations that only check: they leave the world as it is. *)
Definition pure {W A} (m : M W A) : Prop :=
  forall w a w', m w = Done (a, w') -> w' = w.

(** Computations that do not look at the world: what they answer in one
    world they answer in every other. *)
Definition blind {W A} (m : M W A) : Prop :=
  forall w a w1, m w = Done (a, w1) -> forall w2, m w2 = Done (a, w2).

(** Computations that never abort with the message [msg]. *)
Definition avoids {W A} (msg : string) (m : M W A) : Prop :=
  forall w c, m w <> Abort c msg.

(** [rt.StateCreate(st)]: the first state of the actor. *)
Definition StateCreate {S} (st : S) : M (World S) unit :=
  fun w => Done (tt, mkWorld st (balance w) (sent w)).

End rt.

Import rt.

Notation "'let*' x ':=' c 'in' k" := (rt.bind c (fun x => k))
  (at level 10, x name, c at level 100, k at level 200).
Notation "'let*' ' p ':=' c 'in' k" := (rt.bind c (fun x => match x with p => k end))
  (at level 10, p pattern, c at level 100, k at level 200).
Notation "c1 ';;' c2" := (rt.bind c1 (fun _ => c2))
  (at level 100, c2 at level 200, right associativity).

(** ** Helpers of package [builtin] *)

Module builtin.

(** Addresses of the singleton actors and code CIDs of the actor types. *)
Definition SystemActorAddr : Address := 0.
Definition InitActorAddr : Address := 1.
Definition RewardActorAddr : Address := 2.
Definition CronActorAddr : Address := 3.
Definition StoragePowerActorAddr : Address := 4.
Definition StorageMarketActorAddr : Address := 5.
Definition VerifiedRegistryActorAddr : Address := 6.
Definition BurntFundsActorAddr : Address := 99.

Definition AccountActorCodeID : Cid := 101.
Definition MultisigActorCodeID : Cid := 102.
Definition StorageMinerActorCodeID : Cid := 103.
Definition CallerTypesSignable : list Cid := [AccountActorCodeID; MultisigActorCodeID].

Definition RequirePredicate {W} (cond : bool) (code : ExitCode) (msg : string) : M W unit :=
  if cond then ret tt else Abortf code msg.

Definition RequireParam {W} (cond : bool) (msg : string) : M W unit :=
  RequirePredicate (W := W) cond exitcode.ErrIllegalArgument msg.

Definition RequireState {W} (cond : bool) (msg : string) : M W unit :=
  RequirePredicate (W := W) cond exitcode.ErrIllegalState msg.

Definition RequireSuccess {W} (code : ExitCode) (msg : string) : M W unit :=
  if exitcode.IsSuccess code then ret tt else Abortf code msg.

(** A Go result [(value, error)]: the error may wrap an exit code. *)
Inductive Errorable (A : Type) : Type :=
| Val (a : A)
| Err (wrapped : option ExitCode).
Arguments Val {A} a.
Arguments Err {A} wrapped.

(** [RequireNoErr(rt, err, defaultExitCode, msg)] aborts with the code the
    error wraps, or with the default one. *)
Definition RequireNoErr {W A} (res : Errorable A) (defaultExitCode : ExitCode) (msg : string)
  : M W A :=
  match res with
  | Val a => ret a
  | Err wrapped => Abortf (default defaultExitCode wrapped) msg
  end.

(** [x, err := st.Method(...)] on the state under transaction, followed by
    [RequireNoErr(rt, err, defaultExitCode, msg)]. *)
Definition TryMethod {S A} (method : S -> Errorable (A * S))
           (defaultExitCode : ExitCode) (msg : string) : M S A :=
  fun st => match method st with
            | Val (a, st') => Done (a, st')
            | Err wrapped => Abort (default defaultExitCode wrapped) msg
            end.

(** Modelled from the spec: [builtin.QuantSpec] is declared outside src/.
    The glossary has it as a quantization [(unit, offset)] that snaps epochs
    onto a periodic grid; [QuantizeUp] snaps to the next grid point at or
    after the epoch, [QuantizeDown] to the last one at or before it. *)
Record QuantSpec : Type := NewQuantSpec { unit_ : ChainEpoch; offset : ChainEpoch }.

Definition QuantizeUp (q : QuantSpec) (e : ChainEpoch) : ChainEpoch :=
  let off := rem64 (offset q) (unit_ q) in
  let remainder := rem64 (sub64 e off) (unit_ q) in
  let quotient := div64 (sub64 e off) (unit_ q) in
  if remainder =? 0 then add64 (mul64 (unit_ q) quotient) off
  else if sub64 e off <? 0 then add64 (mul64 (unit_ q) quotient) off
  else add64 (mul64 (unit_ q) (add64 quotient 1)) off.

Definition QuantizeDown (q : QuantSpec) (e : ChainEpoch) : ChainEpoch :=
  let next := QuantizeUp q e in
  if e =? next then next else sub64 next (unit_ q).

End builtin.

(** ** The storage market actor (package [market]) *)

Module market.

Record DealProposal : Type := mkDealProposal {
  PieceCID : Cid;
  PieceSize : Z;
  VerifiedDeal : bool;
  Client : Address;
  Provider : Address;
  Label : string;
  StartEpoch : ChainEpoch;
  EndEpoch : ChainEpoch;
  StoragePricePerEpoch : TokenAmount;
  ProviderCollateral : TokenAmount;
  ClientCollateral : TokenAmount
}.

Record ClientDealProposal : Type := mkClientDealProposal {
  Proposal : DealProposal;
  ClientSignature : Z
}.

Record DealState : Type := mkDealState {
  SectorStartEpoch : ChainEpoch;
  LastUpdatedEpoch : ChainEpoch;
  SlashEpoch : ChainEpoch
}.

(** The escrow and locked tables with their running totals: the part of
    the state the settlement helpers work on. *)
Record Balances : Type := mkBalances {
  EscrowTable : gmap Z Z;
  LockedTable : gmap Z Z;
  TotalClientLockedCollateral : TokenAmount;
  TotalProviderLockedCollateral : TokenAmount;
  TotalClientStorageFee : TokenAmount
}.

Record State : Type := mkState {
  Proposals : gmap Z DealProposal;
  States : gmap Z DealState;
  PendingProposals : gset Z;
  Funds : Balances;
  NextID : DealID;
  (** epoch -> the deal IDs to process at it, in iteration order *)
  DealOpsByEpoch : gmap Z (list Z);
  LastCron : ChainEpoch
}.

Definition set_Proposals (v : gmap Z DealProposal) (st : State) : State :=
  mkState v (States st) (PendingProposals st) (Funds st) (NextID st) (DealOpsByEpoch st) (LastCron st).
Definition set_States (v : gmap Z DealState) (st : State) : State :=
  mkState (Proposals st) v (PendingProposals st) (Funds st) (NextID st) (DealOpsByEpoch st) (LastCron st).
Definition set_PendingProposals (v : gset Z) (st : State) : State :=
  mkState (Proposals st) (States st) v (Funds st) (NextID st) (DealOpsByEpoch st) (LastCron st).
Definition set_Funds (v : Balances) (st : State) : State :=
  mkState (Proposals st) (States st) (PendingProposals st) v (NextID st) (DealOpsByEpoch st) (LastCron st).
Definition set_NextID (v : DealID) (st : State) : State :=
  mkState (Proposals st) (States st) (PendingProposals st) (Funds st) v (DealOpsByEpoch st) (LastCron st).
Definition set_DealOpsByEpoch (v : gmap Z (list Z)) (st : State) : State :=
  mkState (Proposals st) (States st) (PendingProposals st) (Funds st) (NextID st) v (LastCron st).
Definition set_LastCron (v : ChainEpoch) (st : State) : State :=
  mkState (Proposals st) (States st) (PendingProposals st) (Funds st) (NextID st) (DealOpsByEpoch st) v.

(** Run a helper that works on the balance tables inside the state. *)
Definition onFunds {A} (f : M Balances A) : M State A :=
  fun st => match f (Funds st) with
            | Done (a, b) => Done (a, set_Funds b st)
            | Abort c s => Abort c s
            end.

(** Policy values and bounds of [market/policy.go], declared outside src/. *)
Record Policy : Type := mkPolicy {
  DealUpdatesInterval : ChainEpoch;
  DealMaxLabelSize : Z;
  PieceCIDPrefix : Cid -> bool;
  DealDurationBounds : Z -> ChainEpoch * ChainEpoch;
  DealPricePerEpochBounds : Z -> ChainEpoch -> TokenAmount * TokenAmount;
  DealProviderCollateralBounds : Z -> bool -> Z -> Z -> Z -> TokenAmount -> TokenAmount * TokenAmount;
  DealClientCollateralBounds : Z -> ChainEpoch -> TokenAmount * TokenAmount;
  (** [DealProposal.Cid]: the content identifier of a proposal *)
  ProposalCid : DealProposal -> Cid
}.

(** What the miner, reward and power actors answer to the market's
    requests: exit code and returned value. *)
Record Peers : Type := mkPeers {
  (** owner, worker, control addresses *)
  RequestMinerControlAddrs : Address -> ExitCode * (Address * Address * list Address);
  ThisEpochBaselinePower : ExitCode * Z;
  (** raw byte power, quality-adjusted power *)
  CurrentTotalPower : ExitCode * (Z * Z)
}.

(** Modelled from the spec: the [DealProposal] methods of [deal.go] are
    declared outside src/.  The duration runs from start to end epoch, the
    total storage fee is the price per epoch over the duration, and the
    client balance requirement is the client collateral plus that fee. *)
Definition Duration (p : DealProposal) : ChainEpoch := sub64 (EndEpoch p) (StartEpoch p).
Definition TotalStorageFee (p : DealProposal) : TokenAmount :=
  StoragePricePerEpoch p * Duration p.
Definition ClientBalanceRequirement (p : DealProposal) : TokenAmount :=
  ClientCollateral p + TotalStorageFee p.

(** [abi.PaddedPieceSize.Validate]: at least 128 bytes and a power of two. *)
Definition PieceSizeValidate (s : Z) : bool :=
  (128 <=? s) && (Z.land s (s - 1) =? 0).

Definition GenRandNextEpoch (pol : Policy) (startEpoch : ChainEpoch) (dealID : DealID)
  : ChainEpoch :=
  let offset := uint64 dealID mod uint64 (DealUpdatesInterval pol) in
  let q := builtin.NewQuantSpec (DealUpdatesInterval pol) 0 in
  let prevDay := builtin.QuantizeDown q startEpoch in
  if add64 prevDay offset >=? startEpoch then add64 prevDay offset
  else
    let nextDay := builtin.QuantizeUp q startEpoch in
    add64 nextDay offset.

Definition dealProposalIsInternallyValid (pol : Policy) (r : Runtime) (deal : ClientDealProposal)
  : bool :=
  VerifySignature r (ClientSignature deal) (Client (Proposal deal)) (ProposalCid pol (Proposal deal)).

(** [validateDeal]: [None] is Go's [nil], [Some] the error text. *)
Definition validateDeal (pol : Policy) (r : Runtime) (deal : ClientDealProposal)
           (networkRawPower networkQAPower baselinePower : Z) : option string :=
  if negb (dealProposalIsInternallyValid pol r deal) then Some "Invalid deal proposal"
  else
    let proposal := Proposal deal in
    if Z.of_nat (String.length (Label proposal)) >? DealMaxLabelSize pol
    then Some "deal label can be at most %d bytes, is %d"
    else if negb (PieceSizeValidate (PieceSize proposal))
    then Some "proposal piece size is invalid"
    else if PieceCID proposal =? 0
    then Some "proposal PieceCid undefined"
    else if negb (PieceCIDPrefix pol (PieceCID proposal))
    then Some "proposal PieceCID had wrong prefix"
    else if EndEpoch proposal <=? StartEpoch proposal
    then Some "proposal end before proposal start"
    else if CurrEpoch r >? StartEpoch proposal
    then Some "Deal start epoch has already elapsed"
    else
      let '(minDuration, maxDuration) := DealDurationBounds pol (PieceSize proposal) in
      if (Duration proposal <? minDuration) || (Duration proposal >? maxDuration)
      then Some "Deal duration out of bounds"
      else
        let '(minPrice, maxPrice) :=
          DealPricePerEpochBounds pol (PieceSize proposal) (Duration proposal) in
        if (StoragePricePerEpoch proposal <? minPrice) || (StoragePricePerEpoch proposal >? maxPrice)
        then Some "Storage price out of bounds"
        else
          let '(minProviderCollateral, maxProviderCollateral) :=
            DealProviderCollateralBounds pol (PieceSize proposal) (VerifiedDeal proposal)
              networkRawPower networkQAPower baselinePower (TotalFilCircSupply r) in
          if (ProviderCollateral proposal <? minProviderCollateral)
             || (ProviderCollateral proposal >? maxProviderCollateral)
          then Some "Provider collateral out of bounds"
          else
            let '(minClientCollateral, maxClientCollateral) :=
              DealClientCollateralBounds pol (PieceSize proposal) (Duration proposal) in
            if (ClientCollateral proposal <? minClientCollateral)
               || (ClientCollateral proposal >? maxClientCollateral)
            then Some "Client collateral out of bounds"
            else None.

(** Modelled from the spec: the table helpers of [market_state.go] are
    declared outside src/.  A balance is covered when what is already
    locked plus the new amount stays within the escrow; locking adds to the
    locked table (and refuses what the escrow does not cover); deal IDs
    are handed out in sequence from [NextID]; the deals-by-epoch index is a
    multimap that holds a deal ID once per epoch. *)
Definition tableGet (t : gmap Z Z) (a : Address) : TokenAmount := default 0 (t !! a).

Definition balanceCovered (b : Balances) (a : Address) (amountToLock : TokenAmount) : bool :=
  tableGet (LockedTable b) a + amountToLock <=? tableGet (EscrowTable b) a.

Definition maybeLockBalance (a : Address) (amount : TokenAmount) : M Balances unit :=
  fun b =>
    if amount <? 0 then Abort exitcode.ErrIllegalState "cannot lock negative amount"
    else if tableGet (LockedTable b) a + amount >? tableGet (EscrowTable b) a
    then Abort exitcode.ErrInsufficientFunds "failed to lock balance"
    else Done (tt, mkBalances (EscrowTable b)
                     (<[a := tableGet (LockedTable b) a + amount]> (LockedTable b))
                     (TotalClientLockedCollateral b) (TotalProviderLockedCollateral b)
                     (TotalClientStorageFee b)).

Definition lockClientAndProviderBalances (p : DealProposal) : M Balances unit :=
  maybeLockBalance (Client p) (ClientBalanceRequirement p) ;;
  maybeLockBalance (Provider p) (ProviderCollateral p) ;;
  fun b => Done (tt, mkBalances (EscrowTable b) (LockedTable b)
                       (TotalClientLockedCollateral b + ClientCollateral p)
                       (TotalProviderLockedCollateral b + ProviderCollateral p)
                       (TotalClientStorageFee b + TotalStorageFee p)).

(** What publishing proposal [p] locks for address [a]. *)
Definition lockedFor (a : Address) (p : DealProposal) : TokenAmount :=
  (if Client p =? a then ClientBalanceRequirement p else 0)
  + (if Provider p =? a then ProviderCollateral p else 0).

Definition lockedTotal (a : Address) (deals : list ClientDealProposal) : TokenAmount :=
  fold_right (fun d acc => lockedFor a (Proposal d) + acc) 0 deals.

Definition generateStorageDealID : M State DealID :=
  fun st => Done (NextID st, set_NextID (uint64 (NextID st + 1)) st).

Definition multimapGet (m : gmap Z (list Z)) (e : ChainEpoch) : list Z := default [] (m !! e).

Definition multimapPut (e : ChainEpoch) (id : DealID) (m : gmap Z (list Z)) : gmap Z (list Z) :=
  <[e := bitfield.Set_ (multimapGet m e) id]> m.

Definition multimapPutMany (e : ChainEpoch) (ids : list DealID) (m : gmap Z (list Z))
  : gmap Z (list Z) :=
  fold_left (fun acc id => multimapPut e id acc) ids m.

Definition multimapRemoveAll (e : ChainEpoch) (m : gmap Z (list Z)) : gmap Z (list Z) :=
  delete e m.


(** *** PublishStorageDeals *)

(** The locals that the first loop of [PublishStorageDeals] updates.  (The
    source also fills a map [resolvedAddrs] that it never reads.) *)
Record PublishAcc : Type := mkPublishAcc {
  proposalCidLookup : gset Z;
  validProposalCids : list Cid;
  validDeals : list ClientDealProposal;
  totalClientLockup : gmap Z Z;
  totalProviderLockup : TokenAmount;
  validInputBf : BitField
}.

Definition emptyPublishAcc : PublishAcc :=
  mkPublishAcc ∅ [] [] ∅ 0 bitfield.New.

Record PublishStorageDealsReturn : Type := mkPublishStorageDealsReturn {
  IDs : list DealID;
  ValidDeals : BitField
}.

(** "Normalise provider and client addresses in the proposal stored on
    chain." *)
Definition normalised (p : DealProposal) (client provider : Address) : DealProposal :=
  mkDealProposal (PieceCID p) (PieceSize p) (VerifiedDeal p) client provider
    (Label p) (StartEpoch p) (EndEpoch p) (StoragePricePerEpoch p)
    (ProviderCollateral p) (ClientCollateral p).

(** One round of the loop "Drop invalid deals": [ret acc'] with the valid
    lists unchanged is the source's [continue]. *)
Definition publishStep (pol : Policy) (r : Runtime) (st : State)
           (provider providerRaw : Address)
           (networkRawPower networkQAPower baselinePower : Z)
           (acc : PublishAcc) (di : Z) (deal : ClientDealProposal)
  : M (World State) PublishAcc :=
  match validateDeal pol r deal networkRawPower networkQAPower baselinePower with
  | Some _ => ret acc
  | None =>
    if negb (Provider (Proposal deal) =? provider)
       && negb (Provider (Proposal deal) =? providerRaw)
    then ret acc
    else
      match ResolveAddress r (Client (Proposal deal)) with
      | None => ret acc
      | Some client =>
        let lockup := default 0 (totalClientLockup acc !! client)
                      + ClientBalanceRequirement (Proposal deal) in
        let acc1 := mkPublishAcc (proposalCidLookup acc) (validProposalCids acc)
                      (validDeals acc) (<[client := lockup]> (totalClientLockup acc))
                      (totalProviderLockup acc) (validInputBf acc) in
        if negb (balanceCovered (Funds st) client lockup) then ret acc1
        else
          let providerLockup := totalProviderLockup acc1 + ProviderCollateral (Proposal deal) in
          let acc2 := mkPublishAcc (proposalCidLookup acc1) (validProposalCids acc1)
                        (validDeals acc1) (totalClientLockup acc1)
                        providerLockup (validInputBf acc1) in
          if negb (balanceCovered (Funds st) provider providerLockup) then ret acc2
          else
            let p := normalised (Proposal deal) client provider in
            let pcid := ProposalCid pol p in
            let duplicateInState := bool_decide (pcid ∈ PendingProposals st) in
            let duplicateInMessage := bool_decide (pcid ∈ proposalCidLookup acc2) in
            if duplicateInState || duplicateInMessage then ret acc2
            else
              let* dataCapOk :=
                (if VerifiedDeal p
                 then
                   let* code := Send r builtin.VerifiedRegistryActorAddr
                                  (UseBytes client (uint64 (PieceSize p))) 0 in
                   ret (negb (exitcode.IsError code))
                 else ret true) in
              if negb dataCapOk then ret acc2
              else
                ret (mkPublishAcc ({[pcid]} ∪ proposalCidLookup acc2)
                       (validProposalCids acc2 ++ [pcid])
                       (validDeals acc2 ++ [mkClientDealProposal p (ClientSignature deal)])
                       (totalClientLockup acc2) (totalProviderLockup acc2)
                       (bitfield.Set_ (validInputBf acc2) (uint64 di)))
      end
  end.

Fixpoint publishLoop (pol : Policy) (r : Runtime) (st : State)
         (provider providerRaw : Address)
         (networkRawPower networkQAPower baselinePower : Z)
         (di : Z) (deals : list ClientDealProposal) (acc : PublishAcc)
  : M (World State) PublishAcc :=
  match deals with
  | [] => ret acc
  | deal :: rest =>
    let* acc' := publishStep pol r st provider providerRaw
                   networkRawPower networkQAPower baselinePower acc di deal in
    publishLoop pol r st provider providerRaw
      networkRawPower networkQAPower baselinePower (di + 1) rest acc'
  end.

(** One round of the loop inside the state transaction. *)
Definition persistDeal (pol : Policy) (validProposalCids : list Cid)
           (vdi : nat) (validDeal : ClientDealProposal) : M State DealID :=
  onFunds (lockClientAndProviderBalances (Proposal validDeal)) ;;
  let* id := generateStorageDealID in
  match validProposalCids !! vdi with
  | None => Abortf exitcode.ErrIllegalState "index out of range"
  | Some pcid =>
    let* st := get in
    let processEpoch := GenRandNextEpoch pol (StartEpoch (Proposal validDeal)) id in
    put (set_DealOpsByEpoch (multimapPut processEpoch id (DealOpsByEpoch st))
           (set_Proposals (<[id := Proposal validDeal]> (Proposals st))
              (set_PendingProposals ({[pcid]} ∪ PendingProposals st) st))) ;;
    ret id
  end.

Fixpoint persistDeals (pol : Policy) (validProposalCids : list Cid)
         (vdi : nat) (validDeals : list ClientDealProposal) (newDealIds : list DealID)
  : M State (list DealID) :=
  match validDeals with
  | [] => ret newDealIds
  | validDeal :: rest =>
    let* id := persistDeal pol validProposalCids vdi validDeal in
    persistDeals pol validProposalCids (S vdi) rest (newDealIds ++ [id])
  end.

(** The checks of [PublishStorageDeals] before the deals are looked at:
    returns [provider], [providerRaw], the network raw and quality-adjusted
    power and the baseline power. *)
Definition PublishStorageDeals_preamble {W} (peers : Peers) (r : Runtime)
           (params : list ClientDealProposal) : M W (Address * Address * Z * Z * Z) :=
  ValidateImmediateCallerType r builtin.CallerTypesSignable ;;
  match params with
  | [] => Abortf exitcode.ErrIllegalArgument "empty deals parameter"
  | first :: _ =>
    let providerRaw := Provider (Proposal first) in
    match ResolveAddress r providerRaw with
    | None => Abortf exitcode.ErrNotFound "failed to resolve provider address %v"
    | Some provider =>
      let codeID := GetActorCodeCID r provider in
      builtin.RequireParam (bool_decide (is_Some codeID)) "no codeId for address %v" ;;
      (if negb (default 0 codeID =? builtin.StorageMinerActorCodeID)
       then Abortf exitcode.ErrIllegalArgument "deal provider is not a StorageMinerActor"
       else ret tt) ;;
      let caller := Caller r in
      let '(code, (_, worker, controllers)) := RequestMinerControlAddrs peers provider in
      builtin.RequireSuccess code "failed fetching control addresses" ;;
      let callerOk := (caller =? worker) || existsb (Z.eqb caller) controllers in
      (if negb callerOk
       then Abortf exitcode.ErrForbidden
              "caller %v is not worker or control address of provider %v"
       else ret tt) ;;
      builtin.RequireSuccess (fst (ThisEpochBaselinePower peers))
        "failed to check epoch baseline power" ;;
      let baselinePower := snd (ThisEpochBaselinePower peers) in
      builtin.RequireSuccess (fst (CurrentTotalPower peers)) "failed to check current power" ;;
      let '(networkRawPower, networkQAPower) := snd (CurrentTotalPower peers) in
      ret (provider, providerRaw, networkRawPower, networkQAPower, baselinePower)
    end
  end.

Definition PublishStorageDeals (pol : Policy) (peers : Peers) (r : Runtime)
           (params : list ClientDealProposal)
  : M (World State) PublishStorageDealsReturn :=
  let* '(provider, providerRaw, networkRawPower, networkQAPower, baselinePower) :=
    PublishStorageDeals_preamble peers r params in
  let* st := StateReadonly in
  let* acc := publishLoop pol r st provider providerRaw
                networkRawPower networkQAPower baselinePower 0 params emptyPublishAcc in
  let validDealCount := bitfield.Count (validInputBf acc) in
  builtin.RequirePredicate
    (Nat.eqb (length (validDeals acc)) (length (validProposalCids acc)))
    exitcode.ErrIllegalState "%d valid deals but %d valid proposal cids" ;;
  builtin.RequirePredicate
    (Z.of_nat (length (validDeals acc)) =? validDealCount)
    exitcode.ErrIllegalState "%d valid deals but validDealCount=%d" ;;
  builtin.RequireParam (validDealCount >? 0) "All deal proposals invalid" ;;
  let* newDealIds :=
    StateTransaction (persistDeals pol (validProposalCids acc) 0 (validDeals acc) []) in
  ret (mkPublishStorageDealsReturn newDealIds (validInputBf acc)).

(** *** CronTick *)

(** Settlement of one deal by [market_state.go], declared outside src/: the
    two helpers move funds between the escrow and locked tables and report
    what [CronTick] needs. *)
Record Settlement : Type := mkSettlement {
  (** the amount slashed *)
  processDealInitTimedOut : Runtime -> DealProposal -> M Balances TokenAmount;
  (** slash amount, next epoch, remove deal *)
  updatePendingDealState :
    Runtime -> DealState -> DealProposal -> ChainEpoch
    -> M Balances (TokenAmount * ChainEpoch * bool)
}.

Record CronAcc : Type := mkCronAcc {
  amountSlashed : TokenAmount;
  timedOutVerifiedDeals : list DealProposal;
  (** the Go map [updatesNeeded], in order of first insertion *)
  updatesNeeded : list (ChainEpoch * list DealID)
}.

Fixpoint appendUpdate (e : ChainEpoch) (id : DealID) (m : list (ChainEpoch * list DealID))
  : list (ChainEpoch * list DealID) :=
  match m with
  | [] => [(e, [id])]
  | (e', ids) :: rest =>
    if e' =? e then (e', ids ++ [id]) :: rest else (e', ids) :: appendUpdate e id rest
  end.

(** [adt]'s [Delete] expects the key to exist. *)
Definition requirePresent {W} (present : bool) (msg : string) : M W unit :=
  if present then ret tt else Abortf exitcode.ErrIllegalState msg.

(** The callback of [dealsByEpoch.ForEach] in [CronTick]. *)
Definition cronDeal (pol : Policy) (stl : Settlement) (r : Runtime)
           (acc : CronAcc) (dealID : DealID) : M State CronAcc :=
  let* st := get in
  match Proposals st !! dealID with
  | None => Abortf exitcode.ErrNotFound "failed to get dealId %d"
  | Some deal =>
    let dcid := ProposalCid pol deal in
    match States st !! dealID with
    | None =>
      builtin.RequireState (CurrEpoch r >=? StartEpoch deal)
        "deal %d processed before start epoch %d" ;;
      let* slashed := onFunds (processDealInitTimedOut stl r deal) in
      let amount := if slashed =? 0 then amountSlashed acc else amountSlashed acc + slashed in
      let timedOut := if VerifiedDeal deal
                      then timedOutVerifiedDeals acc ++ [deal]
                      else timedOutVerifiedDeals acc in
      let* st1 := get in
      put (set_Proposals (delete dealID (Proposals st1)) st1) ;;
      requirePresent (bool_decide (dcid ∈ PendingProposals st1))
        "failed to delete pending proposal %d (%v)" ;;
      let* st2 := get in
      put (set_PendingProposals (PendingProposals st2 ∖ {[dcid]}) st2) ;;
      ret (mkCronAcc amount timedOut (updatesNeeded acc))
    | Some state =>
      (if LastUpdatedEpoch state =? epochUndefined
       then
         requirePresent (bool_decide (dcid ∈ PendingProposals st))
           "failed to delete pending proposal %v" ;;
         put (set_PendingProposals (PendingProposals st ∖ {[dcid]}) st)
       else ret tt) ;;
      let* '(slashAmount, nextEpoch, removeDeal) :=
        onFunds (updatePendingDealState stl r state deal (CurrEpoch r)) in
      builtin.RequireState (slashAmount >=? 0) "computed negative slash amount %v for deal %d" ;;
      if removeDeal : bool
      then
        builtin.RequireState (nextEpoch =? epochUndefined)
          "removed deal %d should have no scheduled epoch (got %d)" ;;
        let* st1 := get in
        put (set_Proposals (delete dealID (Proposals st1))
               (set_States (delete dealID (States st1)) st1)) ;;
        ret (mkCronAcc (amountSlashed acc + slashAmount) (timedOutVerifiedDeals acc)
               (updatesNeeded acc))
      else
        builtin.RequireState (nextEpoch >? CurrEpoch r)
          "continuing deal %d next epoch %d should be in future" ;;
        builtin.RequireState (slashAmount =? 0) "continuing deal %d should not be slashed" ;;
        let* st1 := get in
        put (set_States (<[dealID := mkDealState (SectorStartEpoch state) (CurrEpoch r)
                                       (SlashEpoch state)]> (States st1)) st1) ;;
        ret (mkCronAcc (amountSlashed acc) (timedOutVerifiedDeals acc)
               (appendUpdate nextEpoch dealID (updatesNeeded acc)))
    end
  end.

Fixpoint cronDeals (pol : Policy) (stl : Settlement) (r : Runtime)
         (ids : list DealID) (acc : CronAcc) : M State CronAcc :=
  match ids with
  | [] => ret acc
  | id :: rest =>
    let* acc' := cronDeal pol stl r acc id in
    cronDeals pol stl r rest acc'
  end.

(** The body of [for i := st.LastCron + 1; i <= rt.CurrEpoch(); i++] over
    the epochs it runs through. *)
Fixpoint cronEpochs (pol : Policy) (stl : Settlement) (r : Runtime)
         (epochs : list ChainEpoch) (acc : CronAcc) : M State CronAcc :=
  match epochs with
  | [] => ret acc
  | i :: rest =>
    let* st := get in
    let* acc' := cronDeals pol stl r (multimapGet (DealOpsByEpoch st) i) acc in
    let* st1 := get in
    put (set_DealOpsByEpoch (multimapRemoveAll i (DealOpsByEpoch st1)) st1) ;;
    cronEpochs pol stl r rest acc'
  end.

(** The epochs of the loop: from [st.LastCron + 1] up to the current one. *)
Definition cronRange (lastCron now : ChainEpoch) : list ChainEpoch :=
  seqZ (add64 lastCron 1) (now - add64 lastCron 1 + 1).

Fixpoint reinsert (updates : list (ChainEpoch * list DealID)) (changedEpochs : list ChainEpoch)
         (m : gmap Z (list Z)) : gmap Z (list Z) :=
  match changedEpochs with
  | [] => m
  | epoch :: rest =>
    let ids := default [] (snd <$> find (fun kv => fst kv =? epoch) updates) in
    reinsert updates rest (multimapPutMany epoch ids m)
  end.

Definition cronTransaction (pol : Policy) (stl : Settlement) (r : Runtime) : M State CronAcc :=
  let* st := get in
  let* acc := cronEpochs pol stl r (cronRange (LastCron st) (CurrEpoch r))
                (mkCronAcc 0 [] []) in
  let changedEpochs := sortZ (map fst (updatesNeeded acc)) in
  let* st1 := get in
  put (set_LastCron (CurrEpoch r)
         (set_DealOpsByEpoch (reinsert (updatesNeeded acc) changedEpochs (DealOpsByEpoch st1))
            st1)) ;;
  ret acc.

Fixpoint restoreBytes (r : Runtime) (ds : list DealProposal) : M (World State) unit :=
  match ds with
  | [] => ret tt
  | d :: rest =>
    let* _code := Send r builtin.VerifiedRegistryActorAddr
                    (RestoreBytes (Client d) (uint64 (PieceSize d))) 0 in
    restoreBytes r rest
  end.

Definition CronTick (pol : Policy) (stl : Settlement) (r : Runtime) : M (World State) unit :=
  ValidateImmediateCallerIs r [builtin.CronActorAddr] ;;
  let* acc := StateTransaction (cronTransaction pol stl r) in
  restoreBytes r (timedOutVerifiedDeals acc) ;;
  if negb (amountSlashed acc =? 0)
  then
    let* e := Send r builtin.BurntFundsActorAddr MethodSend (amountSlashed acc) in
    builtin.RequireSuccess e "expected send to burnt funds actor to succeed"
  else ret tt.

(** What holds of the locals after the deals before index [di]: the k-th
    valid deal is the normalised form of the input deal whose index is the
    k-th bit set in [validInputBf]. *)
Definition filtered (pol : Policy) (r : Runtime) (params : list ClientDealProposal)
           (provider : Address) (raw qa baseline : Z) (acc : PublishAcc) (di : nat) : Prop :=
  length (validDeals acc) = length (validProposalCids acc)
  /\ length (validDeals acc) = length (validInputBf acc)
  /\ (length (validInputBf acc) <= di)%nat
  /\ (forall i, In i (validInputBf acc) -> 0 <= i < Z.of_nat di)
  /\ (forall (k : nat) i,
         validInputBf acc !! k = Some i ->
         exists deal client,
           params !! Z.to_nat i = Some deal
           /\ validateDeal pol r deal raw qa baseline = None
           /\ ResolveAddress r (Client (Proposal deal)) = Some client
           /\ validDeals acc !! k
              = Some (mkClientDealProposal (normalised (Proposal deal) client provider)
                        (ClientSignature deal))
           /\ validProposalCids acc !! k
              = Some (ProposalCid pol (normalised (Proposal deal) client provider))).

(** *** Deal activation *)

Module SectorDeals.
Record t : Type := mk { SectorExpiry : ChainEpoch; DealIDs : list DealID }.
End SectorDeals.

Module SectorWeights.
Record t : Type := mk { DealSpace : Z; DealWeight : Z; VerifiedDealWeight : Z }.
End SectorWeights.

(** Modelled from the spec: [DealWeight] of [deal.go] is declared outside
    src/.  The glossary has the deal weight of a sector as space×time:
    the size of the piece over the duration of the deal. *)
Definition DealWeight (p : DealProposal) : Z := Duration p * PieceSize p.

Definition validateDealCanActivate (proposal : DealProposal) (minerAddr : Address)
           (sectorExpiration sectorActivation : ChainEpoch) : builtin.Errorable unit :=
  if negb (Provider proposal =? minerAddr) then builtin.Err (Some exitcode.ErrForbidden)
  else if sectorActivation >? StartEpoch proposal
  then builtin.Err (Some exitcode.ErrIllegalArgument)
  else if EndEpoch proposal >? sectorExpiration
  then builtin.Err (Some exitcode.ErrIllegalArgument)
  else builtin.Val tt.

(** The locals of the loop of [validateAndComputeDealWeight]. *)
Record WeightAcc : Type := mkWeightAcc {
  seenDealIDs : gset Z;
  totalDealSpace : Z;
  totalDealSpaceTime : Z;
  totalVerifiedSpaceTime : Z
}.

Fixpoint dealWeightLoop (proposals : gmap Z DealProposal) (dealIDs : list DealID)
         (minerAddr : Address) (sectorExpiry sectorActivation : ChainEpoch) (acc : WeightAcc)
  : builtin.Errorable WeightAcc :=
  match dealIDs with
  | [] => builtin.Val acc
  | dealID :: rest =>
    if bool_decide (dealID ∈ seenDealIDs acc)
    then builtin.Err (Some exitcode.ErrIllegalArgument)
    else
      match proposals !! dealID with
      | None => builtin.Err (Some exitcode.ErrNotFound)
      | Some proposal =>
        match validateDealCanActivate proposal minerAddr sectorExpiry sectorActivation with
        | builtin.Err e => builtin.Err e
        | builtin.Val _ =>
          let dealSpaceTime := DealWeight proposal in
          dealWeightLoop proposals rest minerAddr sectorExpiry sectorActivation
            (mkWeightAcc ({[dealID]} ∪ seenDealIDs acc)
               (uint64 (totalDealSpace acc + uint64 (PieceSize proposal)))
               (if VerifiedDeal proposal then totalDealSpaceTime acc
                else totalDealSpaceTime acc + dealSpaceTime)
               (if VerifiedDeal proposal then totalVerifiedSpaceTime acc + dealSpaceTime
                else totalVerifiedSpaceTime acc))
        end
      end
  end.

(** Returns the deal weight, the verified deal weight and the deal space. *)
Definition validateAndComputeDealWeight (proposals : gmap Z DealProposal)
           (dealIDs : list DealID) (minerAddr : Address)
           (sectorExpiry sectorActivation : ChainEpoch) : builtin.Errorable (Z * Z * Z) :=
  match dealWeightLoop proposals dealIDs minerAddr sectorExpiry sectorActivation
          (mkWeightAcc ∅ 0 0 0) with
  | builtin.Err e => builtin.Err e
  | builtin.Val acc =>
    builtin.Val (totalDealSpaceTime acc, totalVerifiedSpaceTime acc, totalDealSpace acc)
  end.

Definition ValidateDealsForActivation (st : State) (dealIDs : list DealID)
           (minerAddr : Address) (sectorExpiry currEpoch : ChainEpoch)
  : builtin.Errorable (Z * Z * Z) :=
  validateAndComputeDealWeight (Proposals st) dealIDs minerAddr sectorExpiry currEpoch.

Definition getDealProposal (proposals : gmap Z DealProposal) (dealID : DealID)
  : builtin.Errorable DealProposal :=
  match proposals !! dealID with
  | None => builtin.Err (Some exitcode.ErrNotFound)
  | Some proposal => builtin.Val proposal
  end.

(** The loop of [VerifyDealsForActivation] over the sectors. *)
Fixpoint verifyDeals {W} (r : Runtime) (proposals : gmap Z DealProposal)
         (sectors : list SectorDeals.t) (weights : list SectorWeights.t)
  : M W (list SectorWeights.t) :=
  match sectors with
  | [] => ret weights
  | sector :: rest =>
    let* '(dealWeight, verifiedWeight, dealSpace) :=
      builtin.RequireNoErr
        (validateAndComputeDealWeight proposals (SectorDeals.DealIDs sector) (Caller r)
           (SectorDeals.SectorExpiry sector) (CurrEpoch r))
        exitcode.ErrIllegalState "failed to validate deal proposals for activation" in
    verifyDeals r proposals rest
      (weights ++ [SectorWeights.mk dealSpace dealWeight verifiedWeight])
  end.

Definition VerifyDealsForActivation (r : Runtime) (sectors : list SectorDeals.t)
  : M (World State) (list SectorWeights.t) :=
  ValidateImmediateCallerType r [builtin.StorageMinerActorCodeID] ;;
  let* st := StateReadonly in
  verifyDeals r (Proposals st) sectors [].

(** One round of the loop of [ActivateDeals]. *)
Definition activateDeal (pol : Policy) (currEpoch : ChainEpoch) (dealID : DealID)
  : M State unit :=
  let* st := get in
  (if bool_decide (is_Some (States st !! dealID))
   then Abortf exitcode.ErrIllegalArgument "deal %d already included in another sector"
   else ret tt) ;;
  let* proposal :=
    builtin.RequireNoErr (getDealProposal (Proposals st) dealID)
      exitcode.ErrIllegalState "failed to get dealId %d" in
  let propc := ProposalCid pol proposal in
  (if negb (bool_decide (propc ∈ PendingProposals st))
   then Abortf exitcode.ErrIllegalState
          "tried to activate deal that was not in the pending set (%s)"
   else ret tt) ;;
  put (set_States (<[dealID := mkDealState currEpoch epochUndefined epochUndefined]>
                     (States st)) st).

Fixpoint activateDeals (pol : Policy) (currEpoch : ChainEpoch) (dealIDs : list DealID)
  : M State unit :=
  match dealIDs with
  | [] => ret tt
  | dealID :: rest => activateDeal pol currEpoch dealID ;; activateDeals pol currEpoch rest
  end.

Definition ActivateDeals (pol : Policy) (r : Runtime) (dealIDs : list DealID)
           (sectorExpiry : ChainEpoch) : M (World State) unit :=
  ValidateImmediateCallerType r [builtin.StorageMinerActorCodeID] ;;
  let minerAddr := Caller r in
  let currEpoch := CurrEpoch r in
  StateTransaction
    (let* st := get in
     builtin.RequireNoErr
       (ValidateDealsForActivation st dealIDs minerAddr sectorExpiry currEpoch)
       exitcode.ErrIllegalState "failed to validate dealProposals for activation" ;;
     activateDeals pol currEpoch dealIDs).

(** *** Sector termination *)

(** One round of the loop of [OnMinerSectorsTerminate]: [ret tt] without a
    change is the source's [continue]. *)
Definition terminateDeal (minerAddr : Address) (epoch : ChainEpoch) (dealID : DealID)
  : M State unit :=
  let* st := get in
  match Proposals st !! dealID with
  | None => ret tt
  | Some deal =>
    builtin.RequireState (Provider deal =? minerAddr)
      "caller %v is not the provider %v of deal %v" ;;
    if EndEpoch deal <=? epoch then ret tt
    else
      match States st !! dealID with
      | None => Abortf exitcode.ErrIllegalArgument "no state for deal %v"
      | Some state =>
        if negb (SlashEpoch state =? epochUndefined) then ret tt
        else
          put (set_States
                 (<[dealID := mkDealState (SectorStartEpoch state) (LastUpdatedEpoch state)
                                epoch]> (States st)) st)
      end
  end.

Fixpoint terminateDeals (minerAddr : Address) (epoch : ChainEpoch) (dealIDs : list DealID)
  : M State unit :=
  match dealIDs with
  | [] => ret tt
  | dealID :: rest => terminateDeal minerAddr epoch dealID ;; terminateDeals minerAddr epoch rest
  end.

Definition OnMinerSectorsTerminate (r : Runtime) (epoch : ChainEpoch)
           (dealIDs : list DealID) : M (World State) unit :=
  ValidateImmediateCallerType r [builtin.StorageMinerActorCodeID] ;;
  let minerAddr := Caller r in
  StateTransaction (terminateDeals minerAddr epoch dealIDs).

(** What [OnMinerSectorsTerminate] makes of the state of a deal whose
    proposal ends after [epoch]. *)
Definition slashedAt (epoch : ChainEpoch) (state : DealState) : DealState :=
  if SlashEpoch state =? epochUndefined
  then mkDealState (SectorStartEpoch state) (LastUpdatedEpoch state) epoch
  else state.

(** *** Escrow *)

(** The balance table of [adt/balancetable.go], declared outside src/:
    each operation answers with a Go result. *)
Record BalanceTable : Type := mkBalanceTable {
  Add : gmap Z Z -> Address -> TokenAmount -> builtin.Errorable (gmap Z Z);
  (** table, key, amount requested, floor: the amount subtracted *)
  SubtractWithMinimum :
    gmap Z Z -> Address -> TokenAmount -> TokenAmount
    -> builtin.Errorable (TokenAmount * gmap Z Z)
}.

Definition set_EscrowTable (v : gmap Z Z) (b : Balances) : Balances :=
  mkBalances v (LockedTable b) (TotalClientLockedCollateral b)
    (TotalProviderLockedCollateral b) (TotalClientStorageFee b).

(** Returns the nominal address, the recipient and the approved callers. *)
Definition escrowAddress {W} (peers : Peers) (r : Runtime) (address : Address)
  : M W (Address * Address * list Address) :=
  match ResolveAddress r address with
  | None => Abortf exitcode.ErrIllegalArgument "failed to resolve address %v"
  | Some nominal =>
    match GetActorCodeCID r nominal with
    | None => Abortf exitcode.ErrIllegalArgument "no code for address %v"
    | Some codeID =>
      if codeID =? builtin.StorageMinerActorCodeID
      then
        let '(code, (ownerAddr, workerAddr, _)) := RequestMinerControlAddrs peers nominal in
        builtin.RequireSuccess code "failed fetching control addresses" ;;
        ret (nominal, ownerAddr, [ownerAddr; workerAddr])
      else ret (nominal, nominal, [nominal])
    end
  end.

Definition WithdrawBalance (bt : BalanceTable) (peers : Peers) (r : Runtime)
           (providerOrClientAddress : Address) (amount : TokenAmount)
  : M (World State) TokenAmount :=
  (if amount <? 0
   then Abortf exitcode.ErrIllegalArgument "negative amount %v"
   else ret tt) ;;
  let* '(nominal, recipient, approvedCallers) :=
    escrowAddress peers r providerOrClientAddress in
  ValidateImmediateCallerIs r approvedCallers ;;
  let* amountExtracted :=
    StateTransaction
      (let* st := get in
       let minBalance := tableGet (LockedTable (Funds st)) nominal in
       let* '(ex, escrow) :=
         builtin.RequireNoErr
           (SubtractWithMinimum bt (EscrowTable (Funds st)) nominal amount minBalance)
           exitcode.ErrIllegalState "failed to subtract from escrow table" in
       put (set_Funds (set_EscrowTable escrow (Funds st)) st) ;;
       ret ex) in
  let* code := Send r recipient MethodSend amountExtracted in
  builtin.RequireSuccess code "failed to send funds" ;;
  ret amountExtracted.

Definition AddBalance (bt : BalanceTable) (peers : Peers) (r : Runtime)
           (providerOrClientAddress : Address) : M (World State) unit :=
  let msgValue := ValueReceived r in
  builtin.RequireParam (msgValue >? 0) "balance to add must be greater than zero" ;;
  ValidateImmediateCallerType r builtin.CallerTypesSignable ;;
  let* '(nominal, _, _) := escrowAddress peers r providerOrClientAddress in
  StateTransaction
    (let* st := get in
     let* escrow :=
       builtin.RequireNoErr (Add bt (EscrowTable (Funds st)) nominal msgValue)
         exitcode.ErrIllegalState "failed to add balance to escrow table" in
     put (set_Funds (set_EscrowTable escrow (Funds st)) st)).

End market.

(** ** Deadlines ([go-state-types/dline] and [miner/deadlines.go]) *)

Module dline.

Record Info : Type := mkInfo {
  CurrentEpoch : ChainEpoch;
  PeriodStart : ChainEpoch;
  Index : Z;
  Open : ChainEpoch;
  Close : ChainEpoch;
  Challenge : ChainEpoch;
  FaultCutoff : ChainEpoch;
  WPoStPeriodDeadlines : Z;
  WPoStProvingPeriod : ChainEpoch;
  WPoStChallengeWindow : ChainEpoch;
  WPoStChallengeLookback : ChainEpoch;
  FaultDeclarationCutoff : ChainEpoch
}.

(** Modelled from the spec: [dline.NewInfo] is declared outside src/.
    Section 4.1 has deadline [d] open on [s + d*CW, s + (d+1)*CW), its
    challenge epoch at [open - WPoStChallengeLookback] and its fault cutoff
    [FaultDeclarationCutoff] epochs before it opens; an index past the last
    deadline gives the empty deadline after the proving period. *)
Definition NewInfo (periodStart : ChainEpoch) (deadlineIdx : Z) (currEpoch : ChainEpoch)
           (wPoStPeriodDeadlines : Z)
           (wPoStProvingPeriod wPoStChallengeWindow wPoStChallengeLookback
              faultDeclarationCutoff : ChainEpoch) : Info :=
  if deadlineIdx <? wPoStPeriodDeadlines then
    let deadlineOpen := add64 periodStart (mul64 deadlineIdx wPoStChallengeWindow) in
    mkInfo currEpoch periodStart deadlineIdx deadlineOpen
           (add64 deadlineOpen wPoStChallengeWindow)
           (sub64 deadlineOpen wPoStChallengeLookback)
           (sub64 deadlineOpen faultDeclarationCutoff)
           wPoStPeriodDeadlines wPoStProvingPeriod wPoStChallengeWindow
           wPoStChallengeLookback faultDeclarationCutoff
  else
    let afterLastDeadline := add64 periodStart wPoStProvingPeriod in
    mkInfo currEpoch periodStart deadlineIdx afterLastDeadline afterLastDeadline
           afterLastDeadline 0
           wPoStPeriodDeadlines wPoStProvingPeriod wPoStChallengeWindow
           wPoStChallengeLookback faultDeclarationCutoff.

(** Modelled from the spec: the methods of [dline.Info], declared outside
    src/.  A deadline is open from its open epoch up to, and not
    including, its close epoch; its last epoch is the one before the
    close; declarations are cut off from the fault cutoff on. *)
Definition IsOpen (d : Info) : bool :=
  (CurrentEpoch d >=? Open d) && (CurrentEpoch d <? Close d).
Definition HasElapsed (d : Info) : bool := CurrentEpoch d >=? Close d.
Definition Last (d : Info) : ChainEpoch := sub64 (Close d) 1.
Definition FaultCutoffPassed (d : Info) : bool := CurrentEpoch d >=? FaultCutoff d.

(** Modelled from the spec: [dline.Info.NextNotElapsed], declared outside
    src/: the first occurrence of the deadline that has not closed yet,
    whole proving periods later (section 4.4 takes a declaration for an
    elapsed deadline as being for the next proving period). *)
Definition NextNotElapsed (d : Info) : Info :=
  if negb (HasElapsed d) then d
  else
    let gap := sub64 (CurrentEpoch d) (Close d) in
    let deltaPeriods := add64 1 (div64 gap (WPoStProvingPeriod d)) in
    NewInfo (add64 (PeriodStart d) (mul64 (WPoStProvingPeriod d) deltaPeriods))
            (Index d) (CurrentEpoch d) (WPoStPeriodDeadlines d) (WPoStProvingPeriod d)
            (WPoStChallengeWindow d) (WPoStChallengeLookback d) (FaultDeclarationCutoff d).

End dline.

(** ** The storage miner actor (package [miner]) *)

Module miner.

Definition ErrBalanceInvariantBroken : ExitCode := 1000.

Abbreviation PartitionSectorMap := (gmap Z (list Z)) (only parsing).
Abbreviation DeadlineSectorMap := (gmap Z (gmap Z (list Z))) (only parsing).

(** [smoothing.FilterEstimate]: position and velocity. *)
Abbreviation FilterEstimate := (Z * Z)%type (only parsing).

Module PowerPair.
Record t : Type := mk { Raw : Z; QA : Z }.
Definition Zero : t := mk 0 0.
Definition IsZero (p : t) : bool := (Raw p =? 0) && (QA p =? 0).
(** Modelled from the spec: [PowerPair.Add] of [partition_state.go] is
    declared outside src/; power is accounted as a pair (raw, QA), added
    by component. *)
Definition Add (a b : t) : t := mk (Raw a + Raw b) (QA a + QA b).
End PowerPair.

Module WorkerKeyChange.
Record t : Type := mk { NewWorker : Address; EffectiveAt : ChainEpoch }.
End WorkerKeyChange.

Module MinerInfo.
Record t : Type := mk {
  Owner : Address;
  Worker : Address;
  ControlAddresses : list Address;
  PendingWorkerKey : option WorkerKeyChange.t;
  PeerId : list Z;
  Multiaddrs : list (list Z);
  WindowPoStProofType : Z;
  SectorSize : Z;
  WindowPoStPartitionSectors : Z;
  ConsensusFaultElapsed : ChainEpoch;
  PendingOwnerAddress : option Address
}.
Definition set_ConsensusFaultElapsed (v : ChainEpoch) (i : t) : t :=
  mk (Owner i) (Worker i) (ControlAddresses i) (PendingWorkerKey i) (PeerId i) (Multiaddrs i)
     (WindowPoStProofType i) (SectorSize i) (WindowPoStPartitionSectors i)
     v (PendingOwnerAddress i).
(** [append(info.ControlAddresses, info.Owner, info.Worker)] *)
Definition callers (i : t) : list Address := ControlAddresses i ++ [Owner i; Worker i].
Definition set_Owner (v : Address) (i : t) : t :=
  mk v (Worker i) (ControlAddresses i) (PendingWorkerKey i) (PeerId i) (Multiaddrs i)
     (WindowPoStProofType i) (SectorSize i) (WindowPoStPartitionSectors i)
     (ConsensusFaultElapsed i) (PendingOwnerAddress i).
Definition set_Worker (v : Address) (i : t) : t :=
  mk (Owner i) v (ControlAddresses i) (PendingWorkerKey i) (PeerId i) (Multiaddrs i)
     (WindowPoStProofType i) (SectorSize i) (WindowPoStPartitionSectors i)
     (ConsensusFaultElapsed i) (PendingOwnerAddress i).
Definition set_ControlAddresses (v : list Address) (i : t) : t :=
  mk (Owner i) (Worker i) v (PendingWorkerKey i) (PeerId i) (Multiaddrs i)
     (WindowPoStProofType i) (SectorSize i) (WindowPoStPartitionSectors i)
     (ConsensusFaultElapsed i) (PendingOwnerAddress i).
Definition set_PendingWorkerKey (v : option WorkerKeyChange.t) (i : t) : t :=
  mk (Owner i) (Worker i) (ControlAddresses i) v (PeerId i) (Multiaddrs i)
     (WindowPoStProofType i) (SectorSize i) (WindowPoStPartitionSectors i)
     (ConsensusFaultElapsed i) (PendingOwnerAddress i).
Definition set_Multiaddrs (v : list (list Z)) (i : t) : t :=
  mk (Owner i) (Worker i) (ControlAddresses i) (PendingWorkerKey i) (PeerId i) v
     (WindowPoStProofType i) (SectorSize i) (WindowPoStPartitionSectors i)
     (ConsensusFaultElapsed i) (PendingOwnerAddress i).
Definition set_PendingOwnerAddress (v : option Address) (i : t) : t :=
  mk (Owner i) (Worker i) (ControlAddresses i) (PendingWorkerKey i) (PeerId i) (Multiaddrs i)
     (WindowPoStProofType i) (SectorSize i) (WindowPoStPartitionSectors i)
     (ConsensusFaultElapsed i) v.
End MinerInfo.

Module SectorPreCommitInfo.
Record t : Type := mk {
  SealProof : Z;
  SectorNumber : SectorNumber;
  SealedCID : Cid;
  SealRandEpoch : ChainEpoch;
  DealIDs : list DealID;
  Expiration : ChainEpoch;
  ReplaceCapacity : bool
}.
End SectorPreCommitInfo.

Module SectorPreCommitOnChainInfo.
Record t : Type := mk {
  Info : SectorPreCommitInfo.t;
  PreCommitDeposit : TokenAmount;
  PreCommitEpoch : ChainEpoch;
  DealWeight : Z;
  VerifiedDealWeight : Z
}.
End SectorPreCommitOnChainInfo.

Module SectorOnChainInfo.
Record t : Type := mk {
  SectorNumber : SectorNumber;
  SealProof : Z;
  SealedCID : Cid
}.
End SectorOnChainInfo.

Module WindowedPoSt.
Record t : Type := mk {
  Partitions : BitField;
  Proofs : list proof.PoStProof
}.
End WindowedPoSt.

Module Deadline.
Record t : Type := mk {
  Partitions : Cid;
  ExpirationsEpochs : Cid;
  PartitionsPoSted : BitField;
  EarlyTerminations : BitField;
  LiveSectors : Z;
  TotalSectors : Z;
  FaultyPower : PowerPair.t;
  (** proofs accepted optimistically in the open challenge window *)
  OptimisticPoStSubmissions : list WindowedPoSt.t;
  SectorsSnapshot : Cid;
  PartitionsSnapshot : Cid;
  (** the proofs of the last challenge window, by index; a disputed
      one leaves a hole *)
  OptimisticPoStSubmissionsSnapshot : gmap Z WindowedPoSt.t
}.
Definition set_OptimisticPoStSubmissions (v : list WindowedPoSt.t) (d : t) : t :=
  mk (Partitions d) (ExpirationsEpochs d) (PartitionsPoSted d) (EarlyTerminations d)
     (LiveSectors d) (TotalSectors d) (FaultyPower d) v (SectorsSnapshot d)
     (PartitionsSnapshot d) (OptimisticPoStSubmissionsSnapshot d).
Definition set_OptimisticPoStSubmissionsSnapshot (v : gmap Z WindowedPoSt.t) (d : t) : t :=
  mk (Partitions d) (ExpirationsEpochs d) (PartitionsPoSted d) (EarlyTerminations d)
     (LiveSectors d) (TotalSectors d) (FaultyPower d) (OptimisticPoStSubmissions d)
     (SectorsSnapshot d) (PartitionsSnapshot d) v.
End Deadline.

Module PoStPartition.
Record t : Type := mk { Index : Z; Skipped : BitField }.
End PoStPartition.

Module PoStResult.
Record t : Type := mk {
  PowerDelta : PowerPair.t;
  NewFaultyPower : PowerPair.t;
  RetractedRecoveryPower : PowerPair.t;
  RecoveredPower : PowerPair.t;
  Sectors : BitField;
  IgnoredSectors : BitField;
  Partitions : BitField
}.
End PoStResult.

Module DisputeInfo.
Record t : Type := mk {
  AllSectorNos : BitField;
  IgnoredSectorNos : BitField;
  DisputedSectors : PartitionSectorMap;
  DisputedPower : PowerPair.t
}.
End DisputeInfo.

Module State.
Record t : Type := mk {
  Info : MinerInfo.t;
  PreCommitDeposits : TokenAmount;
  LockedFunds : TokenAmount;
  (** the vesting table: (epoch, amount), by ascending epoch *)
  VestingFunds : list (ChainEpoch * TokenAmount);
  FeeDebt : TokenAmount;
  InitialPledge : TokenAmount;
  PreCommittedSectors : gmap Z SectorPreCommitOnChainInfo.t;
  PreCommittedSectorsCleanUp : gmap Z (list Z);
  AllocatedSectors : BitField;
  Sectors : Cid;
  ProvingPeriodStart : ChainEpoch;
  CurrentDeadline : Z;
  Deadlines : gmap Z Deadline.t;
  EarlyTerminations : BitField;
  DeadlineCronActive : bool
}.
Definition set_Info (v : MinerInfo.t) (s : t) : t :=
  mk v (PreCommitDeposits s) (LockedFunds s) (VestingFunds s) (FeeDebt s) (InitialPledge s)
     (PreCommittedSectors s) (PreCommittedSectorsCleanUp s) (AllocatedSectors s) (Sectors s)
     (ProvingPeriodStart s) (CurrentDeadline s) (Deadlines s) (EarlyTerminations s)
     (DeadlineCronActive s).
Definition set_PreCommitDeposits (v : TokenAmount) (s : t) : t :=
  mk (Info s) v (LockedFunds s) (VestingFunds s) (FeeDebt s) (InitialPledge s)
     (PreCommittedSectors s) (PreCommittedSectorsCleanUp s) (AllocatedSectors s) (Sectors s)
     (ProvingPeriodStart s) (CurrentDeadline s) (Deadlines s) (EarlyTerminations s)
     (DeadlineCronActive s).
Definition set_Vesting (locked : TokenAmount) (funds : list (ChainEpoch * TokenAmount))
           (s : t) : t :=
  mk (Info s) (PreCommitDeposits s) locked funds (FeeDebt s) (InitialPledge s)
     (PreCommittedSectors s) (PreCommittedSectorsCleanUp s) (AllocatedSectors s) (Sectors s)
     (ProvingPeriodStart s) (CurrentDeadline s) (Deadlines s) (EarlyTerminations s)
     (DeadlineCronActive s).
Definition set_FeeDebt (v : TokenAmount) (s : t) : t :=
  mk (Info s) (PreCommitDeposits s) (LockedFunds s) (VestingFunds s) v (InitialPledge s)
     (PreCommittedSectors s) (PreCommittedSectorsCleanUp s) (AllocatedSectors s) (Sectors s)
     (ProvingPeriodStart s) (CurrentDeadline s) (Deadlines s) (EarlyTerminations s)
     (DeadlineCronActive s).
Definition set_PreCommitted (sectors : gmap Z SectorPreCommitOnChainInfo.t)
           (cleanUp : gmap Z (list Z)) (allocated : BitField) (s : t) : t :=
  mk (Info s) (PreCommitDeposits s) (LockedFunds s) (VestingFunds s) (FeeDebt s)
     (InitialPledge s) sectors cleanUp allocated (Sectors s)
     (ProvingPeriodStart s) (CurrentDeadline s) (Deadlines s) (EarlyTerminations s)
     (DeadlineCronActive s).
Definition set_Deadlines (v : gmap Z Deadline.t) (s : t) : t :=
  mk (Info s) (PreCommitDeposits s) (LockedFunds s) (VestingFunds s) (FeeDebt s)
     (InitialPledge s) (PreCommittedSectors s) (PreCommittedSectorsCleanUp s)
     (AllocatedSectors s) (Sectors s) (ProvingPeriodStart s) (CurrentDeadline s) v
     (EarlyTerminations s) (DeadlineCronActive s).
Definition set_DeadlineCronActive (v : bool) (s : t) : t :=
  mk (Info s) (PreCommitDeposits s) (LockedFunds s) (VestingFunds s) (FeeDebt s)
     (InitialPledge s) (PreCommittedSectors s) (PreCommittedSectorsCleanUp s)
     (AllocatedSectors s) (Sectors s) (ProvingPeriodStart s) (CurrentDeadline s)
     (Deadlines s) (EarlyTerminations s) v.
End State.

(** Policy values and functions of [policy.go] and [monies.go], declared
    outside src/. *)
Record Policy : Type := mkPolicy {
  WPoStPeriodDeadlines : Z;
  WPoStProvingPeriod : ChainEpoch;
  WPoStChallengeWindow : ChainEpoch;
  WPoStChallengeLookback : ChainEpoch;
  WPoStDisputeWindow : ChainEpoch;
  FaultDeclarationCutoff : ChainEpoch;
  FaultMaxAge : ChainEpoch;
  MaxPreCommitRandomnessLookback : ChainEpoch;
  PreCommitSectorBatchMaxSize : Z;
  ExpiredPreCommitCleanUpDelay : ChainEpoch;
  MinSectorExpiration : ChainEpoch;
  MaxSectorExpirationExtension : ChainEpoch;
  DeclarationsMax : Z;
  AddressedPartitionsMax : Z;
  AddressedSectorsMax : Z;
  MaxPeerIDLength : Z;
  MaxMultiaddrData : Z;
  (** a Go map: [None] where the proof type has no entry *)
  MaxProveCommitDuration : Z -> option ChainEpoch;
  SealProofSectorMaximumLifetime : Z -> option ChainEpoch;
  CanPreCommitSealProof : Z -> bool;
  CanWindowPoStProof : Z -> bool;
  SealedCIDPrefix : Cid -> bool;
  RegisteredWindowPoStProof : Z -> option Z;
  WindowPoStProofSize : Z -> option Z;
  loadPartitionsSectorsMax : Z -> Z;
  SectorDealsMax : Z -> Z;
  AggregatePreCommitNetworkFee : Z -> TokenAmount -> TokenAmount;
  QAPowerForWeight : Z -> ChainEpoch -> Z -> Z -> Z;
  PreCommitDepositForPower : FilterEstimate -> FilterEstimate -> Z -> TokenAmount;
  PledgePenaltyForInvalidWindowPoSt : FilterEstimate -> FilterEstimate -> Z -> TokenAmount;
  RewardForDisputedWindowPoSt : Z -> PowerPair.t -> TokenAmount
}.

Module SectorDeals.
Record t : Type := mk { SectorExpiry : ChainEpoch; DealIDs : list DealID }.
End SectorDeals.

Module SectorWeights.
Record t : Type := mk { DealSpace : Z; DealWeight : Z; VerifiedDealWeight : Z }.
End SectorWeights.

(** What the reward, power and market actors answer to the miner's
    requests: exit code and returned value. *)
Record Peers : Type := mkPeers {
  (** smoothed reward, baseline power *)
  ThisEpochReward : ExitCode * (FilterEstimate * Z);
  (** smoothed quality-adjusted power *)
  CurrentTotalPower : ExitCode * FilterEstimate;
  VerifyDealsForActivation : list SectorDeals.t -> ExitCode * list SectorWeights.t
}.

(** The partition bookkeeping of [deadline_state.go], [partition_state.go]
    and [sectors.go], declared outside src/: each answers with a Go result. *)
Record DeadlineOps : Type := mkDeadlineOps {
  RecordProvenSectors :
    Deadline.t -> Cid -> Z -> builtin.QuantSpec -> ChainEpoch -> list PoStPartition.t
    -> builtin.Errorable (PoStResult.t * Deadline.t);
  LoadPartitionsForDispute :
    Deadline.t -> BitField -> builtin.Errorable DisputeInfo.t;
  RecordFaults :
    Deadline.t -> Cid -> Z -> builtin.QuantSpec -> ChainEpoch -> PartitionSectorMap
    -> builtin.Errorable (PowerPair.t * Deadline.t);
  DeclareFaultsRecovered_dl :
    Deadline.t -> Cid -> Z -> PartitionSectorMap -> builtin.Errorable Deadline.t;
  LoadForProof :
    Cid -> BitField -> BitField -> builtin.Errorable (list SectorOnChainInfo.t)
}.


Import builtin.

(** *** State methods

    Modelled from the spec: the methods of [miner_state.go] and
    [vesting_state.go] are declared outside src/.  Section 4.7 has the
    available balance as actor balance minus pre-commit deposits, initial
    pledge, locked funds and fee debt; the balance invariant as
    [balance >= pre_commit_deposits + initial_pledge + locked_funds]; the
    vesting table as a schedule whose matured entries release to the
    unlocked balance; fee debt as accumulated penalties, repaid from
    vesting first, then from the balance, the two parts returned
    separately. *)

Definition GetUnlockedBalance (st : State.t) (actorBalance : TokenAmount)
  : Errorable TokenAmount :=
  let unlockedBalance :=
    actorBalance - State.LockedFunds st - State.PreCommitDeposits st - State.InitialPledge st in
  if unlockedBalance <? 0 then Err None else Val unlockedBalance.

Definition GetAvailableBalance (st : State.t) (actorBalance : TokenAmount)
  : Errorable TokenAmount :=
  match GetUnlockedBalance st actorBalance with
  | Err e => Err e
  | Val unlockedBalance => Val (unlockedBalance - State.FeeDebt st)
  end.

Definition CheckBalanceInvariants (st : State.t) (balance : TokenAmount) : Errorable unit :=
  let minBalance :=
    State.PreCommitDeposits st + State.LockedFunds st + State.InitialPledge st in
  if balance <? minBalance then Err None else Val tt.

Definition ApplyPenalty (penalty : TokenAmount) (st : State.t) : Errorable (unit * State.t) :=
  if penalty <? 0 then Err None
  else Val (tt, State.set_FeeDebt (State.FeeDebt st + penalty) st).

(** Release the entries that matured before [currEpoch]. *)
Fixpoint unlockVestedFunds (funds : list (ChainEpoch * TokenAmount)) (currEpoch : ChainEpoch)
  : TokenAmount * list (ChainEpoch * TokenAmount) :=
  match funds with
  | [] => (0, [])
  | (epoch, amount) :: rest =>
    if epoch >=? currEpoch then (0, funds)
    else let '(unlocked, kept) := unlockVestedFunds rest currEpoch in (amount + unlocked, kept)
  end.

(** Take up to [target] out of the entries that have not matured yet. *)
Fixpoint unlockUnvestedFunds (funds : list (ChainEpoch * TokenAmount)) (currEpoch : ChainEpoch)
         (target amountUnlocked : TokenAmount)
  : TokenAmount * list (ChainEpoch * TokenAmount) :=
  match funds with
  | [] => (amountUnlocked, [])
  | (epoch, amount) :: rest =>
    if amountUnlocked >=? target then (amountUnlocked, funds)
    else if epoch >=? currEpoch then
      let unlockAmount := Z.min (target - amountUnlocked) amount in
      let newAmount := amount - unlockAmount in
      let '(unlocked, kept) :=
        unlockUnvestedFunds rest currEpoch target (amountUnlocked + unlockAmount) in
      (unlocked, if newAmount =? 0 then kept else (epoch, newAmount) :: kept)
    else
      let '(unlocked, kept) := unlockUnvestedFunds rest currEpoch target amountUnlocked in
      (unlocked, (epoch, amount) :: kept)
  end.

Definition UnlockVestedFunds (currEpoch : ChainEpoch) (st : State.t)
  : Errorable (TokenAmount * State.t) :=
  if State.LockedFunds st =? 0 then Val (0, st)
  else
    let '(amountUnlocked, kept) := unlockVestedFunds (State.VestingFunds st) currEpoch in
    let locked := State.LockedFunds st - amountUnlocked in
    if locked <? 0 then Err None
    else Val (amountUnlocked, State.set_Vesting locked kept st).

Definition UnlockUnvestedFunds (currEpoch : ChainEpoch) (target : TokenAmount) (st : State.t)
  : Errorable (TokenAmount * State.t) :=
  if (target =? 0) || (State.LockedFunds st =? 0) then Val (0, st)
  else
    let '(amountUnlocked, kept) :=
      unlockUnvestedFunds (State.VestingFunds st) currEpoch target 0 in
    let locked := State.LockedFunds st - amountUnlocked in
    if locked <? 0 then Err None
    else Val (amountUnlocked, State.set_Vesting locked kept st).

(** Returns (from vesting, from balance). *)
Definition RepayPartialDebtInPriorityOrder (currEpoch : ChainEpoch) (currBalance : TokenAmount)
           (st : State.t) : Errorable ((TokenAmount * TokenAmount) * State.t) :=
  match GetUnlockedBalance st currBalance with
  | Err e => Err e
  | Val unlockedBalance =>
    match UnlockUnvestedFunds currEpoch (State.FeeDebt st) st with
    | Err e => Err e
    | Val (fromVesting, st1) =>
      if fromVesting >? State.FeeDebt st1 then Err None
      else
        let debt := State.FeeDebt st1 - fromVesting in
        let fromBalance := Z.min unlockedBalance debt in
        Val ((fromVesting, fromBalance), State.set_FeeDebt (debt - fromBalance) st1)
    end
  end.

Definition repayDebts (currBalance : TokenAmount) (st : State.t)
  : Errorable (TokenAmount * State.t) :=
  match GetUnlockedBalance st currBalance with
  | Err e => Err e
  | Val unlockedBalance =>
    if unlockedBalance <? State.FeeDebt st then Err (Some exitcode.ErrInsufficientFunds)
    else Val (State.FeeDebt st, State.set_FeeDebt 0 st)
  end.

Definition RepayDebtsOrAbort (currBalance : TokenAmount) : M State.t TokenAmount :=
  TryMethod (repayDebts currBalance) exitcode.ErrIllegalState
    "unlocked balance can not repay fee debt".

Definition AddPreCommitDeposit (amount : TokenAmount) (st : State.t)
  : Errorable (unit * State.t) :=
  let newTotal := State.PreCommitDeposits st + amount in
  if newTotal <? 0 then Err None else Val (tt, State.set_PreCommitDeposits newTotal st).

(** The policy [DenyCollisions]: no number may be allocated twice. *)
Definition AllocateSectorNumbers (sectorNos : BitField) (st : State.t)
  : Errorable (unit * State.t) :=
  if existsb (bitfield.IsSet (State.AllocatedSectors st)) sectorNos
  then Err (Some exitcode.ErrIllegalArgument)
  else Val (tt, State.set_PreCommitted (State.PreCommittedSectors st)
                  (State.PreCommittedSectorsCleanUp st)
                  (fold_left bitfield.Set_ sectorNos (State.AllocatedSectors st)) st).

Fixpoint PutPrecommittedSectors (precommits : list SectorPreCommitOnChainInfo.t) (st : State.t)
  : Errorable (unit * State.t) :=
  match precommits with
  | [] => Val (tt, st)
  | precommit :: rest =>
    let number := SectorPreCommitInfo.SectorNumber (SectorPreCommitOnChainInfo.Info precommit) in
    match State.PreCommittedSectors st !! number with
    | Some _ => Err None
    | None =>
      PutPrecommittedSectors rest
        (State.set_PreCommitted (<[number := precommit]> (State.PreCommittedSectors st))
           (State.PreCommittedSectorsCleanUp st) (State.AllocatedSectors st) st)
    end
  end.

Definition AddPreCommitCleanUps (cleanUpEvents : list (ChainEpoch * list Z)) (st : State.t)
  : Errorable (unit * State.t) :=
  Val (tt, State.set_PreCommitted (State.PreCommittedSectors st)
             (fold_left (fun (q : gmap Z (list Z)) '(epoch, numbers) =>
                           <[epoch := fold_left bitfield.Set_ numbers (default [] (q !! epoch))]> q)
                        cleanUpEvents (State.PreCommittedSectorsCleanUp st))
             (State.AllocatedSectors st) st).

(** Modelled from the spec: [NewDeadlineInfo] and [QuantSpecForDeadline]
    of [deadlines.go], declared outside src/: the deadline under the
    policy's proving period, and the quantization onto the last epoch of
    that deadline, one proving period apart. *)
Definition NewDeadlineInfo (pol : Policy) (provingPeriodStart : ChainEpoch) (deadlineIdx : Z)
           (currEpoch : ChainEpoch) : dline.Info :=
  dline.NewInfo provingPeriodStart deadlineIdx currEpoch
    (WPoStPeriodDeadlines pol) (WPoStProvingPeriod pol) (WPoStChallengeWindow pol)
    (WPoStChallengeLookback pol) (FaultDeclarationCutoff pol).

Definition QuantSpecForDeadline (di : dline.Info) : QuantSpec :=
  NewQuantSpec (dline.WPoStProvingPeriod di) (dline.Last di).

(** Modelled from the spec: [State.DeadlineInfo] of [miner_state.go] is
    declared outside src/.  Section 4.1: for epoch [e] and period start [s]
    the current deadline index is [(e - s) / CW]; [s] is the last period
    start at or before [e] on the grid of the miner's proving-period
    offset. *)
Definition DeadlineInfo (pol : Policy) (st : State.t) (currEpoch : ChainEpoch) : dline.Info :=
  let q := NewQuantSpec (WPoStProvingPeriod pol) (State.ProvingPeriodStart st) in
  let currentPeriodStart := QuantizeDown q currEpoch in
  let currentDeadlineIdx :=
    uint64 (div64 (sub64 currEpoch currentPeriodStart) (WPoStChallengeWindow pol))
    mod WPoStPeriodDeadlines pol in
  NewDeadlineInfo pol currentPeriodStart currentDeadlineIdx currEpoch.

(** Modelled from the spec: [State.CurrentProvingPeriodStart] of
    [miner_state.go], declared outside src/: the start of the proving
    period of [DeadlineInfo]. *)
Definition CurrentProvingPeriodStart (pol : Policy) (st : State.t) (currEpoch : ChainEpoch)
  : ChainEpoch :=
  dline.PeriodStart (DeadlineInfo pol st currEpoch).

(** Modelled from the spec: [Deadlines.LoadDeadline] and
    [Deadlines.UpdateDeadline] of [deadline_state.go], declared outside
    src/: the deadlines are a table by index, of [WPoStPeriodDeadlines]
    entries (section 3). *)
Definition LoadDeadline (pol : Policy) (deadlines : gmap Z Deadline.t) (dlIdx : Z)
  : Errorable Deadline.t :=
  if dlIdx >=? WPoStPeriodDeadlines pol then Err (Some exitcode.ErrIllegalArgument)
  else match deadlines !! dlIdx with
       | Some dl => Val dl
       | None => Err None
       end.

Definition UpdateDeadline (pol : Policy) (deadlines : gmap Z Deadline.t) (dlIdx : Z)
           (deadline : Deadline.t) : Errorable (gmap Z Deadline.t) :=
  if dlIdx >=? WPoStPeriodDeadlines pol then Err None
  else Val (<[dlIdx := deadline]> deadlines).

(** Modelled from the spec: [RecordPoStProofs] and [TakePoStProofs] of
    [deadline_state.go] are declared outside src/.  Section 4.3: an
    optimistically accepted proof is kept with its partitions for the
    dispute window; a dispute takes it out of the snapshot, so that it
    cannot be disputed twice. *)
Definition RecordPoStProofs (partitions : BitField) (proofs : list proof.PoStProof)
           (dl : Deadline.t) : Errorable Deadline.t :=
  Val (Deadline.set_OptimisticPoStSubmissions
         (Deadline.OptimisticPoStSubmissions dl ++ [WindowedPoSt.mk partitions proofs]) dl).

Definition TakePoStProofs (idx : Z) (dl : Deadline.t)
  : Errorable ((BitField * list proof.PoStProof) * Deadline.t) :=
  match Deadline.OptimisticPoStSubmissionsSnapshot dl !! idx with
  | None => Err None
  | Some post =>
    Val ((WindowedPoSt.Partitions post, WindowedPoSt.Proofs post),
         Deadline.set_OptimisticPoStSubmissionsSnapshot
           (delete idx (Deadline.OptimisticPoStSubmissionsSnapshot dl)) dl)
  end.

(** Modelled from the spec: [deadlineAvailableForOptimisticPoStDispute]
    of [deadlines.go] is declared outside src/.  Section 4.3 and the
    boundary cases of section 8: a deadline can be disputed once it has
    closed and for [WPoStDisputeWindow] epochs after. *)
Definition deadlineAvailableForOptimisticPoStDispute (pol : Policy)
           (provingPeriodStart : ChainEpoch) (dlIdx : Z) (currentEpoch : ChainEpoch) : bool :=
  if provingPeriodStart >? currentEpoch then false
  else
    let dlInfo := dline.NextNotElapsed (NewDeadlineInfo pol provingPeriodStart dlIdx currentEpoch) in
    negb (dline.IsOpen dlInfo)
    && (currentEpoch <? add64 (sub64 (dline.Close dlInfo) (WPoStProvingPeriod pol))
                              (WPoStDisputeWindow pol)).

(** *** Helpers of the actor *)

Definition ConsensusFaultActive (info : MinerInfo.t) (currEpoch : ChainEpoch) : bool :=
  currEpoch <=? MinerInfo.ConsensusFaultElapsed info.

Definition burnFunds {S} (r : Runtime) (amt : TokenAmount) : M (World S) unit :=
  if amt >? 0
  then
    let* code := Send r BurntFundsActorAddr MethodSend amt in
    RequireSuccess code "failed to burn funds"
  else ret tt.

Definition notifyPledgeChanged {S} (r : Runtime) (pledgeDelta : TokenAmount) : M (World S) unit :=
  if negb (pledgeDelta =? 0)
  then
    let* code := Send r StoragePowerActorAddr (UpdatePledgeTotal pledgeDelta) 0 in
    RequireSuccess code "failed to update total pledge"
  else ret tt.

Definition requestUpdatePower {S} (r : Runtime) (delta : PowerPair.t) : M (World S) unit :=
  if PowerPair.IsZero delta then ret tt
  else
    let* code := Send r StoragePowerActorAddr
                   (UpdateClaimedPower (PowerPair.Raw delta) (PowerPair.QA delta)) 0 in
    RequireSuccess code "failed to update power with %v".

Definition CronEventProvingDeadline : Z := 1.
Definition CronEventProcessEarlyTerminations : Z := 2.

Definition enrollCronEvent {S} (r : Runtime) (eventEpoch : ChainEpoch) (eventType : Z)
  : M (World S) unit :=
  let* code := Send r StoragePowerActorAddr (EnrollCronEvent eventEpoch eventType) 0 in
  RequireSuccess code "failed to enroll cron event".

Definition requestCurrentEpochBlockReward {W} (peers : Peers) : M W (FilterEstimate * Z) :=
  RequireSuccess (fst (ThisEpochReward peers)) "failed to check epoch baseline power" ;;
  ret (snd (ThisEpochReward peers)).

Definition requestCurrentTotalPower {W} (peers : Peers) : M W FilterEstimate :=
  RequireSuccess (fst (CurrentTotalPower peers)) "failed to check current power" ;;
  ret (snd (CurrentTotalPower peers)).

Definition requestDealWeights {W} (peers : Peers) (sectors : list SectorDeals.t)
  : M W (list SectorWeights.t) :=
  let dealCount := fold_left (fun n s => (n + length (SectorDeals.DealIDs s))%nat) sectors 0%nat in
  if Nat.eqb dealCount 0
  then ret (map (fun _ => SectorWeights.mk 0 0 0) sectors)
  else
    RequireSuccess (fst (VerifyDealsForActivation peers sectors))
      "failed to verify deals and get deal weight" ;;
    ret (snd (VerifyDealsForActivation peers sectors)).

(** The closing lines of the methods that move funds:
    [rt.StateReadonly(&st)], [st.CheckBalanceInvariants(rt.CurrentBalance())],
    [RequireNoErr(rt, err, ErrBalanceInvariantBroken, ...)]. *)
Definition checkBalanceInvariants : M (World State.t) unit :=
  let* st := StateReadonly in
  let* balance := CurrentBalance in
  RequireNoErr (CheckBalanceInvariants st balance) ErrBalanceInvariantBroken
    "balance invariants broken".

Definition checkPeerInfo {W} (pol : Policy) (peerID : list Z) (multiaddrs : list (list Z))
  : M W unit :=
  (if Z.of_nat (length peerID) >? MaxPeerIDLength pol
   then Abortf exitcode.ErrIllegalArgument "peer ID size of %d exceeds maximum size of %d"
   else ret tt) ;;
  (if existsb (fun ma => Nat.eqb (length ma) 0) multiaddrs
   then Abortf exitcode.ErrIllegalArgument "invalid empty multiaddr"
   else ret tt) ;;
  let totalSize := fold_left (fun n ma => n + Z.of_nat (length ma)) multiaddrs 0 in
  if totalSize >? MaxMultiaddrData pol
  then Abortf exitcode.ErrIllegalArgument "multiaddr size of %d exceeds maximum of %d"
  else ret tt.

(** *** Methods *)


(** The state transaction of [WithdrawBalance]; [balance] is
    [rt.CurrentBalance()].  Returns the info, the newly vested amount, the
    available balance and the fee to burn. *)
Definition WithdrawBalance_tx (r : Runtime) (balance : TokenAmount)
  : M State.t (MinerInfo.t * TokenAmount * TokenAmount * TokenAmount) :=
  let* st := get in
  let info := State.Info st in
  ValidateImmediateCallerIs r [MinerInfo.Owner info] ;;
  (if bitfield.Count (State.EarlyTerminations st) >? 0
   then Abortf exitcode.ErrForbidden
          "cannot withdraw funds while %d deadlines have terminated sectors with outstanding fees"
   else ret tt) ;;
  let* newlyVested :=
    TryMethod (UnlockVestedFunds (CurrEpoch r)) exitcode.ErrIllegalState
      "failed to vest fund: %v" in
  let* st1 := get in
  let* availableBalance :=
    RequireNoErr (GetAvailableBalance st1 balance) exitcode.ErrIllegalState
      "failed to calculate available balance" in
  let* feeToBurn := RepayDebtsOrAbort balance in
  ret (info, newlyVested, availableBalance, feeToBurn).

Definition WithdrawBalance (r : Runtime) (amountRequested : TokenAmount)
  : M (World State.t) TokenAmount :=
  (if amountRequested <? 0
   then Abortf exitcode.ErrIllegalArgument "negative fund requested for withdrawal: %s"
   else ret tt) ;;
  let* balance := CurrentBalance in
  let* '(info, newlyVested, availableBalance, feeToBurn) :=
    StateTransaction (WithdrawBalance_tx r balance) in
  let* st := StateReadonly in
  let amountWithdrawn := Z.min availableBalance amountRequested in
  RequireState (amountWithdrawn >=? 0) "negative amount to withdraw: %v" ;;
  RequireState (amountWithdrawn <=? availableBalance) "amount to withdraw %v < available %v" ;;
  (if amountWithdrawn >? 0
   then
     let* code := Send r (MinerInfo.Owner info) MethodSend amountWithdrawn in
     RequireSuccess code "failed to withdraw balance"
   else ret tt) ;;
  burnFunds r feeToBurn ;;
  let pledgeDelta := - newlyVested in
  notifyPledgeChanged r pledgeDelta ;;
  let* balance' := CurrentBalance in
  RequireNoErr (CheckBalanceInvariants st balance') ErrBalanceInvariantBroken
    "balance invariants broken" ;;
  ret amountWithdrawn.

Definition RepayDebt (r : Runtime) : M (World State.t) unit :=
  let* balance := CurrentBalance in
  let* '(fromVesting, fromBalance) :=
    StateTransaction
      (let* st := get in
       ValidateImmediateCallerIs r (MinerInfo.callers (State.Info st)) ;;
       TryMethod (RepayPartialDebtInPriorityOrder (CurrEpoch r) balance)
         exitcode.ErrIllegalState "failed to unlock fee debt") in
  let* st := StateReadonly in
  notifyPledgeChanged r (- fromVesting) ;;
  burnFunds r (fromVesting + fromBalance) ;;
  let* balance' := CurrentBalance in
  RequireNoErr (CheckBalanceInvariants st balance') ErrBalanceInvariantBroken
    "balance invariants broken".


(** **** Windowed PoSt *)

Module SubmitWindowedPoStParams.
Record t : Type := mk {
  Deadline : Z;
  Partitions : list PoStPartition.t;
  Proofs : list proof.PoStProof;
  ChainCommitEpoch : ChainEpoch;
  ChainCommitRand : list Z
}.
Definition set_ChainCommitEpoch (v : ChainEpoch) (p : t) : t :=
  mk (Deadline p) (Partitions p) (Proofs p) v (ChainCommitRand p).
Definition set_ChainCommit (epoch : ChainEpoch) (rand : list Z) (p : t) : t :=
  mk (Deadline p) (Partitions p) (Proofs p) epoch rand.
End SubmitWindowedPoStParams.

Definition RandomnessLength : Z := 32.
Definition DomainSeparationTag_PoStChainCommit : Z := 9.
Definition DomainSeparationTag_WindowedPoStChallengeSeed : Z := 4.

Definition verifyWindowedPost (r : Runtime) (challengeEpoch : ChainEpoch)
           (sectors : list SectorOnChainInfo.t) (proofs : list proof.PoStProof)
  : Errorable unit :=
  let postRandomness :=
    GetRandomnessFromBeacon r DomainSeparationTag_WindowedPoStChallengeSeed challengeEpoch
      [Receiver r] in
  let sectorProofInfo :=
    map (fun s => proof.mkSectorInfo (SectorOnChainInfo.SealProof s)
                    (SectorOnChainInfo.SectorNumber s) (SectorOnChainInfo.SealedCID s))
        sectors in
  let pvInfo := proof.mkWindowPoStVerifyInfo postRandomness proofs sectorProofInfo (Receiver r) in
  if VerifyPoSt r pvInfo then Val tt else Err None.

(** The checks on the parameters before the state is opened. *)
Definition SubmitWindowedPoSt_params {W} (pol : Policy) (params : SubmitWindowedPoStParams.t)
  : M W proof.PoStProof :=
  match SubmitWindowedPoStParams.Proofs params with
  | [proof0] =>
    (if negb (CanWindowPoStProof pol (proof.PoStProofType proof0))
     then Abortf exitcode.ErrIllegalArgument "proof type %d not allowed"
     else ret tt) ;;
    (if SubmitWindowedPoStParams.Deadline params >=? WPoStPeriodDeadlines pol
     then Abortf exitcode.ErrIllegalArgument "invalid deadline %d of %d"
     else ret tt) ;;
    (if Z.of_nat (length (SubmitWindowedPoStParams.ChainCommitRand params)) >? RandomnessLength
     then Abortf exitcode.ErrIllegalArgument "expected at most %d bytes of randomness, got %d"
     else ret tt) ;;
    ret proof0
  | _ => Abortf exitcode.ErrIllegalArgument "expected exactly one proof, got %d"
  end.

(** Inside the transaction, up to "the miner may only submit a proof for
    the current deadline". *)
Definition SubmitWindowedPoSt_open (pol : Policy) (r : Runtime)
           (params : SubmitWindowedPoStParams.t) (proof0 : proof.PoStProof)
  : M State.t (MinerInfo.t * dline.Info) :=
  let* st := get in
  let info := State.Info st in
  let* maxProofSize :=
    RequireNoErr (match WindowPoStProofSize pol (MinerInfo.WindowPoStProofType info) with
                  | Some n => Val n
                  | None => Err None
                  end)
      exitcode.ErrIllegalState "failed to determine max window post proof size" in
  ValidateImmediateCallerIs r (MinerInfo.callers info) ;;
  (if negb (proof.PoStProofType proof0 =? MinerInfo.WindowPoStProofType info)
   then Abortf exitcode.ErrIllegalArgument "expected proof of type %d, got proof of type %d"
   else ret tt) ;;
  (let maxSize :=
     uint64 (maxProofSize * Z.of_nat (length (SubmitWindowedPoStParams.Partitions params))) in
   if Z.of_nat (length (proof.ProofBytes proof0)) >? maxSize
   then Abortf exitcode.ErrIllegalArgument "expected proof to be smaller than %d bytes"
   else ret tt) ;;
  let submissionPartitionLimit :=
    loadPartitionsSectorsMax pol (MinerInfo.WindowPoStPartitionSectors info) in
  (if Z.of_nat (length (SubmitWindowedPoStParams.Partitions params)) >? submissionPartitionLimit
   then Abortf exitcode.ErrIllegalArgument "too many partitions %d, limit %d"
   else ret tt) ;;
  let currDeadline := DeadlineInfo pol st (CurrEpoch r) in
  (if negb (dline.IsOpen currDeadline)
   then Abortf exitcode.ErrIllegalState "proving period %d not yet open at %d"
   else ret tt) ;;
  (if negb (SubmitWindowedPoStParams.Deadline params =? dline.Index currDeadline)
   then Abortf exitcode.ErrIllegalArgument "invalid deadline %d at epoch %d, expected %d"
   else ret tt) ;;
  ret (info, currDeadline).

(** "Verify that the PoSt was committed to the chain at most
    WPoStChallengeLookback+WPoStChallengeWindow in the past." *)
Definition SubmitWindowedPoSt_chainCommitEpoch {W} (r : Runtime)
           (params : SubmitWindowedPoStParams.t) (currDeadline : dline.Info) : M W unit :=
  (if SubmitWindowedPoStParams.ChainCommitEpoch params <? dline.Challenge currDeadline
   then Abortf exitcode.ErrIllegalArgument "expected chain commit epoch %d to be after %d"
   else ret tt) ;;
  (if SubmitWindowedPoStParams.ChainCommitEpoch params >=? CurrEpoch r
   then Abortf exitcode.ErrIllegalArgument
          "chain commit epoch %d must be less than the current epoch %d"
   else ret tt).

(** "Verify the chain commit randomness." *)
Definition SubmitWindowedPoSt_chainCommitRand {W} (r : Runtime)
           (params : SubmitWindowedPoStParams.t) : M W unit :=
  let commRand :=
    GetRandomnessFromTickets r DomainSeparationTag_PoStChainCommit
      (SubmitWindowedPoStParams.ChainCommitEpoch params) [] in
  if negb (bool_decide (commRand = SubmitWindowedPoStParams.ChainCommitRand params))
  then Abortf exitcode.ErrIllegalArgument "post commit randomness mismatched"
  else ret tt.

(** The rest of the transaction: record the proven sectors, then either
    keep the proof for optimistic verification or check it. *)
Definition SubmitWindowedPoSt_record (pol : Policy) (ops : DeadlineOps) (r : Runtime)
           (params : SubmitWindowedPoStParams.t) (info : MinerInfo.t)
           (currDeadline : dline.Info) : M State.t PoStResult.t :=
  let* st := get in
  let sectors := State.Sectors st in
  let deadlines := State.Deadlines st in
  let* deadline :=
    RequireNoErr (LoadDeadline pol deadlines (SubmitWindowedPoStParams.Deadline params))
      exitcode.ErrIllegalState "failed to load deadline %d" in
  let faultExpiration := add64 (dline.Last currDeadline) (FaultMaxAge pol) in
  let* '(postResult, deadline1) :=
    RequireNoErr (RecordProvenSectors ops deadline sectors (MinerInfo.SectorSize info)
                    (QuantSpecForDeadline currDeadline) faultExpiration
                    (SubmitWindowedPoStParams.Partitions params))
      exitcode.ErrIllegalState "failed to process post submission for deadline %d" in
  let provenSectors :=
    bitfield.SubtractBitField (PoStResult.Sectors postResult)
      (PoStResult.IgnoredSectors postResult) in
  (if bitfield.IsEmpty provenSectors
   then Abortf exitcode.ErrIllegalArgument "cannot prove partitions with no active sectors"
   else ret tt) ;;
  let* deadline2 :=
    (if PowerPair.IsZero (PoStResult.RecoveredPower postResult)
     then
       RequireNoErr (RecordPoStProofs (PoStResult.Partitions postResult)
                       (SubmitWindowedPoStParams.Proofs params) deadline1)
         exitcode.ErrIllegalState "failed to record proof for optimistic verification"
     else
       let* sectorInfos :=
         RequireNoErr (LoadForProof ops sectors (PoStResult.Sectors postResult)
                         (PoStResult.IgnoredSectors postResult))
           exitcode.ErrIllegalState "failed to load sectors for post verification" in
       RequireNoErr (verifyWindowedPost r (dline.Challenge currDeadline) sectorInfos
                       (SubmitWindowedPoStParams.Proofs params))
         exitcode.ErrIllegalArgument "window post failed" ;;
       ret deadline1) in
  let* deadlines' :=
    RequireNoErr (UpdateDeadline pol deadlines (SubmitWindowedPoStParams.Deadline params)
                    deadline2)
      exitcode.ErrIllegalState "failed to update deadline %d" in
  put (State.set_Deadlines deadlines' st) ;;
  ret postResult.

Definition SubmitWindowedPoSt (pol : Policy) (ops : DeadlineOps) (r : Runtime)
           (params : SubmitWindowedPoStParams.t) : M (World State.t) unit :=
  let* proof0 := SubmitWindowedPoSt_params pol params in
  let* postResult :=
    StateTransaction
      (let* '(info, currDeadline) := SubmitWindowedPoSt_open pol r params proof0 in
       SubmitWindowedPoSt_chainCommitEpoch r params currDeadline ;;
       SubmitWindowedPoSt_chainCommitRand r params ;;
       SubmitWindowedPoSt_record pol ops r params info currDeadline) in
  requestUpdatePower r (PoStResult.PowerDelta postResult) ;;
  checkBalanceInvariants.

Module DisputeWindowedPoStParams.
Record t : Type := mk { Deadline : Z; PoStIndex : Z }.
End DisputeWindowedPoStParams.

(** What the transaction of [DisputeWindowedPoSt] leaves in the locals. *)
Module DisputeOutcome.
Record t : Type := mk {
  toBurn : TokenAmount;
  toReward : TokenAmount;
  pledgeDelta : TokenAmount;
  powerDelta : PowerPair.t
}.
End DisputeOutcome.

Definition DisputeWindowedPoSt_tx (pol : Policy) (ops : DeadlineOps) (r : Runtime)
           (params : DisputeWindowedPoStParams.t)
           (epochReward : FilterEstimate * Z) (pwrTotal : FilterEstimate)
           (balance : TokenAmount) : M State.t DisputeOutcome.t :=
  let currEpoch := CurrEpoch r in
  let* st := get in
  let dlInfo := DeadlineInfo pol st currEpoch in
  (if negb (deadlineAvailableForOptimisticPoStDispute pol (dline.PeriodStart dlInfo)
              (DisputeWindowedPoStParams.Deadline params) currEpoch)
   then Abortf exitcode.ErrForbidden
          "can only dispute window posts during the dispute window (%d epochs after the challenge window closes)"
   else ret tt) ;;
  let info := State.Info st in
  (* Check proof *)
  let ppStart :=
    if dline.Index dlInfo <? DisputeWindowedPoStParams.Deadline params
    then sub64 (dline.PeriodStart dlInfo) (WPoStProvingPeriod pol)
    else dline.PeriodStart dlInfo in
  let targetDeadline :=
    NewDeadlineInfo pol ppStart (DisputeWindowedPoStParams.Deadline params) currEpoch in
  let deadlinesCurrent := State.Deadlines st in
  let* dlCurrent :=
    RequireNoErr (LoadDeadline pol deadlinesCurrent (DisputeWindowedPoStParams.Deadline params))
      exitcode.ErrIllegalState "failed to load deadline" in
  let* '((partitions, proofs), dlCurrent1) :=
    RequireNoErr (TakePoStProofs (DisputeWindowedPoStParams.PoStIndex params) dlCurrent)
      exitcode.ErrIllegalState "failed to load proof for dispute" in
  let* disputeInfo :=
    RequireNoErr (LoadPartitionsForDispute ops dlCurrent1 partitions)
      exitcode.ErrIllegalState "failed to load partition info for dispute" in
  let penalisedPower := DisputeInfo.DisputedPower disputeInfo in
  let sectors := Deadline.SectorsSnapshot dlCurrent1 in
  let* sectorInfos :=
    RequireNoErr (LoadForProof ops sectors (DisputeInfo.AllSectorNos disputeInfo)
                    (DisputeInfo.IgnoredSectorNos disputeInfo))
      exitcode.ErrIllegalState "failed to load sectors to dispute window post" in
  (* Check proof, we fail if validation succeeds. *)
  match verifyWindowedPost r (dline.Challenge targetDeadline) sectorInfos proofs with
  | Val _ => Abortf exitcode.ErrIllegalArgument "failed to dispute valid post"
  | Err _ =>
    let faultExpirationEpoch := add64 (dline.Last targetDeadline) (FaultMaxAge pol) in
    let* '(powerDelta, dlCurrent2) :=
      RequireNoErr (RecordFaults ops dlCurrent1 sectors (MinerInfo.SectorSize info)
                      (QuantSpecForDeadline targetDeadline) faultExpirationEpoch
                      (DisputeInfo.DisputedSectors disputeInfo))
        exitcode.ErrIllegalState "failed to declare faults" in
    let* deadlines' :=
      RequireNoErr (UpdateDeadline pol deadlinesCurrent
                      (DisputeWindowedPoStParams.Deadline params) dlCurrent2)
        exitcode.ErrIllegalState "failed to update deadline %d" in
    put (State.set_Deadlines deadlines' st) ;;
    (* Penalties. *)
    let penaltyBase :=
      PledgePenaltyForInvalidWindowPoSt pol (fst epochReward) pwrTotal
        (PowerPair.QA penalisedPower) in
    let rewardTarget :=
      RewardForDisputedWindowPoSt pol (MinerInfo.WindowPoStProofType info) penalisedPower in
    let penaltyTarget := penaltyBase + rewardTarget in
    TryMethod (ApplyPenalty penaltyTarget) exitcode.ErrIllegalState "failed to apply penalty" ;;
    let* '(penaltyFromVesting, penaltyFromBalance) :=
      TryMethod (RepayPartialDebtInPriorityOrder currEpoch balance)
        exitcode.ErrIllegalState "failed to pay debt" in
    let toBurn := penaltyFromVesting + penaltyFromBalance in
    let toReward := Z.min toBurn rewardTarget in
    let toBurn := toBurn - toReward in
    let pledgeDelta := - penaltyFromVesting in
    ret (DisputeOutcome.mk toBurn toReward pledgeDelta powerDelta)
  end.

Definition DisputeWindowedPoSt (pol : Policy) (peers : Peers) (ops : DeadlineOps) (r : Runtime)
           (params : DisputeWindowedPoStParams.t) : M (World State.t) unit :=
  ValidateImmediateCallerType r CallerTypesSignable ;;
  let reporter := Caller r in
  (if DisputeWindowedPoStParams.Deadline params >=? WPoStPeriodDeadlines pol
   then Abortf exitcode.ErrIllegalArgument "invalid deadline %d of %d"
   else ret tt) ;;
  let* epochReward := requestCurrentEpochBlockReward peers in
  let* pwrTotal := requestCurrentTotalPower peers in
  let* balance := CurrentBalance in
  let* out :=
    StateTransaction (DisputeWindowedPoSt_tx pol ops r params epochReward pwrTotal balance) in
  requestUpdatePower r (DisputeOutcome.powerDelta out) ;;
  let* toBurn :=
    (if negb (DisputeOutcome.toReward out =? 0)
     then
       let* code := Send r reporter MethodSend (DisputeOutcome.toReward out) in
       if negb (exitcode.IsSuccess code)
       then ret (DisputeOutcome.toBurn out + DisputeOutcome.toReward out)
       else ret (DisputeOutcome.toBurn out)
     else ret (DisputeOutcome.toBurn out)) in
  burnFunds r toBurn ;;
  notifyPledgeChanged r (DisputeOutcome.pledgeDelta out) ;;
  checkBalanceInvariants.


(** **** Sector commitment *)

(** [abi.MaxSectorNumber] *)
Definition MaxSectorNumber : Z := MaxInt64.

Definition validateExpiration {W} (pol : Policy) (r : Runtime)
           (activation expiration : ChainEpoch) (sealProof : Z) : M W unit :=
  (if expiration <=? activation
   then Abortf exitcode.ErrIllegalArgument "sector expiration %v must be after activation (%v)"
   else ret tt) ;;
  (if sub64 expiration activation <? MinSectorExpiration pol
   then Abortf exitcode.ErrIllegalArgument
          "invalid expiration %d, total sector lifetime (%d) must exceed %d after activation %d"
   else ret tt) ;;
  (if expiration >? add64 (CurrEpoch r) (MaxSectorExpirationExtension pol)
   then Abortf exitcode.ErrIllegalArgument
          "invalid expiration %d, cannot be more than %d past current epoch %d"
   else ret tt) ;;
  let* maxLifetime :=
    RequireNoErr (match SealProofSectorMaximumLifetime pol sealProof with
                  | Some l => Val l
                  | None => Err None
                  end)
      exitcode.ErrIllegalArgument "unrecognized seal proof type %d" in
  if sub64 expiration activation >? maxLifetime
  then Abortf exitcode.ErrIllegalArgument
         "invalid expiration %d, total sector lifetime (%d) cannot exceed %d after activation %d"
  else ret tt.

(** One round of "Check per-sector preconditions before opening state
    transaction or sending other messages": returns the sector numbers
    seen so far. *)
Definition preCommitPrecondition {W} (pol : Policy) (r : Runtime)
           (challengeEarliest : ChainEpoch) (sectorNumbers : BitField)
           (precommit : SectorPreCommitInfo.t) : M W BitField :=
  let currEpoch := CurrEpoch r in
  (if bitfield.IsSet sectorNumbers (uint64 (SectorPreCommitInfo.SectorNumber precommit))
   then Abortf exitcode.ErrIllegalArgument "duplicate sector number %d"
   else ret tt) ;;
  let sectorNumbers' :=
    bitfield.Set_ sectorNumbers (uint64 (SectorPreCommitInfo.SectorNumber precommit)) in
  (if negb (CanPreCommitSealProof pol (SectorPreCommitInfo.SealProof precommit))
   then Abortf exitcode.ErrIllegalArgument "unsupported seal proof type %v"
   else ret tt) ;;
  (if SectorPreCommitInfo.SectorNumber precommit >? MaxSectorNumber
   then Abortf exitcode.ErrIllegalArgument "sector number %d out of range 0..(2^63-1)"
   else ret tt) ;;
  (if SectorPreCommitInfo.SealedCID precommit =? 0
   then Abortf exitcode.ErrIllegalArgument "sealed CID undefined"
   else ret tt) ;;
  (if negb (SealedCIDPrefix pol (SectorPreCommitInfo.SealedCID precommit))
   then Abortf exitcode.ErrIllegalArgument "sealed CID had wrong prefix"
   else ret tt) ;;
  (if SectorPreCommitInfo.SealRandEpoch precommit >=? currEpoch
   then Abortf exitcode.ErrIllegalArgument "seal challenge epoch %v must be before now %v"
   else ret tt) ;;
  (if SectorPreCommitInfo.SealRandEpoch precommit <? challengeEarliest
   then Abortf exitcode.ErrIllegalArgument "seal challenge epoch %v too old, must be after %v"
   else ret tt) ;;
  let maxActivation :=
    add64 currEpoch
      (default 0 (MaxProveCommitDuration pol (SectorPreCommitInfo.SealProof precommit))) in
  validateExpiration pol r maxActivation (SectorPreCommitInfo.Expiration precommit)
    (SectorPreCommitInfo.SealProof precommit) ;;
  (if SectorPreCommitInfo.ReplaceCapacity precommit
   then Abortf exitcode.SysErrForbidden
          "cc upgrade through precommit discontinued, use lightweight cc upgrade instead"
   else ret tt) ;;
  ret sectorNumbers'.

Fixpoint preCommitPreconditions {W} (pol : Policy) (r : Runtime)
         (challengeEarliest : ChainEpoch) (sectorNumbers : BitField)
         (sectors : list SectorPreCommitInfo.t) : M W BitField :=
  match sectors with
  | [] => ret sectorNumbers
  | precommit :: rest =>
    let* sectorNumbers' :=
      preCommitPrecondition pol r challengeEarliest sectorNumbers precommit in
    preCommitPreconditions pol r challengeEarliest sectorNumbers' rest
  end.

(** The locals the loop inside the transaction builds. *)
Module PreCommitAcc.
Record t : Type := mk {
  chainInfos : list SectorPreCommitOnChainInfo.t;
  totalDepositRequired : TokenAmount;
  cleanUpEvents : list (ChainEpoch * list Z)
}.
End PreCommitAcc.

Fixpoint appendCleanUp (e : ChainEpoch) (n : Z) (m : list (ChainEpoch * list Z))
  : list (ChainEpoch * list Z) :=
  match m with
  | [] => [(e, [n])]
  | (e', ns) :: rest =>
    if e' =? e then (e', ns ++ [n]) :: rest else (e', ns) :: appendCleanUp e n rest
  end.

Definition preCommitOnChain {W} (pol : Policy) (r : Runtime) (info : MinerInfo.t)
           (rewardStats : FilterEstimate * Z) (pwrTotal : FilterEstimate)
           (dealWeights : list SectorWeights.t) (dealCountMax : Z)
           (acc : PreCommitAcc.t) (i : nat) (precommit : SectorPreCommitInfo.t)
  : M W PreCommitAcc.t :=
  let currEpoch := CurrEpoch r in
  let* sectorWPoStProof :=
    RequireNoErr (match RegisteredWindowPoStProof pol (SectorPreCommitInfo.SealProof precommit) with
                  | Some p => Val p
                  | None => Err None
                  end)
      exitcode.ErrIllegalArgument
      "failed to lookup Window PoSt proof type for sector seal proof %d" in
  (if negb (sectorWPoStProof =? MinerInfo.WindowPoStProofType info)
   then Abortf exitcode.ErrIllegalArgument
          "sector Window PoSt proof type %d must match miner Window PoSt proof type %d (seal proof type %d)"
   else ret tt) ;;
  (if Z.of_nat (length (SectorPreCommitInfo.DealIDs precommit)) >? dealCountMax
   then Abortf exitcode.ErrIllegalArgument "too many deals for sector %d > %d"
   else ret tt) ;;
  match dealWeights !! i with
  | None => Abortf exitcode.ErrIllegalState "index out of range"
  | Some dealWeight =>
    (if SectorWeights.DealSpace dealWeight >? uint64 (MinerInfo.SectorSize info)
     then Abortf exitcode.ErrIllegalArgument "deals too large to fit in sector %d > %d"
     else ret tt) ;;
    let duration := sub64 (SectorPreCommitInfo.Expiration precommit) currEpoch in
    let sectorWeight :=
      QAPowerForWeight pol (MinerInfo.SectorSize info) duration
        (SectorWeights.DealWeight dealWeight) (SectorWeights.VerifiedDealWeight dealWeight) in
    let depositReq := PreCommitDepositForPower pol (fst rewardStats) pwrTotal sectorWeight in
    let chainInfo :=
      SectorPreCommitOnChainInfo.mk precommit depositReq currEpoch
        (SectorWeights.DealWeight dealWeight) (SectorWeights.VerifiedDealWeight dealWeight) in
    match MaxProveCommitDuration pol (SectorPreCommitInfo.SealProof precommit) with
    | None => Abortf exitcode.ErrIllegalArgument "no max seal duration set for proof type: %d"
    | Some msd =>
      let cleanUpBound := add64 (add64 currEpoch msd) (ExpiredPreCommitCleanUpDelay pol) in
      ret (PreCommitAcc.mk
             (PreCommitAcc.chainInfos acc ++ [chainInfo])
             (PreCommitAcc.totalDepositRequired acc + depositReq)
             (appendCleanUp cleanUpBound (uint64 (SectorPreCommitInfo.SectorNumber precommit))
                (PreCommitAcc.cleanUpEvents acc)))
    end
  end.

Fixpoint preCommitsOnChain {W} (pol : Policy) (r : Runtime) (info : MinerInfo.t)
         (rewardStats : FilterEstimate * Z) (pwrTotal : FilterEstimate)
         (dealWeights : list SectorWeights.t) (dealCountMax : Z)
         (acc : PreCommitAcc.t) (i : nat) (sectors : list SectorPreCommitInfo.t)
  : M W PreCommitAcc.t :=
  match sectors with
  | [] => ret acc
  | precommit :: rest =>
    let* acc' := preCommitOnChain pol r info rewardStats pwrTotal dealWeights dealCountMax
                   acc i precommit in
    preCommitsOnChain pol r info rewardStats pwrTotal dealWeights dealCountMax acc' (S i) rest
  end.

(** The opening of the state transaction of [PreCommitSectorBatch]: the
    aggregate fee, the available balance and the repayment of the fee
    debt.  Returns the available balance and the fee to burn. *)
Definition PreCommitSectorBatch_debts (pol : Policy) (r : Runtime)
           (sectors : list SectorPreCommitInfo.t) (balance : TokenAmount)
  : M State.t (TokenAmount * TokenAmount) :=
  (if (1 <? length sectors)%nat
   then
     let aggregateFee :=
       AggregatePreCommitNetworkFee pol (Z.of_nat (length sectors)) (BaseFee r) in
     TryMethod (ApplyPenalty aggregateFee) exitcode.ErrIllegalState "failed to apply penalty"
   else ret tt) ;;
  let* st := get in
  let* availableBalance :=
    RequireNoErr (GetAvailableBalance st balance) exitcode.ErrIllegalState
      "failed to calculate available balance" in
  let* feeToBurn := RepayDebtsOrAbort balance in
  ret (availableBalance, feeToBurn).

(** The state transaction of [PreCommitSectorBatch]: returns the fee to
    burn and whether the deadline cron has to be enrolled. *)
Definition PreCommitSectorBatch_tx (pol : Policy) (r : Runtime)
           (sectors : list SectorPreCommitInfo.t) (sectorNumbers : BitField)
           (rewardStats : FilterEstimate * Z) (pwrTotal : FilterEstimate)
           (dealWeights : list SectorWeights.t) (balance : TokenAmount)
  : M State.t (TokenAmount * bool) :=
  let currEpoch := CurrEpoch r in
  let* '(availableBalance, feeToBurn) := PreCommitSectorBatch_debts pol r sectors balance in
  let* st1 := get in
  let info := State.Info st1 in
  ValidateImmediateCallerIs r (MinerInfo.callers info) ;;
  (if ConsensusFaultActive info currEpoch
   then Abortf exitcode.ErrForbidden "pre-commit not allowed during active consensus fault"
   else ret tt) ;;
  let dealCountMax := SectorDealsMax pol (MinerInfo.SectorSize info) in
  let* acc :=
    preCommitsOnChain pol r info rewardStats pwrTotal dealWeights dealCountMax
      (PreCommitAcc.mk [] 0 []) 0 sectors in
  (if availableBalance <? PreCommitAcc.totalDepositRequired acc
   then Abortf exitcode.ErrInsufficientFunds "insufficient funds %v for pre-commit deposit: %v"
   else ret tt) ;;
  TryMethod (AddPreCommitDeposit (PreCommitAcc.totalDepositRequired acc))
    exitcode.ErrIllegalState "failed to add pre-commit deposit %v" ;;
  TryMethod (AllocateSectorNumbers sectorNumbers)
    exitcode.ErrIllegalState "failed to allocate sector ids %v" ;;
  TryMethod (PutPrecommittedSectors (PreCommitAcc.chainInfos acc))
    exitcode.ErrIllegalState "failed to write pre-committed sectors" ;;
  TryMethod (AddPreCommitCleanUps (PreCommitAcc.cleanUpEvents acc))
    exitcode.ErrIllegalState "failed to add pre-commit expiry to queue" ;;
  let* st2 := get in
  let needsCron := negb (State.DeadlineCronActive st2) in
  put (State.set_DeadlineCronActive true st2) ;;
  ret (feeToBurn, needsCron).

Definition PreCommitSectorBatch (pol : Policy) (peers : Peers) (r : Runtime)
           (sectors : list SectorPreCommitInfo.t) : M (World State.t) unit :=
  let currEpoch := CurrEpoch r in
  (if Nat.eqb (length sectors) 0
   then Abortf exitcode.ErrIllegalArgument "batch empty"
   else if Z.of_nat (length sectors) >? PreCommitSectorBatchMaxSize pol
   then Abortf exitcode.ErrIllegalArgument "batch of %d too large, max %d"
   else ret tt) ;;
  let challengeEarliest := sub64 currEpoch (MaxPreCommitRandomnessLookback pol) in
  let* sectorNumbers := preCommitPreconditions pol r challengeEarliest bitfield.New sectors in
  let sectorsDeals :=
    map (fun precommit => SectorDeals.mk (SectorPreCommitInfo.Expiration precommit)
                            (SectorPreCommitInfo.DealIDs precommit)) sectors in
  let* rewardStats := requestCurrentEpochBlockReward peers in
  let* pwrTotal := requestCurrentTotalPower peers in
  let* dealWeights := requestDealWeights peers sectorsDeals in
  (if negb (Nat.eqb (length dealWeights) (length sectors))
   then Abortf exitcode.ErrIllegalState "deal weight request returned %d records, expected %d"
   else ret tt) ;;
  let* balance := CurrentBalance in
  let* '(feeToBurn, needsCron) :=
    StateTransaction
      (PreCommitSectorBatch_tx pol r sectors sectorNumbers rewardStats pwrTotal dealWeights
         balance) in
  burnFunds r feeToBurn ;;
  checkBalanceInvariants ;;
  let* st := StateReadonly in
  if needsCron : bool
  then
    let newDlInfo := DeadlineInfo pol st currEpoch in
    enrollCronEvent r (dline.Last newDlInfo) CronEventProvingDeadline
  else ret tt.


(** **** Recovery declarations *)

Module RecoveryDeclaration.
Record t : Type := mk { Deadline : Z; Partition : Z; Sectors : BitField }.
End RecoveryDeclaration.

(** Modelled from the spec: [DeadlineSectorMap] of [sector_map.go] is
    declared outside src/.  It groups the declared sectors by deadline and
    partition, refuses a deadline index out of range, and is bounded by
    [AddressedPartitionsMax] partitions and [AddressedSectorsMax] sectors. *)
Definition DeadlineSectorMap_Add (pol : Policy) (dlIdx partIdx : Z) (sectorNos : BitField)
           (dm : DeadlineSectorMap) : Errorable DeadlineSectorMap :=
  if dlIdx >=? WPoStPeriodDeadlines pol then Err None
  else
    let pm : PartitionSectorMap := default ∅ (dm !! dlIdx) in
    let merged := fold_left bitfield.Set_ sectorNos (default [] (pm !! partIdx)) in
    Val (<[dlIdx := <[partIdx := merged]> pm]> dm).

Definition DeadlineSectorMap_Check (dm : DeadlineSectorMap) (maxPartitions maxSectors : Z)
  : Errorable unit :=
  let pms := map snd (map_to_list dm) in
  let partitionCount := fold_left (fun n (pm : PartitionSectorMap) => n + Z.of_nat (size pm)) pms 0 in
  let sectorCount :=
    fold_left (fun n (pm : PartitionSectorMap) =>
                 fold_left (fun k bf => k + bitfield.Count bf) (map snd (map_to_list pm)) n)
              pms 0 in
  if partitionCount >? maxPartitions then Err None
  else if sectorCount >? maxSectors then Err None
  else Val tt.

(** The deadlines of the map in ascending order, as [ForEach] visits them. *)
Definition DeadlineSectorMap_Deadlines (dm : DeadlineSectorMap) : list Z :=
  sortZ (map fst (map_to_list dm)).

Fixpoint addRecoveries {W} (pol : Policy) (recoveries : list RecoveryDeclaration.t)
         (toProcess : DeadlineSectorMap) : M W DeadlineSectorMap :=
  match recoveries with
  | [] => ret toProcess
  | term :: rest =>
    let* toProcess' :=
      RequireNoErr (DeadlineSectorMap_Add pol (RecoveryDeclaration.Deadline term)
                      (RecoveryDeclaration.Partition term) (RecoveryDeclaration.Sectors term)
                      toProcess)
        exitcode.ErrIllegalArgument "failed to process deadline %d, partition %d" in
    addRecoveries pol rest toProcess'
  end.

Definition declarationDeadlineInfo (pol : Policy) (periodStart : ChainEpoch) (deadlineIdx : Z)
           (currEpoch : ChainEpoch) : Errorable dline.Info :=
  if deadlineIdx >=? WPoStPeriodDeadlines pol then Err None
  else Val (dline.NextNotElapsed (NewDeadlineInfo pol periodStart deadlineIdx currEpoch)).

Definition validateFRDeclarationDeadline (deadline : dline.Info) : Errorable unit :=
  if dline.FaultCutoffPassed deadline then Err None else Val tt.

(** The callback of [toProcess.ForEach] in [DeclareFaultsRecovered]. *)
Definition recoverDeadline (pol : Policy) (ops : DeadlineOps) (r : Runtime) (st : State.t)
           (info : MinerInfo.t) (toProcess : DeadlineSectorMap)
           (deadlines : gmap Z Deadline.t) (dlIdx : Z) : M State.t (gmap Z Deadline.t) :=
  let currEpoch := CurrEpoch r in
  let pm : PartitionSectorMap := default ∅ (toProcess !! dlIdx) in
  let* targetDeadline :=
    RequireNoErr (declarationDeadlineInfo pol (CurrentProvingPeriodStart pol st currEpoch)
                    dlIdx currEpoch)
      exitcode.ErrIllegalArgument "invalid recovery declaration deadline %d" in
  RequireNoErr (validateFRDeclarationDeadline targetDeadline)
    exitcode.ErrIllegalArgument "failed recovery declaration at deadline %d" ;;
  let* deadline :=
    RequireNoErr (LoadDeadline pol deadlines dlIdx)
      exitcode.ErrIllegalState "failed to load deadline %d" in
  let* deadline' :=
    RequireNoErr (DeclareFaultsRecovered_dl ops deadline (State.Sectors st)
                    (MinerInfo.SectorSize info) pm)
      exitcode.ErrIllegalState "failed to declare recoveries for deadline %d" in
  RequireNoErr (UpdateDeadline pol deadlines dlIdx deadline')
    exitcode.ErrIllegalState "failed to store deadline %d".

Fixpoint recoverDeadlines (pol : Policy) (ops : DeadlineOps) (r : Runtime) (st : State.t)
         (info : MinerInfo.t) (toProcess : DeadlineSectorMap)
         (deadlines : gmap Z Deadline.t) (dlIdxs : list Z) : M State.t (gmap Z Deadline.t) :=
  match dlIdxs with
  | [] => ret deadlines
  | dlIdx :: rest =>
    let* deadlines' := recoverDeadline pol ops r st info toProcess deadlines dlIdx in
    recoverDeadlines pol ops r st info toProcess deadlines' rest
  end.

Definition DeclareFaultsRecovered_tx (pol : Policy) (ops : DeadlineOps) (r : Runtime)
           (toProcess : DeadlineSectorMap) (balance : TokenAmount) : M State.t TokenAmount :=
  let* feeToBurn := RepayDebtsOrAbort balance in
  let* st := get in
  let info := State.Info st in
  ValidateImmediateCallerIs r (MinerInfo.callers info) ;;
  (if ConsensusFaultActive info (CurrEpoch r)
   then Abortf exitcode.ErrForbidden "recovery not allowed during active consensus fault"
   else ret tt) ;;
  let* deadlines :=
    recoverDeadlines pol ops r st info toProcess (State.Deadlines st)
      (DeadlineSectorMap_Deadlines toProcess) in
  put (State.set_Deadlines deadlines st) ;;
  ret feeToBurn.

Definition DeclareFaultsRecovered (pol : Policy) (ops : DeadlineOps) (r : Runtime)
           (recoveries : list RecoveryDeclaration.t) : M (World State.t) unit :=
  (if Z.of_nat (length recoveries) >? DeclarationsMax pol
   then Abortf exitcode.ErrIllegalArgument
          "too many recovery declarations for a single message: %d > %d"
   else ret tt) ;;
  let* toProcess := addRecoveries pol recoveries ∅ in
  RequireNoErr (DeadlineSectorMap_Check toProcess (AddressedPartitionsMax pol)
                  (AddressedSectorsMax pol))
    exitcode.ErrIllegalArgument "cannot process requested parameters" ;;
  let* balance := CurrentBalance in
  let* feeToBurn := StateTransaction (DeclareFaultsRecovered_tx pol ops r toProcess balance) in
  burnFunds r feeToBurn ;;
  checkBalanceInvariants.

(** **** The method table

    The methods whose bodies are not embedded enter through [Work]: what
    they do up to their closing lines, whatever that is. *)
Record Work : Type := mkWork {
  ProveCommitAggregate_work : Runtime -> M (World State.t) unit;
  (** returns the total pledge of the confirmed sectors *)
  confirmSectorProofsValid_work : Runtime -> M (World State.t) TokenAmount;
  (** returns the power delta *)
  TerminateSectors_work : Runtime -> M (World State.t) PowerPair.t;
  ApplyRewards_work : Runtime -> M (World State.t) unit;
  ReportConsensusFault_work : Runtime -> M (World State.t) unit;
  OnDeferredCronEvent_work : Runtime -> M (World State.t) unit;
  (** the methods without a balance check, by method number *)
  unchecked_work : Z -> Runtime -> M (World State.t) unit
}.





Definition ReportConsensusFault (wk : Work) (r : Runtime) : M (World State.t) unit :=
  ReportConsensusFault_work wk r ;;
  checkBalanceInvariants.


(** The methods of [Exports], with the parameters of the embedded ones. *)
Inductive Method : Type :=
| MConstructor
| MControlAddresses
| MChangeWorkerAddress
| MChangePeerID (newID : list Z)
| MSubmitWindowedPoSt (params : SubmitWindowedPoStParams.t)
| MPreCommitSector (params : SectorPreCommitInfo.t)
| MProveCommitSector
| MExtendSectorExpiration
| MTerminateSectors
| MDeclareFaults
| MDeclareFaultsRecovered (recoveries : list RecoveryDeclaration.t)
| MOnDeferredCronEvent
| MCheckSectorProven
| MApplyRewards
| MReportConsensusFault
| MWithdrawBalance (amountRequested : TokenAmount)
| MConfirmSectorProofsValid
| MChangeMultiaddrs
| MCompactPartitions
| MCompactSectorNumbers
| MConfirmUpdateWorkerKey
| MRepayDebt
| MChangeOwnerAddress
| MDisputeWindowedPoSt (params : DisputeWindowedPoStParams.t)
| MPreCommitSectorBatch (sectors : list SectorPreCommitInfo.t)
| MProveCommitAggregate
| MProveReplicaUpdates.




(** The balance invariant of a world. *)
Definition balanceInvariant (w : World State.t) : Prop :=
  balance w >= State.PreCommitDeposits (state w) + State.InitialPledge (state w)
               + State.LockedFunds (state w).

(** The state and the world with another [ConsensusFaultElapsed]. *)
Definition withConsensusFaultElapsed (elapsed : ChainEpoch) (st : State.t) : State.t :=
  State.set_Info (MinerInfo.set_ConsensusFaultElapsed elapsed (State.Info st)) st.

Definition worldWithConsensusFaultElapsed (elapsed : ChainEpoch) (w : World State.t)
  : World State.t :=
  mkWorld (withConsensusFaultElapsed elapsed (state w)) (balance w) (sent w).

(** *** Proving period and deadline of an epoch *)

Definition currentProvingPeriodStart (pol : Policy) (currEpoch offset : ChainEpoch)
  : ChainEpoch :=
  let currModulus := rem64 currEpoch (WPoStProvingPeriod pol) in
  let periodProgress :=
    if currModulus >=? offset then sub64 currModulus offset
    else sub64 (WPoStProvingPeriod pol) (sub64 offset currModulus) in
  let periodStart := sub64 currEpoch periodProgress in
  periodStart.

Definition currentDeadlineIndex (pol : Policy) (currEpoch periodStart : ChainEpoch) : Z :=
  uint64 (div64 (sub64 currEpoch periodStart) (WPoStChallengeWindow pol)).

(** [hash] answers for the serialized address and epoch with the first
    eight bytes of the digest, read big-endian as a [uint64]. *)
Definition assignProvingPeriodOffset (pol : Policy) (hash : Address -> ChainEpoch -> Z)
           (myAddr : Address) (currEpoch : ChainEpoch) : Errorable ChainEpoch :=
  let offset := uint64 (hash myAddr currEpoch) in
  let offset := offset mod uint64 (WPoStProvingPeriod pol) in
  Val (int64 offset).

(** *** Control of the miner *)

(** [go-address]: the protocols of an address. *)
Module addr.
Definition ID : Z := 0.
Definition SECP256K1 : Z := 1.
Definition Actor : Z := 2.
Definition BLS : Z := 3.
End addr.

(** What the code observes of an address ([go-address], declared outside
    src/), and what the account actor behind an address answers to
    [PubkeyAddress]. *)
Record Addressing : Type := mkAddressing {
  Empty : Address -> bool;
  Protocol : Address -> Z;
  (** exit code and public key address *)
  PubkeyAddress : Address -> ExitCode * Address
}.

(** Further policy values of [policy.go], declared outside src/. *)
Record ControlPolicy : Type := mkControlPolicy {
  MaxControlAddresses : Z;
  WorkerKeyChangeDelay : ChainEpoch
}.

(** Modelled from the spec: [builtin.IsPrincipal] is declared outside
    src/.  The comment of [resolveControlAddress] has it hold of "an
    account or multisig actor": the signable caller types. *)
Definition IsPrincipal (code : Cid) : bool := existsb (Z.eqb code) CallerTypesSignable.

Definition checkControlAddresses {W} (cpol : ControlPolicy) (controlAddrs : list Address)
  : M W unit :=
  if Z.of_nat (length controlAddrs) >? MaxControlAddresses cpol
  then Abortf exitcode.ErrIllegalArgument
         "control addresses length %d exceeds max control addresses length %d"
  else ret tt.

Definition resolveControlAddress {W} (r : Runtime) (raw : Address) : M W Address :=
  match ResolveAddress r raw with
  | None => Abortf exitcode.ErrIllegalArgument "unable to resolve address %v"
  | Some resolved =>
    match GetActorCodeCID r resolved with
    | None => Abortf exitcode.ErrIllegalArgument "no code for address %v"
    | Some ownerCode =>
      if negb (IsPrincipal ownerCode)
      then Abortf exitcode.ErrIllegalArgument "owner actor type must be a principal, was %v"
      else ret resolved
    end
  end.

Definition resolveWorkerAddress {W} (ad : Addressing) (r : Runtime) (raw : Address)
  : M W Address :=
  match ResolveAddress r raw with
  | None => Abortf exitcode.ErrIllegalArgument "unable to resolve address %v"
  | Some resolved =>
    match GetActorCodeCID r resolved with
    | None => Abortf exitcode.ErrIllegalArgument "no code for address %v"
    | Some workerCode =>
      (if negb (workerCode =? AccountActorCodeID)
       then Abortf exitcode.ErrIllegalArgument "worker actor type must be an account, was %v"
       else ret tt) ;;
      (if negb (Protocol ad raw =? addr.BLS)
       then
         let '(code, pubkey) := PubkeyAddress ad resolved in
         RequireSuccess code "failed to fetch account pubkey from %v" ;;
         if negb (Protocol ad pubkey =? addr.BLS)
         then Abortf exitcode.ErrIllegalArgument
                "worker account %v must have BLS pubkey, was %v"
         else ret tt
       else ret tt) ;;
      ret resolved
    end
  end.

(** The loop [for _, ca := range ...ControlAddrs] of [Constructor] and
    [ChangeWorkerAddress]. *)
Fixpoint resolveControlAddresses {W} (r : Runtime) (addrs controlAddrs : list Address)
  : M W (list Address) :=
  match addrs with
  | [] => ret controlAddrs
  | ca :: rest =>
    let* resolved := resolveControlAddress r ca in
    resolveControlAddresses r rest (controlAddrs ++ [resolved])
  end.

(** Returns the owner, the worker and the control addresses. *)
Definition ControlAddresses : M (World State.t) (Address * Address * list Address) :=
  let* st := StateReadonly in
  let info := State.Info st in
  ret (MinerInfo.Owner info, MinerInfo.Worker info, MinerInfo.ControlAddresses info).

Definition ChangeWorkerAddress (cpol : ControlPolicy) (ad : Addressing) (r : Runtime)
           (NewWorker : Address) (NewControlAddrs : list Address)
  : M (World State.t) unit :=
  checkControlAddresses cpol NewControlAddrs ;;
  let* newWorker := resolveWorkerAddress ad r NewWorker in
  let* controlAddrs := resolveControlAddresses r NewControlAddrs [] in
  StateTransaction
    (let* st := get in
     let info := State.Info st in
     ValidateImmediateCallerIs r [MinerInfo.Owner info] ;;
     let info := MinerInfo.set_ControlAddresses controlAddrs info in
     let info :=
       if negb (newWorker =? MinerInfo.Worker info)
          && bool_decide (MinerInfo.PendingWorkerKey info = None)
       then
         MinerInfo.set_PendingWorkerKey
           (Some (WorkerKeyChange.mk newWorker
                    (add64 (CurrEpoch r) (WorkerKeyChangeDelay cpol)))) info
       else info in
     put (State.set_Info info st)).

Definition processPendingWorker (info : MinerInfo.t) (r : Runtime) : M State.t unit :=
  match MinerInfo.PendingWorkerKey info with
  | None => ret tt
  | Some key =>
    if CurrEpoch r <? WorkerKeyChange.EffectiveAt key then ret tt
    else
      let info := MinerInfo.set_Worker (WorkerKeyChange.NewWorker key) info in
      let info := MinerInfo.set_PendingWorkerKey None info in
      let* st := get in
      put (State.set_Info info st)
  end.

Definition ConfirmUpdateWorkerKey (r : Runtime) : M (World State.t) unit :=
  StateTransaction
    (let* st := get in
     let info := State.Info st in
     ValidateImmediateCallerIs r [MinerInfo.Owner info] ;;
     processPendingWorker info r).

Definition ChangeOwnerAddress (ad : Addressing) (r : Runtime) (newAddress : Address)
  : M (World State.t) unit :=
  (if Empty ad newAddress
   then Abortf exitcode.ErrIllegalArgument "empty address"
   else ret tt) ;;
  (if negb (Protocol ad newAddress =? addr.ID)
   then Abortf exitcode.ErrIllegalArgument "owner address must be an ID address"
   else ret tt) ;;
  StateTransaction
    (let* st := get in
     let info := State.Info st in
     let propose : M State.t MinerInfo.t :=
       ValidateImmediateCallerIs r [MinerInfo.Owner info] ;;
       ret (MinerInfo.set_PendingOwnerAddress (Some newAddress) info) in
     let* info :=
       (* rt.Caller() == info.Owner || info.PendingOwnerAddress == nil *)
       match MinerInfo.PendingOwnerAddress info with
       | None => propose
       | Some pending =>
         if Caller r =? MinerInfo.Owner info then propose
         else
           ValidateImmediateCallerIs r [pending] ;;
           (if negb (newAddress =? pending)
            then Abortf exitcode.ErrIllegalArgument "expected confirmation of %v, got %v"
            else ret tt) ;;
           ret (MinerInfo.set_Owner pending info)
       end in
     let info :=
       match MinerInfo.PendingOwnerAddress info with
       | Some pending =>
         if pending =? MinerInfo.Owner info
         then MinerInfo.set_PendingOwnerAddress None info
         else info
       | None => info
       end in
     put (State.set_Info info st)).

Definition ChangeMultiaddrs (pol : Policy) (r : Runtime) (NewMultiaddrs : list (list Z))
  : M (World State.t) unit :=
  checkPeerInfo pol [] NewMultiaddrs ;;
  StateTransaction
    (let* st := get in
     let info := State.Info st in
     ValidateImmediateCallerIs r (MinerInfo.callers info) ;;
     put (State.set_Info (MinerInfo.set_Multiaddrs NewMultiaddrs info) st)).

(** *** Construction *)

Module ConstructorParams.
Record t : Type := mk {
  OwnerAddr : Address;
  WorkerAddr : Address;
  ControlAddrs : list Address;
  WindowPoStProofType : Z;
  PeerId : list Z;
  Multiaddrs : list (list Z)
}.
End ConstructorParams.

(** [ConstructMinerInfo] and [ConstructState] of [miner_state.go], declared
    outside src/, and the hash of the runtime on the offset seed. *)
Record Construction : Type := mkConstruction {
  ConstructMinerInfo :
    Address -> Address -> list Address -> list Z -> list (list Z) -> Z
    -> Errorable MinerInfo.t;
  (** info, period start, deadline index *)
  ConstructState : MinerInfo.t -> ChainEpoch -> Z -> Errorable State.t;
  HashBlake2b : Address -> ChainEpoch -> Z
}.

Definition Constructor (pol : Policy) (cpol : ControlPolicy) (ad : Addressing)
           (cons : Construction) (r : Runtime) (params : ConstructorParams.t)
  : M (World State.t) unit :=
  ValidateImmediateCallerIs r [InitActorAddr] ;;
  checkControlAddresses cpol (ConstructorParams.ControlAddrs params) ;;
  checkPeerInfo pol (ConstructorParams.PeerId params) (ConstructorParams.Multiaddrs params) ;;
  (if negb (CanWindowPoStProof pol (ConstructorParams.WindowPoStProofType params))
   then Abortf exitcode.ErrIllegalArgument "proof type %d not allowed for new miner actors"
   else ret tt) ;;
  let* owner := resolveControlAddress r (ConstructorParams.OwnerAddr params) in
  let* worker := resolveWorkerAddress ad r (ConstructorParams.WorkerAddr params) in
  let* controlAddrs := resolveControlAddresses r (ConstructorParams.ControlAddrs params) [] in
  let currEpoch := CurrEpoch r in
  let* offset :=
    RequireNoErr (assignProvingPeriodOffset pol (HashBlake2b cons) (Receiver r) currEpoch)
      exitcode.ErrSerialization "failed to assign proving period offset" in
  let periodStart := currentProvingPeriodStart pol currEpoch offset in
  RequireState (periodStart <=? currEpoch)
    "computed proving period start %d after current epoch %d" ;;
  let deadlineIndex := currentDeadlineIndex pol currEpoch periodStart in
  RequireState (deadlineIndex <? WPoStPeriodDeadlines pol)
    "computed proving deadline index %d invalid" ;;
  let* info :=
    RequireNoErr (ConstructMinerInfo cons owner worker controlAddrs
                    (ConstructorParams.PeerId params) (ConstructorParams.Multiaddrs params)
                    (ConstructorParams.WindowPoStProofType params))
      exitcode.ErrIllegalState "failed to construct initial miner info" in
  let* state :=
    RequireNoErr (ConstructState cons info periodStart deadlineIndex)
      exitcode.ErrIllegalState "failed to construct state" in
  StateCreate state.

(** *** Fault declarations *)

Module FaultDeclaration.
Record t : Type := mk { Deadline : Z; Partition : Z; Sectors : BitField }.
End FaultDeclaration.

Fixpoint addFaults {W} (pol : Policy) (faults : list FaultDeclaration.t)
         (toProcess : DeadlineSectorMap) : M W DeadlineSectorMap :=
  match faults with
  | [] => ret toProcess
  | term :: rest =>
    let* toProcess' :=
      RequireNoErr (DeadlineSectorMap_Add pol (FaultDeclaration.Deadline term)
                      (FaultDeclaration.Partition term) (FaultDeclaration.Sectors term)
                      toProcess)
        exitcode.ErrIllegalArgument "failed to process deadline %d, partition %d" in
    addFaults pol rest toProcess'
  end.

(** The callback of [toProcess.ForEach] in [DeclareFaults]: returns the
    deadlines and the power delta so far. *)
Definition faultDeadline (pol : Policy) (ops : DeadlineOps) (r : Runtime) (st : State.t)
           (info : MinerInfo.t) (toProcess : DeadlineSectorMap)
           (deadlines : gmap Z Deadline.t) (powerDelta : PowerPair.t) (dlIdx : Z)
  : M State.t (gmap Z Deadline.t * PowerPair.t) :=
  let currEpoch := CurrEpoch r in
  let pm : PartitionSectorMap := default ∅ (toProcess !! dlIdx) in
  let* targetDeadline :=
    RequireNoErr (declarationDeadlineInfo pol (CurrentProvingPeriodStart pol st currEpoch)
                    dlIdx currEpoch)
      exitcode.ErrIllegalArgument "invalid fault declaration deadline %d" in
  RequireNoErr (validateFRDeclarationDeadline targetDeadline)
    exitcode.ErrIllegalArgument "failed fault declaration at deadline %d" ;;
  let* deadline :=
    RequireNoErr (LoadDeadline pol deadlines dlIdx)
      exitcode.ErrIllegalState "failed to load deadline %d" in
  let faultExpirationEpoch := add64 (dline.Last targetDeadline) (FaultMaxAge pol) in
  let* '(deadlinePowerDelta, deadline') :=
    RequireNoErr (RecordFaults ops deadline (State.Sectors st) (MinerInfo.SectorSize info)
                    (QuantSpecForDeadline targetDeadline) faultExpirationEpoch pm)
      exitcode.ErrIllegalState "failed to declare faults for deadline %d" in
  let* deadlines' :=
    RequireNoErr (UpdateDeadline pol deadlines dlIdx deadline')
      exitcode.ErrIllegalState "failed to store deadline %d partitions" in
  ret (deadlines', PowerPair.Add powerDelta deadlinePowerDelta).

Fixpoint faultDeadlines (pol : Policy) (ops : DeadlineOps) (r : Runtime) (st : State.t)
         (info : MinerInfo.t) (toProcess : DeadlineSectorMap)
         (deadlines : gmap Z Deadline.t) (powerDelta : PowerPair.t) (dlIdxs : list Z)
  : M State.t (gmap Z Deadline.t * PowerPair.t) :=
  match dlIdxs with
  | [] => ret (deadlines, powerDelta)
  | dlIdx :: rest =>
    let* '(deadlines', powerDelta') :=
      faultDeadline pol ops r st info toProcess deadlines powerDelta dlIdx in
    faultDeadlines pol ops r st info toProcess deadlines' powerDelta' rest
  end.

(** The state transaction of [DeclareFaults]: returns the power delta. *)
Definition DeclareFaults_tx (pol : Policy) (ops : DeadlineOps) (r : Runtime)
           (toProcess : DeadlineSectorMap) : M State.t PowerPair.t :=
  let* st := get in
  let info := State.Info st in
  ValidateImmediateCallerIs r (MinerInfo.callers info) ;;
  let* '(deadlines, powerDelta) :=
    faultDeadlines pol ops r st info toProcess (State.Deadlines st) PowerPair.Zero
      (DeadlineSectorMap_Deadlines toProcess) in
  put (State.set_Deadlines deadlines st) ;;
  ret powerDelta.

Definition DeclareFaults (pol : Policy) (ops : DeadlineOps) (r : Runtime)
           (faults : list FaultDeclaration.t) : M (World State.t) unit :=
  (if Z.of_nat (length faults) >? DeclarationsMax pol
   then Abortf exitcode.ErrIllegalArgument
          "too many fault declarations for a single message: %d > %d"
   else ret tt) ;;
  let* toProcess := addFaults pol faults ∅ in
  RequireNoErr (DeadlineSectorMap_Check toProcess (AddressedPartitionsMax pol)
                  (AddressedSectorsMax pol))
    exitcode.ErrIllegalArgument "cannot process requested parameters" ;;
  let* powerDelta := StateTransaction (DeclareFaults_tx pol ops r toProcess) in
  requestUpdatePower r powerDelta.

(** *** Power of sectors

    [QAPowerForSector] of [policy.go], declared outside src/, enters as a
    function of the sector size and the sector. *)

Definition PowerForSector (QAPowerForSector : Z -> SectorOnChainInfo.t -> Z)
           (sectorSize : Z) (sector : SectorOnChainInfo.t) : PowerPair.t :=
  PowerPair.mk (uint64 sectorSize) (QAPowerForSector sectorSize sector).

Definition PowerForSectors (QAPowerForSector : Z -> SectorOnChainInfo.t -> Z)
           (ssize : Z) (sectors : list SectorOnChainInfo.t) : PowerPair.t :=
  let qa := fold_left (fun qa s => qa + QAPowerForSector ssize s) sectors 0 in
  PowerPair.mk (uint64 ssize * uint64 (Z.of_nat (length sectors))) qa.

(** *** Consensus faults *)

Module ConsensusFault.
Record t : Type := mk { Target : Address; Epoch : ChainEpoch; Type_ : Z }.
End ConsensusFault.

(** Policy values of [policy.go] and [monies.go] and [smoothing.Estimate],
    declared outside src/, and the syscall [rt.VerifyConsensusFault] on the
    two block headers and the extra one. *)
Record FaultPolicy : Type := mkFaultPolicy {
  ConsensusFaultIneligibilityDuration : ChainEpoch;
  ConsensusFaultPenalty : TokenAmount -> TokenAmount;
  RewardForConsensusSlashReport : TokenAmount -> TokenAmount;
  Estimate : FilterEstimate -> TokenAmount;
  VerifyConsensusFault : list Z -> list Z -> list Z -> Errorable ConsensusFault.t
}.

(** The methods that the method table above holds by their closing lines
    only, with their bodies. *)
Module Actor.

(** The state transaction of [ReportConsensusFault]; [balance] is
    [rt.CurrentBalance()].  Returns the amount to burn, the reward and
    the pledge delta. *)
Definition ReportConsensusFault_tx (fpol : FaultPolicy) (r : Runtime)
           (fault : ConsensusFault.t) (faultPenalty slasherReward : TokenAmount)
           (balance : TokenAmount) : M State.t (TokenAmount * TokenAmount * TokenAmount) :=
  let currEpoch := CurrEpoch r in
  let pledgeDelta := 0 in
  let* st := get in
  let info := State.Info st in
  (if ConsensusFault.Epoch fault <? MinerInfo.ConsensusFaultElapsed info
   then Abortf exitcode.ErrForbidden
          "fault epoch %d is too old, last exclusion period ended at %d"
   else ret tt) ;;
  TryMethod (ApplyPenalty faultPenalty) exitcode.ErrIllegalState "failed to apply penalty" ;;
  let* '(penaltyFromVesting, penaltyFromBalance) :=
    TryMethod (RepayPartialDebtInPriorityOrder currEpoch balance)
      exitcode.ErrIllegalState "failed to pay fees" in
  let burnAmount := penaltyFromVesting + penaltyFromBalance in
  let pledgeDelta := pledgeDelta + - penaltyFromVesting in
  let rewardAmount := Z.min burnAmount slasherReward in
  let burnAmount := burnAmount - rewardAmount in
  let info :=
    MinerInfo.set_ConsensusFaultElapsed
      (add64 currEpoch (ConsensusFaultIneligibilityDuration fpol)) info in
  let* st1 := get in
  put (State.set_Info info st1) ;;
  ret (burnAmount, rewardAmount, pledgeDelta).

Definition ReportConsensusFault (fpol : FaultPolicy) (peers : Peers) (r : Runtime)
           (BlockHeader1 BlockHeader2 BlockHeaderExtra : list Z)
  : M (World State.t) unit :=
  ValidateImmediateCallerType r CallerTypesSignable ;;
  let reporter := Caller r in
  match VerifyConsensusFault fpol BlockHeader1 BlockHeader2 BlockHeaderExtra with
  | Err _ => Abortf exitcode.ErrIllegalArgument "fault not verified: %s"
  | Val fault =>
    (if negb (ConsensusFault.Target fault =? Receiver r)
     then Abortf exitcode.ErrIllegalArgument "fault by %v reported to miner %v"
     else ret tt) ;;
    let currEpoch := CurrEpoch r in
    let faultAge := sub64 currEpoch (ConsensusFault.Epoch fault) in
    (if faultAge <=? 0
     then Abortf exitcode.ErrIllegalArgument "invalid fault epoch %v ahead of current %v"
     else ret tt) ;;
    let* rewardStats := requestCurrentEpochBlockReward peers in
    let thisEpochReward := Estimate fpol (fst rewardStats) in
    let faultPenalty := ConsensusFaultPenalty fpol thisEpochReward in
    let slasherReward := RewardForConsensusSlashReport fpol thisEpochReward in
    let* balance := CurrentBalance in
    let* '(burnAmount, rewardAmount, pledgeDelta) :=
      StateTransaction
        (ReportConsensusFault_tx fpol r fault faultPenalty slasherReward balance) in
    let* _code := Send r reporter MethodSend rewardAmount in
    burnFunds r burnAmount ;;
    notifyPledgeChanged r pledgeDelta ;;
    checkBalanceInvariants
  end.

End Actor.

End miner.

(** ** A small chain to run the methods on *)

Module fixture.

(** Accepts every message, signature and proof; every address is its own
    ID; address 1000 is a miner, the others are accounts. *)
Definition runtime (currEpoch : ChainEpoch) (caller : Address) : Runtime :=
  mkRuntime currEpoch caller builtin.AccountActorCodeID 1000 0 0 0
    (fun a => Some a)
    (fun a => Some (if a =? 1000 then builtin.StorageMinerActorCodeID
                    else builtin.AccountActorCodeID))
    (fun tag epoch _ => [tag; epoch])
    (fun tag epoch _ => [tag; epoch])
    (fun _ _ _ => true)
    (fun _ => true)
    (fun _ => exitcode.Ok).

Module Market.
Import market.

Definition policy : Policy :=
  mkPolicy 2880 256 (fun _ => true)
    (fun _ => (0, 1000000)) (fun _ _ => (0, 1000000))
    (fun _ _ _ _ _ _ => (0, 1000000)) (fun _ _ => (0, 1000000))
    (fun p => PieceCID p).

(** Miner 1000 has owner 2000, worker 2001 and control address 2002. *)
Definition peers : Peers :=
  mkPeers (fun _ => (exitcode.Ok, (2000, 2001, [2002]))) (exitcode.Ok, 1) (exitcode.Ok, (1, 1)).

Definition deal (pieceCID : Cid) (verified : bool) (startEpoch endEpoch : ChainEpoch)
  : ClientDealProposal :=
  mkClientDealProposal
    (mkDealProposal pieceCID 2048 verified 3000 1000 "label" startEpoch endEpoch 1 5 2) 0.

(** The second deal has started already: it is dropped. *)
Definition deals : list ClientDealProposal :=
  [deal 11 false 100 200; deal 12 false 5 200; deal 13 true 3000 3100].

Definition state : State :=
  mkState ∅ ∅ ∅
    (mkBalances (<[3000 := 1000]> (<[1000 := 1000]> ∅)) ∅ 0 0 0)
    7 ∅ 9.

Definition world : World State := mkWorld state 0 [].

(** No settlement: the helpers of [CronTick] move nothing. *)
Definition settlement : Settlement :=
  mkSettlement (fun _ _ => ret 0)
    (fun r _ deal epoch =>
       if epoch >=? EndEpoch deal then ret (0, epochUndefined, true)
       else ret (0, add64 epoch (DealUpdatesInterval policy), false)).


(** The same chain with a storage miner as the caller, and with a
    value that comes with the message. *)
Definition minerRuntime (currEpoch : ChainEpoch) (caller : Address) : Runtime :=
  let r := runtime currEpoch caller in
  mkRuntime (CurrEpoch r) (Caller r) builtin.StorageMinerActorCodeID (Receiver r)
    (ValueReceived r) (BaseFee r) (TotalFilCircSupply r) (ResolveAddress r)
    (GetActorCodeCID r) (GetRandomnessFromTickets r) (GetRandomnessFromBeacon r)
    (VerifySignature r) (VerifyPoSt r) (SendCode r).

Definition payingRuntime (currEpoch : ChainEpoch) (caller : Address)
           (value : TokenAmount) : Runtime :=
  let r := runtime currEpoch caller in
  mkRuntime (CurrEpoch r) (Caller r) (CallerCode r) (Receiver r)
    value (BaseFee r) (TotalFilCircSupply r) (ResolveAddress r)
    (GetActorCodeCID r) (GetRandomnessFromTickets r) (GetRandomnessFromBeacon r)
    (VerifySignature r) (VerifyPoSt r) (SendCode r).

(** Two deals of provider 1000 are published and pending: deal 7, from
    epoch 100 to 200, and the verified deal 8, from 3000 to 3100; client
    and provider hold 1000 in escrow each, of which 300 of the
    provider's are locked. *)
Definition published : State :=
  mkState (<[7 := Proposal (deal 11 false 100 200)]>
             (<[8 := Proposal (deal 13 true 3000 3100)]> ∅))
    ∅ {[11; 13]}
    (mkBalances (<[3000 := 1000]> (<[1000 := 1000]> ∅)) (<[1000 := 300]> ∅) 0 0 0)
    9 ∅ 9.

Definition publishedWorld : World State := mkWorld published 5000 [].

(** A table that adds, and subtracts down to the floor. *)
Definition balanceTable : BalanceTable :=
  mkBalanceTable
    (fun t key value =>
       let sum := tableGet t key + value in
       if sum <? 0 then builtin.Err None else builtin.Val (<[key := sum]> t))
    (fun t key req floor =>
       let sub := Z.min (Z.max 0 (tableGet t key - floor)) req in
       builtin.Val (sub, <[key := tableGet t key - sub]> t)).

End Market.

Module Miner.
Import miner.

Definition policy : Policy :=
  mkPolicy 48 2880 60 20 1800 70 120960 3780 256 960 518400 1555200
    3000 3000 25000 128 1024
    (fun _ => Some 86550) (fun _ => Some 5256000)
    (fun _ => true) (fun _ => true) (fun _ => true)
    (fun sealProof => Some sealProof) (fun _ => Some 192)
    (fun _ => 10) (fun _ => 256)
    (fun n fee => n * fee)
    (fun size _ _ _ => size)
    (fun _ _ _ => 10) (fun _ _ _ => 30) (fun _ _ => 4).

Definition peers : Peers :=
  mkPeers (exitcode.Ok, ((1, 0), 1)) (exitcode.Ok, (1, 0))
    (fun sectors => (exitcode.Ok, map (fun _ => SectorWeights.mk 0 0 0) sectors)).

(** Every partition holds the sectors 1 and 2; a proof recovers
    [recovered]; a fault takes the power (10, 10) away. *)
Definition ops (recovered : PowerPair.t) : DeadlineOps :=
  mkDeadlineOps
    (fun dl _ _ _ _ partitions =>
       builtin.Val (PoStResult.mk PowerPair.Zero PowerPair.Zero PowerPair.Zero recovered
                      [1; 2] [] (map PoStPartition.Index partitions),
                    dl))
    (fun _ _ =>
       builtin.Val (DisputeInfo.mk [1; 2] [] (<[0 := [1; 2]]> ∅) (PowerPair.mk 10 10)))
    (fun dl _ _ _ _ _ =>
       builtin.Val (PowerPair.mk (-10) (-10),
                    Deadline.mk (Deadline.Partitions dl) (Deadline.ExpirationsEpochs dl)
                      (Deadline.PartitionsPoSted dl) (Deadline.EarlyTerminations dl)
                      (Deadline.LiveSectors dl) (Deadline.TotalSectors dl)
                      (PowerPair.mk 10 10) (Deadline.OptimisticPoStSubmissions dl)
                      (Deadline.SectorsSnapshot dl) (Deadline.PartitionsSnapshot dl)
                      (Deadline.OptimisticPoStSubmissionsSnapshot dl)))
    (fun dl _ _ _ => builtin.Val dl)
    (fun _ all _ => builtin.Val (map (fun n => SectorOnChainInfo.mk n 8 77) all)).


Definition post : proof.PoStProof := proof.mkPoStProof 8 [1; 2; 3].

(** A deadline holding one optimistically accepted proof of its last
    challenge window. *)
Definition deadline : Deadline.t :=
  Deadline.mk 1 1 [] [] 2 2 PowerPair.Zero [] 1 1
    (<[0 := WindowedPoSt.mk [0] [post]]> ∅).

Definition info (elapsed : ChainEpoch) : MinerInfo.t :=
  MinerInfo.mk 2000 2001 [2002] None [] [] 8 2048 2 elapsed None.

(** Proving periods start at epoch 100; 100 tokens are locked, 40 of
    them vest at epoch 50 and 60 at epoch 5000; the fee debt is 7 and the
    initial pledge 200. *)
Definition state (elapsed : ChainEpoch) (earlyTerminations : BitField) : State.t :=
  State.mk (info elapsed) 0 100 [(50, 40); (5000, 60)] 7 200 ∅ ∅ [] 1 100 0
    (list_to_map (map (fun i => (i, deadline)) (seqZ 0 48)))
    earlyTerminations false.

Definition world : World State.t := mkWorld (state (-1) []) 1000 [].


Definition sector (number : SectorNumber) (sealRandEpoch : ChainEpoch)
  : SectorPreCommitInfo.t :=
  SectorPreCommitInfo.mk 8 number 77 sealRandEpoch [] 700000 false.

Definition submission (chainCommitEpoch : ChainEpoch) : SubmitWindowedPoStParams.t :=
  SubmitWindowedPoStParams.mk 0 [PoStPartition.mk 0 []] [post] chainCommitEpoch
    [DomainSeparationTag_PoStChainCommit; chainCommitEpoch].


Definition controlPolicy : ControlPolicy := mkControlPolicy 10 900.

(** Addresses from 5000 on are BLS keys, the others are ID addresses;
    the account [a] has the key [a + 5000]; no address is empty. *)
Definition addressing : Addressing :=
  mkAddressing (fun _ => false) (fun a => if a >=? 5000 then addr.BLS else addr.ID)
    (fun a => (exitcode.Ok, a + 5000)).

(** A new miner has sectors of 2048 bytes, two to a partition, and
    nothing else. *)
Definition construction : Construction :=
  mkConstruction
    (fun owner worker controlAddrs peerId multiaddrs proofType =>
       builtin.Val (MinerInfo.mk owner worker controlAddrs None peerId multiaddrs
                      proofType 2048 2 (-1) None))
    (fun info periodStart deadlineIndex =>
       builtin.Val (State.mk info 0 0 [] 0 0 ∅ ∅ [] 1 periodStart deadlineIndex ∅ []
                      false))
    (fun a e => a + e).

Definition constructorParams : ConstructorParams.t :=
  ConstructorParams.mk 2000 2001 [2002] 8 [1; 2] [[3; 4]].

(** The headers [[1]] and [[2]] are a fault of this miner at epoch 90;
    the penalty is five times the epoch reward, the reward of the
    reporter the epoch reward. *)
Definition faultPolicy : FaultPolicy :=
  mkFaultPolicy 900 (fun reward => 5 * reward) (fun reward => reward) (fun fe => fst fe)
    (fun h1 h2 _ =>
       if bool_decide (h1 = [1]) && bool_decide (h2 = [2])
       then builtin.Val (ConsensusFault.mk 1000 90 1)
       else builtin.Err None).

End Miner.

End fixture.

(** * Properties *)

(** ** Stepping through the monad *)

Lemma bind_Done {W A B} (m : M W A) (k : A -> M W B) (w : W) (b : B) (w' : W) :
  rt.bind m k w = Done (b, w') ->
  exists a w1, m w = Done (a, w1) /\ k a w1 = Done (b, w').
Proof.
  unfold rt.bind. destruct (m w) as [[a w1]|c s]; [|discriminate].
  intros H. exists a, w1. split; [reflexivity | exact H].
Qed.

Lemma bind_Abort {W A B} (m : M W A) (k : A -> M W B) (w : W) (c : Z) (s : string) :
  rt.bind m k w = Abort c s ->
  m w = Abort c s \/ exists a w1, m w = Done (a, w1) /\ k a w1 = Abort c s.
Proof.
  unfold rt.bind. destruct (m w) as [[a w1]|c' s'].
  - intros H. right. exists a, w1. split; [reflexivity | exact H].
  - intros [= -> ->]. left. reflexivity.
Qed.

Lemma bind_eq_Done {W A B} (m : M W A) (k : A -> M W B) (w : W) (a : A) (w1 : W) :
  m w = Done (a, w1) -> rt.bind m k w = k a w1.
Proof. unfold rt.bind. intros ->. reflexivity. Qed.

Lemma bind_eq_Abort {W A B} (m : M W A) (k : A -> M W B) (w : W) (c : Z) (s : string) :
  m w = Abort c s -> rt.bind m k w = Abort c s.
Proof. unfold rt.bind. intros ->. reflexivity. Qed.

(** A guard [if c then Abortf ... else ret tt]. *)
Lemma guard_Done {W} (c : bool) (code : Z) (msg : string) (w : W) (u : unit) (w' : W) :
  (if c then Abortf code msg else ret tt) w = Done (u, w') -> c = false /\ w' = w.
Proof. destruct c; unfold Abortf, ret; [discriminate|]. intros [= _ <-]. auto. Qed.

Lemma guard_false {W} (code : Z) (msg : string) (w : W) :
  (if false then Abortf code msg else ret tt) w = Done (tt, w).
Proof. reflexivity. Qed.

Lemma RequirePredicate_Done {W} (c : bool) (code : Z) (msg : string) (w : W) (u : unit) (w' : W) :
  builtin.RequirePredicate c code msg w = Done (u, w') -> c = true /\ w' = w.
Proof.
  unfold builtin.RequirePredicate. destruct c; unfold Abortf, ret; [|discriminate].
  intros [= _ <-]. auto.
Qed.

Lemma RequireSuccess_Done {W} (code : Z) (msg : string) (w : W) (u : unit) (w' : W) :
  builtin.RequireSuccess code msg w = Done (u, w') -> code = exitcode.Ok /\ w' = w.
Proof.
  unfold builtin.RequireSuccess, exitcode.IsSuccess.
  destruct (Z.eqb_spec code exitcode.Ok); unfold Abortf, ret; [|discriminate].
  intros [= _ <-]. auto.
Qed.

Lemma RequireNoErr_Done {W A} (res : builtin.Errorable A) (code : Z) (msg : string)
      (w : W) (a : A) (w' : W) :
  builtin.RequireNoErr res code msg w = Done (a, w') -> res = builtin.Val a /\ w' = w.
Proof.
  unfold builtin.RequireNoErr. destruct res; unfold Abortf, ret; [|discriminate].
  intros [= <- <-]. auto.
Qed.

Lemma TryMethod_Done {S A} (f : S -> builtin.Errorable (A * S)) (code : Z) (msg : string)
      (st : S) (a : A) (st' : S) :
  builtin.TryMethod f code msg st = Done (a, st') -> f st = builtin.Val (a, st').
Proof.
  unfold builtin.TryMethod. destruct (f st) as [[a0 s0]|]; [|discriminate].
  intros [= <- <-]. reflexivity.
Qed.

Lemma StateTransaction_Done {S A} (f : M S A) (w : World S) (a : A) (w' : World S) :
  StateTransaction f w = Done (a, w') ->
  exists st', f (state w) = Done (a, st') /\ w' = mkWorld st' (balance w) (sent w).
Proof.
  unfold StateTransaction. destruct (f (state w)) as [[a0 s0]|]; [|discriminate].
  intros [= <- <-]. eauto.
Qed.

(** Take a successful run apart, one [bind] at a time. *)
Tactic Notation "step" hyp(H) "as" simple_intropattern(a) simple_intropattern(w)
       simple_intropattern(H1) :=
  apply bind_Done in H; destruct H as (a & w & H1 & H).

Ltac passed H :=
  let Hc := fresh "Hc" in
  apply guard_Done in H; destruct H as [Hc ->].


Lemma pure_ret {W A} (a : A) : pure (W := W) (ret a).
Proof. intros w a' w' [= _ <-]. reflexivity. Qed.

Lemma pure_Abortf {W A} (c : Z) (s : string) : pure (W := W) (A := A) (Abortf c s).
Proof. intros w a' w' [=]. Qed.

Lemma pure_bind {W A B} (m : M W A) (k : A -> M W B) :
  pure m -> (forall a, pure (k a)) -> pure (rt.bind m k).
Proof.
  intros Hm Hk w b w' H. step H as a w1 H1.
  apply Hm in H1. subst w1. by apply Hk in H.
Qed.

Lemma pure_RequirePredicate {W} (c : bool) (code : Z) (msg : string) :
  pure (W := W) (builtin.RequirePredicate c code msg).
Proof. unfold builtin.RequirePredicate. destruct c; [apply pure_ret | apply pure_Abortf]. Qed.

Lemma pure_RequireSuccess {W} (code : Z) (msg : string) :
  pure (W := W) (builtin.RequireSuccess code msg).
Proof.
  unfold builtin.RequireSuccess. destruct (exitcode.IsSuccess code);
    [apply pure_ret | apply pure_Abortf].
Qed.

Lemma pure_RequireNoErr {W A} (res : builtin.Errorable A) (code : Z) (msg : string) :
  pure (W := W) (builtin.RequireNoErr res code msg).
Proof. unfold builtin.RequireNoErr. destruct res; [apply pure_ret | apply pure_Abortf]. Qed.

Lemma pure_ValidateImmediateCallerIs {W} (r : Runtime) (addrs : list Z) :
  pure (W := W) (ValidateImmediateCallerIs r addrs).
Proof.
  unfold ValidateImmediateCallerIs. destruct (existsb _ _); [apply pure_ret | apply pure_Abortf].
Qed.

Lemma pure_ValidateImmediateCallerType {W} (r : Runtime) (types : list Z) :
  pure (W := W) (ValidateImmediateCallerType r types).
Proof.
  unfold ValidateImmediateCallerType. destruct (existsb _ _); [apply pure_ret | apply pure_Abortf].
Qed.

Ltac pure_step :=
  first
    [ apply pure_ret
    | apply pure_Abortf
    | apply pure_RequirePredicate
    | apply pure_RequireSuccess
    | apply pure_RequireNoErr
    | apply pure_ValidateImmediateCallerIs
    | apply pure_ValidateImmediateCallerType
    | apply pure_bind; [|intros ?]
    | match goal with
      | |- pure (match ?x with _ => _ end) => destruct x
      end ].
Ltac pure_tac := repeat pure_step.

(** ** Machine arithmetic *)

Lemma int64_id (z : Z) : MinInt64 <= z <= MaxInt64 -> int64 z = z.
Proof.
  unfold int64, MinInt64, MaxInt64. intros H.
  rewrite Z.mod_small; lia.
Qed.

Lemma add64_id (a b : Z) : MinInt64 <= a + b <= MaxInt64 -> add64 a b = a + b.
Proof. apply int64_id. Qed.

Lemma sub64_id (a b : Z) : MinInt64 <= a - b <= MaxInt64 -> sub64 a b = a - b.
Proof. apply int64_id. Qed.

Lemma mul64_id (a b : Z) : MinInt64 <= a * b <= MaxInt64 -> mul64 a b = a * b.
Proof. apply int64_id. Qed.

Lemma int64_range (z : Z) : MinInt64 <= int64 z <= MaxInt64.
Proof.
  unfold int64, MinInt64, MaxInt64.
  pose proof (Z.mod_pos_bound (z + 2 ^ 63) (2 ^ 64) ltac:(lia)). lia.
Qed.

(** A wrapped value differs from the exact one by a multiple of [2^64]. *)
Lemma int64_spec (z : Z) :
  exists k, int64 z = z + k * 2 ^ 64 /\ MinInt64 <= int64 z <= MaxInt64.
Proof.
  exists (- ((z + 2 ^ 63) / 2 ^ 64)). split; [|apply int64_range].
  unfold int64. rewrite Z.mod_eq by lia. lia.
Qed.

Lemma uint64_id (z : Z) : 0 <= z <= MaxUint64 -> uint64 z = z.
Proof. unfold uint64, MaxUint64. intros H. apply Z.mod_small. lia. Qed.

(** ** Quantization on the grid of multiples of the unit *)

Section Quantize.
Import builtin.
Variable U : Z.
Hypothesis HU : 0 < U < 2 ^ 32.

Lemma QuantizeUp_grid (e : Z) :
  0 <= e < 2 ^ 62 ->
  QuantizeUp (NewQuantSpec U 0) e = U * ((e + U - 1) / U).
Proof using HU.
  intros He. unfold QuantizeUp, rem64, div64. cbn [unit_ offset].
  rewrite Z.rem_0_l by lia.
  rewrite (sub64_id e 0) by (unfold MinInt64, MaxInt64; lia).
  rewrite Z.sub_0_r.
  rewrite Z.rem_mod_nonneg, Z.quot_div_nonneg by lia.
  pose proof (Z.div_mod e U ltac:(lia)) as Hdm.
  pose proof (Z.mod_pos_bound e U ltac:(lia)) as Hm.
  assert (Hq : 0 <= e / U <= e) by (split; [apply Z.div_pos; lia | apply Z.div_le_upper_bound; nia]).
  rewrite (int64_id (e / U)) by (unfold MinInt64, MaxInt64; lia).
  destruct (Z.eqb_spec (e mod U) 0) as [H0|H0].
  - rewrite mul64_id by (unfold MinInt64, MaxInt64; nia).
    rewrite add64_id by (unfold MinInt64, MaxInt64; nia).
    replace (e + U - 1) with ((e / U) * U + (U - 1)) by lia.
    rewrite Z.div_add_l, (Z.div_small (U - 1)) by lia. lia.
  - destruct (Z.ltb_spec e 0); [lia|].
    rewrite (add64_id (e / U) 1) by (unfold MinInt64, MaxInt64; lia).
    rewrite mul64_id by (unfold MinInt64, MaxInt64; nia).
    rewrite add64_id by (unfold MinInt64, MaxInt64; nia).
    replace (e + U - 1) with ((e / U + 1) * U + (e mod U - 1)) by lia.
    rewrite Z.div_add_l, (Z.div_small (e mod U - 1)) by lia. lia.
Qed.

Lemma QuantizeDown_grid (e : Z) :
  0 <= e < 2 ^ 62 ->
  QuantizeDown (NewQuantSpec U 0) e = U * (e / U).
Proof using HU.
  intros He. unfold QuantizeDown. rewrite QuantizeUp_grid by assumption.
  cbn [unit_].
  pose proof (Z.div_mod e U ltac:(lia)) as Hdm.
  pose proof (Z.mod_pos_bound e U ltac:(lia)) as Hm.
  assert (Hq : 0 <= e / U <= e) by (split; [apply Z.div_pos; lia | apply Z.div_le_upper_bound; nia]).
  destruct (Z.eqb_spec (e mod U) 0) as [H0|H0].
  - replace (e + U - 1) with ((e / U) * U + (U - 1)) by lia.
    rewrite Z.div_add_l, (Z.div_small (U - 1)) by lia.
    rewrite Z.add_0_r.
    destruct (Z.eqb_spec e (U * (e / U))); [reflexivity | lia].
  - replace (e + U - 1) with ((e / U + 1) * U + (e mod U - 1)) by lia.
    rewrite Z.div_add_l, (Z.div_small (e mod U - 1)) by lia.
    rewrite Z.add_0_r.
    destruct (Z.eqb_spec e (U * (e / U + 1))); [lia|].
    rewrite sub64_id by (unfold MinInt64, MaxInt64; nia). lia.
Qed.

End Quantize.

(** ** Checks that do not look at the world *)

Lemma blind_ret {W A} (a : A) : blind (W := W) (ret a).
Proof. intros w a' w1 [= <- _] w2. reflexivity. Qed.

Lemma blind_Abortf {W A} (c : Z) (s : string) : blind (W := W) (A := A) (Abortf c s).
Proof. intros w a' w1 [=]. Qed.

Lemma blind_same {W A} (m : M W A) (w : W) (a : A) (w1 : W) :
  blind m -> m w = Done (a, w1) -> w1 = w.
Proof. intros Hm H. specialize (Hm _ _ _ H w). congruence. Qed.

Lemma blind_bind {W A B} (m : M W A) (k : A -> M W B) :
  blind m -> (forall a, blind (k a)) -> blind (rt.bind m k).
Proof.
  intros Hm Hk w b w1 H w2. step H as a w' H1.
  assert (w' = w) by exact (blind_same _ _ _ _ Hm H1). subst w'.
  rewrite (bind_eq_Done _ _ _ _ _ (Hm _ _ _ H1 w2)).
  exact (Hk _ _ _ _ H w2).
Qed.

Lemma blind_RequirePredicate {W} (c : bool) (code : Z) (msg : string) :
  blind (W := W) (builtin.RequirePredicate c code msg).
Proof. unfold builtin.RequirePredicate. destruct c; [apply blind_ret | apply blind_Abortf]. Qed.

Lemma blind_RequireSuccess {W} (code : Z) (msg : string) :
  blind (W := W) (builtin.RequireSuccess code msg).
Proof.
  unfold builtin.RequireSuccess. destruct (exitcode.IsSuccess code);
    [apply blind_ret | apply blind_Abortf].
Qed.

Lemma blind_RequireNoErr {W A} (res : builtin.Errorable A) (code : Z) (msg : string) :
  blind (W := W) (builtin.RequireNoErr res code msg).
Proof. unfold builtin.RequireNoErr. destruct res; [apply blind_ret | apply blind_Abortf]. Qed.

Lemma blind_ValidateImmediateCallerIs {W} (r : Runtime) (addrs : list Z) :
  blind (W := W) (ValidateImmediateCallerIs r addrs).
Proof.
  unfold ValidateImmediateCallerIs. destruct (existsb _ _); [apply blind_ret | apply blind_Abortf].
Qed.

Lemma blind_ValidateImmediateCallerType {W} (r : Runtime) (types : list Z) :
  blind (W := W) (ValidateImmediateCallerType r types).
Proof.
  unfold ValidateImmediateCallerType. destruct (existsb _ _); [apply blind_ret | apply blind_Abortf].
Qed.

Ltac blind_step :=
  first
    [ apply blind_ret
    | apply blind_Abortf
    | apply blind_RequirePredicate
    | apply blind_RequireSuccess
    | apply blind_RequireNoErr
    | apply blind_ValidateImmediateCallerIs
    | apply blind_ValidateImmediateCallerType
    | apply blind_bind; [|intros ?]
    | match goal with
      | |- blind (match ?x with _ => _ end) => destruct x
      end ].
Ltac blind_tac := repeat blind_step.

(** ** Where an abort can come from *)

Lemma avoids_ret {W A} (msg : string) (a : A) : avoids (W := W) msg (ret a).
Proof. intros w c [=]. Qed.

Lemma avoids_Abortf {W A} (msg : string) (c : Z) (s : string) :
  s <> msg -> avoids (W := W) (A := A) msg (Abortf c s).
Proof. intros Hne w c' [= _ E]. contradiction. Qed.

Lemma avoids_bind {W A B} (msg : string) (m : M W A) (k : A -> M W B) :
  avoids msg m -> (forall a, avoids msg (k a)) -> avoids msg (rt.bind m k).
Proof.
  intros Hm Hk w c H. apply bind_Abort in H as [H | (a & w1 & _ & H)].
  - exact (Hm _ _ H).
  - exact (Hk _ _ _ H).
Qed.

Lemma avoids_RequirePredicate {W} (msg : string) (c : bool) (code : Z) (s : string) :
  s <> msg -> avoids (W := W) msg (builtin.RequirePredicate c code s).
Proof.
  intros Hne. unfold builtin.RequirePredicate.
  destruct c; [apply avoids_ret | by apply avoids_Abortf].
Qed.

Lemma avoids_RequireSuccess {W} (msg : string) (code : Z) (s : string) :
  s <> msg -> avoids (W := W) msg (builtin.RequireSuccess code s).
Proof.
  intros Hne. unfold builtin.RequireSuccess.
  destruct (exitcode.IsSuccess code); [apply avoids_ret | by apply avoids_Abortf].
Qed.

Lemma avoids_RequireNoErr {W A} (msg : string) (res : builtin.Errorable A) (code : Z)
      (s : string) :
  s <> msg -> avoids (W := W) msg (builtin.RequireNoErr res code s).
Proof.
  intros Hne. unfold builtin.RequireNoErr.
  destruct res; [apply avoids_ret | by apply avoids_Abortf].
Qed.

Lemma avoids_TryMethod {S A} (msg : string) (f : S -> builtin.Errorable (A * S)) (code : Z)
      (s : string) :
  s <> msg -> avoids msg (builtin.TryMethod f code s).
Proof.
  intros Hne w c. unfold builtin.TryMethod.
  destruct (f w) as [[a s0]|]; [discriminate|]. intros [= _ E]. contradiction.
Qed.

Lemma avoids_get {S} (msg : string) : avoids msg (rt.get (W := S)).
Proof. intros w c [=]. Qed.

Lemma avoids_put {S} (msg : string) (s : S) : avoids msg (rt.put s).
Proof. intros w c [=]. Qed.

Lemma avoids_StateReadonly {S} (msg : string) : avoids msg (StateReadonly (S := S)).
Proof. intros w c [=]. Qed.

Lemma avoids_CurrentBalance {S} (msg : string) : avoids msg (CurrentBalance (S := S)).
Proof. intros w c [=]. Qed.

Lemma avoids_Send {S} (msg : string) (r : Runtime) to method value :
  avoids msg (Send (S := S) r to method value).
Proof.
  intros w c. unfold Send. destruct (balance w <? value); [discriminate|].
  destruct (exitcode.IsSuccess _); discriminate.
Qed.

Lemma avoids_StateTransaction {S A} (msg : string) (f : M S A) :
  avoids msg f -> avoids msg (StateTransaction f).
Proof.
  intros Hf w c. unfold StateTransaction. specialize (Hf (state w) c).
  destruct (f (state w)) as [[a s]|c' s']; [discriminate|]. congruence.
Qed.

Lemma StateTransaction_Abort {S A} (f : M S A) (w : World S) (c : Z) (s : string) :
  StateTransaction f w = Abort c s -> f (state w) = Abort c s.
Proof.
  unfold StateTransaction. destruct (f (state w)) as [[a s0]|]; [discriminate|].
  intros [= -> ->]. reflexivity.
Qed.

Lemma avoids_ValidateImmediateCallerIs {W} (msg : string) (r : Runtime) (addrs : list Z) :
  "caller is not one of the expected addresses" <> msg ->
  avoids (W := W) msg (ValidateImmediateCallerIs r addrs).
Proof.
  intros Hne. unfold ValidateImmediateCallerIs.
  destruct (existsb _ _); [apply avoids_ret | by apply avoids_Abortf].
Qed.

Ltac avoids_step :=
  first
    [ apply avoids_ret
    | apply avoids_get
    | apply avoids_put
    | apply avoids_StateReadonly
    | apply avoids_CurrentBalance
    | apply avoids_Send
    | apply avoids_Abortf; discriminate
    | apply avoids_RequirePredicate; discriminate
    | apply avoids_RequireSuccess; discriminate
    | apply avoids_RequireNoErr; discriminate
    | apply avoids_TryMethod; discriminate
    | apply avoids_ValidateImmediateCallerIs; discriminate
    | apply avoids_StateTransaction
    | apply avoids_bind; [|intros ?]
    | match goal with
      | |- avoids _ (match ?x with _ => _ end) => destruct x
      | |- avoids _ (let '(_, _) := ?x in _) => destruct x
      end ].
Ltac avoids_tac := repeat avoids_step.

(** An abort with [msg] behind a check that does not look at the world and
    never says [msg]: the abort comes from what follows, in the same world. *)
Lemma bind_Abort_after {W A B} (msg : string) (m : M W A) (k : A -> M W B) (w : W) (c : Z) :
  blind m -> avoids msg m -> rt.bind m k w = Abort c msg -> exists a, k a w = Abort c msg.
Proof.
  intros Hb Ha H. apply bind_Abort in H as [H | (a & w1 & H1 & H)].
  - destruct (Ha _ _ H).
  - rewrite (blind_same _ _ _ _ Hb H1) in H. eauto.
Qed.

(** Run through every place an abort can come from. *)
Ltac abort_codes H :=
  match type of H with
  | rt.bind _ _ _ = Abort _ _ =>
    apply bind_Abort in H as [H | (? & ? & _ & H)]; [abort_codes H | abort_codes H]
  | (if ?b then _ else _) _ = Abort _ _ => destruct b eqn:?; abort_codes H
  | (match ?b with _ => _ end) _ = Abort _ _ => destruct b eqn:?; abort_codes H
  | Abortf _ _ _ = Abort _ _ => injection H as <- _; auto
  | ret _ _ = Abort _ _ => discriminate H
  | _ => idtac
  end.

(** ** The market actor *)

Module market_spec.
Import market.

(** *** The first processing epoch *)

Lemma GenRandNextEpoch_grid (pol : Policy) (startEpoch : ChainEpoch) (dealID : DealID) :
  0 < DealUpdatesInterval pol < 2 ^ 32 ->
  0 <= startEpoch < 2 ^ 62 ->
  0 <= dealID <= MaxUint64 ->
  let U := DealUpdatesInterval pol in
  let offset := dealID mod U in
  GenRandNextEpoch pol startEpoch dealID =
  if U * (startEpoch / U) + offset >=? startEpoch
  then U * (startEpoch / U) + offset
  else U * ((startEpoch + U - 1) / U) + offset.
Proof.
  intros HU He Hid U offset. unfold GenRandNextEpoch.
  fold U.
  rewrite (uint64_id dealID) by assumption.
  rewrite (uint64_id U) by (unfold MaxUint64; subst U; lia).
  fold offset.
  rewrite QuantizeDown_grid, QuantizeUp_grid by assumption.
  pose proof (Z.mod_pos_bound dealID U ltac:(lia)) as Ho. fold offset in Ho.
  pose proof (Z.div_mod startEpoch U ltac:(lia)) as Hdm.
  pose proof (Z.mod_pos_bound startEpoch U ltac:(lia)) as Hm.
  assert (Hq : 0 <= startEpoch / U <= startEpoch)
    by (split; [apply Z.div_pos; lia | apply Z.div_le_upper_bound; nia]).
  assert (Hup : (startEpoch + U - 1) / U <= startEpoch / U + 1).
  { replace (startEpoch + U - 1) with ((startEpoch / U) * U + (startEpoch mod U + U - 1)) by lia.
    rewrite Z.div_add_l by lia.
    assert ((startEpoch mod U + U - 1) / U <= 1); [|lia].
    apply Z.lt_succ_r, Z.div_lt_upper_bound; lia. }
  assert (Hup0 : 0 <= (startEpoch + U - 1) / U) by (apply Z.div_pos; lia).
  rewrite !add64_id by (unfold MinInt64, MaxInt64; nia).
  reflexivity.
Qed.

(** The epoch is the one point of the period of [DealUpdatesInterval]
    epochs starting at the start epoch that lies [offset] past a grid
    point, and that grid point is the start epoch snapped down or up. *)
Lemma GenRandNextEpoch_in_period (pol : Policy) (startEpoch : ChainEpoch) (dealID : DealID) :
  0 < DealUpdatesInterval pol < 2 ^ 32 ->
  0 <= startEpoch < 2 ^ 62 ->
  0 <= dealID <= MaxUint64 ->
  let q := builtin.NewQuantSpec (DealUpdatesInterval pol) 0 in
  let offset := dealID mod DealUpdatesInterval pol in
  let e := GenRandNextEpoch pol startEpoch dealID in
  (e = builtin.QuantizeDown q startEpoch + offset
   \/ e = builtin.QuantizeUp q startEpoch + offset)
  /\ builtin.QuantizeDown q startEpoch <= startEpoch <= builtin.QuantizeUp q startEpoch
  /\ builtin.QuantizeDown q startEpoch mod DealUpdatesInterval pol = 0
  /\ builtin.QuantizeUp q startEpoch mod DealUpdatesInterval pol = 0
  /\ startEpoch <= e < startEpoch + DealUpdatesInterval pol.
Proof.
  intros HU He Hid q offset e. subst e q.
  rewrite GenRandNextEpoch_grid by assumption. cbv zeta.
  rewrite QuantizeDown_grid, QuantizeUp_grid by assumption.
  set (U := DealUpdatesInterval pol) in *.
  pose proof (Z.mod_pos_bound dealID U ltac:(lia)) as Ho. fold offset in Ho.
  pose proof (Z.div_mod startEpoch U ltac:(lia)) as Hdm.
  pose proof (Z.mod_pos_bound startEpoch U ltac:(lia)) as Hm.
  assert (Hup : (startEpoch + U - 1) / U = startEpoch / U + (if startEpoch mod U =? 0 then 0 else 1)).
  { replace (startEpoch + U - 1) with ((startEpoch / U) * U + (startEpoch mod U + U - 1)) by lia.
    rewrite Z.div_add_l by lia. f_equal.
    destruct (Z.eqb_spec (startEpoch mod U) 0) as [H0|H0].
    - rewrite H0. apply Z.div_small. lia.
    - replace (startEpoch mod U + U - 1) with (1 * U + (startEpoch mod U - 1)) by lia.
      rewrite Z.div_add_l, Z.div_small by lia. lia. }
  rewrite Hup.
  rewrite !(Z.mul_comm U), !Z.mod_mul by lia.
  subst offset.
  destruct (Z.eqb_spec (startEpoch mod U) 0) as [H0|H0];
    destruct (Z.geb_spec (startEpoch / U * U + dealID mod U) startEpoch); cbv iota; lia.
Qed.

End market_spec.

(** *** PublishStorageDeals *)

Module publish_spec.
Import market.

Lemma onFunds_Done {A} (f : M Balances A) (st : State) (a : A) (st' : State) :
  onFunds f st = Done (a, st') ->
  exists b, f (Funds st) = Done (a, b) /\ st' = set_Funds b st.
Proof.
  unfold onFunds. destruct (f (Funds st)) as [[a0 b]|]; [|discriminate].
  intros [= <- <-]. eauto.
Qed.

Lemma tableGet_insert (t : gmap Z Z) (a x v : Z) :
  tableGet (<[a := v]> t) x = if a =? x then v else tableGet t x.
Proof.
  unfold tableGet. destruct (Z.eqb_spec a x) as [->|Hne].
  - by rewrite lookup_insert_eq.
  - by rewrite lookup_insert_ne.
Qed.

Lemma maybeLockBalance_Done (a : Address) (amount : TokenAmount) (b b' : Balances) (u : unit) :
  maybeLockBalance a amount b = Done (u, b') ->
  0 <= amount
  /\ tableGet (LockedTable b) a + amount <= tableGet (EscrowTable b) a
  /\ (forall x, tableGet (LockedTable b') x
                = tableGet (LockedTable b) x + (if a =? x then amount else 0))
  /\ EscrowTable b' = EscrowTable b
  /\ TotalClientLockedCollateral b' = TotalClientLockedCollateral b
  /\ TotalProviderLockedCollateral b' = TotalProviderLockedCollateral b
  /\ TotalClientStorageFee b' = TotalClientStorageFee b.
Proof.
  unfold maybeLockBalance.
  destruct (Z.ltb_spec amount 0); [discriminate|].
  destruct (Z.gtb_spec (tableGet (LockedTable b) a + amount) (tableGet (EscrowTable b) a));
    [discriminate|].
  intros [= _ <-].
  cbn [EscrowTable LockedTable TotalClientLockedCollateral TotalProviderLockedCollateral
       TotalClientStorageFee].
  repeat split; try lia.
  intros x. rewrite tableGet_insert. destruct (a =? x) eqn:E; [|lia].
  apply Z.eqb_eq in E. subst. lia.
Qed.

Lemma lockClientAndProviderBalances_Done (p : DealProposal) (b b' : Balances) (u : unit) :
  lockClientAndProviderBalances p b = Done (u, b') ->
  (forall x, tableGet (LockedTable b') x = tableGet (LockedTable b) x + lockedFor x p)
  /\ EscrowTable b' = EscrowTable b
  /\ TotalClientLockedCollateral b' = TotalClientLockedCollateral b + ClientCollateral p
  /\ TotalProviderLockedCollateral b' = TotalProviderLockedCollateral b + ProviderCollateral p
  /\ TotalClientStorageFee b' = TotalClientStorageFee b + TotalStorageFee p.
Proof.
  unfold lockClientAndProviderBalances. intros H.
  step H as ? b1 H1. apply maybeLockBalance_Done in H1 as (_ & _ & L1 & E1 & T1 & T2 & T3).
  step H as ? b2 H2. apply maybeLockBalance_Done in H2 as (_ & _ & L2 & E2 & T4 & T5 & T6).
  injection H as _ <-.
  cbn [EscrowTable LockedTable TotalClientLockedCollateral TotalProviderLockedCollateral
       TotalClientStorageFee].
  repeat split; try congruence.
  intros addr. rewrite L2, L1. unfold lockedFor. lia.
Qed.

Lemma Set_In (bf : list Z) (i x : Z) : In x bf -> In x (bitfield.Set_ bf i).
Proof.
  unfold bitfield.Set_. destruct (bitfield.IsSet bf i); [auto|].
  intros H. apply in_or_app. auto.
Qed.

Lemma Set_In_same (bf : list Z) (i : Z) : In i (bitfield.Set_ bf i).
Proof.
  unfold bitfield.Set_, bitfield.IsSet. destruct (existsb (Z.eqb i) bf) eqn:E.
  - apply existsb_exists in E as (y & Hy & Heq). apply Z.eqb_eq in Heq. by subst.
  - apply in_or_app. right. by left.
Qed.

Lemma multimapPut_In (m : gmap Z (list Z)) (e e' : ChainEpoch) (id x : DealID) :
  In x (multimapGet m e') -> In x (multimapGet (multimapPut e id m) e').
Proof.
  unfold multimapPut, multimapGet. intros H.
  destruct (decide (e = e')) as [->|Hne].
  - rewrite lookup_insert_eq. cbn. by apply Set_In.
  - by rewrite lookup_insert_ne.
Qed.

Lemma multimapPut_In_same (m : gmap Z (list Z)) (e : ChainEpoch) (id : DealID) :
  In id (multimapGet (multimapPut e id m) e).
Proof.
  unfold multimapPut, multimapGet. rewrite lookup_insert_eq. cbn. apply Set_In_same.
Qed.

(** What one round of the persisting loop does to the state. *)
Lemma persistDeal_Done (pol : Policy) (cids : list Cid) (vdi : nat)
      (vd : ClientDealProposal) (st st' : State) (id : DealID) :
  persistDeal pol cids vdi vd st = Done (id, st') ->
  id = NextID st
  /\ NextID st' = uint64 (NextID st + 1)
  /\ States st' = States st
  /\ LastCron st' = LastCron st
  /\ (exists pcid, cids !! vdi = Some pcid
                   /\ PendingProposals st' = {[pcid]} ∪ PendingProposals st)
  /\ Proposals st' = <[id := Proposal vd]> (Proposals st)
  /\ DealOpsByEpoch st'
     = multimapPut (GenRandNextEpoch pol (StartEpoch (Proposal vd)) id) id (DealOpsByEpoch st)
  /\ lockClientAndProviderBalances (Proposal vd) (Funds st) = Done (tt, Funds st').
Proof.
  unfold persistDeal. intros H.
  step H as [] st1 H1. apply onFunds_Done in H1 as (b & Hb & ->).
  step H as id' st2 H2. unfold generateStorageDealID in H2. injection H2 as <- <-.
  destruct (cids !! vdi) as [pcid|] eqn:Ec; [|discriminate].
  step H as st3 st4 H3. unfold get in H3. injection H3 as <- <-.
  step H as ? st5 H5. unfold put in H5. injection H5 as _ <-.
  unfold ret in H. injection H as <- <-.
  cbn. repeat split; eauto.
Qed.

(** What the persisting loop does: the deals get the IDs from [NextID]
    on, in order; each is stored, made pending and indexed at its first
    processing epoch; what was there before stays. *)
Lemma persistDeals_Done (pol : Policy) (cids : list Cid) :
  forall (vds : list ClientDealProposal) (vdi : nat) (ids0 : list DealID)
         (st : State) (ids : list DealID) (st' : State),
    0 <= NextID st ->
    NextID st + Z.of_nat (length vds) <= MaxUint64 ->
    persistDeals pol cids vdi vds ids0 st = Done (ids, st') ->
    ids = ids0 ++ map (fun k => NextID st + Z.of_nat k) (seq 0 (length vds))
    /\ NextID st' = NextID st + Z.of_nat (length vds)
    /\ States st' = States st
    /\ LastCron st' = LastCron st
    /\ EscrowTable (Funds st') = EscrowTable (Funds st)
    /\ (forall a, tableGet (LockedTable (Funds st')) a
                  = tableGet (LockedTable (Funds st)) a + lockedTotal a vds)
    /\ (forall id, id < NextID st \/ NextID st + Z.of_nat (length vds) <= id ->
                   Proposals st' !! id = Proposals st !! id)
    /\ PendingProposals st ⊆ PendingProposals st'
    /\ (forall e x, In x (multimapGet (DealOpsByEpoch st) e)
                    -> In x (multimapGet (DealOpsByEpoch st') e))
    /\ (forall (k : nat) vd,
           vds !! k = Some vd ->
           exists pcid,
             cids !! (vdi + k)%nat = Some pcid
             /\ Proposals st' !! (NextID st + Z.of_nat k) = Some (Proposal vd)
             /\ pcid ∈ PendingProposals st'
             /\ In (NextID st + Z.of_nat k)
                   (multimapGet (DealOpsByEpoch st')
                      (GenRandNextEpoch pol (StartEpoch (Proposal vd))
                         (NextID st + Z.of_nat k)))).
Proof.
  induction vds as [|vd rest IH]; intros vdi ids0 st ids st' Hn Hmax H.
  - cbn in H. injection H as <- <-. cbn.
    rewrite app_nil_r, Z.add_0_r. repeat split; auto; try lia.
    intros k vd Hk. discriminate.
  - cbn [persistDeals] in H. step H as id st1 H1.
    apply persistDeal_Done in H1 as (-> & Hnext & Hst & Hlc & (pcid & Hc & Hpend) & Hprop & Hops & Hlock).
    cbn [length] in Hmax.
    rewrite uint64_id in Hnext by lia.
    apply lockClientAndProviderBalances_Done in Hlock as (Hl & He & _).
    apply IH in H as (-> & Hn' & Hst' & Hlc' & He' & Hl' & Hp' & Hpend' & Hops' & Hk');
      [| lia | lia].
    repeat split.
    + rewrite <- app_assoc. f_equal. cbn [length seq map app].
      rewrite Z.add_0_r. f_equal.
      rewrite <- seq_shift, map_map. apply map_ext. intros k. lia.
    + cbn [length]. lia.
    + congruence.
    + congruence.
    + congruence.
    + intros a. rewrite Hl', Hl. cbn [lockedTotal fold_right]. fold (lockedTotal a rest). lia.
    + cbn [length]. intros id Hid. rewrite Hp' by lia. rewrite Hprop.
      apply lookup_insert_ne. lia.
    + intros x Hx. apply Hpend'. rewrite Hpend. apply elem_of_union_r. exact Hx.
    + intros e x Hx. apply Hops'. rewrite Hops. by apply multimapPut_In.
    + intros [|k] vd' Hk.
      * injection Hk as <-. exists pcid.
        rewrite Nat.add_0_r, Z.add_0_r. repeat split.
        -- assumption.
        -- rewrite Hp' by lia. rewrite Hprop. apply lookup_insert_eq.
        -- apply Hpend'. rewrite Hpend. apply elem_of_union_l. by apply elem_of_singleton.
        -- apply Hops'. rewrite Hops. apply multimapPut_In_same.
      * cbn in Hk. apply Hk' in Hk as (pcid' & Hc' & Hpr & Hpe & Hin).
        exists pcid'.
        replace (vdi + S k)%nat with (S vdi + k)%nat by lia.
        replace (NextID st + Z.of_nat (S k)) with (NextID st1 + Z.of_nat k) by lia.
        auto.
Qed.

(** *** The loop that drops invalid deals *)

Lemma filtered_skip pol r params provider raw qa baseline acc acc' di :
  validDeals acc' = validDeals acc ->
  validProposalCids acc' = validProposalCids acc ->
  validInputBf acc' = validInputBf acc ->
  filtered pol r params provider raw qa baseline acc di ->
  filtered pol r params provider raw qa baseline acc' (S di).
Proof.
  intros E1 E2 E3 (H1 & H2 & H0 & H3 & H4). unfold filtered. rewrite E1, E2, E3.
  split_and!; auto.
  intros i Hi. apply H3 in Hi. lia.
Qed.

Lemma publishStep_Done pol r st params provider providerRaw raw qa baseline
      acc (di : nat) deal w acc' w' :
  Z.of_nat (length params) <= MaxUint64 ->
  params !! di = Some deal ->
  filtered pol r params provider raw qa baseline acc di ->
  publishStep pol r st provider providerRaw raw qa baseline acc (Z.of_nat di) deal w
  = Done (acc', w') ->
  filtered pol r params provider raw qa baseline acc' (S di)
  /\ state w' = state w /\ balance w' = balance w.
Proof.
  intros Hlen Hdeal Hinv H. unfold publishStep in H.
  destruct (validateDeal pol r deal raw qa baseline) eqn:Hv.
  { injection H as <- <-. split; [|auto]. by apply (filtered_skip _ _ _ _ _ _ _ acc). }
  destruct (negb (Provider (Proposal deal) =? provider)
            && negb (Provider (Proposal deal) =? providerRaw)).
  { injection H as <- <-. split; [|auto]. by apply (filtered_skip _ _ _ _ _ _ _ acc). }
  destruct (ResolveAddress r (Client (Proposal deal))) as [client|] eqn:Hres.
  2:{ injection H as <- <-. split; [|auto]. by apply (filtered_skip _ _ _ _ _ _ _ acc). }
  cbv zeta in H.
  destruct (negb (balanceCovered (Funds st) client _)).
  { injection H as <- <-. split; [|auto]. by apply (filtered_skip _ _ _ _ _ _ _ acc). }
  cbn [totalProviderLockup proposalCidLookup validProposalCids validDeals totalClientLockup
       validInputBf] in H.
  destruct (negb (balanceCovered (Funds st) provider _)).
  { injection H as <- <-. split; [|auto]. by apply (filtered_skip _ _ _ _ _ _ _ acc). }
  destruct (bool_decide _ || bool_decide _).
  { injection H as <- <-. split; [|auto]. by apply (filtered_skip _ _ _ _ _ _ _ acc). }
  step H as ok w1 H1.
  assert (Hw1 : state w1 = state w /\ balance w1 = balance w).
  { cbn [VerifiedDeal normalised] in H1. destruct (VerifiedDeal (Proposal deal)).
    - step H1 as code w2 H2. injection H1 as _ <-.
      unfold Send in H2. destruct (balance w <? 0); [by injection H2 as _ <-|].
      destruct (exitcode.IsSuccess _); injection H2 as _ <-; cbn; auto with zarith.
    - by injection H1 as _ <-. }
  destruct (negb ok).
  { injection H as <- <-. split; [|assumption]. by apply (filtered_skip _ _ _ _ _ _ _ acc). }
  injection H as <- <-. split; [|assumption].
  destruct Hinv as (I1 & I2 & I0 & I3 & I4).
  assert (Hdi : uint64 (Z.of_nat di) = Z.of_nat di).
  { apply uint64_id. apply lookup_lt_Some in Hdeal. lia. }
  assert (Hfresh : bitfield.Set_ (validInputBf acc) (uint64 (Z.of_nat di))
                   = validInputBf acc ++ [Z.of_nat di]).
  { rewrite Hdi. unfold bitfield.Set_, bitfield.IsSet.
    destruct (existsb (Z.eqb (Z.of_nat di)) (validInputBf acc)) eqn:E; [|reflexivity].
    apply existsb_exists in E as (y & Hy & Heq). apply Z.eqb_eq in Heq. subst y.
    apply I3 in Hy. lia. }
  unfold filtered.
  cbn [validDeals validProposalCids validInputBf].
  rewrite Hfresh, !length_app. cbn [length].
  split_and!; try lia.
  - intros i Hi. apply in_app_or in Hi as [Hi|[<-|[]]]; [apply I3 in Hi|]; lia.
  - intros k i Hk.
    destruct (decide (k < length (validInputBf acc))%nat) as [Hlt|Hge].
    + rewrite lookup_app_l in Hk by assumption.
      apply I4 in Hk as (d & c & P1 & P2 & P3 & P4 & P5).
      exists d, c. repeat split; auto.
      * rewrite lookup_app_l; [assumption | by eapply lookup_lt_Some].
      * rewrite lookup_app_l; [assumption | by eapply lookup_lt_Some].
    + assert (k = length (validInputBf acc)) as ->.
      { apply lookup_lt_Some in Hk. rewrite length_app in Hk. cbn in Hk. lia. }
      rewrite lookup_app_r, Nat.sub_diag in Hk by lia. injection Hk as <-.
      exists deal, client. rewrite Nat2Z.id. repeat split; auto.
      * rewrite <- I2, lookup_app_r, Nat.sub_diag by lia. reflexivity.
      * rewrite <- I2, I1, lookup_app_r, Nat.sub_diag by lia. reflexivity.
Qed.

Lemma publishLoop_Done pol r st params provider providerRaw raw qa baseline :
  Z.of_nat (length params) <= MaxUint64 ->
  forall (deals prefix : list ClientDealProposal) acc w acc' w',
    params = prefix ++ deals ->
    filtered pol r params provider raw qa baseline acc (length prefix) ->
    publishLoop pol r st provider providerRaw raw qa baseline
      (Z.of_nat (length prefix)) deals acc w = Done (acc', w') ->
    filtered pol r params provider raw qa baseline acc' (length params)
    /\ state w' = state w /\ balance w' = balance w.
Proof.
  intros Hlen. induction deals as [|deal rest IH]; intros prefix acc w acc' w' Hp Hinv H.
  - injection H as <- <-. rewrite app_nil_r in Hp. subst prefix. auto.
  - cbn [publishLoop] in H. step H as acc1 w1 H1.
    eapply publishStep_Done in H1 as (Hinv1 & Hs1 & Hb1); eauto.
    2:{ rewrite Hp. rewrite lookup_app_r, Nat.sub_diag by lia. reflexivity. }
    replace (Z.of_nat (length prefix) + 1) with (Z.of_nat (length (prefix ++ [deal]))) in H
      by (rewrite length_app; cbn; lia).
    apply IH in H as (Hinv' & Hs' & Hb').
    + split; [assumption|]. split; congruence.
    + rewrite <- app_assoc. assumption.
    + rewrite length_app. cbn [length]. by rewrite Nat.add_1_r.
Qed.

Lemma pure_PublishStorageDeals_preamble {W} peers r params :
  pure (W := W) (PublishStorageDeals_preamble peers r params).
Proof. unfold PublishStorageDeals_preamble, builtin.RequireParam. pure_tac. Qed.

Lemma filtered_empty pol r params provider raw qa baseline :
  filtered pol r params provider raw qa baseline emptyPublishAcc 0.
Proof.
  unfold filtered. cbn. split_and!; done.
Qed.

Lemma validateDeal_None_start pol r deal raw qa baseline :
  validateDeal pol r deal raw qa baseline = None ->
  CurrEpoch r <= StartEpoch (Proposal deal).
Proof.
  unfold validateDeal. intros H.
  repeat match type of H with
         | (if ?c then Some _ else _) = None => destruct c eqn:?; [discriminate|]
         end.
  lia.
Qed.

(** Everything a successful [PublishStorageDeals] establishes. *)
Lemma PublishStorageDeals_Done pol peers r params w ret w' :
  Z.of_nat (length params) <= MaxUint64 ->
  0 <= NextID (state w) ->
  NextID (state w) + Z.of_nat (length params) <= MaxUint64 ->
  PublishStorageDeals pol peers r params w = Done (ret, w') ->
  exists provider providerRaw raw qa baseline acc w1,
    PublishStorageDeals_preamble peers r params w
    = Done ((provider, providerRaw, raw, qa, baseline), w)
    /\ publishLoop pol r (state w) provider providerRaw raw qa baseline 0 params
         emptyPublishAcc w = Done (acc, w1)
    /\ filtered pol r params provider raw qa baseline acc (length params)
    /\ ValidDeals ret = validInputBf acc
    /\ validInputBf acc <> []
    /\ IDs ret = map (fun k => NextID (state w) + Z.of_nat k) (seq 0 (length (validDeals acc)))
    /\ NextID (state w') = NextID (state w) + Z.of_nat (length (validDeals acc))
    /\ States (state w') = States (state w)
    /\ LastCron (state w') = LastCron (state w)
    /\ EscrowTable (Funds (state w')) = EscrowTable (Funds (state w))
    /\ (forall a, tableGet (LockedTable (Funds (state w'))) a
                  = tableGet (LockedTable (Funds (state w))) a + lockedTotal a (validDeals acc))
    /\ (forall id, id < NextID (state w)
                   \/ NextID (state w) + Z.of_nat (length (validDeals acc)) <= id ->
                   Proposals (state w') !! id = Proposals (state w) !! id)
    /\ (forall (k : nat) vd,
           validDeals acc !! k = Some vd ->
           Proposals (state w') !! (NextID (state w) + Z.of_nat k) = Some (Proposal vd)
           /\ ProposalCid pol (Proposal vd) ∈ PendingProposals (state w')
           /\ In (NextID (state w) + Z.of_nat k)
                 (multimapGet (DealOpsByEpoch (state w'))
                    (GenRandNextEpoch pol (StartEpoch (Proposal vd))
                       (NextID (state w) + Z.of_nat k)))).
Proof.
  intros Hlen Hn Hmax H. unfold PublishStorageDeals in H.
  step H as [[[[provider providerRaw] raw] qa] baseline] w0 Hpre.
  pose proof (pure_PublishStorageDeals_preamble _ _ _ _ _ _ Hpre) as ->.
  step H as st w0 Hst. injection Hst as <- <-.
  step H as acc w1 Hloop.
  pose proof (publishLoop_Done pol r (state w) params provider providerRaw raw qa baseline
                Hlen params [] emptyPublishAcc w acc w1 eq_refl
                (filtered_empty _ _ _ _ _ _ _) Hloop) as (Hf & Hs1 & Hb1).
  step H as ? w2 Hc1. apply RequirePredicate_Done in Hc1 as [_ ->].
  step H as ? w2 Hc2. apply RequirePredicate_Done in Hc2 as [_ ->].
  step H as ? w2 Hc3. apply RequirePredicate_Done in Hc3 as [Hpos ->].
  step H as ids w2 Htx. apply StateTransaction_Done in Htx as (st' & Htx & ->).
  injection H as <- <-. cbn [state IDs ValidDeals].
  pose proof Hf as (F1 & F2 & F0 & F3 & F4).
  rewrite Hs1 in Htx.
  apply persistDeals_Done in Htx as (Hids & Hn' & Hst' & Hlc' & He' & Hl' & Hp' & _ & _ & Hk');
    [| assumption | lia].
  exists provider, providerRaw, raw, qa, baseline, acc, w1.
  split_and!; auto.
  - unfold bitfield.Count in Hpos. intros E. rewrite E in Hpos. discriminate.
  - intros k vd H. split_and!.
    + apply Hk' in H as (pcid & Hc & Hpr & Hpe & Hin). exact Hpr.
    + pose proof H as Hvd.
      apply Hk' in H as (pcid & Hc & Hpr & Hpe & Hin).
      assert (exists i, validInputBf acc !! k = Some i) as [i Hi].
      { apply lookup_lt_is_Some. rewrite <- F2. by eapply lookup_lt_Some. }
      apply F4 in Hi as (d & c & _ & _ & _ & Q1 & Q2).
      rewrite Hvd in Q1. injection Q1 as ->. cbn [Proposal].
      cbn in Hc. rewrite Hc in Q2. injection Q2 as <-. exact Hpe.
    + apply Hk' in H as (pcid & Hc & Hpr & Hpe & Hin). exact Hin.
Qed.

End publish_spec.

Module market_claims.
Import market publish_spec.



(** C9.  Every deal that [PublishStorageDeals] persists is entered in the
    deals-by-epoch index at [q + offset], where [offset] is the deal ID
    modulo [DealUpdatesInterval] and [q] is the start epoch snapped onto
    the grid of [QuantSpec(DealUpdatesInterval, 0)] (down, or up when
    snapping down would fall before the start); that epoch lies in the
    period of [DealUpdatesInterval] epochs that starts at the start epoch. *)
Theorem first_processing_epoch
        (pol : Policy) (peers : Peers) (r : Runtime)
        (params : list ClientDealProposal) (w : World State)
        (ret : PublishStorageDealsReturn) (w' : World State) :
  0 < DealUpdatesInterval pol < 2 ^ 32 ->
  0 <= CurrEpoch r ->
  Forall (fun d => StartEpoch (Proposal d) < 2 ^ 62) params ->
  Z.of_nat (length params) <= MaxUint64 ->
  0 <= NextID (state w) ->
  NextID (state w) + Z.of_nat (length params) <= MaxUint64 ->
  PublishStorageDeals pol peers r params w = Done (ret, w') ->
  forall (k : nat) (id : DealID),
    IDs ret !! k = Some id ->
    exists p,
      Proposals (state w') !! id = Some p
      /\ let q := builtin.NewQuantSpec (DealUpdatesInterval pol) 0 in
         let offset := id mod DealUpdatesInterval pol in
         let e := GenRandNextEpoch pol (StartEpoch p) id in
         In id (multimapGet (DealOpsByEpoch (state w')) e)
         /\ (e = builtin.QuantizeDown q (StartEpoch p) + offset
             \/ e = builtin.QuantizeUp q (StartEpoch p) + offset)
         /\ builtin.QuantizeDown q (StartEpoch p) <= StartEpoch p
            <= builtin.QuantizeUp q (StartEpoch p)
         /\ StartEpoch p <= e < StartEpoch p + DealUpdatesInterval pol.
Proof.
  intros HU Hnow Hstart Hlen Hn Hmax H k id Hid.
  apply PublishStorageDeals_Done in H
    as (provider & providerRaw & raw & qa & baseline & acc & w1 & _ & _ & Hf & Hv & Hne
        & Hids & Hnext & _ & _ & _ & Hl & Hout & Hk); try assumption.
  destruct Hf as (F1 & F2 & F0 & F3 & F4).
  rewrite Hids in Hid. apply list_lookup_fmap_Some in Hid as (k' & -> & Hk').
  apply lookup_seq in Hk' as [-> Hlt]. cbn [Nat.add].
  destruct (lookup_lt_is_Some_2 (validDeals acc) k Hlt) as [vd Hvd].
  destruct (Hk k vd Hvd) as (K1 & K2 & K3).
  exists (Proposal vd). split; [exact K1|]. cbv zeta.
  assert (exists i, validInputBf acc !! k = Some i) as [i Hi].
  { apply lookup_lt_is_Some. by rewrite <- F2. }
  destruct (F4 k i Hi) as (deal & client & P1 & P2 & P3 & P4 & P5).
  rewrite Hvd in P4. injection P4 as ->. cbn [Proposal normalised StartEpoch] in *.
  assert (Hs : 0 <= StartEpoch (Proposal deal) < 2 ^ 62).
  { split.
    - apply validateDeal_None_start in P2. lia.
    - rewrite Forall_forall in Hstart. apply (Hstart deal).
      eapply list_elem_of_lookup_2. exact P1. }
  assert (Hidr : 0 <= NextID (state w) + Z.of_nat k <= MaxUint64).
  { apply lookup_lt_Some in Hi. lia. }
  pose proof (market_spec.GenRandNextEpoch_in_period pol _ _ HU Hs Hidr) as (G1 & G2 & _ & _ & G5).
  split_and!; auto; lia.
Qed.

Lemma first_processing_epoch_witness :
  let r := fixture.runtime 10 2001 in
  let run := PublishStorageDeals fixture.Market.policy fixture.Market.peers r
               fixture.Market.deals in
  exists p,
    Proposals (state (outcome run fixture.Market.world)) !! 8 = Some p
    /\ StartEpoch p <= GenRandNextEpoch fixture.Market.policy (StartEpoch p) 8
       < StartEpoch p + DealUpdatesInterval fixture.Market.policy.
Proof.
  intros r run.
  assert (H0 : 0 < DealUpdatesInterval fixture.Market.policy < 2 ^ 32) by (vm_compute; auto).
  assert (Hnow : 0 <= CurrEpoch r) by (vm_compute; discriminate).
  assert (Hs : Forall (fun d => StartEpoch (Proposal d) < 2 ^ 62) fixture.Market.deals)
    by (repeat constructor).
  assert (H1 : Z.of_nat (length fixture.Market.deals) <= MaxUint64) by (vm_compute; discriminate).
  assert (H2 : 0 <= NextID (state fixture.Market.world)) by (vm_compute; discriminate).
  assert (H3 : NextID (state fixture.Market.world) + Z.of_nat (length fixture.Market.deals)
               <= MaxUint64) by (vm_compute; discriminate).
  assert (H4 : run fixture.Market.world
               = Done (mkPublishStorageDealsReturn [7; 8] [0; 2],
                       outcome run fixture.Market.world)) by (vm_compute; reflexivity).
  destruct (first_processing_epoch fixture.Market.policy fixture.Market.peers r
              fixture.Market.deals fixture.Market.world _ _ H0 Hnow Hs H1 H2 H3 H4
              1%nat 8 eq_refl) as (p & Hp & _ & _ & _ & Hrange).
  exists p. split; assumption.
Defined.

End market_claims.

(** *** CronTick *)

Module cron_spec.
Import market publish_spec.

Lemma cronRange_empty (now : ChainEpoch) :
  now < MaxInt64 -> MinInt64 <= now -> cronRange now now = [].
Proof.
  intros H1 H2. unfold cronRange. rewrite add64_id by lia.
  replace (now - (now + 1) + 1) with 0 by lia. reflexivity.
Qed.

Lemma cronRange_elem (lastCron now e : ChainEpoch) :
  MinInt64 <= lastCron < MaxInt64 ->
  e ∈ cronRange lastCron now <-> lastCron < e <= now.
Proof.
  intros H. unfold cronRange. rewrite add64_id by lia.
  rewrite elem_of_seqZ. lia.
Qed.

(** Settling one deal touches neither the schedule nor [LastCron], and
    reschedules into the future only. *)
Lemma cronDeal_frame pol stl r acc dealID st acc' st' :
  cronDeal pol stl r acc dealID st = Done (acc', st') ->
  DealOpsByEpoch st' = DealOpsByEpoch st
  /\ LastCron st' = LastCron st
  /\ NextID st' = NextID st
  /\ (forall e, In e (map fst (updatesNeeded acc')) ->
                In e (map fst (updatesNeeded acc)) \/ CurrEpoch r < e).
Proof.
  unfold cronDeal. intros H.
  step H as st0 ? H0. injection H0 as <- <-.
  destruct (Proposals st !! dealID) as [deal|]; [|discriminate].
  destruct (States st !! dealID) as [dstate|].
  - step H as ? st1 H1.
    assert (Hst1 : DealOpsByEpoch st1 = DealOpsByEpoch st /\ LastCron st1 = LastCron st
                   /\ NextID st1 = NextID st).
    { destruct (LastUpdatedEpoch dstate =? epochUndefined).
      - step H1 as ? st2 H2. unfold requirePresent in H2.
        destruct (bool_decide _); [|discriminate]. injection H2 as _ <-.
        injection H1 as _ <-. auto.
      - injection H1 as _ <-. auto. }
    destruct Hst1 as (E1 & E2 & E3).
    step H as [[slashAmount nextEpoch] removeDeal] st2 H2.
    apply onFunds_Done in H2 as (b & _ & ->).
    step H as ? st3 H3. apply RequirePredicate_Done in H3 as [_ ->].
    destruct removeDeal.
    + step H as ? st3 H3. apply RequirePredicate_Done in H3 as [_ ->].
      step H as st3 st4 H4. injection H4 as <- <-.
      step H as ? st5 H5. injection H5 as _ <-.
      injection H as <- <-. cbn. auto.
    + step H as ? st3 H3. apply RequirePredicate_Done in H3 as [Hfut ->].
      step H as ? st3 H3. apply RequirePredicate_Done in H3 as [_ ->].
      step H as st3 st4 H4. injection H4 as <- <-.
      step H as ? st5 H5. injection H5 as _ <-.
      injection H as <- <-. cbn [updatesNeeded DealOpsByEpoch LastCron NextID set_States set_Funds].
      split_and!; auto.
      intros e He.
      assert (Hkeys : forall m, In e (map fst (appendUpdate nextEpoch dealID m)) ->
                                In e (map fst m) \/ e = nextEpoch).
      { clear. induction m as [|[e' ids] m IH]; cbn.
        - intros [<-|[]]. auto.
        - destruct (Z.eqb_spec e' nextEpoch); cbn.
          + intros [<-|Hin]; auto.
          + intros [<-|Hin]; auto. apply IH in Hin as [|]; auto. }
      apply Hkeys in He as [He| ->]; [auto|]. right. lia.
  - step H as ? st1 H1. apply RequirePredicate_Done in H1 as [_ ->].
    step H as slashed st1 H1. apply onFunds_Done in H1 as (b & _ & ->).
    step H as st1 st2 H2. injection H2 as <- <-.
    step H as ? st3 H3. injection H3 as _ <-.
    step H as ? st4 H4. unfold requirePresent in H4.
    destruct (bool_decide _); [|discriminate]. injection H4 as _ <-.
    step H as st5 st6 H6. injection H6 as <- <-.
    step H as ? st7 H7. injection H7 as _ <-.
    injection H as <- <-. cbn. auto.
Qed.

Lemma cronDeals_frame pol stl r :
  forall ids acc st acc' st',
    cronDeals pol stl r ids acc st = Done (acc', st') ->
    DealOpsByEpoch st' = DealOpsByEpoch st
    /\ LastCron st' = LastCron st
    /\ NextID st' = NextID st
    /\ (forall e, In e (map fst (updatesNeeded acc')) ->
                  In e (map fst (updatesNeeded acc)) \/ CurrEpoch r < e).
Proof.
  induction ids as [|id rest IH]; intros acc st acc' st' H.
  - injection H as <- <-. auto.
  - cbn [cronDeals] in H. step H as acc1 st1 H1.
    apply cronDeal_frame in H1 as (A1 & A2 & A3 & A4).
    apply IH in H as (B1 & B2 & B3 & B4).
    split_and!; try congruence.
    intros e He. apply B4 in He as [He|He]; auto.
Qed.

(** The epoch loop removes the epochs it runs through from the schedule
    and nothing else. *)
Lemma cronEpochs_frame pol stl r :
  forall epochs acc st acc' st',
    cronEpochs pol stl r epochs acc st = Done (acc', st') ->
    DealOpsByEpoch st' = fold_left (fun m i => delete i m) epochs (DealOpsByEpoch st)
    /\ LastCron st' = LastCron st
    /\ NextID st' = NextID st
    /\ (forall e, In e (map fst (updatesNeeded acc')) ->
                  In e (map fst (updatesNeeded acc)) \/ CurrEpoch r < e).
Proof.
  induction epochs as [|i rest IH]; intros acc st acc' st' H.
  - injection H as <- <-. auto.
  - cbn [cronEpochs] in H.
    step H as st0 ? H0. injection H0 as <- <-.
    step H as acc1 st1 H1. apply cronDeals_frame in H1 as (A1 & A2 & A3 & A4).
    step H as st2 ? H2. injection H2 as <- <-.
    step H as ? st3 H3. injection H3 as _ <-.
    apply IH in H as (B1 & B2 & B3 & B4).
    cbn [DealOpsByEpoch LastCron NextID set_DealOpsByEpoch] in *.
    split_and!; try congruence.
    + rewrite B1, A1. reflexivity.
    + intros e He. apply B4 in He as [He|He]; auto.
Qed.

Lemma fold_delete_lookup (epochs : list Z) (m : gmap Z (list Z)) (e : Z) :
  fold_left (fun m i => delete i m) epochs m !! e
  = if bool_decide (e ∈ epochs) then None else m !! e.
Proof.
  revert m. induction epochs as [|i rest IH]; intros m; cbn.
  - reflexivity.
  - rewrite IH. destruct (decide (e = i)) as [->|Hne].
    + rewrite lookup_delete_eq.
      rewrite (bool_decide_eq_true_2 (i ∈ i :: rest)) by apply list_elem_of_here.
      by destruct (bool_decide _).
    + rewrite lookup_delete_ne by congruence.
      destruct (bool_decide (e ∈ rest)) eqn:E.
      * apply bool_decide_eq_true_1 in E.
        rewrite bool_decide_eq_true_2; [reflexivity | by apply list_elem_of_further].
      * apply bool_decide_eq_false_1 in E.
        rewrite bool_decide_eq_false_2; [reflexivity|].
        rewrite elem_of_cons. tauto.
Qed.

Lemma multimapPutMany_In e ids : forall m e' x,
  In x (multimapGet m e') -> In x (multimapGet (multimapPutMany e ids m) e').
Proof.
  unfold multimapPutMany. induction ids as [|id rest IH]; intros m e' x H; cbn.
  - exact H.
  - apply IH. by apply multimapPut_In.
Qed.

Lemma multimapPutMany_other e ids : forall m e',
  e' <> e -> multimapPutMany e ids m !! e' = m !! e'.
Proof.
  unfold multimapPutMany. induction ids as [|id rest IH]; intros m e' H; cbn.
  - reflexivity.
  - rewrite IH by assumption. unfold multimapPut. by rewrite lookup_insert_ne.
Qed.

Lemma reinsert_In updates : forall changed m e x,
  In x (multimapGet m e) -> In x (multimapGet (reinsert updates changed m) e).
Proof.
  induction changed as [|c rest IH]; intros m e x H; cbn.
  - exact H.
  - apply IH. by apply multimapPutMany_In.
Qed.

Lemma reinsert_other updates : forall changed m e,
  ~ In e changed -> reinsert updates changed m !! e = m !! e.
Proof.
  induction changed as [|c rest IH]; intros m e H; cbn.
  - reflexivity.
  - rewrite IH by (intros Hin; apply H; by right).
    apply multimapPutMany_other. intros ->. apply H. by left.
Qed.

Lemma insertSorted_In e x l : In x (insertSorted e l) <-> x = e \/ In x l.
Proof.
  induction l as [|y l IH]; cbn.
  - intuition.
  - destruct (e <? y); cbn; [intuition|]. rewrite IH. intuition.
Qed.

Lemma sortZ_In x l : In x (sortZ l) <-> In x l.
Proof.
  unfold sortZ. induction l as [|y l IH]; cbn.
  - reflexivity.
  - rewrite insertSorted_In, IH. intuition.
Qed.

(** Settling one deal leaves the records of every other deal alone. *)
Lemma cronDeal_others pol stl r acc dealID st acc' st' :
  cronDeal pol stl r acc dealID st = Done (acc', st') ->
  forall id, id <> dealID ->
    Proposals st' !! id = Proposals st !! id /\ States st' !! id = States st !! id.
Proof.
  unfold cronDeal. intros H id Hid.
  step H as st0 ? H0. injection H0 as <- <-.
  destruct (Proposals st !! dealID) as [deal|]; [|discriminate].
  destruct (States st !! dealID) as [dstate|].
  - step H as ? st1 H1.
    assert (Hst1 : Proposals st1 = Proposals st /\ States st1 = States st).
    { destruct (LastUpdatedEpoch dstate =? epochUndefined).
      - step H1 as ? st2 H2. unfold requirePresent in H2.
        destruct (bool_decide _); [|discriminate]. injection H2 as _ <-.
        injection H1 as _ <-. auto.
      - injection H1 as _ <-. auto. }
    destruct Hst1 as (E1 & E2).
    step H as [[slashAmount nextEpoch] removeDeal] st2 H2.
    apply onFunds_Done in H2 as (b & _ & ->).
    step H as ? st3 H3. apply RequirePredicate_Done in H3 as [_ ->].
    destruct removeDeal.
    + step H as ? st3 H3. apply RequirePredicate_Done in H3 as [_ ->].
      step H as st3 st4 H4. injection H4 as <- <-.
      step H as ? st5 H5. injection H5 as _ <-.
      injection H as <- <-. cbn. rewrite E1, E2.
      by rewrite !lookup_delete_ne by congruence.
    + step H as ? st3 H3. apply RequirePredicate_Done in H3 as [Hfut ->].
      step H as ? st3 H3. apply RequirePredicate_Done in H3 as [_ ->].
      step H as st3 st4 H4. injection H4 as <- <-.
      step H as ? st5 H5. injection H5 as _ <-.
      injection H as <- <-. cbn. rewrite E1, E2.
      by rewrite lookup_insert_ne by congruence.
  - step H as ? st1 H1. apply RequirePredicate_Done in H1 as [_ ->].
    step H as slashed st1 H1. apply onFunds_Done in H1 as (b & _ & ->).
    step H as st1 st2 H2. injection H2 as <- <-.
    step H as ? st3 H3. injection H3 as _ <-.
    step H as ? st4 H4. unfold requirePresent in H4.
    destruct (bool_decide _); [|discriminate]. injection H4 as _ <-.
    step H as st5 st6 H6. injection H6 as <- <-.
    step H as ? st7 H7. injection H7 as _ <-.
    injection H as <- <-. cbn.
    by rewrite lookup_delete_ne by congruence.
Qed.

Lemma cronDeals_others pol stl r :
  forall ids acc st acc' st',
    cronDeals pol stl r ids acc st = Done (acc', st') ->
    forall id, ~ In id ids ->
      Proposals st' !! id = Proposals st !! id /\ States st' !! id = States st !! id.
Proof.
  induction ids as [|d rest IH]; intros acc st acc' st' H id Hid.
  - injection H as <- <-. auto.
  - cbn [cronDeals] in H. step H as acc1 st1 H1.
    assert (Hne : id <> d) by (intros ->; apply Hid; by left).
    destruct (cronDeal_others _ _ _ _ _ _ _ _ H1 id Hne) as [A1 A2].
    destruct (IH _ _ _ _ H id) as [B1 B2]; [intros Hin; apply Hid; by right|].
    split; congruence.
Qed.

Lemma multimapGet_delete (m : gmap Z (list Z)) (i e : Z) (x : Z) :
  In x (multimapGet (delete i m) e) -> In x (multimapGet m e).
Proof.
  unfold multimapGet. destruct (decide (e = i)) as [->|Hne].
  - rewrite lookup_delete_eq. intros [].
  - by rewrite lookup_delete_ne by congruence.
Qed.

Lemma cronEpochs_others pol stl r :
  forall epochs acc st acc' st',
    cronEpochs pol stl r epochs acc st = Done (acc', st') ->
    forall id, (forall e, In e epochs -> ~ In id (multimapGet (DealOpsByEpoch st) e)) ->
      Proposals st' !! id = Proposals st !! id /\ States st' !! id = States st !! id.
Proof.
  induction epochs as [|i rest IH]; intros acc st acc' st' H id Hid.
  - injection H as <- <-. auto.
  - cbn [cronEpochs] in H.
    step H as st0 ? H0. injection H0 as <- <-.
    step H as acc1 st1 H1.
    destruct (cronDeals_frame _ _ _ _ _ _ _ _ H1) as (F1 & _).
    destruct (cronDeals_others _ _ _ _ _ _ _ _ H1 id) as [A1 A2].
    { apply Hid. by left. }
    step H as st2 ? H2. injection H2 as <- <-.
    step H as ? st3 H3. injection H3 as _ <-.
    destruct (IH _ _ _ _ H id) as [B1 B2].
    { intros e He Hin. cbn in Hin. unfold multimapRemoveAll in Hin.
      apply multimapGet_delete in Hin. rewrite F1 in Hin.
      exact (Hid e (or_intror He) Hin). }
    cbn in B1, B2. split; congruence.
Qed.

(** Nothing scheduled in the epochs of the loop: the loop changes nothing. *)
Lemma cronEpochs_idle pol stl r :
  forall epochs acc st,
    (forall e, In e epochs -> DealOpsByEpoch st !! e = None) ->
    cronEpochs pol stl r epochs acc st = Done (acc, st).
Proof.
  induction epochs as [|i rest IH]; intros acc st Hidle.
  - reflexivity.
  - cbn [cronEpochs]. unfold bind at 1. cbn [get].
    unfold multimapGet. rewrite (Hidle i) by (by left). cbn [default cronDeals].
    unfold bind at 1. cbn [ret]. unfold bind at 1. cbn [get].
    unfold bind at 1. cbn [put]. unfold multimapRemoveAll.
    rewrite delete_id by (apply Hidle; by left).
    replace (set_DealOpsByEpoch (DealOpsByEpoch st) st) with st by (by destruct st).
    apply IH. intros e He. apply Hidle. by right.
Qed.

Lemma cronTransaction_idle pol stl r st :
  (forall e, In e (cronRange (LastCron st) (CurrEpoch r)) -> DealOpsByEpoch st !! e = None) ->
  cronTransaction pol stl r st
  = Done (mkCronAcc 0 [] [], set_LastCron (CurrEpoch r) st).
Proof.
  intros Hidle. unfold cronTransaction.
  unfold bind at 1. cbn [get].
  rewrite (bind_eq_Done _ _ _ _ _ (cronEpochs_idle pol stl r _ _ _ Hidle)).
  cbn. by destruct st.
Qed.

End cron_spec.

Module cron_claims.
Import market publish_spec cron_spec.

(** C8. A successful [CronTick] sets [LastCron] to the current epoch; it
    empties the schedule at every epoch of (last_cron, now] and keeps
    whatever is scheduled at the other epochs; the proposal and the state of
    a deal that is not scheduled in (last_cron, now] are left as they were,
    and when nothing is scheduled there the call only moves [LastCron]; a
    second [CronTick] on the resulting world at the same epoch succeeds and
    returns that very world. *)
Theorem CronTick_last_cron_gate pol stl r (w w1 : World State) :
  MinInt64 <= LastCron (state w) < MaxInt64 ->
  MinInt64 <= CurrEpoch r < MaxInt64 ->
  CronTick pol stl r w = Done (tt, w1) ->
  let inRange e := LastCron (state w) < e <= CurrEpoch r in
  LastCron (state w1) = CurrEpoch r
  /\ (forall e, inRange e -> DealOpsByEpoch (state w1) !! e = None)
  /\ (forall e id, ~ inRange e ->
        In id (multimapGet (DealOpsByEpoch (state w)) e) ->
        In id (multimapGet (DealOpsByEpoch (state w1)) e))
  /\ (forall id, (forall e, inRange e -> ~ In id (multimapGet (DealOpsByEpoch (state w)) e)) ->
        Proposals (state w1) !! id = Proposals (state w) !! id
        /\ States (state w1) !! id = States (state w) !! id)
  /\ ((forall e, inRange e -> DealOpsByEpoch (state w) !! e = None) ->
        w1 = mkWorld (set_LastCron (CurrEpoch r) (state w)) (balance w) (sent w))
  /\ CronTick pol stl r w1 = Done (tt, w1).
Proof.
  intros Hlast Hnow H inRange.
  assert (Hrun := H). unfold CronTick in H.
  step H as ? w0 Hcaller.
  assert (w0 = w) by (by apply pure_ValidateImmediateCallerIs in Hcaller). subst w0.
  step H as acc wt Htx.
  apply StateTransaction_Done in Htx as (st' & Htx & ->).
  unfold cronTransaction in Htx.
  step Htx as st0 ? H0. injection H0 as <- <-.
  step Htx as acc0 st1 Hloop.
  step Htx as st2 ? H2. injection H2 as <- <-.
  step Htx as ? st3 H3. injection H3 as _ <-.
  injection Htx as <- <-.
  destruct (cronEpochs_frame _ _ _ _ _ _ _ _ Hloop) as (Fops & Flast & Fnext & Fkeys).
  assert (Hfuture : forall e, In e (sortZ (map fst (updatesNeeded acc0))) -> CurrEpoch r < e).
  { intros e He. apply (proj1 (sortZ_In _ _)) in He. apply Fkeys in He as [[]|He]. exact He. }
  (* the messages after the transaction leave the state alone *)
  assert (Hstate : forall ds (wa wb : World State) u,
             restoreBytes r ds wa = Done (u, wb) -> state wb = state wa).
  { induction ds as [|d ds IH]; intros wa wb u Hr.
    - injection Hr as _ <-. reflexivity.
    - cbn [restoreBytes] in Hr. step Hr as code wc Hs.
      apply IH in Hr. rewrite Hr. unfold Send in Hs.
      destruct (balance wa <? _); [by injection Hs as _ <-|].
      destruct (exitcode.IsSuccess _); by injection Hs as _ <-. }
  step H as ? w2 Hrestore. apply Hstate in Hrestore. cbn [state] in Hrestore.
  assert (Hw1 : state w1 = state w2).
  { destruct (negb (amountSlashed acc0 =? 0)).
    - step H as code w3 Hs. apply RequireSuccess_Done in H as [_ ->].
      unfold Send in Hs. destruct (balance w2 <? _); [by injection Hs as _ <-|].
      destruct (exitcode.IsSuccess _); by injection Hs as _ <-.
    - by injection H as <-. }
  rewrite Hrestore in Hw1. clear Hrestore.
  split_and!.
  - rewrite Hw1. reflexivity.
  - intros e He. rewrite Hw1. cbn.
    rewrite reinsert_other.
    + rewrite Fops, fold_delete_lookup.
      rewrite bool_decide_eq_true_2; [reflexivity|].
      apply cronRange_elem; [exact Hlast | exact He].
    + intros Hin. apply Hfuture in Hin. unfold inRange in He. lia.
  - intros e id He Hin. rewrite Hw1. cbn. apply reinsert_In.
    unfold multimapGet in *. rewrite Fops, fold_delete_lookup.
    rewrite bool_decide_eq_false_2; [exact Hin|].
    rewrite cronRange_elem by exact Hlast. exact He.
  - intros id Hid. rewrite Hw1. cbn.
    apply (cronEpochs_others _ _ _ _ _ _ _ _ Hloop).
    intros e He. apply Hid. apply cronRange_elem; [exact Hlast|].
    by apply list_elem_of_In.
  - intros Hidle.
    assert (E : CronTick pol stl r w
                = Done (tt, mkWorld (set_LastCron (CurrEpoch r) (state w))
                              (balance w) (sent w))).
    { unfold CronTick.
      rewrite (bind_eq_Done _ _ _ _ _ Hcaller).
      unfold StateTransaction. unfold bind at 1.
      rewrite cronTransaction_idle; [reflexivity|].
      intros e He. apply Hidle. apply cronRange_elem; [exact Hlast|].
      by apply list_elem_of_In. }
    rewrite Hrun in E. by injection E.
  - unfold CronTick.
    assert (Hcaller1 : ValidateImmediateCallerIs r [builtin.CronActorAddr] w1 = Done (tt, w1)).
    { revert Hcaller. unfold ValidateImmediateCallerIs.
      destruct (existsb _ _); [reflexivity | discriminate]. }
    rewrite (bind_eq_Done _ _ _ _ _ Hcaller1).
    unfold StateTransaction. unfold bind at 1.
    assert (Hl : LastCron (state w1) = CurrEpoch r) by (rewrite Hw1; reflexivity).
    rewrite cronTransaction_idle.
    2:{ rewrite Hl, cronRange_empty by lia. intros e []. }
    cbn. destruct w1 as [[] b1 m1]. cbn in Hl |- *. rewrite Hl. reflexivity.
Qed.

Lemma CronTick_last_cron_gate_witness :
  let published :=
    outcome (PublishStorageDeals fixture.Market.policy fixture.Market.peers
               (fixture.runtime 10 2001) fixture.Market.deals) fixture.Market.world in
  let r := fixture.runtime 2887 builtin.CronActorAddr in
  let tick := CronTick fixture.Market.policy fixture.Market.settlement r in
  (MinInt64 <= LastCron (state published) < MaxInt64
   /\ MinInt64 <= CurrEpoch r < MaxInt64
   /\ tick published = Done (tt, outcome tick published))
  /\ LastCron (state (outcome tick published)) = 2887
  /\ DealOpsByEpoch (state (outcome tick published)) !! 2887 = None
  /\ tick (outcome tick published) = Done (tt, outcome tick published).
Proof.
  intros published r tick.
  assert (H1 : MinInt64 <= LastCron (state published) < MaxInt64) by (vm_compute; split; [discriminate | reflexivity]).
  assert (H2 : MinInt64 <= CurrEpoch r < MaxInt64) by (vm_compute; split; [discriminate | reflexivity]).
  assert (H3 : tick published = Done (tt, outcome tick published)) by (vm_compute; reflexivity).
  split; [auto|].
  destruct (CronTick_last_cron_gate fixture.Market.policy fixture.Market.settlement r
              published (outcome tick published) H1 H2 H3) as (A & B & _ & _ & _ & C).
  split_and!; [exact A | | exact C].
  apply B. vm_compute. split; [reflexivity | discriminate].
Defined.

End cron_claims.

(** ** The miner actor *)

Module miner_spec.
Import miner builtin.

(** A message leaves the state alone and takes at most its value. *)
Lemma Send_Done {S} (r : Runtime) to method value (w : World S) code w' :
  Send r to method value w = Done (code, w') ->
  state w' = state w
  /\ ((code <> exitcode.Ok /\ w' = w)
      \/ (code = exitcode.Ok /\ balance w' = balance w - value
          /\ sent w' = sent w ++ [mkMessage to method value])).
Proof.
  unfold Send. destruct (balance w <? value).
  - intros [= <- <-]. split; [reflexivity|]. left. split; [discriminate | reflexivity].
  - unfold exitcode.IsSuccess.
    destruct (Z.eqb_spec (SendCode r (mkMessage to method value)) exitcode.Ok) as [E|E];
      intros [= <- <-]; (split; [reflexivity|]).
    + right. cbn. auto.
    + left. auto.
Qed.

Lemma Send_RequireSuccess_Done {S} (r : Runtime) to method value msg (w : World S) u w' :
  (let* code := Send r to method value in RequireSuccess code msg) w = Done (u, w') ->
  state w' = state w /\ balance w' = balance w - value
  /\ sent w' = sent w ++ [mkMessage to method value].
Proof.
  intros H. step H as code w1 H1.
  apply RequireSuccess_Done in H as [-> ->].
  apply Send_Done in H1 as (E & [[Hc _]|(_ & Hb & Hs)]); [congruence | auto].
Qed.

Lemma burnFunds_Done {S} (r : Runtime) amt (w : World S) u w' :
  burnFunds r amt w = Done (u, w') ->
  state w' = state w
  /\ balance w' = balance w - Z.max amt 0
  /\ sent w' = sent w ++ (if amt >? 0 then [mkMessage BurntFundsActorAddr MethodSend amt]
                          else []).
Proof.
  unfold burnFunds. destruct (Z.gtb_spec amt 0) as [Hgt|Hle].
  - intros H. apply Send_RequireSuccess_Done in H as (E1 & E2 & E3).
    split_and!; [exact E1 | lia | exact E3].
  - intros [= _ <-]. rewrite app_nil_r. split_and!; [reflexivity | lia | reflexivity].
Qed.

Lemma notifyPledgeChanged_Done {S} (r : Runtime) delta (w : World S) u w' :
  notifyPledgeChanged r delta w = Done (u, w') ->
  state w' = state w
  /\ balance w' = balance w
  /\ sent w' = sent w ++ (if delta =? 0 then []
                          else [mkMessage StoragePowerActorAddr (UpdatePledgeTotal delta) 0]).
Proof.
  unfold notifyPledgeChanged. destruct (delta =? 0); cbn [negb].
  - intros [= _ <-]. rewrite app_nil_r. auto.
  - intros H. apply Send_RequireSuccess_Done in H as (E1 & E2 & E3).
    split_and!; [exact E1 | lia | exact E3].
Qed.

Lemma requestUpdatePower_Done {S} (r : Runtime) delta (w : World S) u w' :
  requestUpdatePower r delta w = Done (u, w') ->
  state w' = state w
  /\ balance w' = balance w
  /\ sent w' = sent w ++ (if PowerPair.IsZero delta then []
                          else [mkMessage StoragePowerActorAddr
                                  (UpdateClaimedPower (PowerPair.Raw delta) (PowerPair.QA delta))
                                  0]).
Proof.
  unfold requestUpdatePower. destruct (PowerPair.IsZero delta).
  - intros [= _ <-]. rewrite app_nil_r. auto.
  - intros H. apply Send_RequireSuccess_Done in H as (E1 & E2 & E3).
    split_and!; [exact E1 | lia | exact E3].
Qed.

Lemma enrollCronEvent_Done {S} (r : Runtime) epoch kind (w : World S) u w' :
  enrollCronEvent r epoch kind w = Done (u, w') ->
  state w' = state w
  /\ balance w' = balance w
  /\ sent w' = sent w ++ [mkMessage StoragePowerActorAddr (EnrollCronEvent epoch kind) 0].
Proof.
  unfold enrollCronEvent. intros H. apply Send_RequireSuccess_Done in H as (E1 & E2 & E3).
  split_and!; [exact E1 | lia | exact E3].
Qed.

Lemma CheckBalanceInvariants_Val st b u :
  CheckBalanceInvariants st b = Val u ->
  b >= State.PreCommitDeposits st + State.InitialPledge st + State.LockedFunds st.
Proof.
  unfold CheckBalanceInvariants.
  destruct (Z.ltb_spec b (State.PreCommitDeposits st + State.LockedFunds st
                          + State.InitialPledge st)) as [Hlt|Hge]; [discriminate|]. lia.
Qed.

Lemma checkBalanceInvariants_Done (w : World State.t) u w' :
  checkBalanceInvariants w = Done (u, w') -> w' = w /\ balanceInvariant w.
Proof.
  unfold checkBalanceInvariants. intros H.
  step H as st w1 H1. injection H1 as <- <-.
  step H as b w1 H1. injection H1 as <- <-.
  apply RequireNoErr_Done in H as [Hc ->].
  split; [reflexivity|]. by apply CheckBalanceInvariants_Val in Hc.
Qed.




End miner_spec.

(** *** The balance invariant *)

Module balance_spec.
Import miner builtin miner_spec.










End balance_spec.

Module balance_claims.
Import miner builtin miner_spec balance_spec.




End balance_claims.

(** *** Consensus faults *)

Module consensus_spec.
Import miner builtin miner_spec.

(** Checks before the state is opened. *)

Lemma blind_validateExpiration {W} pol r activation expiration sealProof :
  blind (W := W) (validateExpiration pol r activation expiration sealProof).
Proof. unfold validateExpiration. blind_tac. Qed.

Lemma blind_preCommitPrecondition {W} pol r earliest numbers precommit :
  blind (W := W) (preCommitPrecondition pol r earliest numbers precommit).
Proof.
  unfold preCommitPrecondition. blind_tac.
Qed.

Lemma blind_preCommitPreconditions {W} pol r earliest sectors :
  forall numbers, blind (W := W) (preCommitPreconditions pol r earliest numbers sectors).
Proof.
  induction sectors as [|precommit rest IH]; intros numbers; cbn [preCommitPreconditions].
  - apply blind_ret.
  - apply blind_bind; [apply blind_preCommitPrecondition | intros ?; apply IH].
Qed.

Lemma blind_requestCurrentEpochBlockReward {W} peers :
  blind (W := W) (requestCurrentEpochBlockReward peers).
Proof. unfold requestCurrentEpochBlockReward. blind_tac. Qed.

Lemma blind_requestCurrentTotalPower {W} peers :
  blind (W := W) (requestCurrentTotalPower peers).
Proof. unfold requestCurrentTotalPower. blind_tac. Qed.

Lemma blind_requestDealWeights {W} peers sectors :
  blind (W := W) (requestDealWeights peers sectors).
Proof. unfold requestDealWeights. blind_tac. Qed.

Lemma blind_addRecoveries {W} pol recoveries :
  forall toProcess, blind (W := W) (addRecoveries pol recoveries toProcess).
Proof.
  induction recoveries as [|term rest IH]; intros toProcess; cbn [addRecoveries].
  - apply blind_ret.
  - apply blind_bind; [apply blind_RequireNoErr | intros ?; apply IH].
Qed.

(** What [PreCommitSectorBatch] has done when it opens the state. *)
Lemma PreCommitSectorBatch_opening pol peers r sectors (w : World State.t) u w' :
  PreCommitSectorBatch pol peers r sectors w = Done (u, w') ->
  exists sectorNumbers rewardStats pwrTotal dealWeights x st',
    (forall w0 : World State.t,
        ((if Nat.eqb (length sectors) 0
          then Abortf exitcode.ErrIllegalArgument "batch empty"
          else if Z.of_nat (length sectors) >? PreCommitSectorBatchMaxSize pol
               then Abortf exitcode.ErrIllegalArgument "batch of %d too large, max %d"
               else ret tt) : M (World State.t) unit) w0 = Done (tt, w0))
    /\ (forall w0 : World State.t,
           preCommitPreconditions pol r (sub64 (CurrEpoch r) (MaxPreCommitRandomnessLookback pol))
             bitfield.New sectors w0 = Done (sectorNumbers, w0))
    /\ (forall w0 : World State.t,
           requestCurrentEpochBlockReward peers w0 = Done (rewardStats, w0))
    /\ (forall w0 : World State.t, requestCurrentTotalPower peers w0 = Done (pwrTotal, w0))
    /\ (forall w0 : World State.t,
           requestDealWeights peers
             (map (fun precommit => SectorDeals.mk (SectorPreCommitInfo.Expiration precommit)
                                      (SectorPreCommitInfo.DealIDs precommit)) sectors) w0
           = Done (dealWeights, w0))
    /\ Nat.eqb (length dealWeights) (length sectors) = true
    /\ PreCommitSectorBatch_tx pol r sectors sectorNumbers rewardStats pwrTotal dealWeights
         (balance w) (state w) = Done (x, st').
Proof.
  unfold PreCommitSectorBatch. intros H.
  step H as [] w1 H1.
  assert (B1 : blind ((if Nat.eqb (length sectors) 0
          then Abortf exitcode.ErrIllegalArgument "batch empty"
          else if Z.of_nat (length sectors) >? PreCommitSectorBatchMaxSize pol
               then Abortf exitcode.ErrIllegalArgument "batch of %d too large, max %d"
               else ret tt) : M (World State.t) unit)) by blind_tac.
  assert (w1 = w) by exact (blind_same _ _ _ _ B1 H1). subst w1.
  step H as sectorNumbers w2 H2.
  assert (w2 = w) by exact (blind_same _ _ _ _ (blind_preCommitPreconditions _ _ _ _ _) H2).
  subst w2.
  step H as rewardStats w3 H3.
  assert (w3 = w) by exact (blind_same _ _ _ _ (blind_requestCurrentEpochBlockReward _) H3).
  subst w3.
  step H as pwrTotal w4 H4.
  assert (w4 = w) by exact (blind_same _ _ _ _ (blind_requestCurrentTotalPower _) H4).
  subst w4.
  step H as dealWeights w5 H5.
  assert (w5 = w) by exact (blind_same _ _ _ _ (blind_requestDealWeights _ _) H5).
  subst w5.
  step H as ? w6 H6. apply guard_Done in H6 as [Hlen ->].
  step H as bal w7 H7. injection H7 as <- <-.
  step H as out w8 H8. apply StateTransaction_Done in H8 as (st' & H8 & _).
  exists sectorNumbers, rewardStats, pwrTotal, dealWeights, out, st'.
  split_and!.
  - intros w0. exact (B1 _ _ _ H1 w0).
  - intros w0. exact (blind_preCommitPreconditions _ _ _ _ _ _ _ _ H2 w0).
  - intros w0. exact (blind_requestCurrentEpochBlockReward _ _ _ _ H3 w0).
  - intros w0. exact (blind_requestCurrentTotalPower _ _ _ _ H4 w0).
  - intros w0. exact (blind_requestDealWeights _ _ _ _ _ H5 w0).
  - by destruct (Nat.eqb _ _).
  - exact H8.
Qed.

(** The debts do not look at [ConsensusFaultElapsed]. *)

Lemma RepayDebtsOrAbort_elapsed balance e st :
  RepayDebtsOrAbort balance (withConsensusFaultElapsed e st)
  = match RepayDebtsOrAbort balance st with
    | Done (fee, st1) => Done (fee, withConsensusFaultElapsed e st1)
    | Abort c s => Abort c s
    end.
Proof.
  unfold RepayDebtsOrAbort, TryMethod, repayDebts, GetUnlockedBalance.
  destruct st as [info pcd lf vf fd ip pcs pcc al se pps cd dls et dca]. cbn.
  destruct (balance - lf - pcd - ip <? 0); [reflexivity|].
  destruct (balance - lf - pcd - ip <? fd); reflexivity.
Qed.

Lemma RepayDebtsOrAbort_Info balance st fee st1 :
  RepayDebtsOrAbort balance st = Done (fee, st1) -> State.Info st1 = State.Info st.
Proof.
  intros H. apply TryMethod_Done in H. unfold repayDebts in H.
  destruct (GetUnlockedBalance st balance); [|discriminate].
  destruct (_ <? _); [discriminate|]. by injection H as _ <-.
Qed.

Lemma bind_transport {S A B} (t : S -> S) (m : M S A) (k : A -> M S B) :
  (forall st, m (t st) = match m st with
                         | Done (a, s1) => Done (a, t s1)
                         | Abort c s => Abort c s
                         end) ->
  (forall a st, k a (t st) = match k a st with
                             | Done (b, s1) => Done (b, t s1)
                             | Abort c s => Abort c s
                             end) ->
  forall st, rt.bind m k (t st) = match rt.bind m k st with
                                  | Done (b, s1) => Done (b, t s1)
                                  | Abort c s => Abort c s
                                  end.
Proof.
  intros Hm Hk st. unfold rt.bind. rewrite Hm.
  destruct (m st) as [[a s1]|]; [apply Hk | reflexivity].
Qed.

Lemma PreCommitSectorBatch_debts_elapsed pol r sectors balance e st :
  PreCommitSectorBatch_debts pol r sectors balance (withConsensusFaultElapsed e st)
  = match PreCommitSectorBatch_debts pol r sectors balance st with
    | Done (x, st1) => Done (x, withConsensusFaultElapsed e st1)
    | Abort c s => Abort c s
    end.
Proof.
  unfold PreCommitSectorBatch_debts. revert st.
  apply (bind_transport (withConsensusFaultElapsed e)).
  - intros st. destruct (1 <? length sectors)%nat; [|reflexivity].
    unfold TryMethod, ApplyPenalty. destruct (_ <? 0); reflexivity.
  - intros _ st. unfold rt.bind at 1 4. cbn [get].
    change (GetAvailableBalance (withConsensusFaultElapsed e st) balance)
      with (GetAvailableBalance st balance).
    set (gab := GetAvailableBalance st balance). clearbody gab. revert st.
    apply (bind_transport (withConsensusFaultElapsed e)).
    + intros st. unfold RequireNoErr. destruct gab; reflexivity.
    + intros avail. apply (bind_transport (withConsensusFaultElapsed e)).
      * intros st. apply RepayDebtsOrAbort_elapsed.
      * reflexivity.
Qed.

Lemma PreCommitSectorBatch_debts_Info pol r sectors balance st x st1 :
  PreCommitSectorBatch_debts pol r sectors balance st = Done (x, st1) ->
  State.Info st1 = State.Info st.
Proof.
  unfold PreCommitSectorBatch_debts. intros H.
  step H as ? st0 H0.
  assert (E0 : State.Info st0 = State.Info st).
  { destruct (1 <? length sectors)%nat.
    - apply TryMethod_Done in H0. unfold ApplyPenalty in H0.
      destruct (_ <? 0); [discriminate|]. by injection H0 as _ <-.
    - by injection H0 as _ <-. }
  step H as st2 ? H2. injection H2 as <- <-.
  step H as avail ? H3. apply RequireNoErr_Done in H3 as [_ ->].
  step H as fee st3 H4. apply RepayDebtsOrAbort_Info in H4.
  injection H as _ <-. congruence.
Qed.

(** The consensus-fault check of [PreCommitSectorBatch]. *)

Lemma callers_elapsed e info :
  MinerInfo.callers (MinerInfo.set_ConsensusFaultElapsed e info) = MinerInfo.callers info.
Proof. reflexivity. Qed.

Lemma PreCommitSectorBatch_tx_open pol r sectors numbers rewardStats pwrTotal dealWeights
      balance st out st' :
  PreCommitSectorBatch_tx pol r sectors numbers rewardStats pwrTotal dealWeights balance st
  = Done (out, st') ->
  exists x st1,
    PreCommitSectorBatch_debts pol r sectors balance st = Done (x, st1)
    /\ ValidateImmediateCallerIs r (MinerInfo.callers (State.Info st1)) st1 = Done (tt, st1)
    /\ ConsensusFaultActive (State.Info st1) (CurrEpoch r) = false.
Proof.
  unfold PreCommitSectorBatch_tx. intros H.
  step H as [avail fee] st1 H1. exists (avail, fee), st1.
  step H as st2 ? H2. injection H2 as <- <-.
  step H as [] st3 H3.
  assert (st3 = st1) by (by apply pure_ValidateImmediateCallerIs in H3). subst st3.
  step H as ? st4 H4. apply guard_Done in H4 as [Hgate ->].
  auto.
Qed.

Lemma PreCommitSectorBatch_tx_forbidden pol r sectors numbers rewardStats pwrTotal dealWeights
      balance st x st1 :
  PreCommitSectorBatch_debts pol r sectors balance st = Done (x, st1) ->
  ValidateImmediateCallerIs r (MinerInfo.callers (State.Info st1)) st1 = Done (tt, st1) ->
  ConsensusFaultActive (State.Info st1) (CurrEpoch r) = true ->
  PreCommitSectorBatch_tx pol r sectors numbers rewardStats pwrTotal dealWeights balance st
  = Abort exitcode.ErrForbidden "pre-commit not allowed during active consensus fault".
Proof.
  intros H1 H2 H3. unfold PreCommitSectorBatch_tx.
  rewrite (bind_eq_Done _ _ _ _ _ H1). destruct x as [avail fee].
  unfold rt.bind at 1. cbn [get].
  rewrite (bind_eq_Done _ _ _ _ _ H2).
  rewrite H3. reflexivity.
Qed.

Lemma avoids_validateExpiration {W} msg pol r activation expiration sealProof :
  msg = "pre-commit not allowed during active consensus fault" ->
  avoids (W := W) msg (validateExpiration pol r activation expiration sealProof).
Proof. intros ->. unfold validateExpiration. avoids_tac. Qed.

Lemma avoids_preCommitPreconditions {W} msg pol r earliest sectors :
  msg = "pre-commit not allowed during active consensus fault" ->
  forall numbers, avoids (W := W) msg (preCommitPreconditions pol r earliest numbers sectors).
Proof.
  intros ->.
  induction sectors as [|precommit rest IH]; intros numbers; cbn [preCommitPreconditions].
  - apply avoids_ret.
  - apply avoids_bind; [|intros ?; apply IH].
    unfold preCommitPrecondition. avoids_tac.
Qed.

Lemma avoids_preCommitsOnChain {W} msg pol r info rewardStats pwrTotal dealWeights dealCountMax
      sectors :
  In msg ["pre-commit not allowed during active consensus fault";
          "seal challenge epoch %v must be before now %v";
          "seal challenge epoch %v too old, must be after %v"] ->
  forall acc i,
    avoids (W := W) msg
      (preCommitsOnChain pol r info rewardStats pwrTotal dealWeights dealCountMax acc i sectors).
Proof.
  intros Hmsg.
  induction sectors as [|precommit rest IH]; intros acc i; cbn [preCommitsOnChain].
  - apply avoids_ret.
  - apply avoids_bind; [|intros ?; apply IH].
    unfold preCommitOnChain.
    destruct Hmsg as [<-|[<-|[<-|[]]]]; avoids_tac.
Qed.

Lemma avoids_burnFunds {S} msg r amt :
  "failed to burn funds" <> msg -> avoids (W := World S) msg (burnFunds r amt).
Proof.
  intros Hne. unfold burnFunds. destruct (amt >? 0); [|apply avoids_ret].
  apply avoids_bind; [apply avoids_Send | intros ?; by apply avoids_RequireSuccess].
Qed.

Lemma avoids_checkBalanceInvariants msg :
  "balance invariants broken" <> msg -> avoids msg checkBalanceInvariants.
Proof.
  intros Hne. unfold checkBalanceInvariants.
  apply avoids_bind; [apply avoids_StateReadonly | intros ?].
  apply avoids_bind; [apply avoids_CurrentBalance | intros ?].
  by apply avoids_RequireNoErr.
Qed.

Lemma avoids_enrollCronEvent {S} msg r epoch kind :
  "failed to enroll cron event" <> msg -> avoids (W := World S) msg (enrollCronEvent r epoch kind).
Proof.
  intros Hne. unfold enrollCronEvent.
  apply avoids_bind; [apply avoids_Send | intros ?; by apply avoids_RequireSuccess].
Qed.

Lemma PreCommitSectorBatch_tx_inactive pol r sectors numbers rewardStats pwrTotal dealWeights
      balance st c :
  MinerInfo.ConsensusFaultElapsed (State.Info st) < CurrEpoch r ->
  PreCommitSectorBatch_tx pol r sectors numbers rewardStats pwrTotal dealWeights balance st
  <> Abort c "pre-commit not allowed during active consensus fault".
Proof.
  intros Helapsed H. unfold PreCommitSectorBatch_tx in H.
  apply bind_Abort in H as [H | ([avail fee] & st1 & H1 & H)].
  { revert H. unfold PreCommitSectorBatch_debts, RepayDebtsOrAbort. avoids_tac. }
  apply PreCommitSectorBatch_debts_Info in H1.
  apply bind_Abort in H as [H | (st2 & ? & H2 & H)]; [discriminate|].
  injection H2 as <- <-.
  apply bind_Abort in H as [H | (? & st3 & H3 & H)].
  { revert H. by apply avoids_ValidateImmediateCallerIs. }
  apply pure_ValidateImmediateCallerIs in H3. subst st3.
  apply bind_Abort in H as [H | (? & st4 & H4 & H)].
  { unfold ConsensusFaultActive in H. rewrite H1 in H.
    destruct (Z.leb_spec (CurrEpoch r) (MinerInfo.ConsensusFaultElapsed (State.Info st)));
      [lia | discriminate]. }
  revert H. avoids_tac.
  apply avoids_preCommitsOnChain. by left.
Qed.

(** Below the world level: a call with the fault elapsed has gone through
    the gate, with it active and everything else as in a successful call it
    stops there, and with it elapsed it never stops there. *)
Lemma PreCommitSectorBatch_gate pol peers r sectors (w : World State.t) :
  (CurrEpoch r <= MinerInfo.ConsensusFaultElapsed (State.Info (state w)) ->
   (forall u w', PreCommitSectorBatch pol peers r sectors w <> Done (u, w'))
   /\ (forall e u w',
          PreCommitSectorBatch pol peers r sectors (worldWithConsensusFaultElapsed e w)
          = Done (u, w') ->
          PreCommitSectorBatch pol peers r sectors w
          = Abort exitcode.ErrForbidden "pre-commit not allowed during active consensus fault"))
  /\ (MinerInfo.ConsensusFaultElapsed (State.Info (state w)) < CurrEpoch r ->
      forall c, PreCommitSectorBatch pol peers r sectors w
                <> Abort c "pre-commit not allowed during active consensus fault").
Proof.
  split; [intros Hactive; split|intros Helapsed].
  - intros u w' H.
    apply PreCommitSectorBatch_opening in H
      as (numbers & rewardStats & pwrTotal & dealWeights & out & st' & _ & _ & _ & _ & _ & _ & H).
    apply PreCommitSectorBatch_tx_open in H as (x & st1 & H1 & _ & Hgate).
    apply PreCommitSectorBatch_debts_Info in H1. rewrite H1 in Hgate.
    unfold ConsensusFaultActive in Hgate. apply Z.leb_gt in Hgate. lia.
  - intros e u w' H.
    apply PreCommitSectorBatch_opening in H
      as (numbers & rewardStats & pwrTotal & dealWeights & out & st' &
          B1 & B2 & B3 & B4 & B5 & Hlen & H).
    cbn [worldWithConsensusFaultElapsed balance state] in H.
    apply PreCommitSectorBatch_tx_open in H as (x & st1' & H1 & Hcaller & _).
    rewrite PreCommitSectorBatch_debts_elapsed in H1.
    destruct (PreCommitSectorBatch_debts pol r sectors (balance w) (state w))
      as [[x0 st1]|] eqn:Hdebts; [|discriminate].
    injection H1 as -> <-.
    assert (Hinfo := PreCommitSectorBatch_debts_Info _ _ _ _ _ _ _ Hdebts).
    assert (Htx : PreCommitSectorBatch_tx pol r sectors numbers rewardStats pwrTotal dealWeights
                    (balance w) (state w)
                  = Abort exitcode.ErrForbidden
                      "pre-commit not allowed during active consensus fault").
    { apply (PreCommitSectorBatch_tx_forbidden _ _ _ _ _ _ _ _ _ _ _ Hdebts).
      - revert Hcaller. cbn [withConsensusFaultElapsed State.Info State.set_Info].
        rewrite callers_elapsed. unfold ValidateImmediateCallerIs.
        destruct (existsb _ _); [reflexivity | discriminate].
      - unfold ConsensusFaultActive. rewrite Hinfo. apply Z.leb_le. exact Hactive. }
    unfold PreCommitSectorBatch.
    rewrite (bind_eq_Done _ _ _ _ _ (B1 w)).
    rewrite (bind_eq_Done _ _ _ _ _ (B2 w)).
    rewrite (bind_eq_Done _ _ _ _ _ (B3 w)).
    rewrite (bind_eq_Done _ _ _ _ _ (B4 w)).
    rewrite (bind_eq_Done _ _ _ _ _ (B5 w)).
    rewrite Hlen. cbn [negb]. unfold rt.bind at 1. cbn [ret].
    unfold rt.bind at 1. cbn [CurrentBalance].
    apply bind_eq_Abort. unfold StateTransaction. rewrite Htx. reflexivity.
  - intros c H. unfold PreCommitSectorBatch in H.
    apply bind_Abort_after in H as (? & H); [| blind_tac | avoids_tac].
    apply bind_Abort_after in H as (numbers & H);
      [| apply blind_preCommitPreconditions | by apply avoids_preCommitPreconditions].
    apply bind_Abort_after in H as (rewardStats & H);
      [| apply blind_requestCurrentEpochBlockReward
       | unfold requestCurrentEpochBlockReward; avoids_tac].
    apply bind_Abort_after in H as (pwrTotal & H);
      [| apply blind_requestCurrentTotalPower | unfold requestCurrentTotalPower; avoids_tac].
    apply bind_Abort_after in H as (dealWeights & H);
      [| apply blind_requestDealWeights | unfold requestDealWeights; avoids_tac].
    apply bind_Abort_after in H as (? & H); [| blind_tac | avoids_tac].
    apply bind_Abort in H as [H | (bal & w1 & H1 & H)]; [discriminate|].
    injection H1 as <- <-.
    apply bind_Abort in H as [H | ([fee cron] & w1 & H1 & H)].
    + apply StateTransaction_Abort in H.
      exact (PreCommitSectorBatch_tx_inactive _ _ _ _ _ _ _ _ _ _ Helapsed H).
    + revert H. avoids_tac. by apply avoids_burnFunds.
Qed.

(** The consensus-fault check of [DeclareFaultsRecovered]. *)

Lemma DeclareFaultsRecovered_opening pol ops r recoveries (w : World State.t) u w' :
  DeclareFaultsRecovered pol ops r recoveries w = Done (u, w') ->
  exists toProcess fee st',
    (Z.of_nat (length recoveries) >? DeclarationsMax pol) = false
    /\ (forall w0 : World State.t, addRecoveries pol recoveries ∅ w0 = Done (toProcess, w0))
    /\ (forall w0 : World State.t,
           RequireNoErr (DeadlineSectorMap_Check toProcess (AddressedPartitionsMax pol)
                           (AddressedSectorsMax pol))
             exitcode.ErrIllegalArgument "cannot process requested parameters" w0
           = Done (tt, w0))
    /\ DeclareFaultsRecovered_tx pol ops r toProcess (balance w) (state w) = Done (fee, st').
Proof.
  unfold DeclareFaultsRecovered. intros H.
  step H as ? w1 H1. apply guard_Done in H1 as [Hmax ->].
  step H as toProcess w2 H2.
  assert (w2 = w) by exact (blind_same _ _ _ _ (blind_addRecoveries _ _ _) H2). subst w2.
  step H as [] w3 H3.
  assert (w3 = w) by exact (blind_same _ _ _ _ (blind_RequireNoErr _ _ _) H3). subst w3.
  step H as bal w4 H4. injection H4 as <- <-.
  step H as fee w5 H5. apply StateTransaction_Done in H5 as (st' & H5 & _).
  exists toProcess, fee, st'. split_and!.
  - exact Hmax.
  - intros w0. exact (blind_addRecoveries _ _ _ _ _ _ H2 w0).
  - intros w0. exact (blind_RequireNoErr _ _ _ _ _ _ H3 w0).
  - exact H5.
Qed.

Lemma DeclareFaultsRecovered_tx_open pol ops r toProcess balance st fee st' :
  DeclareFaultsRecovered_tx pol ops r toProcess balance st = Done (fee, st') ->
  exists fee1 st1,
    RepayDebtsOrAbort balance st = Done (fee1, st1)
    /\ ValidateImmediateCallerIs r (MinerInfo.callers (State.Info st1)) st1 = Done (tt, st1)
    /\ ConsensusFaultActive (State.Info st1) (CurrEpoch r) = false.
Proof.
  unfold DeclareFaultsRecovered_tx. intros H.
  step H as fee1 st1 H1. exists fee1, st1.
  step H as st2 ? H2. injection H2 as <- <-.
  step H as [] st3 H3.
  assert (st3 = st1) by (by apply pure_ValidateImmediateCallerIs in H3). subst st3.
  step H as ? st4 H4. apply guard_Done in H4 as [Hgate ->].
  auto.
Qed.

Lemma DeclareFaultsRecovered_tx_forbidden pol ops r toProcess balance st fee1 st1 :
  RepayDebtsOrAbort balance st = Done (fee1, st1) ->
  ValidateImmediateCallerIs r (MinerInfo.callers (State.Info st1)) st1 = Done (tt, st1) ->
  ConsensusFaultActive (State.Info st1) (CurrEpoch r) = true ->
  DeclareFaultsRecovered_tx pol ops r toProcess balance st
  = Abort exitcode.ErrForbidden "recovery not allowed during active consensus fault".
Proof.
  intros H1 H2 H3. unfold DeclareFaultsRecovered_tx.
  rewrite (bind_eq_Done _ _ _ _ _ H1).
  unfold rt.bind at 1. cbn [get].
  rewrite (bind_eq_Done _ _ _ _ _ H2).
  rewrite H3. reflexivity.
Qed.

Lemma avoids_addRecoveries {W} msg pol recoveries :
  msg = "recovery not allowed during active consensus fault" ->
  forall toProcess, avoids (W := W) msg (addRecoveries pol recoveries toProcess).
Proof.
  intros ->.
  induction recoveries as [|term rest IH]; intros toProcess; cbn [addRecoveries].
  - apply avoids_ret.
  - apply avoids_bind; [|intros ?; apply IH]. avoids_tac.
Qed.

Lemma avoids_recoverDeadlines msg pol ops r st info toProcess dlIdxs :
  msg = "recovery not allowed during active consensus fault" ->
  forall deadlines,
    avoids msg (recoverDeadlines pol ops r st info toProcess deadlines dlIdxs).
Proof.
  intros ->.
  induction dlIdxs as [|dlIdx rest IH]; intros deadlines; cbn [recoverDeadlines].
  - apply avoids_ret.
  - apply avoids_bind; [|intros ?; apply IH]. unfold recoverDeadline. avoids_tac.
Qed.

Lemma DeclareFaultsRecovered_tx_inactive pol ops r toProcess balance st c :
  MinerInfo.ConsensusFaultElapsed (State.Info st) < CurrEpoch r ->
  DeclareFaultsRecovered_tx pol ops r toProcess balance st
  <> Abort c "recovery not allowed during active consensus fault".
Proof.
  intros Helapsed H. unfold DeclareFaultsRecovered_tx in H.
  apply bind_Abort in H as [H | (fee1 & st1 & H1 & H)].
  { revert H. unfold RepayDebtsOrAbort. avoids_tac. }
  apply RepayDebtsOrAbort_Info in H1.
  apply bind_Abort in H as [H | (st2 & ? & H2 & H)]; [discriminate|].
  injection H2 as <- <-.
  apply bind_Abort in H as [H | (? & st3 & H3 & H)].
  { revert H. by apply avoids_ValidateImmediateCallerIs. }
  apply pure_ValidateImmediateCallerIs in H3. subst st3.
  apply bind_Abort in H as [H | (? & st4 & H4 & H)].
  { unfold ConsensusFaultActive in H. rewrite H1 in H.
    destruct (Z.leb_spec (CurrEpoch r) (MinerInfo.ConsensusFaultElapsed (State.Info st)));
      [lia | discriminate]. }
  revert H. avoids_tac.
  by apply avoids_recoverDeadlines.
Qed.

Lemma DeclareFaultsRecovered_gate pol ops r recoveries (w : World State.t) :
  (CurrEpoch r <= MinerInfo.ConsensusFaultElapsed (State.Info (state w)) ->
   (forall u w', DeclareFaultsRecovered pol ops r recoveries w <> Done (u, w'))
   /\ (forall e u w',
          DeclareFaultsRecovered pol ops r recoveries (worldWithConsensusFaultElapsed e w)
          = Done (u, w') ->
          DeclareFaultsRecovered pol ops r recoveries w
          = Abort exitcode.ErrForbidden "recovery not allowed during active consensus fault"))
  /\ (MinerInfo.ConsensusFaultElapsed (State.Info (state w)) < CurrEpoch r ->
      forall c, DeclareFaultsRecovered pol ops r recoveries w
                <> Abort c "recovery not allowed during active consensus fault").
Proof.
  split; [intros Hactive; split|intros Helapsed].
  - intros u w' H.
    apply DeclareFaultsRecovered_opening in H as (toProcess & fee & st' & _ & _ & _ & H).
    apply DeclareFaultsRecovered_tx_open in H as (fee1 & st1 & H1 & _ & Hgate).
    apply RepayDebtsOrAbort_Info in H1. rewrite H1 in Hgate.
    unfold ConsensusFaultActive in Hgate. apply Z.leb_gt in Hgate. lia.
  - intros e u w' H.
    apply DeclareFaultsRecovered_opening in H as (toProcess & fee & st' & Hmax & B1 & B2 & H).
    cbn [worldWithConsensusFaultElapsed balance state] in H.
    apply DeclareFaultsRecovered_tx_open in H as (fee1 & st1' & H1 & Hcaller & _).
    rewrite RepayDebtsOrAbort_elapsed in H1.
    destruct (RepayDebtsOrAbort (balance w) (state w)) as [[fee0 st1]|] eqn:Hdebts;
      [|discriminate].
    injection H1 as -> <-.
    assert (Hinfo := RepayDebtsOrAbort_Info _ _ _ _ Hdebts).
    assert (Htx : DeclareFaultsRecovered_tx pol ops r toProcess (balance w) (state w)
                  = Abort exitcode.ErrForbidden
                      "recovery not allowed during active consensus fault").
    { apply (DeclareFaultsRecovered_tx_forbidden _ _ _ _ _ _ _ _ Hdebts).
      - revert Hcaller. cbn [withConsensusFaultElapsed State.Info State.set_Info].
        rewrite callers_elapsed. unfold ValidateImmediateCallerIs.
        destruct (existsb _ _); [reflexivity | discriminate].
      - unfold ConsensusFaultActive. rewrite Hinfo. apply Z.leb_le. exact Hactive. }
    unfold DeclareFaultsRecovered.
    rewrite Hmax. unfold rt.bind at 1. cbn [ret].
    rewrite (bind_eq_Done _ _ _ _ _ (B1 w)).
    rewrite (bind_eq_Done _ _ _ _ _ (B2 w)).
    unfold rt.bind at 1. cbn [CurrentBalance].
    apply bind_eq_Abort. unfold StateTransaction. rewrite Htx. reflexivity.
  - intros c H. unfold DeclareFaultsRecovered in H.
    apply bind_Abort_after in H as (? & H); [| blind_tac | avoids_tac].
    apply bind_Abort_after in H as (toProcess & H);
      [| apply blind_addRecoveries | by apply avoids_addRecoveries].
    apply bind_Abort_after in H as (? & H); [| blind_tac | avoids_tac].
    apply bind_Abort in H as [H | (bal & w1 & H1 & H)]; [discriminate|].
    injection H1 as <- <-.
    apply bind_Abort in H as [H | (fee & w1 & H1 & H)].
    + apply StateTransaction_Abort in H.
      exact (DeclareFaultsRecovered_tx_inactive _ _ _ _ _ _ _ Helapsed H).
    + revert H. avoids_tac. by apply avoids_burnFunds.
Qed.

End consensus_spec.

Module consensus_claims.
Import miner builtin miner_spec consensus_spec.

(** C7, as stated, fails at [ConsensusFaultElapsed] = current epoch: the
    elapsed epoch is not greater than the current one, yet the worker's
    pre-commit and recovery declaration at epoch 200 on a miner whose fault
    elapses at 200 are refused by the consensus-fault gate. *)
Lemma consensus_fault_active_at_elapsed_epoch :
  ~ (forall pol peers ops r sectors recoveries (w : World State.t),
        ~ (MinerInfo.ConsensusFaultElapsed (State.Info (state w)) > CurrEpoch r) ->
        PreCommitSectorBatch pol peers r sectors w
        <> Abort exitcode.ErrForbidden "pre-commit not allowed during active consensus fault"
        /\ DeclareFaultsRecovered pol ops r recoveries w
           <> Abort exitcode.ErrForbidden "recovery not allowed during active consensus fault").
Proof.
  intros H.
  destruct (H fixture.Miner.policy fixture.Miner.peers (fixture.Miner.ops PowerPair.Zero)
              (fixture.runtime 200 2001) [fixture.Miner.sector 5 199]
              [RecoveryDeclaration.mk 5 0 [1]]
              (mkWorld (fixture.Miner.state 200 []) 1000 [])) as [H1 _].
  - vm_compute. discriminate.
  - apply H1. vm_compute. reflexivity.
Qed.

(** C7, amended.  While the current epoch has not passed the miner's
    [ConsensusFaultElapsed] (elapsed >= now), [PreCommitSectorBatch] and
    [DeclareFaultsRecovered] never succeed, and a call that would succeed
    with the fault elapsed aborts with [ErrForbidden] at the consensus-fault
    gate; once [ConsensusFaultElapsed] is below the current epoch neither
    method aborts at that gate. *)
Theorem consensus_fault_gate pol peers ops r sectors recoveries (w : World State.t) :
  (CurrEpoch r <= MinerInfo.ConsensusFaultElapsed (State.Info (state w)) ->
   (forall u w', PreCommitSectorBatch pol peers r sectors w <> Done (u, w'))
   /\ (forall u w', DeclareFaultsRecovered pol ops r recoveries w <> Done (u, w'))
   /\ (forall e u w',
          PreCommitSectorBatch pol peers r sectors (worldWithConsensusFaultElapsed e w)
          = Done (u, w') ->
          PreCommitSectorBatch pol peers r sectors w
          = Abort exitcode.ErrForbidden "pre-commit not allowed during active consensus fault")
   /\ (forall e u w',
          DeclareFaultsRecovered pol ops r recoveries (worldWithConsensusFaultElapsed e w)
          = Done (u, w') ->
          DeclareFaultsRecovered pol ops r recoveries w
          = Abort exitcode.ErrForbidden "recovery not allowed during active consensus fault"))
  /\ (MinerInfo.ConsensusFaultElapsed (State.Info (state w)) < CurrEpoch r ->
      (forall c, PreCommitSectorBatch pol peers r sectors w
                 <> Abort c "pre-commit not allowed during active consensus fault")
      /\ (forall c, DeclareFaultsRecovered pol ops r recoveries w
                    <> Abort c "recovery not allowed during active consensus fault")).
Proof.
  destruct (PreCommitSectorBatch_gate pol peers r sectors w) as [P1 P2].
  destruct (DeclareFaultsRecovered_gate pol ops r recoveries w) as [D1 D2].
  split.
  - intros Hactive. destruct (P1 Hactive) as [P1a P1b]. destruct (D1 Hactive) as [D1a D1b].
    auto.
  - intros Helapsed. auto.
Qed.

Lemma consensus_fault_gate_witness :
  let r := fixture.runtime 200 2001 in
  let w := mkWorld (fixture.Miner.state 200 []) 1000 [] in
  let sectors := [fixture.Miner.sector 5 199] in
  let recoveries := [RecoveryDeclaration.mk 5 0 [1]] in
  let ops := fixture.Miner.ops PowerPair.Zero in
  (CurrEpoch r <= MinerInfo.ConsensusFaultElapsed (State.Info (state w))
   /\ exitcode.IsSuccess
        (exit (PreCommitSectorBatch fixture.Miner.policy fixture.Miner.peers r sectors)
           (worldWithConsensusFaultElapsed 199 w)) = true
   /\ exitcode.IsSuccess
        (exit (DeclareFaultsRecovered fixture.Miner.policy ops r recoveries)
           (worldWithConsensusFaultElapsed 199 w)) = true)
  /\ PreCommitSectorBatch fixture.Miner.policy fixture.Miner.peers r sectors w
     = Abort exitcode.ErrForbidden "pre-commit not allowed during active consensus fault"
  /\ DeclareFaultsRecovered fixture.Miner.policy ops r recoveries w
     = Abort exitcode.ErrForbidden "recovery not allowed during active consensus fault".
Proof.
  intros r w sectors recoveries ops.
  assert (H1 : CurrEpoch r <= MinerInfo.ConsensusFaultElapsed (State.Info (state w)))
    by (vm_compute; discriminate).
  assert (H2 : PreCommitSectorBatch fixture.Miner.policy fixture.Miner.peers r sectors
                 (worldWithConsensusFaultElapsed 199 w)
               = Done (tt, outcome (PreCommitSectorBatch fixture.Miner.policy
                                      fixture.Miner.peers r sectors)
                             (worldWithConsensusFaultElapsed 199 w)))
    by (vm_compute; reflexivity).
  assert (H3 : DeclareFaultsRecovered fixture.Miner.policy ops r recoveries
                 (worldWithConsensusFaultElapsed 199 w)
               = Done (tt, outcome (DeclareFaultsRecovered fixture.Miner.policy ops r recoveries)
                             (worldWithConsensusFaultElapsed 199 w)))
    by (vm_compute; reflexivity).
  split.
  - split; [exact H1|]. split; vm_compute; reflexivity.
  - destruct (consensus_fault_gate fixture.Miner.policy fixture.Miner.peers ops r sectors
                recoveries w) as [A _].
    destruct (A H1) as (_ & _ & P & D).
    split; [exact (P _ _ _ H2) | exact (D _ _ _ H3)].
Defined.

End consensus_claims.

(** *** WithdrawBalance *)

Module withdraw_claims.
Import miner builtin miner_spec.

(** C2.  For a non-negative requested amount: a caller other than the owner
    is refused; the owner is refused with [ErrForbidden] whenever the
    early-terminations bitfield is non-empty, whatever the amount; and a
    call that succeeds was made by the owner with no early termination
    pending, has repaid the fee debt inside its transaction (the state it
    leaves has [FeeDebt] 0), returns [min(available, requested)], where
    [available] is the available balance once the vested funds are unlocked
    and before the debt is repaid, and sends exactly that amount to the
    owner, then the repaid debt to the burnt-funds actor, then the pledge
    update. *)
Theorem WithdrawBalance_pays_min_to_owner r amountRequested (w : World State.t) :
  0 <= amountRequested ->
  let st := state w in
  let owner := MinerInfo.Owner (State.Info st) in
  (Caller r <> owner ->
   WithdrawBalance r amountRequested w
   = Abort exitcode.SysErrForbidden "caller is not one of the expected addresses")
  /\ (Caller r = owner -> State.EarlyTerminations st <> [] ->
      WithdrawBalance r amountRequested w
      = Abort exitcode.ErrForbidden
          "cannot withdraw funds while %d deadlines have terminated sectors with outstanding fees")
  /\ (forall amountWithdrawn w',
        WithdrawBalance r amountRequested w = Done (amountWithdrawn, w') ->
        Caller r = owner
        /\ State.EarlyTerminations st = []
        /\ exists newlyVested st1 available,
             UnlockVestedFunds (CurrEpoch r) st = Val (newlyVested, st1)
             /\ GetAvailableBalance st1 (balance w) = Val available
             /\ amountWithdrawn = Z.min available amountRequested
             /\ 0 <= amountWithdrawn
             /\ state w' = State.set_FeeDebt 0 st1
             /\ balance w' = balance w - amountWithdrawn - Z.max (State.FeeDebt st1) 0
             /\ sent w'
                = sent w
                  ++ (if amountWithdrawn >? 0
                      then [mkMessage owner MethodSend amountWithdrawn] else [])
                  ++ (if State.FeeDebt st1 >? 0
                      then [mkMessage BurntFundsActorAddr MethodSend (State.FeeDebt st1)]
                      else [])
                  ++ (if - newlyVested =? 0 then []
                      else [mkMessage StoragePowerActorAddr
                              (UpdatePledgeTotal (- newlyVested)) 0])).
Proof.
  intros Hamount st owner.
  assert (Hneg : (amountRequested <? 0) = false) by (apply Z.ltb_ge; lia).
  split_and!.
  - intros Hcaller. unfold WithdrawBalance. rewrite Hneg.
    unfold rt.bind at 1. cbn [ret]. unfold rt.bind at 1. cbn [CurrentBalance].
    apply bind_eq_Abort. unfold StateTransaction, WithdrawBalance_tx.
    unfold rt.bind at 1. cbn [get]. unfold rt.bind at 1.
    unfold ValidateImmediateCallerIs. cbn [existsb].
    destruct (Z.eqb_spec (Caller r) (MinerInfo.Owner (State.Info (state w))));
      [contradiction | reflexivity].
  - intros Hcaller Hearly. unfold WithdrawBalance. rewrite Hneg.
    unfold rt.bind at 1. cbn [ret]. unfold rt.bind at 1. cbn [CurrentBalance].
    apply bind_eq_Abort. unfold StateTransaction, WithdrawBalance_tx.
    unfold rt.bind at 1. cbn [get]. unfold rt.bind at 1.
    unfold ValidateImmediateCallerIs. cbn [existsb]. fold owner. rewrite Hcaller.
    rewrite Z.eqb_refl. cbn [orb ret].
    unfold rt.bind at 1.
    assert (Hcount : (bitfield.Count (State.EarlyTerminations (state w)) >? 0) = true).
    { unfold bitfield.Count. fold st. destruct (State.EarlyTerminations st); [congruence|].
      cbn [length]. apply Z.gtb_lt. lia. }
    rewrite Hcount. reflexivity.
  - intros v w' H. unfold WithdrawBalance in H.
    step H as ? w1 H1. apply guard_Done in H1 as [_ ->].
    step H as bal w1 H1. injection H1 as <- <-.
    step H as [[[info newlyVested] available] feeToBurn] w3 H3.
    apply StateTransaction_Done in H3 as (st3 & H3 & ->).
    unfold WithdrawBalance_tx in H3.
    step H3 as st0 ? H0. injection H0 as <- <-.
    step H3 as ? s1 Hc.
    assert (Hcaller : Caller r = owner).
    { revert Hc. unfold ValidateImmediateCallerIs. cbn [existsb]. fold st owner.
      destruct (Z.eqb_spec (Caller r) owner); [auto | discriminate]. }
    apply pure_ValidateImmediateCallerIs in Hc. subst s1.
    step H3 as ? s1 He. apply guard_Done in He as [Hearly ->].
    step H3 as vested s1 Hv. apply TryMethod_Done in Hv.
    step H3 as s2 ? H2. injection H2 as <- <-.
    step H3 as avail ? Ha. apply RequireNoErr_Done in Ha as [Ha ->].
    step H3 as fee s3 Hf. apply TryMethod_Done in Hf.
    injection H3 as <- <- <- <- <-.
    unfold repayDebts in Hf. destruct (GetUnlockedBalance s1 (balance w)); [|discriminate].
    destruct (_ <? State.FeeDebt s1); [discriminate|].
    injection Hf as <- <-.
    step H as st4 w4 H4. injection H4 as <- <-.
    step H as ? w5 H5. apply RequirePredicate_Done in H5 as [Hnonneg ->].
    step H as ? w5 H5. apply RequirePredicate_Done in H5 as [_ ->].
    step H as ? w5 H5.
    step H as ? w6 H6. apply burnFunds_Done in H6 as (E6 & B6 & S6).
    step H as ? w7 H7. apply notifyPledgeChanged_Done in H7 as (E7 & B7 & S7).
    step H as bal' w8 H8. injection H8 as <- <-.
    step H as ? w9 H9. apply RequireNoErr_Done in H9 as [_ ->].
    injection H as <- <-.
    assert (H5' : state w5 = State.set_FeeDebt 0 s1
                  /\ balance w5 = balance w - Z.min avail amountRequested
                  /\ sent w5 = sent w ++ (if Z.min avail amountRequested >? 0
                                          then [mkMessage owner MethodSend
                                                  (Z.min avail amountRequested)]
                                          else [])).
    { destruct (Z.gtb_spec (Z.min avail amountRequested) 0) as [Hpos|Hle].
      - apply Send_RequireSuccess_Done in H5 as (E5 & B5 & S5). auto.
      - injection H5 as _ <-. cbn. rewrite app_nil_r. split_and!; [reflexivity | | reflexivity].
        apply Z.geb_le in Hnonneg. lia. }
    destruct H5' as (E5 & B5 & S5).
    split_and!.
    + exact Hcaller.
    + unfold bitfield.Count in Hearly. fold st in Hearly.
      destruct (State.EarlyTerminations st); [reflexivity|].
      cbn [length] in Hearly. rewrite Z.gtb_ltb in Hearly. apply Z.ltb_ge in Hearly. lia.
    + exists vested, s1, avail. split_and!.
      * exact Hv.
      * exact Ha.
      * reflexivity.
      * apply Z.geb_le in Hnonneg. exact Hnonneg.
      * rewrite E7, E6, E5. reflexivity.
      * rewrite B7, B6, B5. reflexivity.
      * rewrite S7, S6, S5. rewrite <- !app_assoc. reflexivity.
Qed.

Lemma WithdrawBalance_pays_min_to_owner_witness :
  let r := fixture.runtime 200 2000 in
  let pending := mkWorld (fixture.Miner.state (-1) [3]) 1000 [] in
  (0 <= 10000
   /\ WithdrawBalance r 10000 fixture.Miner.world
      = Done (733, outcome (WithdrawBalance r 10000) fixture.Miner.world)
   /\ Caller r = MinerInfo.Owner (State.Info (state pending))
   /\ State.EarlyTerminations (state pending) <> [])
  /\ State.FeeDebt (state (outcome (WithdrawBalance r 10000) fixture.Miner.world)) = 0
  /\ sent (outcome (WithdrawBalance r 10000) fixture.Miner.world)
     = [mkMessage 2000 MethodSend 733; mkMessage BurntFundsActorAddr MethodSend 7;
        mkMessage StoragePowerActorAddr (UpdatePledgeTotal (-40)) 0]
  /\ WithdrawBalance r 10000 pending
     = Abort exitcode.ErrForbidden
         "cannot withdraw funds while %d deadlines have terminated sectors with outstanding fees".
Proof.
  intros r pending.
  assert (H1 : 0 <= 10000) by lia.
  assert (H2 : WithdrawBalance r 10000 fixture.Miner.world
               = Done (733, outcome (WithdrawBalance r 10000) fixture.Miner.world))
    by (vm_compute; reflexivity).
  assert (H3 : Caller r = MinerInfo.Owner (State.Info (state pending))) by reflexivity.
  assert (H4 : State.EarlyTerminations (state pending) <> []) by discriminate.
  split; [auto|].
  destruct (WithdrawBalance_pays_min_to_owner r 10000 fixture.Miner.world H1) as (_ & _ & D).
  destruct (D _ _ H2)
    as (_ & _ & vested & st1 & avail & Hv & _ & _ & _ & Hstate & _ & Hsent).
  destruct (WithdrawBalance_pays_min_to_owner r 10000 pending H1) as (_ & E & _).
  split_and!.
  - rewrite Hstate. reflexivity.
  - rewrite Hsent. vm_compute in Hv. injection Hv as <- <-. reflexivity.
  - exact (E H3 H4).
Defined.

End withdraw_claims.

(** *** The seal randomness epoch of a pre-commit *)

Module precommit_spec.
Import miner builtin miner_spec consensus_spec.

(** One round of the preconditions passes only with the seal epoch in
    the window. *)
Lemma preCommitPrecondition_Done {W} pol r earliest numbers precommit (w : W) numbers' w' :
  preCommitPrecondition pol r earliest numbers precommit w = Done (numbers', w') ->
  earliest <= SectorPreCommitInfo.SealRandEpoch precommit < CurrEpoch r.
Proof.
  unfold preCommitPrecondition. intros H.
  step H as ? w1 H1. step H as ? w2 H2. step H as ? w3 H3.
  step H as ? w4 H4. step H as ? w5 H5.
  step H as ? w6 H6. apply guard_Done in H6 as [Hnow _].
  step H as ? w7 H7. apply guard_Done in H7 as [Hold _].
  rewrite Z.geb_leb in Hnow. apply Z.leb_gt in Hnow. apply Z.ltb_ge in Hold. lia.
Qed.

Lemma preCommitPreconditions_Done {W} pol r earliest sectors :
  forall numbers (w : W) numbers' w',
    preCommitPreconditions pol r earliest numbers sectors w = Done (numbers', w') ->
    Forall (fun precommit =>
              earliest <= SectorPreCommitInfo.SealRandEpoch precommit < CurrEpoch r) sectors.
Proof.
  induction sectors as [|precommit rest IH]; intros numbers w numbers' w' H.
  - constructor.
  - cbn [preCommitPreconditions] in H. step H as numbers1 w1 H1.
    constructor.
    + exact (preCommitPrecondition_Done _ _ _ _ _ _ _ _ H1).
    + exact (IH _ _ _ _ H).
Qed.

(** The codes of the preconditions: [ErrIllegalArgument], but for the
    discontinued capacity upgrade. *)
Lemma preCommitPrecondition_Abort {W} pol r earliest numbers precommit (w : W) c msg :
  preCommitPrecondition pol r earliest numbers precommit w = Abort c msg ->
  c = exitcode.ErrIllegalArgument
  \/ (SectorPreCommitInfo.ReplaceCapacity precommit = true /\ c = exitcode.SysErrForbidden).
Proof.
  unfold preCommitPrecondition, validateExpiration, RequireNoErr.
  destruct (SealProofSectorMaximumLifetime pol _); intros H; abort_codes H.
Qed.

Lemma preCommitPrecondition_rejects {W} pol r earliest numbers precommit (w : W) :
  SectorPreCommitInfo.SealRandEpoch precommit >= CurrEpoch r
  \/ SectorPreCommitInfo.SealRandEpoch precommit < earliest ->
  exists msg,
    preCommitPrecondition pol r earliest numbers precommit w
    = Abort exitcode.ErrIllegalArgument msg.
Proof.
  intros Hout. unfold preCommitPrecondition.
  do 6 (match goal with
        | |- exists msg, rt.bind (if ?b then _ else _) _ _ = _ =>
          destruct b eqn:?; [eexists; reflexivity | unfold rt.bind at 1; cbn [ret]]
        end).
  match goal with
  | |- exists msg, rt.bind (if ?b then _ else _) _ _ = _ =>
    destruct b eqn:Hold; [eexists; reflexivity|]
  end.
  exfalso.
  match goal with H : (_ >=? _) = false |- _ => rewrite Z.geb_leb in H; apply Z.leb_gt in H end.
  apply Z.ltb_ge in Hold. lia.
Qed.

Lemma preCommitPreconditions_rejects {W} pol r earliest pre precommit post :
  Forall (fun s => SectorPreCommitInfo.ReplaceCapacity s = false) pre ->
  SectorPreCommitInfo.SealRandEpoch precommit >= CurrEpoch r
  \/ SectorPreCommitInfo.SealRandEpoch precommit < earliest ->
  forall numbers (w : W),
  exists msg,
    preCommitPreconditions pol r earliest numbers (pre ++ precommit :: post) w
    = Abort exitcode.ErrIllegalArgument msg.
Proof.
  intros Hpre Hout.
  induction Hpre as [|s pre Hs Hpre IH]; intros numbers w; cbn [app preCommitPreconditions].
  - destruct (preCommitPrecondition_rejects pol r earliest numbers precommit w Hout)
      as [msg Hmsg].
    exists msg. by apply bind_eq_Abort.
  - destruct (preCommitPrecondition pol r earliest numbers s w) as [[n w1]|c msg] eqn:H.
    + rewrite (bind_eq_Done _ _ _ _ _ H). apply IH.
    + exists msg. rewrite (bind_eq_Abort _ _ _ _ _ H).
      apply preCommitPrecondition_Abort in H as [->|[Hr _]]; [reflexivity | congruence].
Qed.

Lemma avoids_preCommitPreconditions_seal {W} msg pol r earliest sectors :
  In msg ["seal challenge epoch %v must be before now %v";
          "seal challenge epoch %v too old, must be after %v"] ->
  Forall (fun precommit =>
            earliest <= SectorPreCommitInfo.SealRandEpoch precommit < CurrEpoch r) sectors ->
  forall numbers, avoids (W := W) msg (preCommitPreconditions pol r earliest numbers sectors).
Proof.
  intros Hmsg Hin.
  induction Hin as [|precommit rest Hp Hrest IH]; intros numbers; cbn [preCommitPreconditions].
  - apply avoids_ret.
  - apply avoids_bind; [|intros ?; apply IH].
    unfold preCommitPrecondition.
    assert (Hnow : (SectorPreCommitInfo.SealRandEpoch precommit >=? CurrEpoch r) = false)
      by (rewrite Z.geb_leb; apply Z.leb_gt; lia).
    assert (Hold : (SectorPreCommitInfo.SealRandEpoch precommit <? earliest) = false)
      by (apply Z.ltb_ge; lia).
    rewrite Hnow, Hold.
    destruct Hmsg as [<-|[<-|[]]]; avoids_tac.
Qed.

End precommit_spec.

Module precommit_claims.
Import miner builtin miner_spec consensus_spec precommit_spec.

(** C6.  With [earliest = now - MaxPreCommitRandomnessLookback]: a
    [PreCommitSectorBatch] that succeeds has every seal randomness epoch in
    [earliest, now); a batch with a sector whose epoch is at or after the
    current epoch, or before [earliest], aborts with [ErrIllegalArgument]
    (no sector before it asking for the discontinued capacity upgrade,
    which is refused with another code); and with every epoch in
    [earliest, now), as [now - 1] is for a lookback of at least one epoch,
    the call never aborts at the two seal-epoch checks. *)
Theorem PreCommitSectorBatch_seal_epoch_window pol peers r sectors (w : World State.t) :
  MinInt64 <= CurrEpoch r - MaxPreCommitRandomnessLookback pol <= MaxInt64 ->
  let now := CurrEpoch r in
  let earliest := now - MaxPreCommitRandomnessLookback pol in
  let inWindow precommit := earliest <= SectorPreCommitInfo.SealRandEpoch precommit < now in
  (forall u w',
      PreCommitSectorBatch pol peers r sectors w = Done (u, w') -> Forall inWindow sectors)
  /\ (forall pre precommit post,
         sectors = pre ++ precommit :: post ->
         Forall (fun s => SectorPreCommitInfo.ReplaceCapacity s = false) pre ->
         ~ inWindow precommit ->
         exists msg,
           PreCommitSectorBatch pol peers r sectors w = Abort exitcode.ErrIllegalArgument msg)
  /\ (Forall inWindow sectors ->
      forall c,
        PreCommitSectorBatch pol peers r sectors w
        <> Abort c "seal challenge epoch %v must be before now %v"
        /\ PreCommitSectorBatch pol peers r sectors w
           <> Abort c "seal challenge epoch %v too old, must be after %v")
  /\ (1 <= MaxPreCommitRandomnessLookback pol ->
      forall precommit,
        SectorPreCommitInfo.SealRandEpoch precommit = now - 1 -> inWindow precommit).
Proof.
  intros Hrange now earliest inWindow.
  assert (Hearliest : sub64 (CurrEpoch r) (MaxPreCommitRandomnessLookback pol) = earliest)
    by (apply sub64_id; exact Hrange).
  split_and!.
  - intros u w' H.
    apply PreCommitSectorBatch_opening in H
      as (numbers & rewardStats & pwrTotal & dealWeights & out & st' & _ & B2 & _).
    specialize (B2 w). rewrite Hearliest in B2.
    exact (preCommitPreconditions_Done _ _ _ _ _ _ _ _ B2).
  - intros pre precommit post -> Hpre Hout.
    unfold PreCommitSectorBatch.
    assert (Hlen : Nat.eqb (length (pre ++ precommit :: post)) 0 = false).
    { rewrite length_app. cbn [length]. apply Nat.eqb_neq. lia. }
    rewrite Hlen.
    destruct (Z.of_nat (length (pre ++ precommit :: post)) >? PreCommitSectorBatchMaxSize pol).
    { eexists. reflexivity. }
    unfold rt.bind at 1. cbn [ret]. rewrite Hearliest.
    destruct (preCommitPreconditions_rejects (W := World State.t) pol r earliest pre precommit
                post Hpre) with (numbers := bitfield.New) (w := w) as [msg Hmsg].
    { unfold inWindow in Hout. fold now. lia. }
    exists msg. by apply bind_eq_Abort.
  - intros Hin c.
    assert (Havoid : forall msg,
               In msg ["seal challenge epoch %v must be before now %v";
                       "seal challenge epoch %v too old, must be after %v"] ->
               avoids msg (PreCommitSectorBatch pol peers r sectors)).
    { intros msg Hmsg. unfold PreCommitSectorBatch. rewrite Hearliest.
      apply avoids_bind; [destruct Hmsg as [<-|[<-|[]]]; avoids_tac | intros ?].
      apply avoids_bind; [by apply avoids_preCommitPreconditions_seal | intros ?].
      assert (Hmsg' : In msg ["pre-commit not allowed during active consensus fault";
                              "seal challenge epoch %v must be before now %v";
                              "seal challenge epoch %v too old, must be after %v"])
        by (by right).
      unfold requestCurrentEpochBlockReward, requestCurrentTotalPower, requestDealWeights,
        PreCommitSectorBatch_tx, PreCommitSectorBatch_debts, RepayDebtsOrAbort.
      destruct Hmsg as [<-|[<-|[]]]; avoids_tac;
        first [ by apply avoids_preCommitsOnChain | by apply avoids_burnFunds ]. }
    split; apply Havoid; [by left | by right; left].
  - intros Hlookback precommit He. unfold inWindow. rewrite He. lia.
Qed.

Lemma PreCommitSectorBatch_seal_epoch_window_witness :
  let r := fixture.runtime 200 2001 in
  let run := PreCommitSectorBatch fixture.Miner.policy fixture.Miner.peers r in
  (MinInt64 <= CurrEpoch r - MaxPreCommitRandomnessLookback fixture.Miner.policy <= MaxInt64
   /\ run [fixture.Miner.sector 5 199] fixture.Miner.world
      = Done (tt, outcome (run [fixture.Miner.sector 5 199]) fixture.Miner.world))
  /\ (exists msg, run [fixture.Miner.sector 5 200] fixture.Miner.world
                  = Abort exitcode.ErrIllegalArgument msg)
  /\ (exists msg,
         PreCommitSectorBatch fixture.Miner.policy fixture.Miner.peers
           (fixture.runtime 4000 2001) [fixture.Miner.sector 5 219] fixture.Miner.world
         = Abort exitcode.ErrIllegalArgument msg)
  /\ Forall (fun s => 200 - 3780 <= SectorPreCommitInfo.SealRandEpoch s < 200)
       [fixture.Miner.sector 5 199].
Proof.
  intros r run.
  assert (H1 : MinInt64 <= CurrEpoch r - MaxPreCommitRandomnessLookback fixture.Miner.policy
               <= MaxInt64) by (vm_compute; split; discriminate).
  assert (H2 : run [fixture.Miner.sector 5 199] fixture.Miner.world
               = Done (tt, outcome (run [fixture.Miner.sector 5 199]) fixture.Miner.world))
    by (vm_compute; reflexivity).
  assert (H3 : MinInt64 <= CurrEpoch (fixture.runtime 4000 2001)
                           - MaxPreCommitRandomnessLookback fixture.Miner.policy
               <= MaxInt64) by (vm_compute; split; discriminate).
  split; [auto|].
  split_and!.
  - destruct (PreCommitSectorBatch_seal_epoch_window fixture.Miner.policy fixture.Miner.peers r
                [fixture.Miner.sector 5 200] fixture.Miner.world H1) as (_ & R & _).
    apply (R [] (fixture.Miner.sector 5 200) []); [reflexivity | constructor |].
    vm_compute. intros [_ H]. discriminate H.
  - destruct (PreCommitSectorBatch_seal_epoch_window fixture.Miner.policy fixture.Miner.peers
                (fixture.runtime 4000 2001) [fixture.Miner.sector 5 219] fixture.Miner.world H3)
      as (_ & R & _).
    apply (R [] (fixture.Miner.sector 5 219) []); [reflexivity | constructor |].
    vm_compute. intros [H _]. apply H. reflexivity.
  - destruct (PreCommitSectorBatch_seal_epoch_window fixture.Miner.policy fixture.Miner.peers r
                [fixture.Miner.sector 5 199] fixture.Miner.world H1) as (D & _).
    exact (D _ _ H2).
Defined.

End precommit_claims.

(** *** SubmitWindowedPoSt *)

Module post_spec.
Import miner builtin miner_spec.

Lemma blind_SubmitWindowedPoSt_params {W} pol params :
  blind (W := W) (SubmitWindowedPoSt_params pol params).
Proof. unfold SubmitWindowedPoSt_params. blind_tac. Qed.

Lemma SubmitWindowedPoSt_open_Done pol r params proof0 st info dl st' :
  SubmitWindowedPoSt_open pol r params proof0 st = Done ((info, dl), st') ->
  st' = st /\ info = State.Info st /\ dl = DeadlineInfo pol st (CurrEpoch r)
  /\ dline.IsOpen dl = true
  /\ SubmitWindowedPoStParams.Deadline params = dline.Index dl.
Proof.
  unfold SubmitWindowedPoSt_open. intros H.
  step H as st0 ? H0. injection H0 as <- <-.
  step H as maxProofSize s1 H1. apply RequireNoErr_Done in H1 as [_ ->].
  step H as ? s1 H1. apply pure_ValidateImmediateCallerIs in H1. subst s1.
  step H as ? s1 H1. apply guard_Done in H1 as [_ ->].
  step H as ? s1 H1. apply guard_Done in H1 as [_ ->].
  step H as ? s1 H1. apply guard_Done in H1 as [_ ->].
  step H as ? s1 H1. apply guard_Done in H1 as [Hopen ->].
  step H as ? s1 H1. apply guard_Done in H1 as [Hidx ->].
  injection H as <- <- <-.
  split_and!; try reflexivity.
  - by destruct (dline.IsOpen _).
  - apply negb_false_iff in Hidx. by apply Z.eqb_eq in Hidx.
Qed.

Lemma SubmitWindowedPoSt_chainCommitEpoch_Done {W} r params dl (w : W) u w' :
  SubmitWindowedPoSt_chainCommitEpoch r params dl w = Done (u, w') ->
  w' = w
  /\ dline.Challenge dl <= SubmitWindowedPoStParams.ChainCommitEpoch params < CurrEpoch r.
Proof.
  unfold SubmitWindowedPoSt_chainCommitEpoch. intros H.
  step H as ? w1 H1. apply guard_Done in H1 as [Hlow ->].
  apply guard_Done in H as [Hhigh ->].
  apply Z.ltb_ge in Hlow. rewrite Z.geb_leb in Hhigh. apply Z.leb_gt in Hhigh.
  split; [reflexivity | lia].
Qed.

Lemma SubmitWindowedPoSt_chainCommitEpoch_inside {W} r params dl (w : W) :
  dline.Challenge dl <= SubmitWindowedPoStParams.ChainCommitEpoch params < CurrEpoch r ->
  SubmitWindowedPoSt_chainCommitEpoch r params dl w = Done (tt, w).
Proof.
  intros Hin. unfold SubmitWindowedPoSt_chainCommitEpoch.
  assert (Hlow : (SubmitWindowedPoStParams.ChainCommitEpoch params <? dline.Challenge dl)
                 = false) by (apply Z.ltb_ge; lia).
  assert (Hhigh : (SubmitWindowedPoStParams.ChainCommitEpoch params >=? CurrEpoch r) = false)
    by (rewrite Z.geb_leb; apply Z.leb_gt; lia).
  rewrite Hlow, Hhigh. reflexivity.
Qed.

Lemma SubmitWindowedPoSt_chainCommitEpoch_outside {W} r params dl (w : W) :
  ~ (dline.Challenge dl <= SubmitWindowedPoStParams.ChainCommitEpoch params < CurrEpoch r) ->
  SubmitWindowedPoSt_chainCommitEpoch r params dl w
  = Abort exitcode.ErrIllegalArgument
      (if SubmitWindowedPoStParams.ChainCommitEpoch params <? dline.Challenge dl
       then "expected chain commit epoch %d to be after %d"
       else "chain commit epoch %d must be less than the current epoch %d").
Proof.
  intros Hout. unfold SubmitWindowedPoSt_chainCommitEpoch.
  destruct (Z.ltb_spec (SubmitWindowedPoStParams.ChainCommitEpoch params) (dline.Challenge dl))
    as [Hlow|Hlow]; [reflexivity|].
  assert (Hhigh : (SubmitWindowedPoStParams.ChainCommitEpoch params >=? CurrEpoch r) = true)
    by (rewrite Z.geb_leb; apply Z.leb_le; lia).
  rewrite Hhigh. reflexivity.
Qed.


(** What a successful [SubmitWindowedPoSt] has gone through. *)
Lemma SubmitWindowedPoSt_Done pol ops r params (w : World State.t) u w' :
  SubmitWindowedPoSt pol ops r params w = Done (u, w') ->
  let st := state w in
  let dl := DeadlineInfo pol st (CurrEpoch r) in
  exists proof0 postResult st',
    (forall w0 : World State.t, SubmitWindowedPoSt_params pol params w0 = Done (proof0, w0))
    /\ SubmitWindowedPoSt_open pol r params proof0 st = Done ((State.Info st, dl), st)
    /\ dline.IsOpen dl = true
    /\ SubmitWindowedPoStParams.Deadline params = dline.Index dl
    /\ dline.Challenge dl <= SubmitWindowedPoStParams.ChainCommitEpoch params < CurrEpoch r
    /\ SubmitWindowedPoSt_chainCommitRand r params st = Done (tt, st)
    /\ SubmitWindowedPoSt_record pol ops r params (State.Info st) dl st
       = Done (postResult, st')
    /\ state w' = st' /\ balance w' = balance w
    /\ sent w' = sent w ++ (if PowerPair.IsZero (PoStResult.PowerDelta postResult) then []
                            else [mkMessage StoragePowerActorAddr
                                    (UpdateClaimedPower
                                       (PowerPair.Raw (PoStResult.PowerDelta postResult))
                                       (PowerPair.QA (PoStResult.PowerDelta postResult))) 0]).
Proof.
  intros H st dl. unfold SubmitWindowedPoSt in H.
  step H as proof0 w1 H1.
  assert (w1 = w) by exact (blind_same _ _ _ _ (blind_SubmitWindowedPoSt_params _ _) H1).
  subst w1.
  step H as postResult w2 H2. apply StateTransaction_Done in H2 as (st' & H2 & ->).
  step H2 as [info dl0] s1 Hopen.
  assert (Hopen' := Hopen).
  apply SubmitWindowedPoSt_open_Done in Hopen' as (-> & -> & -> & Hisopen & Hidx).
  step H2 as ? s2 He. apply SubmitWindowedPoSt_chainCommitEpoch_Done in He as [-> Hepoch].
  step H2 as [] s3 Hr.
  assert (s3 = state w).
  { revert Hr. unfold SubmitWindowedPoSt_chainCommitRand.
    destruct (negb _); [discriminate|]. by intros [= <-]. }
  subst s3.
  step H as ? w3 H3. apply requestUpdatePower_Done in H3 as (E3 & B3 & S3).
  apply checkBalanceInvariants_Done in H as [-> _].
  exists proof0, postResult, st'. split_and!; auto; try apply Hepoch.
  intros w0. exact (blind_SubmitWindowedPoSt_params _ _ _ _ _ H1 w0).
Qed.

End post_spec.

Module window_spec.
Import miner builtin miner_spec post_spec.

Lemma DeadlineInfo_CurrentEpoch pol st now :
  dline.CurrentEpoch (DeadlineInfo pol st now) = now.
Proof.
  unfold DeadlineInfo, NewDeadlineInfo, dline.NewInfo.
  destruct (_ <? _); reflexivity.
Qed.

Lemma DeadlineInfo_Close_range pol st now :
  MinInt64 <= dline.Close (DeadlineInfo pol st now) <= MaxInt64.
Proof.
  unfold DeadlineInfo, NewDeadlineInfo, dline.NewInfo.
  destruct (_ <? _); cbn [dline.Close]; apply int64_range.
Qed.

Lemma DeadlineInfo_Open_range pol st now :
  MinInt64 <= dline.Open (DeadlineInfo pol st now) <= MaxInt64.
Proof.
  unfold DeadlineInfo, NewDeadlineInfo, dline.NewInfo.
  destruct (_ <? _); cbn [dline.Open]; apply int64_range.
Qed.

(** The first and the last epoch of a deadline's window are open. *)
Lemma IsOpen_first_last pol st now :
  let dl := DeadlineInfo pol st now in
  dline.Open dl < dline.Close dl ->
  now = dline.Open dl \/ now = dline.Last dl ->
  dline.IsOpen dl = true.
Proof.
  intros dl Hwindow Hnow. unfold dline.IsOpen.
  pose proof (DeadlineInfo_Close_range pol st now) as Hclose.
  pose proof (DeadlineInfo_Open_range pol st now) as Hopen.
  fold dl in Hclose, Hopen.
  unfold dl at 1 3. rewrite DeadlineInfo_CurrentEpoch.
  assert (Hlast : dline.Last dl = dline.Close dl - 1).
  { unfold dline.Last. apply sub64_id. lia. }
  apply andb_true_iff. rewrite Z.geb_leb. split; [apply Z.leb_le | apply Z.ltb_lt]; lia.
Qed.

(** With the deadline open and the chain commit epoch in the window the
    transaction does not stop at the three checks. *)
Lemma SubmitWindowedPoSt_tx_passes pol ops r params proof0 st c msg :
  In msg ["proving period %d not yet open at %d";
          "expected chain commit epoch %d to be after %d";
          "chain commit epoch %d must be less than the current epoch %d"] ->
  dline.IsOpen (DeadlineInfo pol st (CurrEpoch r)) = true ->
  dline.Challenge (DeadlineInfo pol st (CurrEpoch r))
  <= SubmitWindowedPoStParams.ChainCommitEpoch params < CurrEpoch r ->
  (let* '(info, currDeadline) := SubmitWindowedPoSt_open pol r params proof0 in
   SubmitWindowedPoSt_chainCommitEpoch r params currDeadline ;;
   SubmitWindowedPoSt_chainCommitRand r params ;;
   SubmitWindowedPoSt_record pol ops r params info currDeadline) st
  <> Abort c msg.
Proof.
  intros Hmsg Hopen Hin H.
  apply bind_Abort in H as [H | ([info dl] & s1 & H1 & H)].
  - unfold SubmitWindowedPoSt_open in H.
    apply bind_Abort in H as [H | (st0 & ? & H0 & H)]; [discriminate|].
    injection H0 as <- <-. rewrite Hopen in H. cbn [negb] in H. cbv iota in H.
    revert H. destruct Hmsg as [<-|[<-|[<-|[]]]]; avoids_tac.
  - apply SubmitWindowedPoSt_open_Done in H1 as (-> & -> & -> & _ & _).
    rewrite (bind_eq_Done _ _ _ _ _
               (SubmitWindowedPoSt_chainCommitEpoch_inside r params _ st Hin)) in H.
    revert H. unfold SubmitWindowedPoSt_chainCommitRand, SubmitWindowedPoSt_record.
    destruct Hmsg as [<-|[<-|[<-|[]]]]; avoids_tac.
Qed.

End window_spec.

Module window_claims.
Import miner builtin miner_spec post_spec window_spec.

(** C3.  With [dl] the deadline the state has at the current epoch: a
    [SubmitWindowedPoSt] that succeeds has its [ChainCommitEpoch] in
    [Challenge dl, now); the parameters of a successful call with the
    [ChainCommitEpoch] moved below the challenge epoch, or to the current
    epoch or later, abort with [ErrIllegalArgument] at the chain-commit
    check; at the first and at the last epoch of the deadline's window the
    deadline is open, and with the [ChainCommitEpoch] in [Challenge dl, now)
    the call stops neither at the open-deadline check nor at the two
    chain-commit checks. *)
Theorem SubmitWindowedPoSt_chain_commit_window pol ops r params (w : World State.t) :
  let now := CurrEpoch r in
  let dl := DeadlineInfo pol (state w) now in
  let inWindow e := dline.Challenge dl <= e < now in
  (forall u w',
      SubmitWindowedPoSt pol ops r params w = Done (u, w') ->
      inWindow (SubmitWindowedPoStParams.ChainCommitEpoch params))
  /\ (forall u w' e,
         SubmitWindowedPoSt pol ops r params w = Done (u, w') ->
         ~ inWindow e ->
         SubmitWindowedPoSt pol ops r (SubmitWindowedPoStParams.set_ChainCommitEpoch e params) w
         = Abort exitcode.ErrIllegalArgument
             (if e <? dline.Challenge dl
              then "expected chain commit epoch %d to be after %d"
              else "chain commit epoch %d must be less than the current epoch %d"))
  /\ (dline.Open dl < dline.Close dl ->
      now = dline.Open dl \/ now = dline.Last dl ->
      dline.IsOpen dl = true
      /\ (inWindow (SubmitWindowedPoStParams.ChainCommitEpoch params) ->
          forall c msg,
            In msg ["proving period %d not yet open at %d";
                    "expected chain commit epoch %d to be after %d";
                    "chain commit epoch %d must be less than the current epoch %d"] ->
            SubmitWindowedPoSt pol ops r params w <> Abort c msg)).
Proof.
  intros now dl inWindow. split_and!.
  - intros u w' H.
    apply SubmitWindowedPoSt_Done in H
      as (proof0 & postResult & st' & _ & _ & _ & _ & Hepoch & _).
    exact Hepoch.
  - intros u w' e H Hout.
    apply SubmitWindowedPoSt_Done in H
      as (proof0 & postResult & st' & Hparams & Hopen & _).
    unfold SubmitWindowedPoSt.
    change (SubmitWindowedPoSt_params pol (SubmitWindowedPoStParams.set_ChainCommitEpoch e params))
      with (SubmitWindowedPoSt_params (W := World State.t) pol params).
    rewrite (bind_eq_Done _ _ _ _ _ (Hparams w)).
    apply bind_eq_Abort. unfold StateTransaction.
    change (SubmitWindowedPoSt_open pol r
              (SubmitWindowedPoStParams.set_ChainCommitEpoch e params) proof0)
      with (SubmitWindowedPoSt_open pol r params proof0).
    rewrite (bind_eq_Done _ _ _ _ _ Hopen).
    rewrite (bind_eq_Abort _ _ _ _ _
               (SubmitWindowedPoSt_chainCommitEpoch_outside r
                  (SubmitWindowedPoStParams.set_ChainCommitEpoch e params) _ (state w) Hout)).
    reflexivity.
  - intros Hwindow Hnow.
    assert (Hopen : dline.IsOpen dl = true) by exact (IsOpen_first_last _ _ _ Hwindow Hnow).
    split; [exact Hopen|].
    intros Hin c msg Hmsg H. unfold SubmitWindowedPoSt in H.
    apply bind_Abort_after in H as (proof0 & H);
      [| apply blind_SubmitWindowedPoSt_params
       | unfold SubmitWindowedPoSt_params; destruct Hmsg as [<-|[<-|[<-|[]]]]; avoids_tac].
    apply bind_Abort in H as [H | (postResult & w1 & H1 & H)].
    + apply StateTransaction_Abort in H.
      exact (SubmitWindowedPoSt_tx_passes _ _ _ _ _ _ _ _ Hmsg Hopen Hin H).
    + revert H. unfold requestUpdatePower. destruct Hmsg as [<-|[<-|[<-|[]]]]; avoids_tac.
Qed.

Lemma SubmitWindowedPoSt_chain_commit_window_witness :
  let ops := fixture.Miner.ops PowerPair.Zero in
  let first := fixture.runtime 100 2001 in
  let last := fixture.runtime 159 2001 in
  let run r := SubmitWindowedPoSt fixture.Miner.policy ops r in
  let dl now := DeadlineInfo fixture.Miner.policy (state fixture.Miner.world) now in
  (run first (fixture.Miner.submission 99) fixture.Miner.world
   = Done (tt, outcome (run first (fixture.Miner.submission 99)) fixture.Miner.world)
   /\ run last (fixture.Miner.submission 80) fixture.Miner.world
      = Done (tt, outcome (run last (fixture.Miner.submission 80)) fixture.Miner.world)
   /\ dline.Open (dl 100) < dline.Close (dl 100)
   /\ dline.Open (dl 159) < dline.Close (dl 159)
   /\ 100 = dline.Open (dl 100)
   /\ 159 = dline.Last (dl 159))
  /\ dline.Challenge (dl 100) <= 99 < 100
  /\ dline.Challenge (dl 159) <= 80 < 159
  /\ run first (SubmitWindowedPoStParams.set_ChainCommitEpoch 100 (fixture.Miner.submission 99))
       fixture.Miner.world
     = Abort exitcode.ErrIllegalArgument
         "chain commit epoch %d must be less than the current epoch %d"
  /\ run last (SubmitWindowedPoStParams.set_ChainCommitEpoch 79 (fixture.Miner.submission 80))
       fixture.Miner.world
     = Abort exitcode.ErrIllegalArgument "expected chain commit epoch %d to be after %d"
  /\ dline.IsOpen (dl 100) = true
  /\ dline.IsOpen (dl 159) = true.
Proof.
  intros ops first last run dl.
  assert (H1 : run first (fixture.Miner.submission 99) fixture.Miner.world
               = Done (tt, outcome (run first (fixture.Miner.submission 99))
                             fixture.Miner.world)) by (vm_compute; reflexivity).
  assert (H2 : run last (fixture.Miner.submission 80) fixture.Miner.world
               = Done (tt, outcome (run last (fixture.Miner.submission 80))
                             fixture.Miner.world)) by (vm_compute; reflexivity).
  assert (H3 : dline.Open (dl 100) < dline.Close (dl 100)) by (vm_compute; reflexivity).
  assert (H4 : dline.Open (dl 159) < dline.Close (dl 159)) by (vm_compute; reflexivity).
  assert (H5 : 100 = dline.Open (dl 100)) by (vm_compute; reflexivity).
  assert (H6 : 159 = dline.Last (dl 159)) by (vm_compute; reflexivity).
  split; [split_and!; assumption|].
  destruct (SubmitWindowedPoSt_chain_commit_window fixture.Miner.policy ops first
              (fixture.Miner.submission 99) fixture.Miner.world) as (A1 & B1 & C1).
  destruct (SubmitWindowedPoSt_chain_commit_window fixture.Miner.policy ops last
              (fixture.Miner.submission 80) fixture.Miner.world) as (A2 & B2 & C2).
  split; [exact (A1 _ _ H1)|].
  split; [exact (A2 _ _ H2)|].
  split.
  { assert (Hout : ~ (dline.Challenge (dl 100) <= 100 < CurrEpoch first))
      by (vm_compute; intros [_ H]; discriminate H).
    exact (B1 _ _ 100 H1 Hout). }
  split.
  { assert (Hout : ~ (dline.Challenge (dl 159) <= 79 < CurrEpoch last))
      by (vm_compute; intros [H _]; apply H; reflexivity).
    exact (B2 _ _ 79 H2 Hout). }
  split.
  - exact (proj1 (C1 H3 (or_introl H5))).
  - exact (proj1 (C2 H4 (or_intror H6))).
Defined.

End window_claims.

Module optimistic_spec.
Import miner builtin miner_spec post_spec.




End optimistic_spec.

Module optimistic_claims.
Import miner builtin miner_spec post_spec optimistic_spec.



End optimistic_claims.

(** *** DisputeWindowedPoSt *)

Module dispute_spec.
Import miner builtin miner_spec.

(** What the transaction of a successful dispute has gone through. *)
Lemma DisputeWindowedPoSt_tx_Done pol ops r params epochReward pwrTotal balance st out st' :
  DisputeWindowedPoSt_tx pol ops r params epochReward pwrTotal balance st = Done (out, st') ->
  let now := CurrEpoch r in
  let idx := DisputeWindowedPoStParams.Deadline params in
  let dlInfo := DeadlineInfo pol st now in
  let ppStart := if dline.Index dlInfo <? idx
                 then sub64 (dline.PeriodStart dlInfo) (WPoStProvingPeriod pol)
                 else dline.PeriodStart dlInfo in
  let targetDeadline := NewDeadlineInfo pol ppStart idx now in
  deadlineAvailableForOptimisticPoStDispute pol (dline.PeriodStart dlInfo) idx now = true
  /\ exists dlCurrent partitions proofs dlCurrent1 disputeInfo sectorInfos wrapped
            dlCurrent2 st3 penaltyFromVesting penaltyFromBalance,
      LoadDeadline pol (State.Deadlines st) idx = Val dlCurrent
      /\ TakePoStProofs (DisputeWindowedPoStParams.PoStIndex params) dlCurrent
         = Val ((partitions, proofs), dlCurrent1)
      /\ LoadPartitionsForDispute ops dlCurrent1 partitions = Val disputeInfo
      /\ LoadForProof ops (Deadline.SectorsSnapshot dlCurrent1)
           (DisputeInfo.AllSectorNos disputeInfo) (DisputeInfo.IgnoredSectorNos disputeInfo)
         = Val sectorInfos
      /\ verifyWindowedPost r (dline.Challenge targetDeadline) sectorInfos proofs = Err wrapped
      /\ RecordFaults ops dlCurrent1 (Deadline.SectorsSnapshot dlCurrent1)
           (MinerInfo.SectorSize (State.Info st)) (QuantSpecForDeadline targetDeadline)
           (add64 (dline.Last targetDeadline) (FaultMaxAge pol))
           (DisputeInfo.DisputedSectors disputeInfo)
         = Val (DisputeOutcome.powerDelta out, dlCurrent2)
      /\ (let penaltyBase :=
            PledgePenaltyForInvalidWindowPoSt pol (fst epochReward) pwrTotal
              (PowerPair.QA (DisputeInfo.DisputedPower disputeInfo)) in
          let rewardTarget :=
            RewardForDisputedWindowPoSt pol (MinerInfo.WindowPoStProofType (State.Info st))
              (DisputeInfo.DisputedPower disputeInfo) in
          ApplyPenalty (penaltyBase + rewardTarget)
            (State.set_Deadlines (<[idx := dlCurrent2]> (State.Deadlines st)) st)
          = Val (tt, st3)
          /\ RepayPartialDebtInPriorityOrder now balance st3
             = Val ((penaltyFromVesting, penaltyFromBalance), st')
          /\ DisputeOutcome.toReward out
             = Z.min (penaltyFromVesting + penaltyFromBalance) rewardTarget
          /\ DisputeOutcome.toBurn out
             = penaltyFromVesting + penaltyFromBalance - DisputeOutcome.toReward out
          /\ DisputeOutcome.pledgeDelta out = - penaltyFromVesting).
Proof.
  intros H now idx dlInfo ppStart targetDeadline.
  subst now idx dlInfo ppStart targetDeadline.
  revert H. unfold DisputeWindowedPoSt_tx. intros H.
  step H as st0 ? H0. injection H0 as <- <-.
  step H as ? s1 H1. apply guard_Done in H1 as [Havail ->].
  apply negb_false_iff in Havail. split; [exact Havail|].
  step H as dlCurrent s1 H1. apply RequireNoErr_Done in H1 as [Hload ->].
  step H as [[partitions proofs] dlCurrent1] s1 H1.
  apply RequireNoErr_Done in H1 as [Htake ->].
  step H as disputeInfo s1 H1. apply RequireNoErr_Done in H1 as [Hparts ->].
  step H as sectorInfos s1 H1. apply RequireNoErr_Done in H1 as [Hsectors ->].
  destruct (verifyWindowedPost r _ sectorInfos proofs)
    as [?|wrapped] eqn:Hverify; [discriminate|].
  step H as [powerDelta dlCurrent2] s1 H1. apply RequireNoErr_Done in H1 as [Hfaults ->].
  step H as deadlines' s1 H1. apply RequireNoErr_Done in H1 as [Hupd ->].
  unfold UpdateDeadline in Hupd. destruct (_ >=? _); [discriminate|]. injection Hupd as <-.
  step H as ? s2 H2. injection H2 as _ <-.
  step H as [] s3 H3. apply TryMethod_Done in H3.
  step H as [penaltyFromVesting penaltyFromBalance] s4 H4. apply TryMethod_Done in H4.
  injection H as <- <-.
  exists dlCurrent, partitions, proofs, dlCurrent1, disputeInfo, sectorInfos, wrapped,
    dlCurrent2, s3, penaltyFromVesting, penaltyFromBalance.
  cbn [DisputeOutcome.toReward DisputeOutcome.toBurn DisputeOutcome.pledgeDelta
       DisputeOutcome.powerDelta].
  split_and!; auto.
Qed.

(** A proof the verifier accepts cannot be disputed. *)
Lemma DisputeWindowedPoSt_tx_valid pol ops r params epochReward pwrTotal balance st out st' v :
  DisputeWindowedPoSt_tx pol ops r params epochReward pwrTotal balance st = Done (out, st') ->
  (forall pvInfo, v pvInfo = true) ->
  DisputeWindowedPoSt_tx pol ops (with_VerifyPoSt v r) params epochReward pwrTotal balance st
  = Abort exitcode.ErrIllegalArgument "failed to dispute valid post".
Proof.
  intros H Hv. revert H.
  unfold DisputeWindowedPoSt_tx, rt.bind, RequireNoErr, get, ret, Abortf.
  change (CurrEpoch (with_VerifyPoSt v r)) with (CurrEpoch r).
  destruct (negb (deadlineAvailableForOptimisticPoStDispute pol _ _ _)); [discriminate|].
  destruct (LoadDeadline pol _ _) as [dlCurrent|]; [|discriminate].
  destruct (TakePoStProofs _ _) as [[[partitions proofs] dlCurrent1]|]; [|discriminate].
  destruct (LoadPartitionsForDispute ops _ _) as [disputeInfo|]; [|discriminate].
  destruct (LoadForProof ops _ _ _) as [sectorInfos|]; [|discriminate].
  intros _.
  unfold verifyWindowedPost at 1. cbn [VerifyPoSt with_VerifyPoSt]. rewrite Hv. reflexivity.
Qed.

(** Penalty and repayment leave the deadlines alone. *)
Lemma ApplyPenalty_Deadlines penalty st u st' :
  ApplyPenalty penalty st = Val (u, st') -> State.Deadlines st' = State.Deadlines st.
Proof.
  unfold ApplyPenalty. destruct (penalty <? 0); [discriminate|].
  intros [= _ <-]. reflexivity.
Qed.

Lemma UnlockUnvestedFunds_Deadlines now target st amount st' :
  UnlockUnvestedFunds now target st = Val (amount, st') ->
  State.Deadlines st' = State.Deadlines st /\ State.FeeDebt st' = State.FeeDebt st.
Proof.
  unfold UnlockUnvestedFunds.
  destruct ((target =? 0) || (State.LockedFunds st =? 0)).
  - intros [= _ <-]. auto.
  - destruct (unlockUnvestedFunds (State.VestingFunds st) now target 0) as [unlocked kept].
    destruct (State.LockedFunds st - unlocked <? 0); [discriminate|].
    intros [= _ <-]. auto.
Qed.

Lemma RepayPartialDebtInPriorityOrder_Deadlines now balance st x st' :
  RepayPartialDebtInPriorityOrder now balance st = Val (x, st') ->
  State.Deadlines st' = State.Deadlines st.
Proof.
  unfold RepayPartialDebtInPriorityOrder.
  destruct (GetUnlockedBalance st balance) as [unlockedBalance|]; [|discriminate].
  destruct (UnlockUnvestedFunds now (State.FeeDebt st) st) as [[fromVesting st1]|] eqn:Hunlock;
    [|discriminate].
  apply UnlockUnvestedFunds_Deadlines in Hunlock as [Hd _].
  destruct (fromVesting >? State.FeeDebt st1); [discriminate|].
  intros [= _ <-]. exact Hd.
Qed.

End dispute_spec.

Module dispute_claims.
Import miner builtin miner_spec dispute_spec.

(** C5.  A [DisputeWindowedPoSt] that succeeds was made inside the dispute
    window on a proof taken from the deadline's snapshot that the verifier
    refuses; the deadline is saved with the disputed sectors recorded as
    faults; the penalty applied to the miner is the base penalty for an
    invalid Window PoSt plus the reward target; and the reporter is sent
    [min(repaid, reward target)], where [repaid] is what the miner repaid
    of its debt from vesting and balance (a reward the reporter does not
    accept is burnt with the rest).  Under a verifier that accepts the proof
    the same call aborts with [ErrIllegalArgument], leaving the world as it
    was. *)
Theorem DisputeWindowedPoSt_faults_and_reward pol peers ops r params (w : World State.t) u w' :
  DisputeWindowedPoSt pol peers ops r params w = Done (u, w') ->
  let st := state w in
  let now := CurrEpoch r in
  let idx := DisputeWindowedPoStParams.Deadline params in
  let dlInfo := DeadlineInfo pol st now in
  let ppStart := if dline.Index dlInfo <? idx
                 then sub64 (dline.PeriodStart dlInfo) (WPoStProvingPeriod pol)
                 else dline.PeriodStart dlInfo in
  let targetDeadline := NewDeadlineInfo pol ppStart idx now in
  deadlineAvailableForOptimisticPoStDispute pol (dline.PeriodStart dlInfo) idx now = true
  /\ (exists dlCurrent partitions proofs dlCurrent1 disputeInfo sectorInfos wrapped powerDelta
             dlCurrent2 st3 penaltyFromVesting penaltyFromBalance,
         LoadDeadline pol (State.Deadlines st) idx = Val dlCurrent
         /\ TakePoStProofs (DisputeWindowedPoStParams.PoStIndex params) dlCurrent
            = Val ((partitions, proofs), dlCurrent1)
         /\ LoadPartitionsForDispute ops dlCurrent1 partitions = Val disputeInfo
         /\ LoadForProof ops (Deadline.SectorsSnapshot dlCurrent1)
              (DisputeInfo.AllSectorNos disputeInfo) (DisputeInfo.IgnoredSectorNos disputeInfo)
            = Val sectorInfos
         /\ verifyWindowedPost r (dline.Challenge targetDeadline) sectorInfos proofs
            = Err wrapped
         /\ RecordFaults ops dlCurrent1 (Deadline.SectorsSnapshot dlCurrent1)
              (MinerInfo.SectorSize (State.Info st)) (QuantSpecForDeadline targetDeadline)
              (add64 (dline.Last targetDeadline) (FaultMaxAge pol))
              (DisputeInfo.DisputedSectors disputeInfo)
            = Val (powerDelta, dlCurrent2)
         /\ State.Deadlines (state w') !! idx = Some dlCurrent2
         /\ let penaltyBase :=
              PledgePenaltyForInvalidWindowPoSt pol (fst (snd (ThisEpochReward peers)))
                (snd (CurrentTotalPower peers))
                (PowerPair.QA (DisputeInfo.DisputedPower disputeInfo)) in
            let rewardTarget :=
              RewardForDisputedWindowPoSt pol (MinerInfo.WindowPoStProofType (State.Info st))
                (DisputeInfo.DisputedPower disputeInfo) in
            let repaid := penaltyFromVesting + penaltyFromBalance in
            let toReward := Z.min repaid rewardTarget in
            let reward := mkMessage (Caller r) MethodSend toReward in
            let delivered :=
              negb (toReward =? 0) && negb (balance w <? toReward)
              && exitcode.IsSuccess (SendCode r reward) in
            let burnt := if delivered then repaid - toReward else repaid in
            ApplyPenalty (penaltyBase + rewardTarget)
              (State.set_Deadlines (<[idx := dlCurrent2]> (State.Deadlines st)) st)
            = Val (tt, st3)
            /\ RepayPartialDebtInPriorityOrder now (balance w) st3
               = Val ((penaltyFromVesting, penaltyFromBalance), state w')
            /\ sent w'
               = sent w
                 ++ (if PowerPair.IsZero powerDelta then []
                     else [mkMessage StoragePowerActorAddr
                             (UpdateClaimedPower (PowerPair.Raw powerDelta)
                                (PowerPair.QA powerDelta)) 0])
                 ++ (if delivered then [reward] else [])
                 ++ (if burnt >? 0 then [mkMessage BurntFundsActorAddr MethodSend burnt]
                     else [])
                 ++ (if - penaltyFromVesting =? 0 then []
                     else [mkMessage StoragePowerActorAddr
                             (UpdatePledgeTotal (- penaltyFromVesting)) 0]))
  /\ (forall v,
         (forall pvInfo, v pvInfo = true) ->
         DisputeWindowedPoSt pol peers ops (with_VerifyPoSt v r) params w
         = Abort exitcode.ErrIllegalArgument "failed to dispute valid post"
         /\ outcome (DisputeWindowedPoSt pol peers ops (with_VerifyPoSt v r) params) w = w).
Proof.
  intros H st now idx dlInfo ppStart targetDeadline.
  subst st now idx dlInfo ppStart targetDeadline.
  assert (Hrun := H). unfold DisputeWindowedPoSt in H.
  step H as [] w1 H1.
  assert (w1 = w) by (by apply pure_ValidateImmediateCallerType in H1). subst w1.
  step H as ? w2 H2. apply guard_Done in H2 as [Hidx ->].
  step H as epochReward w3 H3.
  assert (Hreward : epochReward = snd (ThisEpochReward peers) /\ w3 = w).
  { unfold requestCurrentEpochBlockReward in H3. step H3 as ? w0 H0.
    apply RequireSuccess_Done in H0 as [_ ->]. by injection H3 as <- <-. }
  destruct Hreward as [-> ->].
  step H as pwrTotal w4 H4.
  assert (Hpower : pwrTotal = snd (CurrentTotalPower peers) /\ w4 = w).
  { unfold requestCurrentTotalPower in H4. step H4 as ? w0 H0.
    apply RequireSuccess_Done in H0 as [_ ->]. by injection H4 as <- <-. }
  destruct Hpower as [-> ->].
  step H as bal w5 H5. injection H5 as <- <-.
  step H as out w6 H6. apply StateTransaction_Done in H6 as (st' & Htx & ->).
  assert (Htx' := Htx).
  apply DisputeWindowedPoSt_tx_Done in Htx'
    as (Havail & dlCurrent & partitions & proofs & dlCurrent1 & disputeInfo & sectorInfos &
        wrapped & dlCurrent2 & st3 & fromVesting & fromBalance &
        Hload & Htake & Hparts & Hsectors & Hverify & Hfaults &
        Hpenalty & Hrepay & HtoReward & HtoBurn & Hpledge).
  cbv zeta in Havail, Hpenalty, Hrepay, HtoReward, HtoBurn, Hpledge.
  step H as ? w7 H7. apply requestUpdatePower_Done in H7 as (E7 & B7 & S7).
  cbn [state balance sent] in E7, B7, S7.
  step H as toBurn w8 H8.
  step H as ? w9 H9. apply burnFunds_Done in H9 as (E9 & B9 & S9).
  step H as ? w10 H10. apply notifyPledgeChanged_Done in H10 as (E10 & B10 & S10).
  apply checkBalanceInvariants_Done in H as [-> _].
  assert (H8' : state w8 = st'
                /\ sent w8
                   = sent w7
                     ++ (if negb (DisputeOutcome.toReward out =? 0)
                            && negb (balance w <? DisputeOutcome.toReward out)
                            && exitcode.IsSuccess
                                 (SendCode r (mkMessage (Caller r) MethodSend
                                                (DisputeOutcome.toReward out)))
                         then [mkMessage (Caller r) MethodSend (DisputeOutcome.toReward out)]
                         else [])
                /\ toBurn
                   = if negb (DisputeOutcome.toReward out =? 0)
                        && negb (balance w <? DisputeOutcome.toReward out)
                        && exitcode.IsSuccess
                             (SendCode r (mkMessage (Caller r) MethodSend
                                            (DisputeOutcome.toReward out)))
                     then DisputeOutcome.toBurn out
                     else DisputeOutcome.toBurn out + DisputeOutcome.toReward out).
  { destruct (Z.eqb_spec (DisputeOutcome.toReward out) 0) as [Hz|Hnz];
      cbn [negb andb] in H8 |- *; cbv iota in H8.
    - injection H8 as <- <-. rewrite app_nil_r. split_and!; [exact E7 | reflexivity | lia].
    - step H8 as code w0 Hs. unfold Send in Hs. rewrite B7 in Hs. cbn [balance] in Hs.
      destruct (balance w <? DisputeOutcome.toReward out); cbn [negb andb].
      + injection Hs as <- <-. cbn in H8. injection H8 as <- <-.
        rewrite app_nil_r. split_and!; [exact E7 | reflexivity | reflexivity].
      + destruct (exitcode.IsSuccess (SendCode r _)) eqn:Hcode.
        * injection Hs as <- <-. rewrite Hcode in H8. cbn in H8. injection H8 as <- <-.
          cbn. split_and!; [exact E7 | reflexivity | reflexivity].
        * injection Hs as <- <-. rewrite Hcode in H8. cbn in H8. injection H8 as <- <-.
          rewrite app_nil_r. split_and!; [exact E7 | reflexivity | reflexivity]. }
  destruct H8' as (E8 & S8 & Hburn).
  split_and!.
  - exact Havail.
  - exists dlCurrent, partitions, proofs, dlCurrent1, disputeInfo, sectorInfos, wrapped,
      (DisputeOutcome.powerDelta out), dlCurrent2, st3, fromVesting, fromBalance.
    assert (Hstate : state w10 = st') by congruence.
    split_and!; try assumption.
    + rewrite Hstate.
      rewrite (RepayPartialDebtInPriorityOrder_Deadlines _ _ _ _ _ Hrepay).
      rewrite (ApplyPenalty_Deadlines _ _ _ _ Hpenalty).
      cbn. apply lookup_insert_eq.
    + cbv zeta. rewrite Hstate.
      split_and!; [exact Hpenalty | exact Hrepay |].
      rewrite <- HtoReward.
      set (delivered := negb (DisputeOutcome.toReward out =? 0)
                        && negb (balance w <? DisputeOutcome.toReward out)
                        && exitcode.IsSuccess
                             (SendCode r (mkMessage (Caller r) MethodSend
                                            (DisputeOutcome.toReward out)))) in *.
      assert (Hb : toBurn = if delivered
                            then fromVesting + fromBalance - DisputeOutcome.toReward out
                            else fromVesting + fromBalance).
      { rewrite Hburn, HtoBurn. destruct delivered; lia. }
      rewrite S10, S9, S8, S7, Hpledge, Hb. rewrite <- !app_assoc. reflexivity.
  - intros v Hv.
    assert (Habort : DisputeWindowedPoSt pol peers ops (with_VerifyPoSt v r) params w
                     = Abort exitcode.ErrIllegalArgument "failed to dispute valid post").
    { unfold DisputeWindowedPoSt.
      change (ValidateImmediateCallerType (W := World State.t) (with_VerifyPoSt v r)
                CallerTypesSignable)
        with (ValidateImmediateCallerType (W := World State.t) r CallerTypesSignable).
      rewrite (bind_eq_Done _ _ _ _ _ H1). rewrite Hidx.
      unfold rt.bind at 1. cbn [ret].
      rewrite (bind_eq_Done _ _ _ _ _ H3). rewrite (bind_eq_Done _ _ _ _ _ H4).
      unfold rt.bind at 1. cbn [CurrentBalance].
      apply bind_eq_Abort. unfold StateTransaction.
      rewrite (DisputeWindowedPoSt_tx_valid _ _ _ _ _ _ _ _ _ _ v Htx Hv). reflexivity. }
    split; [exact Habort|]. unfold outcome. rewrite Habort. reflexivity.
Qed.

Lemma DisputeWindowedPoSt_faults_and_reward_witness :
  let ops := fixture.Miner.ops PowerPair.Zero in
  let accepting := fixture.runtime 200 3000 in
  let refusing := with_VerifyPoSt (fun _ => false) accepting in
  let params := DisputeWindowedPoStParams.mk 0 0 in
  let run r := DisputeWindowedPoSt fixture.Miner.policy fixture.Miner.peers ops r params in
  run refusing fixture.Miner.world = Done (tt, outcome (run refusing) fixture.Miner.world)
  /\ (Deadline.FaultyPower
        <$> State.Deadlines (state (outcome (run refusing) fixture.Miner.world)) !! 0)
     = Some (PowerPair.mk 10 10)
  /\ sent (outcome (run refusing) fixture.Miner.world)
     = [mkMessage StoragePowerActorAddr (UpdateClaimedPower (-10) (-10)) 0;
        mkMessage 3000 MethodSend 4;
        mkMessage BurntFundsActorAddr MethodSend 37;
        mkMessage StoragePowerActorAddr (UpdatePledgeTotal (-41)) 0]
  /\ run accepting fixture.Miner.world
     = Abort exitcode.ErrIllegalArgument "failed to dispute valid post".
Proof.
  intros ops accepting refusing params run.
  assert (H : run refusing fixture.Miner.world
              = Done (tt, outcome (run refusing) fixture.Miner.world))
    by (vm_compute; reflexivity).
  split; [exact H|].
  destruct (DisputeWindowedPoSt_faults_and_reward fixture.Miner.policy fixture.Miner.peers ops
              refusing params fixture.Miner.world tt
              (outcome (run refusing) fixture.Miner.world) H)
    as (_ & (dlCurrent & partitions & proofs & dlCurrent1 & disputeInfo & sectorInfos &
             wrapped & powerDelta & dlCurrent2 & st3 & fromVesting & fromBalance &
             Hload & Htake & Hparts & _ & _ & Hfaults & Hdl & _ & _ & _) & Hvalid).
  split_and!.
  - vm_compute in Hload. injection Hload as <-.
    vm_compute in Htake. injection Htake as <- <- <-.
    vm_compute in Hparts. injection Hparts as <-.
    vm_compute in Hfaults. injection Hfaults as <- <-.
    change (DisputeWindowedPoStParams.Deadline params) with 0 in Hdl.
    rewrite Hdl. reflexivity.
  - vm_compute. reflexivity.
  - exact (proj1 (Hvalid (fun _ => true) (fun _ => eq_refl))).
Defined.

End dispute_claims.


(** ** The proving period and the deadline of an epoch *)

Module period_spec.
Import miner.

Lemma rem64_nonneg (a b : Z) : 0 <= a -> 0 < b -> rem64 a b = a mod b.
Proof. intros. unfold rem64. apply Z.rem_mod_nonneg; lia. Qed.

Lemma div64_nonneg (a b : Z) : 0 <= a <= MaxInt64 -> 0 < b -> div64 a b = a / b.
Proof.
  intros Ha Hb. unfold div64. rewrite Z.quot_div_nonneg by lia.
  apply int64_id. unfold MinInt64, MaxInt64 in *.
  assert (0 <= a / b) by (apply Z.div_pos; lia).
  assert (a / b <= a) by (apply Z.div_le_upper_bound; nia).
  lia.
Qed.

(** The period start as a number: the last point of the grid
    [offset + k * WPoStProvingPeriod] at or before the epoch. *)
Lemma currentProvingPeriodStart_spec pol currEpoch offset :
  0 < WPoStProvingPeriod pol <= MaxInt64 ->
  0 <= currEpoch <= MaxInt64 ->
  0 <= offset < WPoStProvingPeriod pol ->
  exists k,
    currentProvingPeriodStart pol currEpoch offset = offset + k * WPoStProvingPeriod pol
    /\ currentProvingPeriodStart pol currEpoch offset <= currEpoch
       < currentProvingPeriodStart pol currEpoch offset + WPoStProvingPeriod pol.
Proof.
  intros HP He Ho. unfold currentProvingPeriodStart.
  set (P := WPoStProvingPeriod pol) in *.
  rewrite rem64_nonneg by lia.
  assert (Hm : 0 <= currEpoch mod P < P) by (apply Z.mod_pos_bound; lia).
  assert (Hd : currEpoch = P * (currEpoch / P) + currEpoch mod P) by (apply Z.div_mod; lia).
  unfold MaxInt64 in *.
  destruct (Z.geb_spec (currEpoch mod P) offset) as [Hge|Hlt].
  - rewrite (sub64_id (currEpoch mod P)) by (unfold MinInt64, MaxInt64; lia).
    rewrite sub64_id by (unfold MinInt64, MaxInt64; lia).
    exists (currEpoch / P). split; [lia | lia].
  - rewrite (sub64_id offset) by (unfold MinInt64, MaxInt64; lia).
    rewrite (sub64_id P) by (unfold MinInt64, MaxInt64; lia).
    rewrite sub64_id by (unfold MinInt64, MaxInt64; lia).
    exists (currEpoch / P - 1). split; [lia | lia].
Qed.

Lemma currentDeadlineIndex_spec pol currEpoch periodStart :
  0 < WPoStChallengeWindow pol ->
  0 <= currEpoch - periodStart <= MaxInt64 ->
  currentDeadlineIndex pol currEpoch periodStart
  = (currEpoch - periodStart) / WPoStChallengeWindow pol.
Proof.
  intros HW Hd. unfold currentDeadlineIndex.
  rewrite sub64_id by (unfold MinInt64, MaxInt64 in *; lia).
  rewrite div64_nonneg by lia.
  apply uint64_id. unfold MaxUint64, MaxInt64 in *.
  assert (0 <= (currEpoch - periodStart) / WPoStChallengeWindow pol)
    by (apply Z.div_pos; lia).
  assert ((currEpoch - periodStart) / WPoStChallengeWindow pol <= currEpoch - periodStart)
    by (apply Z.div_le_upper_bound; nia).
  lia.
Qed.

Lemma assignProvingPeriodOffset_range pol hash myAddr currEpoch :
  0 < WPoStProvingPeriod pol <= MaxInt64 ->
  exists offset,
    assignProvingPeriodOffset pol hash myAddr currEpoch = builtin.Val offset
    /\ 0 <= offset < WPoStProvingPeriod pol.
Proof.
  intros HP. unfold assignProvingPeriodOffset.
  rewrite (uint64_id (WPoStProvingPeriod pol)) by (unfold MaxUint64, MaxInt64 in *; lia).
  eexists. split; [reflexivity|].
  assert (0 <= uint64 (hash myAddr currEpoch) mod WPoStProvingPeriod pol
          < WPoStProvingPeriod pol) by (apply Z.mod_pos_bound; lia).
  rewrite int64_id by (unfold MinInt64, MaxInt64 in *; lia). lia.
Qed.

(** The epoch lies in the challenge window of its deadline index. *)
Lemma deadline_window pol currEpoch offset :
  0 < WPoStChallengeWindow pol ->
  WPoStProvingPeriod pol = WPoStPeriodDeadlines pol * WPoStChallengeWindow pol ->
  0 < WPoStProvingPeriod pol <= MaxInt64 ->
  0 <= currEpoch <= MaxInt64 ->
  0 <= offset < WPoStProvingPeriod pol ->
  let periodStart := currentProvingPeriodStart pol currEpoch offset in
  let index := currentDeadlineIndex pol currEpoch periodStart in
  0 <= index < WPoStPeriodDeadlines pol
  /\ periodStart + index * WPoStChallengeWindow pol <= currEpoch
     < periodStart + (index + 1) * WPoStChallengeWindow pol.
Proof.
  intros HW HPW HP He Ho periodStart index.
  destruct (currentProvingPeriodStart_spec pol currEpoch offset HP He Ho) as (k & _ & Hb).
  fold periodStart in Hb.
  assert (Hi : index = (currEpoch - periodStart) / WPoStChallengeWindow pol).
  { apply currentDeadlineIndex_spec; [lia|]. unfold MaxInt64 in *. lia. }
  set (W := WPoStChallengeWindow pol) in *.
  set (d := currEpoch - periodStart) in *.
  assert (Hdm : d = W * (d / W) + d mod W) by (apply Z.div_mod; lia).
  assert (Hm : 0 <= d mod W < W) by (apply Z.mod_pos_bound; lia).
  assert (0 <= d / W) by (apply Z.div_pos; lia).
  assert (d / W < WPoStPeriodDeadlines pol).
  { apply Z.div_lt_upper_bound; [lia|]. lia. }
  rewrite Hi. split; [lia|]. nia.
Qed.

End period_spec.

Module period_extra.
Import miner period_spec.

(** X1.  For a non-negative epoch and an offset inside the proving period,
    [currentProvingPeriodStart] is the last epoch at or before the current
    one that lies [offset] past a multiple of [WPoStProvingPeriod]: it is
    never after the current epoch and less than one proving period before
    it. *)
Theorem currentProvingPeriodStart_last_grid_point pol currEpoch offset :
  0 < WPoStProvingPeriod pol <= MaxInt64 ->
  0 <= currEpoch <= MaxInt64 ->
  0 <= offset < WPoStProvingPeriod pol ->
  let periodStart := currentProvingPeriodStart pol currEpoch offset in
  periodStart <= currEpoch < periodStart + WPoStProvingPeriod pol
  /\ (periodStart - offset) mod WPoStProvingPeriod pol = 0
  /\ forall e, e <= currEpoch -> (e - offset) mod WPoStProvingPeriod pol = 0 ->
               e <= periodStart.
Proof.
  intros HP He Ho periodStart.
  destruct (currentProvingPeriodStart_spec pol currEpoch offset HP He Ho) as (k & Hk & Hb).
  fold periodStart in Hk, Hb. split; [exact Hb|]. split.
  - rewrite Hk. replace (offset + k * WPoStProvingPeriod pol - offset)
      with (k * WPoStProvingPeriod pol) by lia.
    apply Z.mod_mul. lia.
  - intros e Hle Hgrid.
    apply Z.mod_divide in Hgrid; [|lia]. destruct Hgrid as [j Hj].
    assert (e = offset + j * WPoStProvingPeriod pol) by lia.
    assert (j <= k); [|nia].
    destruct (Z_le_gt_dec j k) as [|Hgt]; [assumption|exfalso]. nia.
Qed.

Lemma currentProvingPeriodStart_last_grid_point_witness :
  let pol := fixture.Miner.policy in
  let periodStart := currentProvingPeriodStart pol 10000 100 in
  periodStart = 8740
  /\ periodStart <= 10000 < periodStart + WPoStProvingPeriod pol
  /\ (periodStart - 100) mod WPoStProvingPeriod pol = 0.
Proof.
  split; [reflexivity|].
  pose proof (currentProvingPeriodStart_last_grid_point fixture.Miner.policy 10000 100) as H.
  destruct H as (H1 & H2 & _).
  - vm_compute. split; [reflexivity | discriminate].
  - vm_compute. split; discriminate.
  - vm_compute. split; [discriminate | reflexivity].
  - split; assumption.
Defined.

(** X2.  With the period start of [currentProvingPeriodStart], the index
    that [currentDeadlineIndex] computes is a deadline of the proving
    period, and the epoch lies in the challenge window of that deadline. *)
Theorem currentDeadlineIndex_window pol currEpoch offset :
  0 < WPoStChallengeWindow pol ->
  WPoStProvingPeriod pol = WPoStPeriodDeadlines pol * WPoStChallengeWindow pol ->
  0 < WPoStProvingPeriod pol <= MaxInt64 ->
  0 <= currEpoch <= MaxInt64 ->
  0 <= offset < WPoStProvingPeriod pol ->
  let periodStart := currentProvingPeriodStart pol currEpoch offset in
  let index := currentDeadlineIndex pol currEpoch periodStart in
  0 <= index < WPoStPeriodDeadlines pol
  /\ periodStart + index * WPoStChallengeWindow pol <= currEpoch
     < periodStart + (index + 1) * WPoStChallengeWindow pol.
Proof. exact (deadline_window pol currEpoch offset). Qed.

Lemma currentDeadlineIndex_window_witness :
  let pol := fixture.Miner.policy in
  let periodStart := currentProvingPeriodStart pol 10000 100 in
  let index := currentDeadlineIndex pol 10000 periodStart in
  index = 21
  /\ 0 <= index < WPoStPeriodDeadlines pol
  /\ periodStart + index * WPoStChallengeWindow pol <= 10000
     < periodStart + (index + 1) * WPoStChallengeWindow pol.
Proof.
  split; [reflexivity|].
  apply (currentDeadlineIndex_window fixture.Miner.policy 10000 100).
  - reflexivity.
  - reflexivity.
  - vm_compute. split; [reflexivity | discriminate].
  - vm_compute. split; discriminate.
  - vm_compute. split; [discriminate | reflexivity].
Defined.

End period_extra.

(** ** Control of the miner *)

Module control_spec.
Import miner builtin.

Lemma checkControlAddresses_Done {W} cpol controlAddrs (w : W) u w' :
  checkControlAddresses cpol controlAddrs w = Done (u, w') ->
  w' = w /\ Z.of_nat (length controlAddrs) <= MaxControlAddresses cpol.
Proof.
  unfold checkControlAddresses.
  destruct (Z.gtb_spec (Z.of_nat (length controlAddrs)) (MaxControlAddresses cpol));
    [discriminate|].
  intros [= _ <-]. split; [reflexivity | lia].
Qed.

Lemma resolveControlAddress_Done {W} r raw (w : W) a w' :
  resolveControlAddress r raw w = Done (a, w') ->
  w' = w /\ ResolveAddress r raw = Some a
  /\ exists code, GetActorCodeCID r a = Some code /\ IsPrincipal code = true.
Proof.
  unfold resolveControlAddress.
  destruct (ResolveAddress r raw) as [resolved|]; [|discriminate].
  destruct (GetActorCodeCID r resolved) as [code|] eqn:Hc; [|discriminate].
  destruct (IsPrincipal code) eqn:Hp; [|discriminate].
  intros [= <- <-]. eauto.
Qed.

Lemma resolveWorkerAddress_Done {W} ad r raw (w : W) a w' :
  resolveWorkerAddress ad r raw w = Done (a, w') ->
  w' = w /\ ResolveAddress r raw = Some a
  /\ GetActorCodeCID r a = Some AccountActorCodeID
  /\ (Protocol ad raw = addr.BLS
      \/ fst (PubkeyAddress ad a) = exitcode.Ok
         /\ Protocol ad (snd (PubkeyAddress ad a)) = addr.BLS).
Proof.
  unfold resolveWorkerAddress.
  destruct (ResolveAddress r raw) as [resolved|]; [|discriminate].
  destruct (GetActorCodeCID r resolved) as [code|] eqn:Hc; [|discriminate].
  intros H. step H as ? w1 H1. apply guard_Done in H1 as [Hcode ->].
  apply negb_false_iff, Z.eqb_eq in Hcode. subst code.
  step H as ? w2 H2. injection H as <- <-.
  destruct (Z.eqb_spec (Protocol ad raw) addr.BLS) as [Hbls|Hbls]; cbn [negb] in H2.
  - injection H2 as _ <-. auto.
  - destruct (PubkeyAddress ad resolved) as [code pubkey] eqn:Hpk.
    step H2 as ? w3 H3. apply RequireSuccess_Done in H3 as [-> ->].
    apply guard_Done in H2 as [Hp ->].
    apply negb_false_iff, Z.eqb_eq in Hp. cbn. auto 6.
Qed.

Lemma resolveControlAddresses_Done {W} r addrs :
  forall controlAddrs (w : W) l w',
    resolveControlAddresses r addrs controlAddrs w = Done (l, w') ->
    w' = w
    /\ exists resolved,
         l = controlAddrs ++ resolved
         /\ Forall2 (fun raw a => ResolveAddress r raw = Some a) addrs resolved.
Proof.
  induction addrs as [|ca rest IH]; intros controlAddrs w l w' H; cbn in H.
  - injection H as <- <-. split; [reflexivity|]. exists []. rewrite app_nil_r. auto.
  - step H as a w1 H1. apply resolveControlAddress_Done in H1 as (-> & Hr & _).
    apply IH in H as (-> & resolved & -> & Hall). split; [reflexivity|].
    exists (a :: resolved). rewrite <- app_assoc. split; [reflexivity|].
    constructor; assumption.
Qed.

Lemma avoids_checkControlAddresses {W} msg cpol controlAddrs :
  "control addresses length %d exceeds max control addresses length %d" <> msg ->
  avoids (W := W) msg (checkControlAddresses cpol controlAddrs).
Proof.
  intros Hne. unfold checkControlAddresses.
  destruct (_ >? _); [by apply avoids_Abortf | apply avoids_ret].
Qed.

Lemma avoids_checkPeerInfo {W} msg pol peerID multiaddrs :
  "peer ID size of %d exceeds maximum size of %d" <> msg ->
  "invalid empty multiaddr" <> msg ->
  "multiaddr size of %d exceeds maximum of %d" <> msg ->
  avoids (W := W) msg (checkPeerInfo pol peerID multiaddrs).
Proof.
  intros H1 H2 H3. unfold checkPeerInfo.
  apply avoids_bind; [destruct (_ >? _); [by apply avoids_Abortf | apply avoids_ret]|].
  intros _.
  apply avoids_bind; [destruct (existsb _ _); [by apply avoids_Abortf | apply avoids_ret]|].
  intros _. destruct (_ >? _); [by apply avoids_Abortf | apply avoids_ret].
Qed.

Lemma avoids_resolveControlAddress {W} msg r raw :
  "unable to resolve address %v" <> msg ->
  "no code for address %v" <> msg ->
  "owner actor type must be a principal, was %v" <> msg ->
  avoids (W := W) msg (resolveControlAddress r raw).
Proof.
  intros H1 H2 H3. unfold resolveControlAddress.
  destruct (ResolveAddress r raw); [|by apply avoids_Abortf].
  destruct (GetActorCodeCID r _); [|by apply avoids_Abortf].
  destruct (negb _); [by apply avoids_Abortf | apply avoids_ret].
Qed.

Lemma avoids_resolveControlAddresses {W} msg r addrs :
  "unable to resolve address %v" <> msg ->
  "no code for address %v" <> msg ->
  "owner actor type must be a principal, was %v" <> msg ->
  forall controlAddrs, avoids (W := W) msg (resolveControlAddresses r addrs controlAddrs).
Proof.
  intros H1 H2 H3. induction addrs as [|ca rest IH]; intros controlAddrs; cbn.
  - apply avoids_ret.
  - apply avoids_bind; [by apply avoids_resolveControlAddress|]. intros a. apply IH.
Qed.

Lemma avoids_resolveWorkerAddress {W} msg ad r raw :
  "unable to resolve address %v" <> msg ->
  "no code for address %v" <> msg ->
  "worker actor type must be an account, was %v" <> msg ->
  "failed to fetch account pubkey from %v" <> msg ->
  "worker account %v must have BLS pubkey, was %v" <> msg ->
  avoids (W := W) msg (resolveWorkerAddress ad r raw).
Proof.
  intros H1 H2 H3 H4 H5. unfold resolveWorkerAddress.
  destruct (ResolveAddress r raw); [|by apply avoids_Abortf].
  destruct (GetActorCodeCID r _); [|by apply avoids_Abortf].
  apply avoids_bind; [destruct (negb _); [by apply avoids_Abortf | apply avoids_ret]|].
  intros _. apply avoids_bind; [|intros _; apply avoids_ret].
  destruct (negb _); [|apply avoids_ret].
  destruct (PubkeyAddress ad _) as [code pubkey].
  apply avoids_bind; [by apply avoids_RequireSuccess|]. intros _.
  destruct (negb _); [by apply avoids_Abortf | apply avoids_ret].
Qed.

Lemma checkPeerInfo_Done {W} pol peerID multiaddrs (w : W) u w' :
  checkPeerInfo pol peerID multiaddrs w = Done (u, w') ->
  w' = w
  /\ Z.of_nat (length peerID) <= MaxPeerIDLength pol
  /\ Forall (fun ma => ma <> []) multiaddrs
  /\ Z.of_nat (length (concat multiaddrs)) <= MaxMultiaddrData pol.
Proof.
  unfold checkPeerInfo. intros H.
  step H as ? w1 H1. apply guard_Done in H1 as [Hid ->].
  step H as ? w1 H1. apply guard_Done in H1 as [Hempty ->].
  apply guard_Done in H as [Htotal ->].
  split; [reflexivity|]. split; [|split].
  - rewrite Z.gtb_ltb in Hid. apply Z.ltb_ge in Hid. exact Hid.
  - apply Forall_forall. intros ma Hin ->.
    assert (existsb (fun ma => Nat.eqb (length ma) 0) multiaddrs = true); [|congruence].
    apply existsb_exists. exists []. split; [by apply list_elem_of_In | reflexivity].
  - rewrite Z.gtb_ltb in Htotal. apply Z.ltb_ge in Htotal.
    assert (Hsum : forall l n,
               fold_left (fun n (ma : list Z) => n + Z.of_nat (length ma)) l n
               = n + Z.of_nat (length (concat l))).
    { clear. induction l as [|ma l IH]; intros n; cbn [fold_left concat].
      - cbn. lia.
      - rewrite IH, length_app. lia. }
    rewrite Hsum in Htotal. lia.
Qed.

Lemma checkPeerInfo_rejects {W} pol peerID multiaddrs (w : W) :
  Z.of_nat (length peerID) > MaxPeerIDLength pol
  \/ In [] multiaddrs
  \/ Z.of_nat (length (concat multiaddrs)) > MaxMultiaddrData pol ->
  exists msg, checkPeerInfo pol peerID multiaddrs w = Abort exitcode.ErrIllegalArgument msg.
Proof.
  intros Hbad.
  destruct (checkPeerInfo pol peerID multiaddrs w) as [[u w']|c msg] eqn:H.
  - exfalso. apply checkPeerInfo_Done in H as (_ & Hid & Hne & Htotal).
    destruct Hbad as [Hbad|[Hbad|Hbad]]; [lia| |lia].
    rewrite Forall_forall in Hne. apply (Hne []); [by apply list_elem_of_In | reflexivity].
  - exists msg. f_equal. revert H. unfold checkPeerInfo. intros H. abort_codes H.
Qed.

(** What a successful [Constructor] went through. *)
Lemma Constructor_Done pol cpol ad cons r params (w : World State.t) u w' :
  Constructor pol cpol ad cons r params w = Done (u, w') ->
  exists owner worker controlAddrs offset info,
    Caller r = InitActorAddr
    /\ ResolveAddress r (ConstructorParams.OwnerAddr params) = Some owner
    /\ ResolveAddress r (ConstructorParams.WorkerAddr params) = Some worker
    /\ Forall2 (fun raw a => ResolveAddress r raw = Some a)
         (ConstructorParams.ControlAddrs params) controlAddrs
    /\ assignProvingPeriodOffset pol (HashBlake2b cons) (Receiver r) (CurrEpoch r)
       = Val offset
    /\ ConstructMinerInfo cons owner worker controlAddrs (ConstructorParams.PeerId params)
         (ConstructorParams.Multiaddrs params) (ConstructorParams.WindowPoStProofType params)
       = Val info
    /\ ConstructState cons info
         (currentProvingPeriodStart pol (CurrEpoch r) offset)
         (currentDeadlineIndex pol (CurrEpoch r)
            (currentProvingPeriodStart pol (CurrEpoch r) offset))
       = Val (state w')
    /\ balance w' = balance w /\ sent w' = sent w.
Proof.
  unfold Constructor. intros H.
  step H as ? w0 Hcaller.
  assert (w0 = w) by (by apply pure_ValidateImmediateCallerIs in Hcaller). subst w0.
  unfold ValidateImmediateCallerIs in Hcaller. cbn [existsb] in Hcaller.
  rewrite orb_false_r in Hcaller.
  destruct (Z.eqb_spec (Caller r) InitActorAddr) as [Hinit|]; [|discriminate]. clear Hcaller.
  step H as ? w0 H1. apply checkControlAddresses_Done in H1 as [-> _].
  step H as ? w0 H1. apply checkPeerInfo_Done in H1 as (-> & _).
  step H as ? w0 H1. apply guard_Done in H1 as [_ ->].
  step H as owner w0 H1. apply resolveControlAddress_Done in H1 as (-> & Howner & _).
  step H as worker w0 H1. apply resolveWorkerAddress_Done in H1 as (-> & Hworker & _).
  step H as controlAddrs w0 H1.
  apply resolveControlAddresses_Done in H1 as (-> & resolved & -> & Hctrl).
  step H as offset w0 H1. apply RequireNoErr_Done in H1 as [Hoffset ->].
  step H as ? w0 H1. apply RequirePredicate_Done in H1 as [_ ->].
  step H as ? w0 H1. apply RequirePredicate_Done in H1 as [_ ->].
  step H as info w0 H1. apply RequireNoErr_Done in H1 as [Hinfo ->].
  step H as st w0 H1. apply RequireNoErr_Done in H1 as [Hst ->].
  unfold StateCreate in H. injection H as _ <-.
  exists owner, worker, resolved, offset, info. cbn [app] in Hinfo. auto 10.
Qed.

(** The two state checks of [Constructor] on what it computed. *)
Lemma Constructor_checks pol cpol ad cons r params (w : World State.t) c msg :
  Constructor pol cpol ad cons r params w = Abort c msg ->
  msg = "computed proving period start %d after current epoch %d"
  \/ msg = "computed proving deadline index %d invalid" ->
  exists offset,
    assignProvingPeriodOffset pol (HashBlake2b cons) (Receiver r) (CurrEpoch r) = Val offset
    /\ ((currentProvingPeriodStart pol (CurrEpoch r) offset <=? CurrEpoch r) = false
        \/ (currentDeadlineIndex pol (CurrEpoch r)
              (currentProvingPeriodStart pol (CurrEpoch r) offset)
            <? WPoStPeriodDeadlines pol) = false).
Proof.
  unfold Constructor. intros H Hmsg.
  assert (Hne : forall s, s <> "computed proving period start %d after current epoch %d" ->
                          s <> "computed proving deadline index %d invalid" -> s <> msg).
  { intros s H1 H2 ->. destruct Hmsg; contradiction. }
  assert (Hav : forall (m : M (World State.t) unit),
             (forall s, (forall w0 c0, m w0 <> Abort c0 s) \/ True) -> True) by auto.
  clear Hav.
  apply bind_Abort in H as [H | (? & w0 & _ & H)].
  { exfalso. revert H. apply avoids_ValidateImmediateCallerIs. by apply Hne. }
  apply bind_Abort in H as [H | (? & w1 & _ & H)].
  { exfalso. revert H. apply avoids_checkControlAddresses. by apply Hne. }
  apply bind_Abort in H as [H | (? & w2 & _ & H)].
  { exfalso. revert H. apply avoids_checkPeerInfo; by apply Hne. }
  apply bind_Abort in H as [H | (? & w3 & _ & H)].
  { exfalso. revert H. destruct (negb _); [apply avoids_Abortf; by apply Hne | apply avoids_ret]. }
  apply bind_Abort in H as [H | (owner & w4 & _ & H)].
  { exfalso. revert H. apply avoids_resolveControlAddress; by apply Hne. }
  apply bind_Abort in H as [H | (worker & w5 & _ & H)].
  { exfalso. revert H. apply avoids_resolveWorkerAddress; by apply Hne. }
  apply bind_Abort in H as [H | (controlAddrs & w6 & _ & H)].
  { exfalso. revert H. apply avoids_resolveControlAddresses; by apply Hne. }
  apply bind_Abort in H as [H | (offset & w7 & Hoffset & H)].
  { exfalso. revert H. apply avoids_RequireNoErr. by apply Hne. }
  apply RequireNoErr_Done in Hoffset as [Hoffset _].
  exists offset. split; [exact Hoffset|].
  destruct (currentProvingPeriodStart pol (CurrEpoch r) offset <=? CurrEpoch r) eqn:Hstart;
    [|by left].
  destruct (currentDeadlineIndex pol (CurrEpoch r)
              (currentProvingPeriodStart pol (CurrEpoch r) offset)
            <? WPoStPeriodDeadlines pol) eqn:Hidx; [|by right].
  exfalso.
  apply bind_Abort in H as [H | (? & w8 & _ & H)]; [discriminate H|].
  apply bind_Abort in H as [H | (? & w9 & _ & H)]; [discriminate H|].
  apply bind_Abort in H as [H | (info & w10 & _ & H)].
  { revert H. apply avoids_RequireNoErr. by apply Hne. }
  apply bind_Abort in H as [H | (st & w11 & _ & H)].
  { revert H. apply avoids_RequireNoErr. by apply Hne. }
  discriminate H.
Qed.

Lemma ownerOnly_Done {W} r owner (w : W) u w' :
  ValidateImmediateCallerIs r [owner] w = Done (u, w') -> w' = w /\ Caller r = owner.
Proof.
  intros H. split; [by apply pure_ValidateImmediateCallerIs in H|].
  unfold ValidateImmediateCallerIs in H. cbn [existsb] in H. rewrite orb_false_r in H.
  destruct (Z.eqb_spec (Caller r) owner); [assumption | discriminate].
Qed.

Lemma callers_Done {W} r addrs (w : W) u w' :
  ValidateImmediateCallerIs r addrs w = Done (u, w') -> w' = w /\ In (Caller r) addrs.
Proof.
  intros H. split; [by apply pure_ValidateImmediateCallerIs in H|].
  unfold ValidateImmediateCallerIs in H.
  destruct (existsb (Z.eqb (Caller r)) addrs) eqn:He; [|discriminate].
  apply existsb_exists in He as (a & Hin & Ha). apply Z.eqb_eq in Ha. by subst a.
Qed.

Lemma ChangeWorkerAddress_Done cpol ad r NewWorker NewControlAddrs (w : World State.t) u w' :
  ChangeWorkerAddress cpol ad r NewWorker NewControlAddrs w = Done (u, w') ->
  let info := State.Info (state w) in
  exists newWorker controlAddrs,
    Caller r = MinerInfo.Owner info
    /\ Z.of_nat (length NewControlAddrs) <= MaxControlAddresses cpol
    /\ ResolveAddress r NewWorker = Some newWorker
    /\ Forall2 (fun raw a => ResolveAddress r raw = Some a) NewControlAddrs controlAddrs
    /\ w' = mkWorld
              (State.set_Info
                 (MinerInfo.set_PendingWorkerKey
                    (match MinerInfo.PendingWorkerKey info with
                     | Some key => Some key
                     | None =>
                       if newWorker =? MinerInfo.Worker info then None
                       else Some (WorkerKeyChange.mk newWorker
                                    (add64 (CurrEpoch r) (WorkerKeyChangeDelay cpol)))
                     end)
                    (MinerInfo.set_ControlAddresses controlAddrs info))
                 (state w))
              (balance w) (sent w).
Proof.
  intros H info. revert H. unfold ChangeWorkerAddress. intros H.
  step H as ? w0 H1. apply checkControlAddresses_Done in H1 as [-> Hlen].
  step H as newWorker w0 H1. apply resolveWorkerAddress_Done in H1 as (-> & Hworker & _).
  step H as controlAddrs w0 H1.
  apply resolveControlAddresses_Done in H1 as (-> & resolved & -> & Hctrl).
  apply StateTransaction_Done in H as (st' & H & ->).
  step H as st0 ? H0. injection H0 as <- <-.
  step H as ? st1 H1. apply ownerOnly_Done in H1 as [-> Hcaller].
  injection H as _ <-.
  exists newWorker, resolved. cbn [app]. split_and!; try assumption.
  f_equal. f_equal. fold info. cbn.
  destruct (MinerInfo.PendingWorkerKey info) as [key|] eqn:Hkey; cbn.
  - rewrite andb_false_r. destruct info; cbn in *. by rewrite Hkey.
  - rewrite andb_true_r. destruct (newWorker =? MinerInfo.Worker info); cbn.
    + destruct info; cbn in *. by rewrite Hkey.
    + reflexivity.
Qed.

Lemma ConfirmUpdateWorkerKey_Done r (w : World State.t) u w' :
  ConfirmUpdateWorkerKey r w = Done (u, w') ->
  let info := State.Info (state w) in
  Caller r = MinerInfo.Owner info
  /\ w' = match MinerInfo.PendingWorkerKey info with
          | None => w
          | Some key =>
            if CurrEpoch r <? WorkerKeyChange.EffectiveAt key then w
            else mkWorld
                   (State.set_Info
                      (MinerInfo.set_PendingWorkerKey None
                         (MinerInfo.set_Worker (WorkerKeyChange.NewWorker key) info))
                      (state w))
                   (balance w) (sent w)
          end.
Proof.
  intros H info. revert H. unfold ConfirmUpdateWorkerKey. intros H.
  apply StateTransaction_Done in H as (st' & H & ->).
  step H as st0 ? H0. injection H0 as <- <-.
  step H as ? st1 H1. apply ownerOnly_Done in H1 as [-> Hcaller].
  split; [exact Hcaller|]. unfold processPendingWorker in H. fold info in H.
  destruct (MinerInfo.PendingWorkerKey info) as [key|].
  - destruct (CurrEpoch r <? WorkerKeyChange.EffectiveAt key).
    + injection H as _ <-. by destruct w.
    + step H as st0 ? H0. injection H0 as <- <-. injection H as _ <-. reflexivity.
  - injection H as _ <-. by destruct w.
Qed.

Lemma ChangeOwnerAddress_Done ad r newAddress (w : World State.t) u w' :
  ChangeOwnerAddress ad r newAddress w = Done (u, w') ->
  let info := State.Info (state w) in
  Empty ad newAddress = false /\ Protocol ad newAddress = addr.ID
  /\ (Caller r = MinerInfo.Owner info
      /\ w' = mkWorld
                (State.set_Info
                   (MinerInfo.set_PendingOwnerAddress
                      (if newAddress =? MinerInfo.Owner info then None else Some newAddress)
                      info)
                   (state w))
                (balance w) (sent w)
      \/ Caller r <> MinerInfo.Owner info
         /\ MinerInfo.PendingOwnerAddress info = Some newAddress
         /\ Caller r = newAddress
         /\ w' = mkWorld
                   (State.set_Info
                      (MinerInfo.set_PendingOwnerAddress None
                         (MinerInfo.set_Owner newAddress info))
                      (state w))
                   (balance w) (sent w)).
Proof.
  intros H info. revert H. unfold ChangeOwnerAddress. intros H.
  step H as ? w0 H1. apply guard_Done in H1 as [Hempty ->].
  step H as ? w0 H1. apply guard_Done in H1 as [Hproto ->].
  apply negb_false_iff, Z.eqb_eq in Hproto.
  split; [exact Hempty|]. split; [exact Hproto|].
  apply StateTransaction_Done in H as (st' & H & ->).
  step H as st0 ? H0. injection H0 as <- <-. fold info in H.
  step H as info1 st1 H1.
  assert (Hpropose :
            forall st2 info2,
              (ValidateImmediateCallerIs r [MinerInfo.Owner info] ;;
               ret (MinerInfo.set_PendingOwnerAddress (Some newAddress) info)) (state w)
              = Done (info2, st2) ->
              Caller r = MinerInfo.Owner info /\ st2 = state w
              /\ info2 = MinerInfo.set_PendingOwnerAddress (Some newAddress) info).
  { intros st2 info2 Hp. step Hp as ? st3 Hv. apply ownerOnly_Done in Hv as [-> Hc].
    injection Hp as <- <-. auto. }
  assert (Hleft :
            Caller r = MinerInfo.Owner info /\ st1 = state w
            /\ info1 = MinerInfo.set_PendingOwnerAddress (Some newAddress) info ->
            Caller r = MinerInfo.Owner info
            /\ mkWorld st' (balance w) (sent w)
               = mkWorld
                   (State.set_Info
                      (MinerInfo.set_PendingOwnerAddress
                         (if newAddress =? MinerInfo.Owner info then None else Some newAddress)
                         info)
                      (state w))
                   (balance w) (sent w)).
  { intros (Hc & -> & ->). split; [exact Hc|]. injection H as _ <-. cbn.
    destruct (newAddress =? MinerInfo.Owner info); reflexivity. }
  destruct (MinerInfo.PendingOwnerAddress info) as [pending|] eqn:Hpending.
  - destruct (Z.eqb_spec (Caller r) (MinerInfo.Owner info)) as [Hc|Hc].
    + left. apply Hleft. by apply Hpropose.
    + right. clear Hpropose Hleft.
      step H1 as ? st2 Hv. apply ownerOnly_Done in Hv as [Est Hcp]. subst st2.
      step H1 as ? st2 Hg. apply guard_Done in Hg as [Hsame Est]. subst st2.
      apply negb_false_iff, Z.eqb_eq in Hsame. destruct Hsame.
      injection H1 as <- <-. injection H as _ <-.
      split; [exact Hc|]. split; [reflexivity|]. split; [exact Hcp|].
      cbn. rewrite Hpending. rewrite Z.eqb_refl. reflexivity.
  - left. apply Hleft. by apply Hpropose.
Qed.

Lemma ChangeMultiaddrs_Done pol r NewMultiaddrs (w : World State.t) u w' :
  ChangeMultiaddrs pol r NewMultiaddrs w = Done (u, w') ->
  Forall (fun ma => ma <> []) NewMultiaddrs
  /\ Z.of_nat (length (concat NewMultiaddrs)) <= MaxMultiaddrData pol
  /\ In (Caller r) (MinerInfo.callers (State.Info (state w)))
  /\ w' = mkWorld (State.set_Info
                     (MinerInfo.set_Multiaddrs NewMultiaddrs (State.Info (state w)))
                     (state w))
            (balance w) (sent w).
Proof.
  unfold ChangeMultiaddrs. intros H.
  step H as ? w1 H1. apply checkPeerInfo_Done in H1 as (-> & _ & Hne & Htotal).
  apply StateTransaction_Done in H as (st' & H & ->).
  step H as st0 ? H0. injection H0 as <- <-.
  step H as ? st1 H1. apply callers_Done in H1 as [-> Hin].
  injection H as _ <-. auto.
Qed.

End control_spec.

Module control_extra.
Import miner builtin period_spec control_spec.

(** X3.  [Constructor] starts the miner in the proving period and at the
    deadline of the current epoch: for a non-negative epoch, and a proving
    period made of [WPoStPeriodDeadlines] challenge windows, the state it
    creates is the one [ConstructState] builds for a period start at or
    before the epoch, less than a proving period back, and for the deadline
    whose window holds the epoch; its two checks on the computed period
    start and deadline index never fail; balance and messages are left as
    they are. *)
Theorem Constructor_starts_in_current_period
        pol cpol ad cons r params (w : World State.t) :
  0 < WPoStChallengeWindow pol ->
  WPoStProvingPeriod pol = WPoStPeriodDeadlines pol * WPoStChallengeWindow pol ->
  0 < WPoStProvingPeriod pol <= MaxInt64 ->
  0 <= CurrEpoch r <= MaxInt64 ->
  (forall c msg,
      Constructor pol cpol ad cons r params w = Abort c msg ->
      msg <> "computed proving period start %d after current epoch %d"
      /\ msg <> "computed proving deadline index %d invalid")
  /\ (forall u w',
         Constructor pol cpol ad cons r params w = Done (u, w') ->
         exists info periodStart index,
           ConstructState cons info periodStart index = Val (state w')
           /\ balance w' = balance w /\ sent w' = sent w
           /\ periodStart <= CurrEpoch r < periodStart + WPoStProvingPeriod pol
           /\ 0 <= index < WPoStPeriodDeadlines pol
           /\ periodStart + index * WPoStChallengeWindow pol <= CurrEpoch r
              < periodStart + (index + 1) * WPoStChallengeWindow pol).
Proof.
  intros HW HPW HP He.
  assert (Hfacts : forall offset,
             assignProvingPeriodOffset pol (HashBlake2b cons) (Receiver r) (CurrEpoch r)
             = Val offset ->
             let periodStart := currentProvingPeriodStart pol (CurrEpoch r) offset in
             let index := currentDeadlineIndex pol (CurrEpoch r) periodStart in
             periodStart <= CurrEpoch r < periodStart + WPoStProvingPeriod pol
             /\ 0 <= index < WPoStPeriodDeadlines pol
             /\ periodStart + index * WPoStChallengeWindow pol <= CurrEpoch r
                < periodStart + (index + 1) * WPoStChallengeWindow pol).
  { intros offset Hoffset periodStart index.
    destruct (assignProvingPeriodOffset_range pol (HashBlake2b cons) (Receiver r)
                (CurrEpoch r) HP) as (offset' & Ho & Hrange).
    rewrite Hoffset in Ho. injection Ho as <-.
    destruct (currentProvingPeriodStart_spec pol (CurrEpoch r) offset HP He Hrange)
      as (k & _ & Hb).
    split; [exact Hb|].
    exact (deadline_window pol (CurrEpoch r) offset HW HPW HP He Hrange). }
  split.
  - intros c msg H.
    assert (Hno : ~ (msg = "computed proving period start %d after current epoch %d"
                     \/ msg = "computed proving deadline index %d invalid")); [|tauto].
    intros Hmsg.
    destruct (Constructor_checks _ _ _ _ _ _ _ _ _ H Hmsg) as (offset & Hoffset & Hfail).
    destruct (Hfacts offset Hoffset) as (Hb & Hi & _).
    destruct Hfail as [Hfail|Hfail].
    + apply Z.leb_gt in Hfail. lia.
    + apply Z.ltb_ge in Hfail. lia.
  - intros u w' H.
    apply Constructor_Done in H
      as (owner & worker & controlAddrs & offset & info & _ & _ & _ & _ & Hoffset & _
          & Hst & Hbal & Hsent).
    destruct (Hfacts offset Hoffset) as (Hb & Hi & Hwin).
    exists info, (currentProvingPeriodStart pol (CurrEpoch r) offset),
      (currentDeadlineIndex pol (CurrEpoch r)
         (currentProvingPeriodStart pol (CurrEpoch r) offset)).
    auto 10.
Qed.

Lemma Constructor_starts_in_current_period_witness :
  let pol := fixture.Miner.policy in
  let r := fixture.runtime 10000 InitActorAddr in
  let run := Constructor pol fixture.Miner.controlPolicy fixture.Miner.addressing
               fixture.Miner.construction r fixture.Miner.constructorParams in
  run fixture.Miner.world = Done (tt, outcome run fixture.Miner.world)
  /\ State.ProvingPeriodStart (state (outcome run fixture.Miner.world)) = 8120
  /\ State.CurrentDeadline (state (outcome run fixture.Miner.world)) = 31
  /\ exists info periodStart index,
       ConstructState fixture.Miner.construction info periodStart index
       = Val (state (outcome run fixture.Miner.world))
       /\ periodStart <= 10000 < periodStart + WPoStProvingPeriod pol
       /\ 0 <= index < WPoStPeriodDeadlines pol.
Proof.
  intros pol r run.
  assert (Hrun : run fixture.Miner.world = Done (tt, outcome run fixture.Miner.world))
    by (vm_compute; reflexivity).
  split; [exact Hrun|]. split; [vm_compute; reflexivity|]. split; [vm_compute; reflexivity|].
  destruct (Constructor_starts_in_current_period pol fixture.Miner.controlPolicy
              fixture.Miner.addressing fixture.Miner.construction r
              fixture.Miner.constructorParams fixture.Miner.world) as [_ D].
  - reflexivity.
  - reflexivity.
  - vm_compute. split; [reflexivity | discriminate].
  - vm_compute. split; discriminate.
  - destruct (D _ _ Hrun) as (info & periodStart & index & Hst & _ & _ & Hb & Hi & _).
    exists info, periodStart, index. auto.
Defined.

(** X4.  [ChangeWorkerAddress], which only the owner may call, overwrites
    the control addresses with the resolved new ones but never changes the
    worker itself, nor a key change that is already pending: it schedules
    the change to the resolved new worker, effective [WorkerKeyChangeDelay]
    epochs later, exactly when none is pending and the new worker differs
    from the current one.  [ControlAddresses] then answers with the old
    owner and worker and the new control addresses. *)
Theorem ChangeWorkerAddress_schedules_the_change
        cpol ad r NewWorker NewControlAddrs (w : World State.t) u w' :
  ChangeWorkerAddress cpol ad r NewWorker NewControlAddrs w = Done (u, w') ->
  let info := State.Info (state w) in
  let info' := State.Info (state w') in
  Caller r = MinerInfo.Owner info
  /\ MinerInfo.Owner info' = MinerInfo.Owner info
  /\ MinerInfo.Worker info' = MinerInfo.Worker info
  /\ Forall2 (fun raw a => ResolveAddress r raw = Some a)
       NewControlAddrs (MinerInfo.ControlAddresses info')
  /\ (forall key, MinerInfo.PendingWorkerKey info = Some key ->
                  MinerInfo.PendingWorkerKey info' = Some key)
  /\ (MinerInfo.PendingWorkerKey info = None ->
      exists newWorker,
        ResolveAddress r NewWorker = Some newWorker
        /\ MinerInfo.PendingWorkerKey info'
           = if newWorker =? MinerInfo.Worker info then None
             else Some (WorkerKeyChange.mk newWorker
                          (add64 (CurrEpoch r) (WorkerKeyChangeDelay cpol))))
  /\ ControlAddresses w'
     = Done ((MinerInfo.Owner info, MinerInfo.Worker info, MinerInfo.ControlAddresses info'),
             w')
  /\ balance w' = balance w /\ sent w' = sent w.
Proof.
  intros H info info'.
  apply ChangeWorkerAddress_Done in H
    as (newWorker & controlAddrs & Hcaller & _ & Hworker & Hctrl & Hw').
  fold info in Hcaller, Hw'. subst w'. cbn in info'. subst info'. cbn.
  split_and!; try reflexivity; try assumption.
  - intros key Hkey. by rewrite Hkey.
  - intros Hnone. exists newWorker. split; [assumption|]. by rewrite Hnone.
Qed.

Lemma ChangeWorkerAddress_schedules_the_change_witness :
  let r := fixture.runtime 500 2000 in
  let run := ChangeWorkerAddress fixture.Miner.controlPolicy fixture.Miner.addressing r
               2005 [2006; 2007] in
  let w' := outcome run fixture.Miner.world in
  run fixture.Miner.world = Done (tt, w')
  /\ MinerInfo.Worker (State.Info (state w')) = 2001
  /\ MinerInfo.ControlAddresses (State.Info (state w')) = [2006; 2007]
  /\ MinerInfo.PendingWorkerKey (State.Info (state w')) = Some (WorkerKeyChange.mk 2005 1400).
Proof.
  intros r run w'.
  assert (Hrun : run fixture.Miner.world = Done (tt, w')) by (vm_compute; reflexivity).
  split; [exact Hrun|].
  destruct (ChangeWorkerAddress_schedules_the_change _ _ _ _ _ _ _ _ Hrun)
    as (_ & _ & Hworker & _ & _ & Hpending & _).
  split; [rewrite Hworker; reflexivity|]. split; [vm_compute; reflexivity|].
  destruct (Hpending eq_refl) as (newWorker & Hres & ->).
  injection Hres as <-. reflexivity.
Defined.

(** X5.  [ConfirmUpdateWorkerKey], which only the owner may call, changes
    nothing while no key change is pending or the pending one is not yet
    effective; from the effective epoch on it makes the new worker the
    worker and clears the pending change, and touches nothing else. *)
Theorem ConfirmUpdateWorkerKey_waits_for_the_effective_epoch
        r (w : World State.t) u w' :
  ConfirmUpdateWorkerKey r w = Done (u, w') ->
  let info := State.Info (state w) in
  let info' := State.Info (state w') in
  Caller r = MinerInfo.Owner info
  /\ (MinerInfo.PendingWorkerKey info = None -> w' = w)
  /\ (forall key,
         MinerInfo.PendingWorkerKey info = Some key ->
         (CurrEpoch r < WorkerKeyChange.EffectiveAt key -> w' = w)
         /\ (WorkerKeyChange.EffectiveAt key <= CurrEpoch r ->
             MinerInfo.Worker info' = WorkerKeyChange.NewWorker key
             /\ MinerInfo.PendingWorkerKey info' = None
             /\ info' = MinerInfo.set_PendingWorkerKey None
                          (MinerInfo.set_Worker (WorkerKeyChange.NewWorker key) info)
             /\ w' = mkWorld (State.set_Info info' (state w)) (balance w) (sent w))).
Proof.
  intros H info info'.
  apply ConfirmUpdateWorkerKey_Done in H as [Hcaller Hw']. fold info in Hcaller, Hw'.
  split; [exact Hcaller|]. split.
  - intros Hnone. by rewrite Hnone in Hw'.
  - intros key Hkey. rewrite Hkey in Hw'. split.
    + intros Hlt. apply Z.ltb_lt in Hlt. by rewrite Hlt in Hw'.
    + intros Hge. apply Z.ltb_ge in Hge. rewrite Hge in Hw'.
      subst w'. cbn in info'. subst info'. cbn. auto.
Qed.

Lemma ConfirmUpdateWorkerKey_waits_for_the_effective_epoch_witness :
  let pending :=
    mkWorld (State.set_Info
               (MinerInfo.set_PendingWorkerKey (Some (WorkerKeyChange.mk 2005 1400))
                  (fixture.Miner.info (-1)))
               (fixture.Miner.state (-1) []))
            1000 [] in
  let early := ConfirmUpdateWorkerKey (fixture.runtime 1399 2000) in
  let due := ConfirmUpdateWorkerKey (fixture.runtime 1400 2000) in
  (early pending = Done (tt, outcome early pending)
   /\ due pending = Done (tt, outcome due pending))
  /\ outcome early pending = pending
  /\ MinerInfo.Worker (State.Info (state (outcome due pending))) = 2005
  /\ MinerInfo.PendingWorkerKey (State.Info (state (outcome due pending))) = None.
Proof.
  intros pending early due.
  assert (H1 : early pending = Done (tt, outcome early pending)) by (vm_compute; reflexivity).
  assert (H2 : due pending = Done (tt, outcome due pending)) by (vm_compute; reflexivity).
  split; [auto|].
  destruct (ConfirmUpdateWorkerKey_waits_for_the_effective_epoch _ _ _ _ H1) as (_ & _ & E).
  destruct (ConfirmUpdateWorkerKey_waits_for_the_effective_epoch _ _ _ _ H2) as (_ & _ & D).
  destruct (E _ eq_refl) as [E1 _]. destruct (D _ eq_refl) as [_ D2].
  split; [apply E1; cbn; lia|].
  destruct D2 as (Hw & Hp & _); [cbn; lia|]. auto.
Defined.

(** X6.  A worker change that [ChangeWorkerAddress] schedules at epoch [e]
    takes effect exactly [WorkerKeyChangeDelay] epochs later: a
    [ConfirmUpdateWorkerKey] before [e + WorkerKeyChangeDelay] leaves the
    old worker in place and the change pending, one at or after it
    installs the new worker. *)
Theorem worker_change_takes_effect_after_the_delay
        cpol ad r1 r2 NewWorker NewControlAddrs newWorker (w : World State.t) u1 w1 u2 w2 :
  MinInt64 <= CurrEpoch r1 + WorkerKeyChangeDelay cpol <= MaxInt64 ->
  MinerInfo.PendingWorkerKey (State.Info (state w)) = None ->
  ResolveAddress r1 NewWorker = Some newWorker ->
  newWorker <> MinerInfo.Worker (State.Info (state w)) ->
  ChangeWorkerAddress cpol ad r1 NewWorker NewControlAddrs w = Done (u1, w1) ->
  ConfirmUpdateWorkerKey r2 w1 = Done (u2, w2) ->
  (CurrEpoch r2 < CurrEpoch r1 + WorkerKeyChangeDelay cpol ->
   w2 = w1
   /\ MinerInfo.Worker (State.Info (state w2)) = MinerInfo.Worker (State.Info (state w))
   /\ MinerInfo.PendingWorkerKey (State.Info (state w2))
      = Some (WorkerKeyChange.mk newWorker (CurrEpoch r1 + WorkerKeyChangeDelay cpol)))
  /\ (CurrEpoch r1 + WorkerKeyChangeDelay cpol <= CurrEpoch r2 ->
      MinerInfo.Worker (State.Info (state w2)) = newWorker
      /\ MinerInfo.PendingWorkerKey (State.Info (state w2)) = None).
Proof.
  intros Hrange Hnone Hres Hdiff H1 H2.
  apply ChangeWorkerAddress_Done in H1
    as (newWorker' & controlAddrs & _ & _ & Hworker & _ & Hw1).
  rewrite Hres in Hworker. injection Hworker as <-.
  rewrite Hnone in Hw1. apply Z.eqb_neq in Hdiff. rewrite Hdiff in Hw1.
  rewrite add64_id in Hw1 by exact Hrange.
  apply ConfirmUpdateWorkerKey_Done in H2 as [_ Hw2].
  subst w1. cbn in Hw2. split.
  - intros Hlt. apply Z.ltb_lt in Hlt. rewrite Hlt in Hw2. subst w2. cbn. auto.
  - intros Hge. apply Z.ltb_ge in Hge. rewrite Hge in Hw2. subst w2. cbn. auto.
Qed.

Lemma worker_change_takes_effect_after_the_delay_witness :
  let change := ChangeWorkerAddress fixture.Miner.controlPolicy fixture.Miner.addressing
                  (fixture.runtime 500 2000) 2005 [] in
  let w1 := outcome change fixture.Miner.world in
  let early := ConfirmUpdateWorkerKey (fixture.runtime 1399 2000) in
  let due := ConfirmUpdateWorkerKey (fixture.runtime 1400 2000) in
  (change fixture.Miner.world = Done (tt, w1)
   /\ early w1 = Done (tt, outcome early w1)
   /\ due w1 = Done (tt, outcome due w1))
  /\ MinerInfo.Worker (State.Info (state (outcome early w1))) = 2001
  /\ MinerInfo.Worker (State.Info (state (outcome due w1))) = 2005.
Proof.
  intros change w1 early due.
  assert (H1 : change fixture.Miner.world = Done (tt, w1)) by (vm_compute; reflexivity).
  assert (H2 : early w1 = Done (tt, outcome early w1)) by (vm_compute; reflexivity).
  assert (H3 : due w1 = Done (tt, outcome due w1)) by (vm_compute; reflexivity).
  split; [auto|].
  assert (Hrange : MinInt64 <= 500 + 900 <= MaxInt64) by (vm_compute; split; discriminate).
  assert (Hdiff : 2005 <> 2001) by discriminate.
  destruct (worker_change_takes_effect_after_the_delay
              fixture.Miner.controlPolicy fixture.Miner.addressing
              (fixture.runtime 500 2000) (fixture.runtime 1399 2000) 2005 [] 2005
              fixture.Miner.world tt w1 tt (outcome early w1)
              Hrange eq_refl eq_refl Hdiff H1 H2) as [E _].
  destruct (worker_change_takes_effect_after_the_delay
              fixture.Miner.controlPolicy fixture.Miner.addressing
              (fixture.runtime 500 2000) (fixture.runtime 1400 2000) 2005 [] 2005
              fixture.Miner.world tt w1 tt (outcome due w1)
              Hrange eq_refl eq_refl Hdiff H1 H3) as [_ D].
  split.
  - destruct E as (_ & Hw & _); [cbn; lia|]. rewrite Hw. reflexivity.
  - destruct D as (Hw & _); [cbn; lia|]. exact Hw.
Defined.

(** X7.  [ChangeOwnerAddress] changes the owner only on confirmation: the
    owner changes only when the caller is the address that is pending as
    the proposed owner and names itself, and then it becomes the owner and
    the proposal is cleared; in every other successful call the caller is
    the owner, the owner stays, and the proposal becomes the named address,
    or none when the owner names itself.  Nothing else changes. *)
Theorem ChangeOwnerAddress_changes_owner_only_on_confirmation
        ad r newAddress (w : World State.t) u w' :
  ChangeOwnerAddress ad r newAddress w = Done (u, w') ->
  let info := State.Info (state w) in
  let info' := State.Info (state w') in
  Empty ad newAddress = false /\ Protocol ad newAddress = addr.ID
  /\ (MinerInfo.Owner info' <> MinerInfo.Owner info ->
      MinerInfo.PendingOwnerAddress info = Some newAddress
      /\ Caller r = newAddress
      /\ MinerInfo.Owner info' = newAddress
      /\ MinerInfo.PendingOwnerAddress info' = None)
  /\ (MinerInfo.Owner info' = MinerInfo.Owner info ->
      Caller r = MinerInfo.Owner info
      /\ MinerInfo.PendingOwnerAddress info'
         = if newAddress =? MinerInfo.Owner info then None else Some newAddress)
  /\ w' = mkWorld
            (State.set_Info
               (MinerInfo.set_PendingOwnerAddress (MinerInfo.PendingOwnerAddress info')
                  (MinerInfo.set_Owner (MinerInfo.Owner info') info))
               (state w))
            (balance w) (sent w).
Proof.
  intros H info info'.
  apply ChangeOwnerAddress_Done in H as (Hempty & Hproto & H). fold info in H.
  split; [exact Hempty|]. split; [exact Hproto|].
  destruct H as [(Hcaller & ->) | (Hcaller & Hpending & Hnew & ->)];
    cbn in info'; subst info'; cbn.
  - split; [intros Hne; contradiction|]. split; [auto|].
    destruct info; reflexivity.
  - split; [auto|]. split; [|reflexivity].
    intros Howner. exfalso. apply Hcaller. congruence.
Qed.

Lemma ChangeOwnerAddress_changes_owner_only_on_confirmation_witness :
  let proposed :=
    mkWorld (State.set_Info
               (MinerInfo.set_PendingOwnerAddress (Some 2010) (fixture.Miner.info (-1)))
               (fixture.Miner.state (-1) []))
            1000 [] in
  let confirm := ChangeOwnerAddress fixture.Miner.addressing (fixture.runtime 500 2010) 2010 in
  let revoke := ChangeOwnerAddress fixture.Miner.addressing (fixture.runtime 500 2000) 2000 in
  (confirm proposed = Done (tt, outcome confirm proposed)
   /\ revoke proposed = Done (tt, outcome revoke proposed))
  /\ MinerInfo.Owner (State.Info (state (outcome confirm proposed))) = 2010
  /\ MinerInfo.PendingOwnerAddress (State.Info (state (outcome confirm proposed))) = None
  /\ MinerInfo.Owner (State.Info (state (outcome revoke proposed))) = 2000
  /\ MinerInfo.PendingOwnerAddress (State.Info (state (outcome revoke proposed))) = None.
Proof.
  intros proposed confirm revoke.
  assert (H1 : confirm proposed = Done (tt, outcome confirm proposed))
    by (vm_compute; reflexivity).
  assert (H2 : revoke proposed = Done (tt, outcome revoke proposed))
    by (vm_compute; reflexivity).
  split; [auto|].
  destruct (ChangeOwnerAddress_changes_owner_only_on_confirmation
              fixture.Miner.addressing (fixture.runtime 500 2010) 2010 proposed tt
              (outcome confirm proposed) H1)
    as (_ & _ & C & _ & _).
  destruct (ChangeOwnerAddress_changes_owner_only_on_confirmation
              fixture.Miner.addressing (fixture.runtime 500 2000) 2000 proposed tt
              (outcome revoke proposed) H2)
    as (_ & _ & _ & R & _).
  destruct C as (_ & _ & Ho & Hp); [vm_compute; discriminate|].
  destruct R as (_ & Hr); [vm_compute; reflexivity|].
  split; [exact Ho|]. split; [exact Hp|]. split; [vm_compute; reflexivity|].
  rewrite Hr. reflexivity.
Defined.

(** X8.  The handshake of [ChangeOwnerAddress] goes through: when the
    owner proposes an ID address other than its own and that address then
    confirms by naming itself, both calls succeed, the address is the owner
    afterwards and no proposal is left, whatever was proposed before; the
    rest of the miner info, the balance and the messages are as they
    were. *)
Theorem ChangeOwnerAddress_handshake ad r1 r2 newAddress (w : World State.t) :
  let info := State.Info (state w) in
  Empty ad newAddress = false ->
  Protocol ad newAddress = addr.ID ->
  newAddress <> MinerInfo.Owner info ->
  Caller r1 = MinerInfo.Owner info ->
  Caller r2 = newAddress ->
  exists w1,
    ChangeOwnerAddress ad r1 newAddress w = Done (tt, w1)
    /\ MinerInfo.Owner (State.Info (state w1)) = MinerInfo.Owner info
    /\ MinerInfo.PendingOwnerAddress (State.Info (state w1)) = Some newAddress
    /\ ChangeOwnerAddress ad r2 newAddress w1
       = Done (tt, mkWorld
                     (State.set_Info
                        (MinerInfo.set_PendingOwnerAddress None
                           (MinerInfo.set_Owner newAddress info))
                        (state w))
                     (balance w) (sent w)).
Proof.
  intros info Hempty Hproto Hne Hc1 Hc2.
  assert (Hne' : (newAddress =? MinerInfo.Owner info) = false) by (by apply Z.eqb_neq).
  exists (mkWorld (State.set_Info (MinerInfo.set_PendingOwnerAddress (Some newAddress) info)
                     (state w))
            (balance w) (sent w)).
  split; [|split; [reflexivity|split; [reflexivity|]]].
  - unfold ChangeOwnerAddress, rt.bind, StateTransaction, ValidateImmediateCallerIs.
    rewrite Hempty, Hproto. cbn. fold info. rewrite Hc1, Z.eqb_refl. cbn.
    destruct (MinerInfo.PendingOwnerAddress info); cbn; rewrite Hne'; reflexivity.
  - unfold ChangeOwnerAddress, rt.bind, StateTransaction, ValidateImmediateCallerIs.
    rewrite Hempty, Hproto. cbn. rewrite Hc2, Hne'. cbn.
    repeat (rewrite Z.eqb_refl; cbn). reflexivity.
Qed.

Lemma ChangeOwnerAddress_handshake_witness :
  let ad := fixture.Miner.addressing in
  let propose := ChangeOwnerAddress ad (fixture.runtime 500 2000) 2010 in
  let confirm := ChangeOwnerAddress ad (fixture.runtime 501 2010) 2010 in
  exists w1,
    propose fixture.Miner.world = Done (tt, w1)
    /\ MinerInfo.Owner (State.Info (state (outcome confirm w1))) = 2010
    /\ MinerInfo.PendingOwnerAddress (State.Info (state (outcome confirm w1))) = None.
Proof.
  intros ad propose confirm.
  destruct (ChangeOwnerAddress_handshake ad (fixture.runtime 500 2000)
              (fixture.runtime 501 2010) 2010 fixture.Miner.world)
    as (w1 & H1 & _ & _ & H2); try reflexivity; try discriminate.
  exists w1. split; [exact H1|].
  unfold confirm, outcome. rewrite H2. split; reflexivity.
Defined.

(** X9.  [ChangeMultiaddrs] takes a list only when no multiaddr in it is
    empty and all of them together hold at most [MaxMultiaddrData] bytes:
    any other list is refused with [ErrIllegalArgument], whoever calls; an
    accepted call comes from the owner, the worker or a control address and
    replaces the multiaddrs, nothing else. *)
Theorem ChangeMultiaddrs_bounds pol r NewMultiaddrs (w : World State.t) :
  (In [] NewMultiaddrs
   \/ Z.of_nat (length (concat NewMultiaddrs)) > MaxMultiaddrData pol ->
   exists msg, ChangeMultiaddrs pol r NewMultiaddrs w = Abort exitcode.ErrIllegalArgument msg)
  /\ (forall u w',
         ChangeMultiaddrs pol r NewMultiaddrs w = Done (u, w') ->
         Forall (fun ma => ma <> []) NewMultiaddrs
         /\ Z.of_nat (length (concat NewMultiaddrs)) <= MaxMultiaddrData pol
         /\ In (Caller r) (MinerInfo.ControlAddresses (State.Info (state w))
                           ++ [MinerInfo.Owner (State.Info (state w));
                               MinerInfo.Worker (State.Info (state w))])
         /\ w' = mkWorld (State.set_Info
                            (MinerInfo.set_Multiaddrs NewMultiaddrs (State.Info (state w)))
                            (state w))
                   (balance w) (sent w)).
Proof.
  split.
  - intros Hbad.
    destruct (checkPeerInfo_rejects (W := World State.t) pol [] NewMultiaddrs w)
      as (msg & Hmsg); [tauto|].
    exists msg. unfold ChangeMultiaddrs. by rewrite (bind_eq_Abort _ _ _ _ _ Hmsg).
  - intros u w' H. by apply ChangeMultiaddrs_Done in H.
Qed.

Lemma ChangeMultiaddrs_bounds_witness :
  let pol := fixture.Miner.policy in
  let r := fixture.runtime 500 2002 in
  let good := ChangeMultiaddrs pol r [[1; 2]; [3]] in
  (In [] [[1; 2]; []]
   /\ good fixture.Miner.world = Done (tt, outcome good fixture.Miner.world))
  /\ (exists msg, ChangeMultiaddrs pol r [[1; 2]; []] fixture.Miner.world
                  = Abort exitcode.ErrIllegalArgument msg)
  /\ MinerInfo.Multiaddrs (State.Info (state (outcome good fixture.Miner.world)))
     = [[1; 2]; [3]].
Proof.
  intros pol r good.
  assert (H1 : In [] [[1; 2]; []]) by (cbn; auto).
  assert (H2 : good fixture.Miner.world = Done (tt, outcome good fixture.Miner.world))
    by (vm_compute; reflexivity).
  split; [auto|].
  destruct (ChangeMultiaddrs_bounds pol r [[1; 2]; []] fixture.Miner.world) as [Bad _].
  destruct (ChangeMultiaddrs_bounds pol r [[1; 2]; [3]] fixture.Miner.world) as [_ Good].
  split; [apply Bad; auto|].
  destruct (Good _ _ H2) as (_ & _ & _ & ->). reflexivity.
Defined.

End control_extra.

(** ** Pre-commit batches: the sectors taken and the deadline cron *)

Module batch_spec.
Import miner builtin miner_spec consensus_spec.

Lemma validateExpiration_Done {W} pol r activation expiration sealProof (w : W) u w' :
  validateExpiration pol r activation expiration sealProof w = Done (u, w') ->
  w' = w
  /\ activation < expiration
  /\ MinSectorExpiration pol <= sub64 expiration activation
  /\ expiration <= add64 (CurrEpoch r) (MaxSectorExpirationExtension pol)
  /\ exists maxLifetime,
       SealProofSectorMaximumLifetime pol sealProof = Some maxLifetime
       /\ sub64 expiration activation <= maxLifetime.
Proof.
  unfold validateExpiration. intros H.
  step H as ? w1 H1. apply guard_Done in H1 as [Hafter ->].
  step H as ? w1 H1. apply guard_Done in H1 as [Hmin ->].
  step H as ? w1 H1. apply guard_Done in H1 as [Hext ->].
  step H as maxLifetime w1 H1. apply RequireNoErr_Done in H1 as [Hlife ->].
  apply guard_Done in H as [Hmax ->].
  apply Z.leb_gt in Hafter. apply Z.ltb_ge in Hmin.
  rewrite Z.gtb_ltb in Hext. apply Z.ltb_ge in Hext.
  rewrite Z.gtb_ltb in Hmax. apply Z.ltb_ge in Hmax.
  split_and!; try assumption; try reflexivity.
  exists maxLifetime. split; [|exact Hmax].
  destruct (SealProofSectorMaximumLifetime pol sealProof); [|discriminate].
  by injection Hlife as <-.
Qed.

Lemma validateExpiration_passes {W} pol r activation expiration sealProof maxLifetime (w : W) :
  activation < expiration ->
  MinSectorExpiration pol <= sub64 expiration activation ->
  expiration <= add64 (CurrEpoch r) (MaxSectorExpirationExtension pol) ->
  SealProofSectorMaximumLifetime pol sealProof = Some maxLifetime ->
  sub64 expiration activation <= maxLifetime ->
  validateExpiration pol r activation expiration sealProof w = Done (tt, w).
Proof.
  intros Hafter Hmin Hext Hlife Hmax. unfold validateExpiration, rt.bind.
  apply Z.leb_gt in Hafter. rewrite Hafter. cbn.
  apply Z.ltb_ge in Hmin. rewrite Hmin. cbn.
  apply Z.ltb_ge in Hext. rewrite Z.gtb_ltb, Hext. cbn.
  rewrite Hlife. cbn.
  apply Z.ltb_ge in Hmax. rewrite Z.gtb_ltb, Hmax. reflexivity.
Qed.

Lemma validateExpiration_codes {W} pol r activation expiration sealProof (w : W) c msg :
  validateExpiration pol r activation expiration sealProof w = Abort c msg ->
  c = exitcode.ErrIllegalArgument.
Proof.
  unfold validateExpiration, RequireNoErr.
  destruct (SealProofSectorMaximumLifetime pol sealProof); intros H; abort_codes H.
Qed.

Lemma IsSet_In (bf : list Z) (i : Z) : bitfield.IsSet bf i = true <-> In i bf.
Proof.
  unfold bitfield.IsSet. rewrite existsb_exists. split.
  - intros (x & Hin & Hx). apply Z.eqb_eq in Hx. by subst x.
  - intros Hin. exists i. split; [exact Hin | apply Z.eqb_refl].
Qed.

Lemma Set_In_iff (bf : list Z) (i x : Z) : In x (bitfield.Set_ bf i) <-> In x bf \/ x = i.
Proof.
  unfold bitfield.Set_. destruct (bitfield.IsSet bf i) eqn:Hset.
  - apply IsSet_In in Hset. split; [auto|]. intros [H| ->]; assumption.
  - rewrite in_app_iff. cbn. split; intros [H|H]; auto.
    + destruct H as [<-|[]]. auto.
Qed.

(** What one round of the preconditions lets through. *)
Lemma preCommitPrecondition_checks {W} pol r earliest numbers precommit (w : W) numbers' w' :
  preCommitPrecondition pol r earliest numbers precommit w = Done (numbers', w') ->
  let number := uint64 (SectorPreCommitInfo.SectorNumber precommit) in
  ~ In number numbers
  /\ numbers' = bitfield.Set_ numbers number
  /\ CanPreCommitSealProof pol (SectorPreCommitInfo.SealProof precommit) = true
  /\ SectorPreCommitInfo.SectorNumber precommit <= MaxSectorNumber
  /\ SectorPreCommitInfo.SealedCID precommit <> 0
  /\ SealedCIDPrefix pol (SectorPreCommitInfo.SealedCID precommit) = true
  /\ SectorPreCommitInfo.ReplaceCapacity precommit = false.
Proof.
  intros H number. revert H. unfold preCommitPrecondition. intros H.
  step H as ? w1 H1. apply guard_Done in H1 as [Hdup _].
  step H as ? w2 H2. apply guard_Done in H2 as [Hproof _].
  step H as ? w3 H3. apply guard_Done in H3 as [Hmax _].
  step H as ? w4 H4. apply guard_Done in H4 as [Hcid _].
  step H as ? w5 H5. apply guard_Done in H5 as [Hprefix _].
  step H as ? w6 H6. step H as ? w7 H7. step H as ? w8 H8.
  step H as ? w9 H9. apply guard_Done in H9 as [Hcc _].
  injection H as <- _.
  split_and!.
  - intros Hin. apply IsSet_In in Hin. fold number in Hdup. congruence.
  - reflexivity.
  - by apply negb_false_iff in Hproof.
  - rewrite Z.gtb_ltb in Hmax. by apply Z.ltb_ge in Hmax.
  - by apply Z.eqb_neq in Hcid.
  - by apply negb_false_iff in Hprefix.
  - exact Hcc.
Qed.

Lemma preCommitPreconditions_checks {W} pol r earliest sectors :
  forall numbers (w : W) numbers' w',
    preCommitPreconditions pol r earliest numbers sectors w = Done (numbers', w') ->
    let number precommit := uint64 (SectorPreCommitInfo.SectorNumber precommit) in
    NoDup (map number sectors)
    /\ (forall x, In x numbers -> ~ In x (map number sectors))
    /\ (forall x, In x numbers' <-> In x numbers \/ In x (map number sectors))
    /\ Forall (fun precommit =>
                 CanPreCommitSealProof pol (SectorPreCommitInfo.SealProof precommit) = true
                 /\ SectorPreCommitInfo.SectorNumber precommit <= MaxSectorNumber
                 /\ SectorPreCommitInfo.SealedCID precommit <> 0
                 /\ SealedCIDPrefix pol (SectorPreCommitInfo.SealedCID precommit) = true
                 /\ SectorPreCommitInfo.ReplaceCapacity precommit = false) sectors.
Proof.
  induction sectors as [|precommit rest IH]; intros numbers w numbers' w' H number.
  - cbn in H. injection H as <- _. cbn. split_and!.
    + constructor.
    + auto.
    + tauto.
    + constructor.
  - cbn [preCommitPreconditions] in H. step H as numbers1 w1 H1.
    apply preCommitPrecondition_checks in H1 as (Hnew & -> & Hrest).
    apply IH in H as (Hnodup & Hfresh & Hin & Hall). fold number in Hnodup, Hfresh, Hin.
    cbn [map]. split_and!.
    + constructor; [|exact Hnodup]. rewrite list_elem_of_In.
      apply (Hfresh (number precommit)). apply Set_In_iff. auto.
    + intros x Hx [<-|Hx']; [contradiction|].
      apply (Hfresh x); [apply Set_In_iff; auto | exact Hx'].
    + intros x. rewrite Hin, Set_In_iff. cbn. split; intros Hx; intuition auto.
    + constructor; [exact Hrest | exact Hall].
Qed.

(** The state methods of the pre-commit transaction leave the cron flag. *)
Lemma ApplyPenalty_cron penalty st u st' :
  ApplyPenalty penalty st = Val (u, st') ->
  State.DeadlineCronActive st' = State.DeadlineCronActive st.
Proof.
  unfold ApplyPenalty. destruct (penalty <? 0); [discriminate|]. by intros [= _ <-].
Qed.

Lemma repayDebts_cron balance st fee st' :
  repayDebts balance st = Val (fee, st') ->
  State.DeadlineCronActive st' = State.DeadlineCronActive st.
Proof.
  unfold repayDebts. destruct (GetUnlockedBalance st balance); [|discriminate].
  destruct (_ <? _); [discriminate|]. by intros [= _ <-].
Qed.

Lemma PutPrecommittedSectors_cron precommits :
  forall st u st',
    PutPrecommittedSectors precommits st = Val (u, st') ->
    State.DeadlineCronActive st' = State.DeadlineCronActive st.
Proof.
  induction precommits as [|precommit rest IH]; intros st u st' H; cbn in H.
  - by injection H as _ <-.
  - destruct (State.PreCommittedSectors st !! _); [discriminate|].
    apply IH in H. exact H.
Qed.

Lemma pure_preCommitsOnChain {W} pol r info rewardStats pwrTotal dealWeights dealCountMax
      sectors :
  forall acc i,
    pure (W := W)
      (preCommitsOnChain pol r info rewardStats pwrTotal dealWeights dealCountMax acc i sectors).
Proof.
  induction sectors as [|precommit rest IH]; intros acc i; cbn [preCommitsOnChain].
  - apply pure_ret.
  - apply pure_bind; [|intros ?; apply IH].
    unfold preCommitOnChain. pure_tac.
Qed.

Lemma PreCommitSectorBatch_debts_cron pol r sectors balance st x st' :
  PreCommitSectorBatch_debts pol r sectors balance st = Done (x, st') ->
  State.DeadlineCronActive st' = State.DeadlineCronActive st.
Proof.
  unfold PreCommitSectorBatch_debts. intros H.
  step H as ? st1 H1.
  assert (E1 : State.DeadlineCronActive st1 = State.DeadlineCronActive st).
  { destruct (1 <? length sectors)%nat.
    - apply TryMethod_Done in H1. by apply ApplyPenalty_cron in H1.
    - by injection H1 as _ <-. }
  step H as st2 ? H2. injection H2 as <- <-.
  step H as availableBalance st3 H3. apply RequireNoErr_Done in H3 as [_ ->].
  step H as feeToBurn st4 H4. unfold RepayDebtsOrAbort in H4.
  apply TryMethod_Done in H4. apply repayDebts_cron in H4.
  injection H as _ <-. congruence.
Qed.

(** The transaction switches the cron flag on and reports whether it was
    off. *)
Lemma PreCommitSectorBatch_tx_cron pol r sectors numbers rewardStats pwrTotal dealWeights
      balance st fee needsCron st' :
  PreCommitSectorBatch_tx pol r sectors numbers rewardStats pwrTotal dealWeights balance st
  = Done ((fee, needsCron), st') ->
  needsCron = negb (State.DeadlineCronActive st)
  /\ State.DeadlineCronActive st' = true.
Proof.
  unfold PreCommitSectorBatch_tx. intros H.
  step H as [availableBalance feeToBurn] st1 H1.
  apply PreCommitSectorBatch_debts_cron in H1.
  step H as st2 ? H2. injection H2 as <- <-.
  step H as ? st3 H3. apply pure_ValidateImmediateCallerIs in H3. subst st3.
  step H as ? st3 H3. apply guard_Done in H3 as [_ ->].
  step H as acc st3 H3. apply pure_preCommitsOnChain in H3. subst st3.
  step H as ? st3 H3. apply guard_Done in H3 as [_ ->].
  step H as ? st3 H3. apply TryMethod_Done in H3.
  assert (E3 : State.DeadlineCronActive st3 = State.DeadlineCronActive st1).
  { revert H3. unfold AddPreCommitDeposit. destruct (_ <? 0); [discriminate|].
    by intros [= _ <-]. }
  step H as ? st4 H4. apply TryMethod_Done in H4.
  assert (E4 : State.DeadlineCronActive st4 = State.DeadlineCronActive st3).
  { revert H4. unfold AllocateSectorNumbers. destruct (existsb _ _); [discriminate|].
    by intros [= _ <-]. }
  step H as ? st5 H5. apply TryMethod_Done in H5. apply PutPrecommittedSectors_cron in H5.
  step H as ? st6 H6. apply TryMethod_Done in H6.
  assert (E6 : State.DeadlineCronActive st6 = State.DeadlineCronActive st5).
  { revert H6. unfold AddPreCommitCleanUps. by intros [= _ <-]. }
  step H as st7 ? H7. injection H7 as <- <-.
  step H as ? st8 H8. injection H8 as _ <-.
  injection H as _ <- <-. split; [|reflexivity]. congruence.
Qed.

(** A successful batch, taken apart to its last message. *)
Lemma PreCommitSectorBatch_Done pol peers r sectors (w : World State.t) u w' :
  PreCommitSectorBatch pol peers r sectors w = Done (u, w') ->
  exists sectorNumbers feeToBurn st',
    (0 < length sectors)%nat
    /\ Z.of_nat (length sectors) <= PreCommitSectorBatchMaxSize pol
    /\ preCommitPreconditions pol r (sub64 (CurrEpoch r) (MaxPreCommitRandomnessLookback pol))
         bitfield.New sectors w = Done (sectorNumbers, w)
    /\ State.DeadlineCronActive st' = true
    /\ state w' = st'
    /\ sent w'
       = sent w
         ++ (if feeToBurn >? 0 then [mkMessage BurntFundsActorAddr MethodSend feeToBurn]
             else [])
         ++ (if State.DeadlineCronActive (state w) then []
             else [mkMessage StoragePowerActorAddr
                     (EnrollCronEvent (dline.Last (DeadlineInfo pol st' (CurrEpoch r)))
                        CronEventProvingDeadline) 0]).
Proof.
  unfold PreCommitSectorBatch. intros H.
  step H as ? w1 H1.
  assert (Hsize : (0 < length sectors)%nat
                  /\ Z.of_nat (length sectors) <= PreCommitSectorBatchMaxSize pol /\ w1 = w).
  { destruct (Nat.eqb_spec (length sectors) 0); [discriminate|].
    destruct (Z.gtb_spec (Z.of_nat (length sectors)) (PreCommitSectorBatchMaxSize pol));
      [discriminate|].
    injection H1 as _ <-. split_and!; [lia | lia | reflexivity]. }
  destruct Hsize as (Hpos & Hmax & ->).
  step H as sectorNumbers w2 H2.
  assert (w2 = w) by exact (blind_same _ _ _ _ (blind_preCommitPreconditions _ _ _ _ _) H2).
  subst w2.
  step H as rewardStats w3 H3.
  assert (w3 = w) by exact (blind_same _ _ _ _ (blind_requestCurrentEpochBlockReward _) H3).
  subst w3.
  step H as pwrTotal w4 H4.
  assert (w4 = w) by exact (blind_same _ _ _ _ (blind_requestCurrentTotalPower _) H4).
  subst w4.
  step H as dealWeights w5 H5.
  assert (w5 = w) by exact (blind_same _ _ _ _ (blind_requestDealWeights _ _) H5).
  subst w5.
  step H as ? w6 H6. apply guard_Done in H6 as [_ ->].
  step H as balance w6 H6. injection H6 as <- <-.
  step H as [feeToBurn needsCron] w7 H7.
  apply StateTransaction_Done in H7 as (st' & Htx & ->).
  apply PreCommitSectorBatch_tx_cron in Htx as [-> Hon].
  step H as ? w8 H8. apply burnFunds_Done in H8 as (Hst8 & _ & Hsent8). cbn in Hst8, Hsent8.
  step H as ? w9 H9. apply checkBalanceInvariants_Done in H9 as [-> _].
  step H as st9 w9 H9. injection H9 as <- <-.
  exists sectorNumbers, feeToBurn, st'.
  split; [exact Hpos|]. split; [exact Hmax|]. split; [exact H2|]. split; [exact Hon|].
  destruct (State.DeadlineCronActive (state w)); cbn [negb] in H.
  - injection H as _ <-. rewrite app_nil_r. auto.
  - apply enrollCronEvent_Done in H as (Hst & _ & Hsent).
    rewrite Hst, Hsent, Hsent8, Hst8, <- app_assoc. auto.
Qed.

End batch_spec.

Module batch_extra.
Import miner builtin batch_spec.

(** X10.  [validateExpiration] passes exactly the expirations that lie
    after the activation, at least [MinSectorExpiration] and at most the
    maximum lifetime of the seal proof after it, and at most
    [MaxSectorExpirationExtension] past the current epoch; it changes
    nothing, and every refusal is an [ErrIllegalArgument]. *)
Theorem validateExpiration_window {W} pol r activation expiration sealProof (w : W) :
  MinInt64 <= expiration - activation <= MaxInt64 ->
  MinInt64 <= CurrEpoch r + MaxSectorExpirationExtension pol <= MaxInt64 ->
  (validateExpiration pol r activation expiration sealProof w = Done (tt, w)
   <-> activation < expiration
       /\ expiration <= CurrEpoch r + MaxSectorExpirationExtension pol
       /\ exists maxLifetime,
            SealProofSectorMaximumLifetime pol sealProof = Some maxLifetime
            /\ MinSectorExpiration pol <= expiration - activation <= maxLifetime)
  /\ (forall u w', validateExpiration pol r activation expiration sealProof w = Done (u, w') ->
                   w' = w)
  /\ (forall c msg, validateExpiration pol r activation expiration sealProof w = Abort c msg ->
                    c = exitcode.ErrIllegalArgument).
Proof.
  intros Hlife Hext. split; [|split].
  - split.
    + intros H. apply validateExpiration_Done in H
        as (_ & Hafter & Hmin & Hmax & maxLifetime & Hproof & Hle).
      rewrite sub64_id in Hmin, Hle by exact Hlife. rewrite add64_id in Hmax by exact Hext.
      split; [exact Hafter|]. split; [exact Hmax|]. exists maxLifetime. auto.
    + intros (Hafter & Hmax & maxLifetime & Hproof & Hmin & Hle).
      apply (validateExpiration_passes _ _ _ _ _ maxLifetime); try assumption.
      * by rewrite sub64_id.
      * by rewrite add64_id.
      * by rewrite sub64_id.
  - intros u w' H. by apply validateExpiration_Done in H as (-> & _).
  - intros c msg H. exact (validateExpiration_codes _ _ _ _ _ _ _ _ H).
Qed.

Lemma validateExpiration_window_witness :
  let pol := fixture.Miner.policy in
  let r := fixture.runtime 1000 2000 in
  (MinInt64 <= 700000 - 87550 <= MaxInt64
   /\ MinInt64 <= CurrEpoch r + MaxSectorExpirationExtension pol <= MaxInt64)
  /\ validateExpiration pol r 87550 700000 8 fixture.Miner.world
     = Done (tt, fixture.Miner.world)
  /\ exists msg, validateExpiration pol r 87550 90000 8 fixture.Miner.world
                 = Abort exitcode.ErrIllegalArgument msg.
Proof.
  intros pol r.
  assert (H1 : MinInt64 <= 700000 - 87550 <= MaxInt64) by (vm_compute; split; discriminate).
  assert (H2 : MinInt64 <= CurrEpoch r + MaxSectorExpirationExtension pol <= MaxInt64)
    by (vm_compute; split; discriminate).
  split; [auto|].
  destruct (validateExpiration_window pol r 87550 700000 8 fixture.Miner.world H1 H2)
    as [[_ Hpass] _].
  assert (H3 : MinInt64 <= 90000 - 87550 <= MaxInt64) by (vm_compute; split; discriminate).
  destruct (validateExpiration_window pol r 87550 90000 8 fixture.Miner.world H3 H2)
    as (_ & _ & Hcode).
  split.
  - apply Hpass. split; [reflexivity|]. split; [vm_compute; discriminate|].
    exists 5256000. split; [reflexivity|]. vm_compute. split; discriminate.
  - destruct (validateExpiration pol r 87550 90000 8 fixture.Miner.world)
      as [[u' w']|c msg] eqn:E.
    + vm_compute in E. discriminate E.
    + exists msg. by rewrite (Hcode c msg eq_refl).
Defined.

(** X11.  A batch that [PreCommitSectorBatch] accepts holds between one
    and [PreCommitSectorBatchMaxSize] sectors with pairwise distinct sector
    numbers; each has an allowed seal proof, a number up to
    [MaxSectorNumber], a defined sealed CID with the right prefix, and does
    not ask for a capacity upgrade. *)
Theorem PreCommitSectorBatch_accepts_distinct_sectors
        pol peers r sectors (w : World State.t) u w' :
  PreCommitSectorBatch pol peers r sectors w = Done (u, w') ->
  1 <= Z.of_nat (length sectors) <= PreCommitSectorBatchMaxSize pol
  /\ NoDup (map (fun precommit => uint64 (SectorPreCommitInfo.SectorNumber precommit)) sectors)
  /\ Forall (fun precommit =>
               CanPreCommitSealProof pol (SectorPreCommitInfo.SealProof precommit) = true
               /\ SectorPreCommitInfo.SectorNumber precommit <= MaxSectorNumber
               /\ SectorPreCommitInfo.SealedCID precommit <> 0
               /\ SealedCIDPrefix pol (SectorPreCommitInfo.SealedCID precommit) = true
               /\ SectorPreCommitInfo.ReplaceCapacity precommit = false) sectors.
Proof.
  intros H.
  apply PreCommitSectorBatch_Done in H
    as (sectorNumbers & feeToBurn & st' & Hpos & Hmax & Hpre & _).
  apply preCommitPreconditions_checks in Hpre as (Hnodup & _ & _ & Hall).
  split; [lia|]. split; [exact Hnodup | exact Hall].
Qed.

Lemma PreCommitSectorBatch_accepts_distinct_sectors_witness :
  let pol := fixture.Miner.policy in
  let r := fixture.runtime 1000 2000 in
  let batch := [fixture.Miner.sector 5 990; fixture.Miner.sector 6 990] in
  let run := PreCommitSectorBatch pol fixture.Miner.peers r batch in
  run fixture.Miner.world = Done (tt, outcome run fixture.Miner.world)
  /\ NoDup (map (fun precommit => uint64 (SectorPreCommitInfo.SectorNumber precommit)) batch)
  /\ exists c msg,
       PreCommitSectorBatch pol fixture.Miner.peers r
         [fixture.Miner.sector 5 990; fixture.Miner.sector 5 990] fixture.Miner.world
       = Abort c msg.
Proof.
  intros pol r batch run.
  assert (Hrun : run fixture.Miner.world = Done (tt, outcome run fixture.Miner.world))
    by (vm_compute; reflexivity).
  split; [exact Hrun|].
  destruct (PreCommitSectorBatch_accepts_distinct_sectors pol fixture.Miner.peers r batch
              fixture.Miner.world tt _ Hrun) as (_ & Hnodup & _).
  split; [exact Hnodup|].
  exists exitcode.ErrIllegalArgument, "duplicate sector number %d". vm_compute. reflexivity.
Defined.

(** X12.  [PreCommitSectorBatch] enrolls the deadline cron exactly when it
    is not active yet: after a successful batch the cron flag is set; the
    messages it sent are the burn of the fee, if there is one, followed,
    only when the flag was off before, by one [EnrollCronEvent] to the power
    actor for the last epoch of the current deadline. *)
Theorem PreCommitSectorBatch_enrolls_cron_once
        pol peers r sectors (w : World State.t) u w' :
  PreCommitSectorBatch pol peers r sectors w = Done (u, w') ->
  State.DeadlineCronActive (state w') = true
  /\ exists burnt,
       (burnt = [] \/ exists fee, 0 < fee
                                /\ burnt = [mkMessage BurntFundsActorAddr MethodSend fee])
       /\ sent w'
          = sent w ++ burnt
            ++ (if State.DeadlineCronActive (state w) then []
                else [mkMessage StoragePowerActorAddr
                        (EnrollCronEvent
                           (dline.Last (DeadlineInfo pol (state w') (CurrEpoch r)))
                           CronEventProvingDeadline) 0]).
Proof.
  intros H.
  apply PreCommitSectorBatch_Done in H
    as (sectorNumbers & feeToBurn & st' & _ & _ & _ & Hon & Hst & Hsent).
  subst st'. split; [exact Hon|].
  exists (if feeToBurn >? 0 then [mkMessage BurntFundsActorAddr MethodSend feeToBurn] else []).
  split; [|exact Hsent].
  destruct (Z.gtb_spec feeToBurn 0); [right; eauto | left; reflexivity].
Qed.

Lemma PreCommitSectorBatch_enrolls_cron_once_witness :
  let pol := fixture.Miner.policy in
  let r := fixture.runtime 1000 2000 in
  let first := PreCommitSectorBatch pol fixture.Miner.peers r [fixture.Miner.sector 5 990] in
  let w1 := outcome first fixture.Miner.world in
  let second := PreCommitSectorBatch pol fixture.Miner.peers r [fixture.Miner.sector 6 990] in
  let w2 := outcome second w1 in
  (first fixture.Miner.world = Done (tt, w1) /\ second w1 = Done (tt, w2))
  /\ sent w1 = [mkMessage BurntFundsActorAddr MethodSend 7;
                mkMessage StoragePowerActorAddr
                  (EnrollCronEvent 1059 CronEventProvingDeadline) 0]
  /\ State.DeadlineCronActive (state w1) = true
  /\ sent w2 = sent w1.
Proof.
  intros pol r first w1 second w2.
  assert (H1 : first fixture.Miner.world = Done (tt, w1)) by (vm_compute; reflexivity).
  assert (H2 : second w1 = Done (tt, w2)) by (vm_compute; reflexivity).
  split; [auto|].
  destruct (PreCommitSectorBatch_enrolls_cron_once pol fixture.Miner.peers r
              [fixture.Miner.sector 5 990] fixture.Miner.world tt w1 H1)
    as (Hon & burnt & _ & _).
  split; [vm_compute; reflexivity|]. split; [exact Hon|]. vm_compute. reflexivity.
Defined.

End batch_extra.

(** ** Reports of consensus faults *)

Module fault_spec.
Import miner builtin miner_spec.

Lemma ReportConsensusFault_tx_Done fpol r fault faultPenalty slasherReward balance st
      burnAmount rewardAmount pledgeDelta st' :
  Actor.ReportConsensusFault_tx fpol r fault faultPenalty slasherReward balance st
  = Done ((burnAmount, rewardAmount, pledgeDelta), st') ->
  MinerInfo.ConsensusFaultElapsed (State.Info st) <= ConsensusFault.Epoch fault
  /\ State.Info st'
     = MinerInfo.set_ConsensusFaultElapsed
         (add64 (CurrEpoch r) (ConsensusFaultIneligibilityDuration fpol)) (State.Info st)
  /\ exists penaltyFromVesting penaltyFromBalance st1 st2,
       ApplyPenalty faultPenalty st = Val (tt, st1)
       /\ RepayPartialDebtInPriorityOrder (CurrEpoch r) balance st1
          = Val ((penaltyFromVesting, penaltyFromBalance), st2)
       /\ st' = State.set_Info (State.Info st') st2
       /\ rewardAmount = Z.min (penaltyFromVesting + penaltyFromBalance) slasherReward
       /\ burnAmount = penaltyFromVesting + penaltyFromBalance - rewardAmount
       /\ pledgeDelta = - penaltyFromVesting.
Proof.
  unfold Actor.ReportConsensusFault_tx. intros H.
  step H as st0 ? H0. injection H0 as <- <-.
  step H as ? st1 H1. apply guard_Done in H1 as [Hold ->]. apply Z.ltb_ge in Hold.
  step H as [] st1 H1. apply TryMethod_Done in H1.
  step H as [penaltyFromVesting penaltyFromBalance] st2 H2. apply TryMethod_Done in H2.
  step H as st3 ? H3. injection H3 as <- <-.
  step H as ? st4 H4. injection H4 as _ <-.
  injection H as <- <- <- <-.
  split; [exact Hold|]. split; [reflexivity|].
  exists penaltyFromVesting, penaltyFromBalance, st1, st2. split_and!; auto.
Qed.

(** A successful report, taken apart. *)
Lemma ReportConsensusFault_Done fpol peers r h1 h2 extra (w : World State.t) u w' :
  Actor.ReportConsensusFault fpol peers r h1 h2 extra w = Done (u, w') ->
  exists fault burnAmount rewardAmount pledgeDelta st' rewarded,
    existsb (Z.eqb (CallerCode r)) CallerTypesSignable = true
    /\ VerifyConsensusFault fpol h1 h2 extra = Val fault
    /\ ConsensusFault.Target fault = Receiver r
    /\ 0 < sub64 (CurrEpoch r) (ConsensusFault.Epoch fault)
    /\ fst (ThisEpochReward peers) = exitcode.Ok
    /\ Actor.ReportConsensusFault_tx fpol r fault
         (ConsensusFaultPenalty fpol (Estimate fpol (fst (snd (ThisEpochReward peers)))))
         (RewardForConsensusSlashReport fpol
            (Estimate fpol (fst (snd (ThisEpochReward peers)))))
         (balance w) (state w)
       = Done ((burnAmount, rewardAmount, pledgeDelta), st')
    /\ state w' = st'
    /\ (rewarded = [] \/ rewarded = [mkMessage (Caller r) MethodSend rewardAmount])
    /\ sent w'
       = sent w ++ rewarded
         ++ (if burnAmount >? 0 then [mkMessage BurntFundsActorAddr MethodSend burnAmount]
             else [])
         ++ (if pledgeDelta =? 0 then []
             else [mkMessage StoragePowerActorAddr (UpdatePledgeTotal pledgeDelta) 0])
    /\ balanceInvariant w'.
Proof.
  unfold Actor.ReportConsensusFault. intros H.
  step H as ? w0 H0.
  assert (w0 = w) by (by apply pure_ValidateImmediateCallerType in H0). subst w0.
  assert (Hsign : existsb (Z.eqb (CallerCode r)) CallerTypesSignable = true).
  { revert H0. unfold ValidateImmediateCallerType.
    destruct (existsb _ _); [reflexivity | discriminate]. }
  destruct (VerifyConsensusFault fpol h1 h2 extra) as [fault|]; [|discriminate].
  step H as ? w1 H1. apply guard_Done in H1 as [Htarget ->].
  apply negb_false_iff, Z.eqb_eq in Htarget.
  step H as ? w1 H1. apply guard_Done in H1 as [Hage ->]. apply Z.leb_gt in Hage.
  step H as rewardStats w1 H1. unfold requestCurrentEpochBlockReward in H1.
  step H1 as ? w2 H2. apply RequireSuccess_Done in H2 as [Hcode ->].
  injection H1 as <- <-.
  step H as balance w1 H1. injection H1 as <- <-.
  step H as [[burnAmount rewardAmount] pledgeDelta] w1 H1.
  apply StateTransaction_Done in H1 as (st' & Htx & ->).
  step H as code w2 H2. apply Send_Done in H2 as (Hst2 & Hsend). cbn in Hst2.
  step H as ? w3 H3. apply burnFunds_Done in H3 as (Hst3 & _ & Hsent3).
  step H as ? w4 H4. apply notifyPledgeChanged_Done in H4 as (Hst4 & _ & Hsent4).
  apply checkBalanceInvariants_Done in H as [-> Hinv].
  exists fault, burnAmount, rewardAmount, pledgeDelta, st',
    (if code =? exitcode.Ok then [mkMessage (Caller r) MethodSend rewardAmount] else []).
  split_and!; try assumption; try reflexivity.
  - congruence.
  - destruct (code =? exitcode.Ok); auto.
  - rewrite Hsent4, Hsent3, <- !app_assoc.
    destruct Hsend as [[Hne ->] | (-> & _ & Hsent2)]; cbn.
    + apply Z.eqb_neq in Hne. rewrite Hne. reflexivity.
    + rewrite Hsent2. cbn. by rewrite <- app_assoc.
Qed.

End fault_spec.

Module fault_extra.
Import miner builtin miner_spec fault_spec.

(** X13.  A successful [ReportConsensusFault] takes a verified fault of
    this miner from an epoch before the current one and not before the end
    of the last exclusion; it extends the exclusion to
    [ConsensusFaultIneligibilityDuration] epochs past the current epoch and
    leaves the rest of the miner info; the reporter's reward is what was
    paid of the penalty, capped at [RewardForConsensusSlashReport], and the
    rest of what was paid is burnt; the messages are the reward, unless
    the reporter refused it, then the burn and the pledge update, where
    they are not zero; the balance invariant holds at the end. *)
Theorem ReportConsensusFault_excludes_and_rewards
        fpol peers r h1 h2 extra (w : World State.t) u w' :
  Actor.ReportConsensusFault fpol peers r h1 h2 extra w = Done (u, w') ->
  exists fault paid fromVesting rewarded,
    let slasherReward :=
      RewardForConsensusSlashReport fpol (Estimate fpol (fst (snd (ThisEpochReward peers)))) in
    let rewardAmount := Z.min paid slasherReward in
    VerifyConsensusFault fpol h1 h2 extra = Val fault
    /\ ConsensusFault.Target fault = Receiver r
    /\ 0 < sub64 (CurrEpoch r) (ConsensusFault.Epoch fault)
    /\ MinerInfo.ConsensusFaultElapsed (State.Info (state w)) <= ConsensusFault.Epoch fault
    /\ State.Info (state w')
       = MinerInfo.set_ConsensusFaultElapsed
           (add64 (CurrEpoch r) (ConsensusFaultIneligibilityDuration fpol))
           (State.Info (state w))
    /\ (rewarded = [] \/ rewarded = [mkMessage (Caller r) MethodSend rewardAmount])
    /\ sent w'
       = sent w ++ rewarded
         ++ (if paid - rewardAmount >? 0
             then [mkMessage BurntFundsActorAddr MethodSend (paid - rewardAmount)]
             else [])
         ++ (if - fromVesting =? 0 then []
             else [mkMessage StoragePowerActorAddr (UpdatePledgeTotal (- fromVesting)) 0])
    /\ balanceInvariant w'.
Proof.
  intros H.
  apply ReportConsensusFault_Done in H
    as (fault & burnAmount & rewardAmount & pledgeDelta & st' & rewarded & _ & Hfault
        & Htarget & Hage & _ & Htx & Hst & Hrewarded & Hsent & Hinv).
  apply ReportConsensusFault_tx_Done in Htx
    as (Hold & Hinfo & fromVesting & fromBalance & st1 & st2 & _ & _ & _ & -> & -> & ->).
  exists fault, (fromVesting + fromBalance), fromVesting, rewarded. cbn zeta.
  rewrite Hst. auto 10.
Qed.

Lemma ReportConsensusFault_excludes_and_rewards_witness :
  let run := Actor.ReportConsensusFault fixture.Miner.faultPolicy fixture.Miner.peers
               (fixture.runtime 200 3000) [1] [2] [] in
  let w' := outcome run fixture.Miner.world in
  run fixture.Miner.world = Done (tt, w')
  /\ MinerInfo.ConsensusFaultElapsed (State.Info (state w')) = 1100
  /\ sent w' = [mkMessage 3000 MethodSend 1; mkMessage BurntFundsActorAddr MethodSend 11;
                mkMessage StoragePowerActorAddr (UpdatePledgeTotal (-12)) 0]
  /\ balanceInvariant w'.
Proof.
  intros run w'.
  assert (Hrun : run fixture.Miner.world = Done (tt, w')) by (vm_compute; reflexivity).
  split; [exact Hrun|].
  destruct (ReportConsensusFault_excludes_and_rewards fixture.Miner.faultPolicy
              fixture.Miner.peers (fixture.runtime 200 3000) [1] [2] []
              fixture.Miner.world tt w' Hrun)
    as (fault & paid & fromVesting & rewarded & _ & _ & _ & _ & Hinfo & _ & _ & Hinv).
  split; [rewrite Hinfo; reflexivity|]. split; [vm_compute; reflexivity | exact Hinv].
Defined.

(** X14.  Only the first report of a fault is processed: once a report
    made at epoch [e] has succeeded, no report of a fault from an epoch
    before [e + ConsensusFaultIneligibilityDuration] succeeds on the
    resulting state, whoever makes it and whenever; this holds in
    particular for the fault just reported. *)
Theorem ReportConsensusFault_only_first_report
        fpol peers r h1 h2 extra fault (w : World State.t) u w' :
  0 <= ConsensusFaultIneligibilityDuration fpol ->
  MinInt64 <= CurrEpoch r <= MaxInt64 ->
  CurrEpoch r + ConsensusFaultIneligibilityDuration fpol <= MaxInt64 ->
  VerifyConsensusFault fpol h1 h2 extra = Val fault ->
  MinInt64 <= CurrEpoch r - ConsensusFault.Epoch fault <= MaxInt64 ->
  Actor.ReportConsensusFault fpol peers r h1 h2 extra w = Done (u, w') ->
  (forall peers2 r2 h1' h2' extra' fault2 u2 w2,
      VerifyConsensusFault fpol h1' h2' extra' = Val fault2 ->
      ConsensusFault.Epoch fault2 < CurrEpoch r + ConsensusFaultIneligibilityDuration fpol ->
      Actor.ReportConsensusFault fpol peers2 r2 h1' h2' extra' w' <> Done (u2, w2))
  /\ (forall peers2 r2 u2 w2,
         Actor.ReportConsensusFault fpol peers2 r2 h1 h2 extra w' <> Done (u2, w2)).
Proof.
  intros Hdur Hnow Hend Hfault Hage H.
  apply ReportConsensusFault_Done in H
    as (fault' & burnAmount & rewardAmount & pledgeDelta & st' & rewarded & _ & Hfault'
        & _ & Hpos & _ & Htx & Hst & _).
  rewrite Hfault in Hfault'. injection Hfault' as <-.
  rewrite sub64_id in Hpos by exact Hage.
  apply ReportConsensusFault_tx_Done in Htx as (_ & Hinfo & _).
  rewrite add64_id in Hinfo by (unfold MinInt64, MaxInt64 in *; lia).
  assert (Hlater : forall peers2 r2 h1' h2' extra' fault2 u2 w2,
             VerifyConsensusFault fpol h1' h2' extra' = Val fault2 ->
             ConsensusFault.Epoch fault2
             < CurrEpoch r + ConsensusFaultIneligibilityDuration fpol ->
             Actor.ReportConsensusFault fpol peers2 r2 h1' h2' extra' w' <> Done (u2, w2)).
  { intros peers2 r2 h1' h2' extra' fault2 u2 w2 Hfault2 Hepoch H2.
    apply ReportConsensusFault_Done in H2
      as (fault2' & ? & ? & ? & ? & ? & _ & Hfault2' & _ & _ & _ & Htx2 & _).
    rewrite Hfault2 in Hfault2'. injection Hfault2' as <-.
    apply ReportConsensusFault_tx_Done in Htx2 as (Hold & _).
    rewrite Hst, Hinfo in Hold. cbn in Hold. lia. }
  split; [exact Hlater|].
  intros peers2 r2 u2 w2. apply (Hlater peers2 r2 h1 h2 extra fault u2 w2 Hfault). lia.
Qed.

Lemma ReportConsensusFault_only_first_report_witness :
  let fpol := fixture.Miner.faultPolicy in
  let run := Actor.ReportConsensusFault fpol fixture.Miner.peers
               (fixture.runtime 200 3000) [1] [2] [] in
  let w' := outcome run fixture.Miner.world in
  run fixture.Miner.world = Done (tt, w')
  /\ Actor.ReportConsensusFault fpol fixture.Miner.peers (fixture.runtime 5000 3001)
       [1] [2] [] w'
     = Abort exitcode.ErrForbidden
         "fault epoch %d is too old, last exclusion period ended at %d".
Proof.
  intros fpol run w'.
  assert (Hrun : run fixture.Miner.world = Done (tt, w')) by (vm_compute; reflexivity).
  split; [exact Hrun|].
  destruct (ReportConsensusFault_only_first_report fpol fixture.Miner.peers
              (fixture.runtime 200 3000) [1] [2] [] (ConsensusFault.mk 1000 90 1)
              fixture.Miner.world tt w') as [_ Hagain].
  - vm_compute. discriminate.
  - vm_compute. split; discriminate.
  - vm_compute. discriminate.
  - reflexivity.
  - vm_compute. split; discriminate.
  - exact Hrun.
  - destruct (Actor.ReportConsensusFault fpol fixture.Miner.peers (fixture.runtime 5000 3001)
                [1] [2] [] w') as [[u2 w2]|c msg] eqn:E.
    + destruct (Hagain fixture.Miner.peers (fixture.runtime 5000 3001) u2 w2 E).
    + vm_compute in E. symmetry. exact E.
Defined.

End fault_extra.

(** ** Fault declarations *)

Module faults_spec.
Import miner builtin miner_spec cron_spec.

Lemma DeadlineSectorMap_Add_keys pol dlIdx partIdx sectorNos (dm dm' : gmap Z (gmap Z (list Z))) :
  DeadlineSectorMap_Add pol dlIdx partIdx sectorNos dm = Val dm' ->
  forall k, is_Some (dm' !! k) -> k = dlIdx \/ is_Some (dm !! k).
Proof.
  unfold DeadlineSectorMap_Add. destruct (dlIdx >=? WPoStPeriodDeadlines pol); [discriminate|].
  intros [= <-] k Hk. destruct (Z.eq_dec k dlIdx) as [->|Hne]; [by left|].
  right. by rewrite lookup_insert_ne in Hk.
Qed.

Lemma addFaults_keys {W} pol faults :
  forall (toProcess : gmap Z (gmap Z (list Z))) (w : W) toProcess' w',
    addFaults pol faults toProcess w = Done (toProcess', w') ->
    w' = w
    /\ forall k, is_Some (toProcess' !! k) ->
                 In k (map FaultDeclaration.Deadline faults) \/ is_Some (toProcess !! k).
Proof.
  induction faults as [|term rest IH]; intros toProcess w toProcess' w' H; cbn in H.
  - injection H as <- <-. auto.
  - step H as toProcess1 w1 H1. apply RequireNoErr_Done in H1 as [Hadd ->].
    apply IH in H as [-> Hkeys]. split; [reflexivity|].
    intros k Hk. cbn [map In].
    destruct (Hkeys k Hk) as [Hin|Hk1]; [auto|].
    destruct (DeadlineSectorMap_Add_keys _ _ _ _ _ _ Hadd k Hk1) as [->|Hk0]; auto.
Qed.

Lemma DeadlineSectorMap_Deadlines_In (dm : gmap Z (gmap Z (list Z))) (k : Z) :
  In k (DeadlineSectorMap_Deadlines dm) -> is_Some (dm !! k).
Proof.
  unfold DeadlineSectorMap_Deadlines. rewrite sortZ_In, in_map_iff.
  intros ([k' pm] & <- & Hin). cbn.
  apply list_elem_of_In, elem_of_map_to_list in Hin. by exists pm.
Qed.

Lemma faultDeadline_Done pol ops r st info toProcess deadlines powerDelta dlIdx st0
      deadlines' powerDelta' st1 :
  faultDeadline pol ops r st info toProcess deadlines powerDelta dlIdx st0
  = Done ((deadlines', powerDelta'), st1) ->
  st1 = st0
  /\ exists deadline, deadlines' = <[dlIdx := deadline]> deadlines.
Proof.
  unfold faultDeadline. intros H.
  step H as targetDeadline s1 H1. apply RequireNoErr_Done in H1 as [_ ->].
  step H as ? s1 H1. apply RequireNoErr_Done in H1 as [_ ->].
  step H as deadline s1 H1. apply RequireNoErr_Done in H1 as [_ ->].
  step H as [deadlinePowerDelta deadline1] s1 H1. apply RequireNoErr_Done in H1 as [_ ->].
  step H as deadlines1 s1 H1. apply RequireNoErr_Done in H1 as [Hupdate ->].
  injection H as <- _ <-. split; [reflexivity|].
  unfold UpdateDeadline in Hupdate.
  destruct (dlIdx >=? WPoStPeriodDeadlines pol); [discriminate|].
  injection Hupdate as <-. eauto.
Qed.

Lemma faultDeadlines_Done pol ops r st info toProcess dlIdxs :
  forall deadlines powerDelta st0 deadlines' powerDelta' st1,
    faultDeadlines pol ops r st info toProcess deadlines powerDelta dlIdxs st0
    = Done ((deadlines', powerDelta'), st1) ->
    st1 = st0
    /\ (forall k, ~ In k dlIdxs -> deadlines' !! k = deadlines !! k)
    /\ (dlIdxs = [] -> powerDelta' = powerDelta).
Proof.
  induction dlIdxs as [|dlIdx rest IH];
    intros deadlines powerDelta st0 deadlines' powerDelta' st1 H; cbn in H.
  - injection H as <- <- <-. auto.
  - step H as [deadlines1 powerDelta1] s1 H1.
    apply faultDeadline_Done in H1 as (-> & deadline & ->).
    apply IH in H as (-> & Hother & _). split; [reflexivity|]. split; [|discriminate].
    intros k Hk. rewrite Hother by (intros Hin; apply Hk; by right).
    apply lookup_insert_ne. intros ->. apply Hk. by left.
Qed.

(** A successful [DeclareFaults], taken apart. *)
Lemma DeclareFaults_Done pol ops r faults (w : World State.t) u w' :
  DeclareFaults pol ops r faults w = Done (u, w') ->
  exists toProcess deadlines powerDelta,
    Z.of_nat (length faults) <= DeclarationsMax pol
    /\ (forall k, is_Some (toProcess !! k) -> In k (map FaultDeclaration.Deadline faults))
    /\ In (Caller r) (MinerInfo.callers (State.Info (state w)))
    /\ faultDeadlines pol ops r (state w) (State.Info (state w)) toProcess
         (State.Deadlines (state w)) PowerPair.Zero (DeadlineSectorMap_Deadlines toProcess)
         (state w)
       = Done ((deadlines, powerDelta), state w)
    /\ state w' = State.set_Deadlines deadlines (state w)
    /\ balance w' = balance w
    /\ sent w'
       = sent w ++ (if PowerPair.IsZero powerDelta then []
                    else [mkMessage StoragePowerActorAddr
                            (UpdateClaimedPower (PowerPair.Raw powerDelta)
                               (PowerPair.QA powerDelta)) 0]).
Proof.
  unfold DeclareFaults. intros H.
  step H as ? w1 H1. apply guard_Done in H1 as [Hmax ->].
  rewrite Z.gtb_ltb in Hmax. apply Z.ltb_ge in Hmax.
  step H as toProcess w1 H1. apply addFaults_keys in H1 as [-> Hkeys].
  step H as ? w1 H1. apply RequireNoErr_Done in H1 as [_ ->].
  step H as powerDelta w1 H1. apply StateTransaction_Done in H1 as (st' & Htx & ->).
  apply requestUpdatePower_Done in H as (Hst & Hbal & Hsent). cbn in Hst, Hbal, Hsent.
  unfold DeclareFaults_tx in Htx.
  step Htx as st0 ? H0. injection H0 as <- <-.
  step Htx as ? s1 H1.
  assert (Hcaller : In (Caller r) (MinerInfo.callers (State.Info (state w)))).
  { revert H1. unfold ValidateImmediateCallerIs.
    destruct (existsb (Z.eqb (Caller r)) _) eqn:He; [|discriminate]. intros _.
    apply existsb_exists in He as (a & Hin & Ha). apply Z.eqb_eq in Ha. by subst a. }
  apply pure_ValidateImmediateCallerIs in H1. subst s1.
  step Htx as [deadlines powerDelta'] s1 H1.
  assert (s1 = state w) by (by apply faultDeadlines_Done in H1 as (-> & _)). subst s1.
  step Htx as ? s2 H2. injection H2 as _ <-. injection Htx as <- <-.
  exists toProcess, deadlines, powerDelta'. split_and!; try assumption.
  intros k Hk. destruct (Hkeys k Hk) as [Hin|Hempty]; [exact Hin|].
  rewrite lookup_empty in Hempty. by destruct Hempty.
Qed.

End faults_spec.

Module faults_extra.
Import miner builtin faults_spec.

(** X15.  [DeclareFaults] charges nothing and touches only the deadlines
    that are declared: after a successful call, which takes at most
    [DeclarationsMax] declarations from the owner, the worker or a control
    address, every deadline that no declaration names is as it was, the
    rest of the state and the balance are unchanged, and the only message
    is the update of the claimed power, sent when the power delta is not
    zero.  A call without declarations changes nothing at all. *)
Theorem DeclareFaults_touches_only_declared_deadlines
        pol ops r faults (w : World State.t) u w' :
  DeclareFaults pol ops r faults w = Done (u, w') ->
  Z.of_nat (length faults) <= DeclarationsMax pol
  /\ In (Caller r) (MinerInfo.ControlAddresses (State.Info (state w))
                    ++ [MinerInfo.Owner (State.Info (state w));
                        MinerInfo.Worker (State.Info (state w))])
  /\ (forall dlIdx,
         ~ In dlIdx (map FaultDeclaration.Deadline faults) ->
         State.Deadlines (state w') !! dlIdx = State.Deadlines (state w) !! dlIdx)
  /\ state w' = State.set_Deadlines (State.Deadlines (state w')) (state w)
  /\ balance w' = balance w
  /\ (exists powerDelta,
         sent w'
         = sent w ++ (if PowerPair.IsZero powerDelta then []
                      else [mkMessage StoragePowerActorAddr
                              (UpdateClaimedPower (PowerPair.Raw powerDelta)
                                 (PowerPair.QA powerDelta)) 0]))
  /\ (faults = [] -> w' = w).
Proof.
  intros H.
  apply DeclareFaults_Done in H
    as (toProcess & deadlines & powerDelta & Hmax & Hkeys & Hcaller & Hloop & Hst & Hbal
        & Hsent).
  pose proof (faultDeadlines_Done _ _ _ _ _ _ _ _ _ _ _ _ _ Hloop) as (_ & Hother & Hnone).
  split; [exact Hmax|]. split; [exact Hcaller|]. split; [|split; [|split; [|split]]].
  - intros dlIdx Hdl. rewrite Hst. cbn. apply Hother. intros Hin.
    apply Hdl, Hkeys. by apply DeadlineSectorMap_Deadlines_In.
  - rewrite Hst. reflexivity.
  - exact Hbal.
  - eauto.
  - intros ->. cbn in Hkeys.
    assert (Hempty : DeadlineSectorMap_Deadlines toProcess = []).
    { destruct (DeadlineSectorMap_Deadlines toProcess) as [|k rest] eqn:E; [reflexivity|].
      destruct (Hkeys k). apply DeadlineSectorMap_Deadlines_In. rewrite E. by left. }
    rewrite Hempty in Hloop. cbn in Hloop. injection Hloop as <- <-.
    cbn in Hsent. rewrite app_nil_r in Hsent.
    destruct w as [st b s], w' as [st' b' s']. cbn in *. subst. f_equal.
    by destruct st.
Qed.

Lemma DeclareFaults_touches_only_declared_deadlines_witness :
  let pol := fixture.Miner.policy in
  let r := fixture.runtime 200 2001 in
  let run := DeclareFaults pol (fixture.Miner.ops PowerPair.Zero) r
               [FaultDeclaration.mk 5 0 [1; 2]] in
  let w' := outcome run fixture.Miner.world in
  run fixture.Miner.world = Done (tt, w')
  /\ State.Deadlines (state w') !! 6 = Some fixture.Miner.deadline
  /\ Deadline.FaultyPower <$> State.Deadlines (state w') !! 5 = Some (PowerPair.mk 10 10)
  /\ balance w' = 1000
  /\ sent w' = [mkMessage StoragePowerActorAddr (UpdateClaimedPower (-10) (-10)) 0].
Proof.
  intros pol r run w'.
  assert (Hrun : run fixture.Miner.world = Done (tt, w')) by (vm_compute; reflexivity).
  split; [exact Hrun|].
  destruct (DeclareFaults_touches_only_declared_deadlines pol
              (fixture.Miner.ops PowerPair.Zero) r [FaultDeclaration.mk 5 0 [1; 2]]
              fixture.Miner.world tt w' Hrun)
    as (_ & _ & Hother & _ & Hbal & _ & _).
  split.
  - rewrite Hother; [vm_compute; reflexivity|]. cbn. intros [E|[]]. discriminate E.
  - split; [vm_compute; reflexivity|]. split; [exact Hbal|]. vm_compute. reflexivity.
Defined.

End faults_extra.

(** ** Activation and termination of deals *)

Module activation_spec.
Import market.

Lemma validateDealCanActivate_Val proposal minerAddr sectorExpiration sectorActivation u :
  validateDealCanActivate proposal minerAddr sectorExpiration sectorActivation = builtin.Val u ->
  Provider proposal = minerAddr
  /\ sectorActivation <= StartEpoch proposal
  /\ EndEpoch proposal <= sectorExpiration.
Proof.
  unfold validateDealCanActivate.
  destruct (Z.eqb_spec (Provider proposal) minerAddr); [|discriminate].
  destruct (Z.gtb_spec sectorActivation (StartEpoch proposal)); [discriminate|].
  destruct (Z.gtb_spec (EndEpoch proposal) sectorExpiration); [discriminate|].
  intros _. lia.
Qed.

(** The codes that the validation wraps into its errors. *)
Lemma validateDealCanActivate_Err proposal minerAddr sectorExpiration sectorActivation e :
  validateDealCanActivate proposal minerAddr sectorExpiration sectorActivation = builtin.Err e ->
  e = Some exitcode.ErrForbidden \/ e = Some exitcode.ErrIllegalArgument.
Proof.
  unfold validateDealCanActivate.
  destruct (negb _); [intros [= <-]; auto|].
  destruct (_ >? _); [intros [= <-]; auto|].
  destruct (_ >? _); [intros [= <-]; auto | discriminate].
Qed.

Lemma uint64_add_l (a b : Z) : uint64 (uint64 a + b) = uint64 (a + b).
Proof. unfold uint64. apply Zplus_mod_idemp_l. Qed.

Lemma uint64_add_r (a b : Z) : uint64 (a + uint64 b) = uint64 (a + b).
Proof. unfold uint64. apply Zplus_mod_idemp_r. Qed.

Lemma uint64_uint64 (a : Z) : uint64 (uint64 a) = uint64 a.
Proof. unfold uint64. apply Zmod_mod. Qed.

Lemma dealWeightLoop_Val proposals minerAddr sectorExpiry sectorActivation dealIDs :
  forall acc acc',
    dealWeightLoop proposals dealIDs minerAddr sectorExpiry sectorActivation acc
    = builtin.Val acc' ->
    NoDup dealIDs
    /\ (forall id, In id dealIDs -> id ∉ seenDealIDs acc)
    /\ exists deals,
         Forall2 (fun id p =>
                    proposals !! id = Some p
                    /\ Provider p = minerAddr
                    /\ sectorActivation <= StartEpoch p
                    /\ EndEpoch p <= sectorExpiry) dealIDs deals
         /\ totalDealSpaceTime acc'
            = totalDealSpaceTime acc
              + fold_right (fun p sum => (if VerifiedDeal p then 0 else DealWeight p) + sum)
                  0 deals
         /\ totalVerifiedSpaceTime acc'
            = totalVerifiedSpaceTime acc
              + fold_right (fun p sum => (if VerifiedDeal p then DealWeight p else 0) + sum)
                  0 deals
         /\ (uint64 (totalDealSpace acc) = totalDealSpace acc ->
             totalDealSpace acc'
             = uint64 (totalDealSpace acc
                       + fold_right (fun p sum => PieceSize p + sum) 0 deals)).
Proof.
  induction dealIDs as [|dealID rest IH]; intros acc acc' H; cbn in H.
  - injection H as <-. split; [constructor|]. split; [intros id []|].
    exists []. cbn. split_and!; try constructor; try lia.
    intros Hwrapped. by rewrite Z.add_0_r.
  - destruct (decide (dealID ∈ seenDealIDs acc)) as [Hseen|Hseen].
    { rewrite bool_decide_eq_true_2 in H by exact Hseen. discriminate. }
    rewrite bool_decide_eq_false_2 in H by exact Hseen.
    destruct (proposals !! dealID) as [proposal|] eqn:Hp; [|discriminate].
    destruct (validateDealCanActivate proposal minerAddr sectorExpiry sectorActivation)
      as [[]|] eqn:Hv; [|discriminate].
    apply validateDealCanActivate_Val in Hv as (Hprov & Hstart & Hend).
    apply IH in H as (Hnodup & Hfresh & deals & Hall & Hdst & Hvst & Hspace).
    cbn [seenDealIDs totalDealSpace totalDealSpaceTime totalVerifiedSpaceTime]
      in Hfresh, Hdst, Hvst, Hspace.
    split_and!.
    + constructor; [|exact Hnodup]. rewrite list_elem_of_In. intros Hin.
      apply (Hfresh dealID Hin). apply elem_of_union_l. by apply elem_of_singleton.
    + intros id [<-|Hin]; [exact Hseen|]. specialize (Hfresh id Hin).
      intros Hid. apply Hfresh. by apply elem_of_union_r.
    + exists (proposal :: deals). cbn [fold_right]. split_and!.
      * constructor; auto.
      * rewrite Hdst. destruct (VerifiedDeal proposal); lia.
      * rewrite Hvst. destruct (VerifiedDeal proposal); lia.
      * intros _. rewrite Hspace by apply uint64_uint64.
        rewrite uint64_add_l, <- Z.add_assoc, (Z.add_comm (uint64 _)), Z.add_assoc.
        rewrite uint64_add_r. f_equal. lia.
Qed.

(** The codes of the errors of the loop. *)
Lemma dealWeightLoop_Err proposals minerAddr sectorExpiry sectorActivation dealIDs :
  forall acc e,
    dealWeightLoop proposals dealIDs minerAddr sectorExpiry sectorActivation acc
    = builtin.Err e ->
    e = Some exitcode.ErrIllegalArgument \/ e = Some exitcode.ErrNotFound
    \/ e = Some exitcode.ErrForbidden.
Proof.
  induction dealIDs as [|dealID rest IH]; intros acc e H; cbn in H; [discriminate|].
  destruct (bool_decide _); [injection H as <-; auto|].
  destruct (proposals !! dealID) as [proposal|]; [|injection H as <-; auto].
  destruct (validateDealCanActivate proposal minerAddr sectorExpiry sectorActivation)
    as [[]|e'] eqn:Hv.
  - exact (IH _ _ H).
  - injection H as <-. apply validateDealCanActivate_Err in Hv as [->| ->]; auto.
Qed.

Lemma validateAndComputeDealWeight_Val proposals dealIDs minerAddr sectorExpiry
      sectorActivation dealWeight verifiedWeight dealSpace :
  validateAndComputeDealWeight proposals dealIDs minerAddr sectorExpiry sectorActivation
  = builtin.Val (dealWeight, verifiedWeight, dealSpace) ->
  NoDup dealIDs
  /\ exists deals,
       Forall2 (fun id p =>
                  proposals !! id = Some p
                  /\ Provider p = minerAddr
                  /\ sectorActivation <= StartEpoch p
                  /\ EndEpoch p <= sectorExpiry) dealIDs deals
       /\ dealWeight
          = fold_right (fun p sum => (if VerifiedDeal p then 0 else DealWeight p) + sum) 0 deals
       /\ verifiedWeight
          = fold_right (fun p sum => (if VerifiedDeal p then DealWeight p else 0) + sum) 0 deals
       /\ dealSpace = uint64 (fold_right (fun p sum => PieceSize p + sum) 0 deals).
Proof.
  unfold validateAndComputeDealWeight.
  destruct (dealWeightLoop _ _ _ _ _ _) as [acc|] eqn:Hloop; [|discriminate].
  intros [= <- <- <-].
  apply dealWeightLoop_Val in Hloop as (Hnodup & _ & deals & Hall & Hdst & Hvst & Hspace).
  split; [exact Hnodup|]. exists deals. cbn in Hdst, Hvst, Hspace. split_and!; auto.
Qed.

Lemma validateAndComputeDealWeight_Err proposals dealIDs minerAddr sectorExpiry
      sectorActivation e :
  validateAndComputeDealWeight proposals dealIDs minerAddr sectorExpiry sectorActivation
  = builtin.Err e ->
  e = Some exitcode.ErrIllegalArgument \/ e = Some exitcode.ErrNotFound
  \/ e = Some exitcode.ErrForbidden.
Proof.
  unfold validateAndComputeDealWeight.
  destruct (dealWeightLoop _ _ _ _ _ _) as [acc|e'] eqn:Hloop; [discriminate|].
  intros [= <-]. exact (dealWeightLoop_Err _ _ _ _ _ _ _ Hloop).
Qed.

Lemma minerOnly_Done {W} r (w : W) u w' :
  ValidateImmediateCallerType r [builtin.StorageMinerActorCodeID] w = Done (u, w') ->
  w' = w /\ CallerCode r = builtin.StorageMinerActorCodeID.
Proof.
  intros H. split; [by apply pure_ValidateImmediateCallerType in H|].
  unfold ValidateImmediateCallerType in H. cbn [existsb] in H. rewrite orb_false_r in H.
  destruct (Z.eqb_spec (CallerCode r) builtin.StorageMinerActorCodeID);
    [assumption | discriminate].
Qed.

Lemma verifyDeals_Done {W} r proposals sectors :
  forall weights (w : W) weights' w',
    verifyDeals r proposals sectors weights w = Done (weights', w') ->
    w' = w
    /\ exists added,
         weights' = weights ++ added
         /\ Forall2 (fun sector wt =>
                       validateAndComputeDealWeight proposals (SectorDeals.DealIDs sector)
                         (Caller r) (SectorDeals.SectorExpiry sector) (CurrEpoch r)
                       = builtin.Val (SectorWeights.DealWeight wt,
                                      SectorWeights.VerifiedDealWeight wt,
                                      SectorWeights.DealSpace wt)) sectors added.
Proof.
  induction sectors as [|sector rest IH]; intros weights w weights' w' H; cbn in H.
  - injection H as <- <-. split; [reflexivity|]. exists []. rewrite app_nil_r. auto.
  - step H as [[dealWeight verifiedWeight] dealSpace] w1 H1.
    apply RequireNoErr_Done in H1 as [Hv ->].
    apply IH in H as (-> & added & -> & Hall). split; [reflexivity|].
    exists (SectorWeights.mk dealSpace dealWeight verifiedWeight :: added).
    rewrite <- app_assoc. split; [reflexivity|]. constructor; [exact Hv | exact Hall].
Qed.

Lemma verifyDeals_Abort {W} r proposals sectors :
  forall weights (w : W) c msg,
    verifyDeals r proposals sectors weights w = Abort c msg ->
    c = exitcode.ErrIllegalArgument \/ c = exitcode.ErrNotFound \/ c = exitcode.ErrForbidden.
Proof.
  induction sectors as [|sector rest IH]; intros weights w c msg H; cbn in H; [discriminate|].
  apply bind_Abort in H as [H | ([[dw vw] ds] & w1 & _ & H)].
  - unfold builtin.RequireNoErr in H.
    destruct (validateAndComputeDealWeight _ _ _ _ _) as [x|e] eqn:Hv; [discriminate|].
    injection H as <- _.
    apply validateAndComputeDealWeight_Err in Hv as [->|[->| ->]]; cbn; auto.
  - exact (IH _ _ _ _ H).
Qed.

Lemma activateDeal_Done pol currEpoch dealID st u st' :
  activateDeal pol currEpoch dealID st = Done (u, st') ->
  States st !! dealID = None
  /\ (exists p, Proposals st !! dealID = Some p /\ ProposalCid pol p ∈ PendingProposals st)
  /\ st' = set_States (<[dealID := mkDealState currEpoch epochUndefined epochUndefined]>
                         (States st)) st.
Proof.
  unfold activateDeal. intros H.
  step H as st0 ? H0. injection H0 as <- <-.
  step H as ? s1 H1. apply guard_Done in H1 as [Hnew ->].
  apply bool_decide_eq_false in Hnew. rewrite <- eq_None_not_Some in Hnew.
  step H as proposal s1 H1. apply RequireNoErr_Done in H1 as [Hp ->].
  step H as ? s1 H1. apply guard_Done in H1 as [Hpending ->].
  apply negb_false_iff, bool_decide_eq_true in Hpending.
  injection H as _ <-.
  split; [exact Hnew|]. split; [|reflexivity].
  exists proposal. split; [|exact Hpending].
  unfold getDealProposal in Hp. destruct (Proposals st !! dealID); [|discriminate].
  by injection Hp as <-.
Qed.

Lemma activateDeals_Done pol currEpoch dealIDs :
  forall st u st',
    activateDeals pol currEpoch dealIDs st = Done (u, st') ->
    st' = set_States (States st') st
    /\ (forall id, In id dealIDs ->
                   States st !! id = None
                   /\ States st' !! id
                      = Some (mkDealState currEpoch epochUndefined epochUndefined)
                   /\ exists p, Proposals st !! id = Some p
                                /\ ProposalCid pol p ∈ PendingProposals st)
    /\ (forall id, ~ In id dealIDs -> States st' !! id = States st !! id).
Proof.
  induction dealIDs as [|dealID rest IH]; intros st u st' H; cbn in H.
  - injection H as _ <-. split; [by destruct st|]. split; [intros id []|auto].
  - step H as ? st1 H1. apply activateDeal_Done in H1 as (Hnew & Hp & ->).
    apply IH in H as (Hst' & Hin & Hout). cbn in Hst', Hin, Hout.
    split; [rewrite Hst'; reflexivity|]. split.
    + intros id [<-|Hid].
      * split; [exact Hnew|]. split; [|exact Hp].
        destruct (in_dec Z.eq_dec dealID rest) as [Hrest|Hrest].
        -- destruct (Hin dealID Hrest) as (Hnone & _).
           rewrite lookup_insert_eq in Hnone. discriminate.
        -- rewrite (Hout dealID Hrest). apply lookup_insert_eq.
      * destruct (Hin id Hid) as (Hnone & Hsome & Hprop).
        destruct (Z.eq_dec id dealID) as [->|Hne].
        { rewrite lookup_insert_eq in Hnone. discriminate. }
        rewrite lookup_insert_ne in Hnone by congruence. auto.
    + intros id Hid. rewrite Hout by (intros Hin'; apply Hid; by right).
      apply lookup_insert_ne. intros ->. apply Hid. by left.
Qed.

Lemma ActivateDeals_Done pol r dealIDs sectorExpiry (w : World State) u w' :
  ActivateDeals pol r dealIDs sectorExpiry w = Done (u, w') ->
  CallerCode r = builtin.StorageMinerActorCodeID
  /\ (exists x, ValidateDealsForActivation (state w) dealIDs (Caller r) sectorExpiry
                  (CurrEpoch r) = builtin.Val x)
  /\ (exists st', activateDeals pol (CurrEpoch r) dealIDs (state w) = Done (tt, st')
                  /\ w' = mkWorld st' (balance w) (sent w)).
Proof.
  unfold ActivateDeals. intros H.
  step H as ? w1 H1. apply minerOnly_Done in H1 as [-> Hcode].
  apply StateTransaction_Done in H as (st' & H & ->).
  step H as st0 ? H0. injection H0 as <- <-.
  step H as res s1 H1. apply RequireNoErr_Done in H1 as [Hv ->].
  split; [exact Hcode|]. split; [eauto|]. exists st'. destruct u. auto.
Qed.

Lemma slashedAt_idem epoch state : slashedAt epoch (slashedAt epoch state) = slashedAt epoch state.
Proof.
  unfold slashedAt. destruct (Z.eqb_spec (SlashEpoch state) epochUndefined) as [E|E]; cbn.
  - destruct (Z.eqb_spec epoch epochUndefined) as [->|E']; reflexivity.
  - apply Z.eqb_neq in E. by rewrite E.
Qed.

Lemma terminateDeal_Done minerAddr epoch dealID st u st' :
  terminateDeal minerAddr epoch dealID st = Done (u, st') ->
  match Proposals st !! dealID with
  | None => st' = st
  | Some p =>
    Provider p = minerAddr
    /\ if EndEpoch p <=? epoch then st' = st
       else exists state,
              States st !! dealID = Some state
              /\ st' = set_States (<[dealID := slashedAt epoch state]> (States st)) st
  end.
Proof.
  unfold terminateDeal. intros H.
  step H as st0 ? H0. injection H0 as <- <-.
  destruct (Proposals st !! dealID) as [deal|]; [|by injection H as _ <-].
  step H as ? s1 H1. apply RequirePredicate_Done in H1 as [Hprov ->].
  apply Z.eqb_eq in Hprov. split; [exact Hprov|].
  destruct (EndEpoch deal <=? epoch); [by injection H as _ <-|].
  destruct (States st !! dealID) as [state|] eqn:Hstate; [|discriminate].
  exists state. split; [reflexivity|]. unfold slashedAt.
  destruct (SlashEpoch state =? epochUndefined); cbn [negb] in H.
  - by injection H as _ <-.
  - injection H as _ <-. rewrite insert_id by exact Hstate. by destruct st.
Qed.

Lemma terminateDeals_Done minerAddr epoch dealIDs :
  forall st u st',
    terminateDeals minerAddr epoch dealIDs st = Done (u, st') ->
    st' = set_States (States st') st
    /\ (forall id p, In id dealIDs -> Proposals st !! id = Some p ->
                     Provider p = minerAddr
                     /\ (epoch < EndEpoch p ->
                         exists state,
                           States st !! id = Some state
                           /\ States st' !! id = Some (slashedAt epoch state)))
    /\ (forall id,
           ~ In id dealIDs \/ Proposals st !! id = None
           \/ (exists p, Proposals st !! id = Some p /\ EndEpoch p <= epoch) ->
           States st' !! id = States st !! id).
Proof.
  induction dealIDs as [|dealID rest IH]; intros st u st' H; cbn in H.
  - injection H as _ <-. split; [by destruct st|]. split; [intros id p []|auto].
  - step H as ? st1 H1. apply terminateDeal_Done in H1.
    apply IH in H as (Hst' & Hin & Hout).
    assert (Hprops : Proposals st1 = Proposals st).
    { destruct (Proposals st !! dealID) as [p|]; [|by subst].
      destruct H1 as [_ H1]. destruct (EndEpoch p <=? epoch); [by subst|].
      destruct H1 as (state & _ & ->). reflexivity. }
    assert (Hbase : st1 = set_States (States st1) st).
    { destruct (Proposals st !! dealID) as [p|]; [|subst; by destruct st].
      destruct H1 as [_ H1]. destruct (EndEpoch p <=? epoch); [subst; by destruct st|].
      destruct H1 as (state & _ & ->). reflexivity. }
    assert (Hstep : forall id,
               States st1 !! id = States st !! id
               \/ exists p state,
                    id = dealID /\ Proposals st !! id = Some p /\ epoch < EndEpoch p
                    /\ States st !! id = Some state
                    /\ States st1 !! id = Some (slashedAt epoch state)).
    { intros id. destruct (Proposals st !! dealID) as [p|] eqn:Hp; [|left; by subst].
      destruct H1 as [_ H1]. destruct (Z.leb_spec (EndEpoch p) epoch); [left; by subst|].
      destruct H1 as (state & Hstate & ->). cbn.
      destruct (Z.eq_dec id dealID) as [->|Hne].
      - right. exists p, state. rewrite lookup_insert_eq. auto 6.
      - left. by apply lookup_insert_ne. }
    rewrite Hprops in Hin, Hout.
    split; [rewrite Hst', Hbase; reflexivity|]. split.
    + intros id p Hid Hp.
      assert (Hprov : Provider p = minerAddr).
      { destruct Hid as [<-|Hid]; [|exact (proj1 (Hin id p Hid Hp))].
        rewrite Hp in H1. exact (proj1 H1). }
      split; [exact Hprov|]. intros Hlive.
      destruct (in_dec Z.eq_dec id rest) as [Hrest|Hrest].
      * destruct (Hin id p Hrest Hp) as [_ Hslash].
        destruct (Hslash Hlive) as (state1 & Hstate1 & Hstate').
        destruct (Hstep id) as [Hsame|(p' & state & _ & _ & _ & Hstate & Hst1)].
        -- exists state1. rewrite <- Hsame. auto.
        -- exists state. split; [exact Hstate|].
           rewrite Hst1 in Hstate1. injection Hstate1 as <-.
           by rewrite slashedAt_idem in Hstate'.
      * destruct Hid as [<-|Hid]; [|contradiction].
        rewrite (Hout dealID) by auto.
        rewrite Hp in H1. destruct H1 as [_ H1].
        destruct (Z.leb_spec (EndEpoch p) epoch); [lia|].
        destruct H1 as (state & Hstate & ->). exists state. cbn.
        by rewrite lookup_insert_eq.
    + intros id Hid.
      assert (Hrest : ~ In id rest \/ Proposals st !! id = None
                      \/ (exists p, Proposals st !! id = Some p /\ EndEpoch p <= epoch)).
      { destruct Hid as [Hid|Hid]; [left; intros Hin'; apply Hid; by right | by right]. }
      rewrite (Hout id Hrest).
      destruct (Hstep id) as [Hsame|(p & state & -> & Hp & Hlive & _)]; [exact Hsame|].
      exfalso. destruct Hid as [Hid|[Hid|(p' & Hp' & Hexp)]].
      * apply Hid. by left.
      * congruence.
      * rewrite Hp in Hp'. injection Hp' as <-. lia.
Qed.

(** On a state where the deals to slash are slashed already the loop
    changes nothing. *)
Lemma terminateDeals_settled minerAddr epoch dealIDs st :
  (forall id p, In id dealIDs -> Proposals st !! id = Some p ->
                Provider p = minerAddr
                /\ (epoch < EndEpoch p ->
                    exists state, States st !! id = Some state
                                  /\ slashedAt epoch state = state)) ->
  terminateDeals minerAddr epoch dealIDs st = Done (tt, st).
Proof.
  induction dealIDs as [|dealID rest IH]; intros Hsettled; cbn; [reflexivity|].
  assert (Hone : terminateDeal minerAddr epoch dealID st = Done (tt, st)).
  { unfold terminateDeal, rt.bind, get.
    destruct (Proposals st !! dealID) as [p|] eqn:Hp; [|reflexivity].
    destruct (Hsettled dealID p (or_introl eq_refl) Hp) as [Hprov Hlive].
    apply Z.eqb_eq in Hprov. rewrite Hprov. cbn.
    destruct (Z.leb_spec (EndEpoch p) epoch); [reflexivity|].
    destruct (Hlive ltac:(lia)) as (state & Hstate & Hfix). rewrite Hstate.
    unfold slashedAt in Hfix.
    destruct (SlashEpoch state =? epochUndefined); cbn; [|reflexivity].
    unfold put. rewrite Hfix, insert_id by exact Hstate. by destruct st. }
  rewrite (bind_eq_Done _ _ _ _ _ Hone). apply IH.
  intros id p Hid. apply Hsettled. by right.
Qed.

Lemma OnMinerSectorsTerminate_Done r epoch dealIDs (w : World State) u w' :
  OnMinerSectorsTerminate r epoch dealIDs w = Done (u, w') ->
  CallerCode r = builtin.StorageMinerActorCodeID
  /\ exists st', terminateDeals (Caller r) epoch dealIDs (state w) = Done (tt, st')
                 /\ w' = mkWorld st' (balance w) (sent w).
Proof.
  unfold OnMinerSectorsTerminate. intros H.
  step H as ? w1 H1. apply minerOnly_Done in H1 as [-> Hcode].
  apply StateTransaction_Done in H as (st' & H & ->).
  split; [exact Hcode|]. exists st'. destruct u. auto.
Qed.

End activation_spec.

Module activation_extra.
Import market activation_spec.

(** X16.  [validateAndComputeDealWeight] accepts a list of deal IDs exactly
    when no ID occurs twice and every ID names a proposal of the calling
    miner that has not started before the activation epoch and ends by the
    expiry of the sector.  It then returns the sum of the weights of the
    unverified deals, the sum of the weights of the verified ones, and the
    sum of the piece sizes as a [uint64].  Its errors wrap
    [ErrIllegalArgument], [ErrNotFound] or [ErrForbidden]. *)
Theorem validateAndComputeDealWeight_accepts
        proposals dealIDs minerAddr sectorExpiry sectorActivation :
  let valid id p :=
    proposals !! id = Some p
    /\ Provider p = minerAddr
    /\ sectorActivation <= StartEpoch p
    /\ EndEpoch p <= sectorExpiry in
  let weights deals :=
    (fold_right (fun p sum => (if VerifiedDeal p then 0 else DealWeight p) + sum) 0 deals,
     fold_right (fun p sum => (if VerifiedDeal p then DealWeight p else 0) + sum) 0 deals,
     uint64 (fold_right (fun p sum => PieceSize p + sum) 0 deals)) in
  (forall result,
      validateAndComputeDealWeight proposals dealIDs minerAddr sectorExpiry sectorActivation
      = builtin.Val result
      <-> NoDup dealIDs
          /\ exists deals, Forall2 valid dealIDs deals /\ result = weights deals)
  /\ (forall e,
         validateAndComputeDealWeight proposals dealIDs minerAddr sectorExpiry sectorActivation
         = builtin.Err e ->
         e = Some exitcode.ErrIllegalArgument \/ e = Some exitcode.ErrNotFound
         \/ e = Some exitcode.ErrForbidden).
Proof.
  intros valid weights. split.
  - intros [[dealWeight verifiedWeight] dealSpace]. split.
    + intros H. apply validateAndComputeDealWeight_Val in H
        as (Hnodup & deals & Hall & -> & -> & ->).
      split; [exact Hnodup|]. exists deals. split; [exact Hall | reflexivity].
    + intros (Hnodup & deals & Hall & Hres).
      destruct (validateAndComputeDealWeight proposals dealIDs minerAddr sectorExpiry
                  sectorActivation) as [[[dw vw] ds]|e] eqn:H.
      * apply validateAndComputeDealWeight_Val in H
          as (_ & deals' & Hall' & -> & -> & ->).
        assert (deals' = deals); [|subst deals'; by rewrite Hres].
        clear Hres Hnodup. revert deals' Hall'.
        induction Hall as [|id p ids ps Hv Hall IH]; intros deals' Hall'.
        -- by inversion Hall'.
        -- inversion Hall' as [|? p' ? ps' Hv' Hrest]; subst.
           destruct Hv as [Hp _], Hv' as [Hp' _]. rewrite Hp in Hp'. injection Hp' as <-.
           f_equal. by apply IH.
      * exfalso. revert H. unfold validateAndComputeDealWeight.
        destruct (dealWeightLoop _ _ _ _ _ _) as [acc|e'] eqn:Hloop; [discriminate|].
        intros _. revert Hloop.
        assert (Hfresh : forall id, In id dealIDs -> id ∉ seenDealIDs (mkWeightAcc ∅ 0 0 0))
          by (intros id _; cbn; apply not_elem_of_empty).
        generalize dependent (mkWeightAcc ∅ 0 0 0). clear Hres.
        induction Hall as [|id p ids ps Hv Hall IH]; intros acc Hfresh; cbn; [discriminate|].
        rewrite bool_decide_eq_false_2 by (apply Hfresh; by left).
        destruct Hv as (Hp & Hprov & Hstart & Hend). rewrite Hp.
        unfold validateDealCanActivate.
        apply Z.eqb_eq in Hprov. rewrite Hprov. cbn.
        rewrite Z.gtb_ltb. apply Z.ltb_ge in Hstart. rewrite Hstart.
        rewrite Z.gtb_ltb. apply Z.ltb_ge in Hend. rewrite Hend.
        apply NoDup_cons in Hnodup as [Hnotin Hnodup].
        apply IH; [exact Hnodup|]. intros id' Hin'. cbn.
        rewrite elem_of_union, elem_of_singleton. intros [->|Hseen].
        ++ apply Hnotin. by apply list_elem_of_In.
        ++ apply (Hfresh id'); [by right | exact Hseen].
  - intros e H. exact (validateAndComputeDealWeight_Err _ _ _ _ _ _ H).
Qed.

Lemma validateAndComputeDealWeight_accepts_witness :
  let proposals := Proposals fixture.Market.published in
  validateAndComputeDealWeight proposals [7; 8] 1000 4000 50
  = builtin.Val (100 * 2048, 100 * 2048, 4096)
  /\ validateAndComputeDealWeight proposals [7; 7] 1000 4000 50
     = builtin.Err (Some exitcode.ErrIllegalArgument).
Proof.
  intros proposals.
  destruct (validateAndComputeDealWeight_accepts proposals [7; 8] 1000 4000 50) as [Hok _].
  split; [|reflexivity].
  apply Hok. split.
  - apply NoDup_cons. split; [apply not_elem_of_cons; split; [discriminate|]|].
    + apply not_elem_of_nil.
    + apply NoDup_singleton.
  - exists [Proposal (fixture.Market.deal 11 false 100 200);
            Proposal (fixture.Market.deal 13 true 3000 3100)].
    split; [|reflexivity].
    repeat constructor; vm_compute; try reflexivity; discriminate.
Defined.

(** X17.  [VerifyDealsForActivation] only reads: called by a storage miner,
    it answers with one record of weights per sector, in order, each the
    result of validating the deals of that sector for the caller at the
    current epoch, and leaves the world as it is.  It aborts with the code
    that the failed validation wraps, or refuses the caller: never with
    [ErrIllegalState]. *)
Theorem VerifyDealsForActivation_reads_only r sectors (w : World State) :
  (forall weights w',
      VerifyDealsForActivation r sectors w = Done (weights, w') ->
      w' = w
      /\ CallerCode r = builtin.StorageMinerActorCodeID
      /\ Forall2 (fun sector wt =>
                    validateAndComputeDealWeight (Proposals (state w))
                      (SectorDeals.DealIDs sector) (Caller r)
                      (SectorDeals.SectorExpiry sector) (CurrEpoch r)
                    = builtin.Val (SectorWeights.DealWeight wt,
                                   SectorWeights.VerifiedDealWeight wt,
                                   SectorWeights.DealSpace wt)) sectors weights)
  /\ (forall c msg,
         VerifyDealsForActivation r sectors w = Abort c msg ->
         c = exitcode.SysErrForbidden \/ c = exitcode.ErrIllegalArgument
         \/ c = exitcode.ErrNotFound \/ c = exitcode.ErrForbidden).
Proof.
  split.
  - intros weights w' H. revert H. unfold VerifyDealsForActivation. intros H.
    step H as ? w1 H1. apply minerOnly_Done in H1 as [-> Hcode].
    step H as st w1 H1. injection H1 as <- <-.
    apply verifyDeals_Done in H as (-> & added & -> & Hall). auto.
  - intros c msg. unfold VerifyDealsForActivation. intros H.
    apply bind_Abort in H as [H | (? & w1 & _ & H)].
    + left. revert H. unfold ValidateImmediateCallerType.
      destruct (existsb _ _); [discriminate|]. by intros [= <- _].
    + apply bind_Abort in H as [H | (st & w2 & _ & H)]; [discriminate|].
      right. exact (verifyDeals_Abort _ _ _ _ _ _ _ H).
Qed.

Lemma VerifyDealsForActivation_reads_only_witness :
  let r := fixture.Market.minerRuntime 50 1000 in
  let w := fixture.Market.publishedWorld in
  let sectors := [SectorDeals.mk 4000 [7; 8]; SectorDeals.mk 4000 []] in
  let weights := [SectorWeights.mk 4096 204800 204800; SectorWeights.mk 0 0 0] in
  VerifyDealsForActivation r sectors w = Done (weights, w)
  /\ Forall2 (fun sector wt =>
                validateAndComputeDealWeight (Proposals (state w))
                  (SectorDeals.DealIDs sector) (Caller r)
                  (SectorDeals.SectorExpiry sector) (CurrEpoch r)
                = builtin.Val (SectorWeights.DealWeight wt,
                               SectorWeights.VerifiedDealWeight wt,
                               SectorWeights.DealSpace wt)) sectors weights
  /\ VerifyDealsForActivation r [SectorDeals.mk 4000 [9]] w
     = Abort exitcode.ErrNotFound "failed to validate deal proposals for activation".
Proof.
  intros r w sectors weights.
  assert (H1 : VerifyDealsForActivation r sectors w = Done (weights, w))
    by (vm_compute; reflexivity).
  split; [exact H1|].
  destruct (VerifyDealsForActivation_reads_only r sectors w) as [Hok _].
  destruct (Hok weights w H1) as (_ & _ & Hall).
  split; [exact Hall | reflexivity].
Defined.

(** X18.  [ActivateDeals], called by a storage miner, gives each listed
    deal the state (current epoch, undefined, undefined).  It succeeds only
    on distinct deals that had no state, belong to the caller, are pending,
    have not started and end by the expiry of the sector; the states of the
    other deals, the rest of the market state, the balance and the messages
    are left as they were. *)
Theorem ActivateDeals_activates pol r dealIDs sectorExpiry (w : World State) u w' :
  ActivateDeals pol r dealIDs sectorExpiry w = Done (u, w') ->
  CallerCode r = builtin.StorageMinerActorCodeID
  /\ NoDup dealIDs
  /\ (forall id, In id dealIDs ->
                 States (state w) !! id = None
                 /\ States (state w') !! id
                    = Some (mkDealState (CurrEpoch r) epochUndefined epochUndefined)
                 /\ exists p, Proposals (state w) !! id = Some p
                              /\ Provider p = Caller r
                              /\ CurrEpoch r <= StartEpoch p
                              /\ EndEpoch p <= sectorExpiry
                              /\ ProposalCid pol p ∈ PendingProposals (state w))
  /\ (forall id, ~ In id dealIDs -> States (state w') !! id = States (state w) !! id)
  /\ w' = mkWorld (set_States (States (state w')) (state w)) (balance w) (sent w).
Proof.
  intros H.
  apply ActivateDeals_Done in H as (Hcode & [[[dw vw] ds] Hv] & st' & Hloop & ->).
  apply validateAndComputeDealWeight_Val in Hv as (Hnodup & deals & Hall & _).
  apply activateDeals_Done in Hloop as (Hst' & Hin & Hout). cbn.
  split; [exact Hcode|]. split; [exact Hnodup|]. split; [|split; [exact Hout|]].
  - intros id Hid. destruct (Hin id Hid) as (Hnone & Hsome & p & Hp & Hpending).
    split; [exact Hnone|]. split; [exact Hsome|]. exists p.
    assert (Hvalid : exists p', Proposals (state w) !! id = Some p'
                                /\ Provider p' = Caller r
                                /\ CurrEpoch r <= StartEpoch p'
                                /\ EndEpoch p' <= sectorExpiry).
    { clear -Hall Hid. induction Hall as [|id' p' ids ps Hv Hall IH]; [destruct Hid|].
      destruct Hid as [<-|Hid]; [eauto | auto]. }
    destruct Hvalid as (p' & Hp' & Hrest). rewrite Hp in Hp'. injection Hp' as <-.
    destruct Hrest as (? & ? & ?). auto 6.
  - by rewrite <- Hst'.
Qed.

Lemma ActivateDeals_activates_witness :
  let pol := fixture.Market.policy in
  let r := fixture.Market.minerRuntime 50 1000 in
  let run := ActivateDeals pol r [7; 8] 4000 in
  let w' := outcome run fixture.Market.publishedWorld in
  run fixture.Market.publishedWorld = Done (tt, w')
  /\ States (state w') !! 7 = Some (mkDealState 50 epochUndefined epochUndefined)
  /\ States (state w') !! 8 = Some (mkDealState 50 epochUndefined epochUndefined)
  /\ States (state w') !! 9 = None.
Proof.
  intros pol r run w'.
  assert (Hrun : run fixture.Market.publishedWorld = Done (tt, w'))
    by (vm_compute; reflexivity).
  split; [exact Hrun|].
  destruct (ActivateDeals_activates pol r [7; 8] 4000 fixture.Market.publishedWorld tt w' Hrun)
    as (_ & _ & Hin & Hout & _).
  split; [apply (Hin 7); cbn; auto|]. split; [apply (Hin 8); cbn; auto|].
  rewrite Hout; [reflexivity|]. cbn. intros [E|[E|[]]]; discriminate E.
Defined.

(** X19.  A deal is activated once: after a successful [ActivateDeals] no
    later [ActivateDeals] that lists one of its deals succeeds, whoever
    calls it, at whatever epoch and with whatever other deals. *)
Theorem ActivateDeals_only_once
        pol r dealIDs sectorExpiry (w : World State) u w' id :
  ActivateDeals pol r dealIDs sectorExpiry w = Done (u, w') ->
  In id dealIDs ->
  forall pol2 r2 dealIDs2 sectorExpiry2 u2 w2,
    In id dealIDs2 ->
    ActivateDeals pol2 r2 dealIDs2 sectorExpiry2 w' <> Done (u2, w2).
Proof.
  intros H Hid pol2 r2 dealIDs2 sectorExpiry2 u2 w2 Hid2 H2.
  apply ActivateDeals_Done in H as (_ & _ & st' & Hloop & ->).
  apply activateDeals_Done in Hloop as (_ & Hin & _).
  destruct (Hin id Hid) as (_ & Hsome & _).
  apply ActivateDeals_Done in H2 as (_ & _ & st2 & Hloop2 & _).
  apply activateDeals_Done in Hloop2 as (_ & Hin2 & _).
  destruct (Hin2 id Hid2) as (Hnone & _). cbn in Hnone. congruence.
Qed.

Lemma ActivateDeals_only_once_witness :
  let pol := fixture.Market.policy in
  let run := ActivateDeals pol (fixture.Market.minerRuntime 50 1000) [7] 4000 in
  let w' := outcome run fixture.Market.publishedWorld in
  run fixture.Market.publishedWorld = Done (tt, w')
  /\ ActivateDeals pol (fixture.Market.minerRuntime 60 1000) [8; 7] 4000 w'
     = Abort exitcode.ErrIllegalArgument "deal %d already included in another sector".
Proof.
  intros pol run w'.
  assert (Hrun : run fixture.Market.publishedWorld = Done (tt, w'))
    by (vm_compute; reflexivity).
  split; [exact Hrun|].
  destruct (ActivateDeals pol (fixture.Market.minerRuntime 60 1000) [8; 7] 4000 w')
    as [[u2 w2]|c msg] eqn:E.
  - destruct (ActivateDeals_only_once pol (fixture.Market.minerRuntime 50 1000) [7] 4000
                fixture.Market.publishedWorld tt w' 7 Hrun (or_introl eq_refl)
                pol (fixture.Market.minerRuntime 60 1000) [8; 7] 4000 u2 w2
                (or_intror (or_introl eq_refl)) E).
  - vm_compute in E. symmetry. exact E.
Defined.

(** X20.  [OnMinerSectorsTerminate], called by a storage miner, marks the
    listed deals for slashing: a listed deal whose proposal ends after the
    given epoch, which must have a state, gets that epoch as its slash
    epoch unless it has one already.  Every listed deal with a proposal
    belongs to the caller; listed deals without a proposal or ending by the
    epoch are skipped; the states of all other deals, the proposals, the
    balances, the actor's balance and the messages are left as they
    were. *)
Theorem OnMinerSectorsTerminate_marks_for_slashing
        r epoch dealIDs (w : World State) u w' :
  OnMinerSectorsTerminate r epoch dealIDs w = Done (u, w') ->
  CallerCode r = builtin.StorageMinerActorCodeID
  /\ (forall id p,
         In id dealIDs -> Proposals (state w) !! id = Some p ->
         Provider p = Caller r
         /\ (epoch < EndEpoch p ->
             exists st,
               States (state w) !! id = Some st
               /\ States (state w') !! id
                  = Some (if SlashEpoch st =? epochUndefined
                          then mkDealState (SectorStartEpoch st) (LastUpdatedEpoch st) epoch
                          else st)))
  /\ (forall id,
         ~ In id dealIDs \/ Proposals (state w) !! id = None
         \/ (exists p, Proposals (state w) !! id = Some p /\ EndEpoch p <= epoch) ->
         States (state w') !! id = States (state w) !! id)
  /\ w' = mkWorld (set_States (States (state w')) (state w)) (balance w) (sent w).
Proof.
  intros H.
  apply OnMinerSectorsTerminate_Done in H as (Hcode & st' & Hloop & ->).
  apply terminateDeals_Done in Hloop as (Hst' & Hin & Hout). cbn.
  split; [exact Hcode|]. split; [exact Hin|]. split; [exact Hout|]. by rewrite <- Hst'.
Qed.

Lemma OnMinerSectorsTerminate_marks_for_slashing_witness :
  let active :=
    outcome (ActivateDeals fixture.Market.policy (fixture.Market.minerRuntime 50 1000)
               [7; 8] 4000) fixture.Market.publishedWorld in
  let run := OnMinerSectorsTerminate (fixture.Market.minerRuntime 250 1000) 250 [7; 8; 9] in
  let w' := outcome run active in
  run active = Done (tt, w')
  /\ States (state w') !! 7 = Some (mkDealState 50 epochUndefined epochUndefined)
  /\ States (state w') !! 8 = Some (mkDealState 50 epochUndefined 250).
Proof.
  intros active run w'.
  assert (Hrun : run active = Done (tt, w')) by (vm_compute; reflexivity).
  split; [exact Hrun|].
  destruct (OnMinerSectorsTerminate_marks_for_slashing
              (fixture.Market.minerRuntime 250 1000) 250 [7; 8; 9] active tt w' Hrun)
    as (_ & Hin & Hout & _).
  split.
  - rewrite Hout; [vm_compute; reflexivity|]. right. right.
    exists (Proposal (fixture.Market.deal 11 false 100 200)).
    split; [vm_compute; reflexivity | vm_compute; discriminate].
  - destruct (Hin 8 (Proposal (fixture.Market.deal 13 true 3000 3100)))
      as [_ Hslash]; [cbn; auto | vm_compute; reflexivity|].
    destruct Hslash as (st & Hst & ->); [vm_compute; reflexivity|].
    vm_compute in Hst. injection Hst as <-. reflexivity.
Defined.

(** X21.  [OnMinerSectorsTerminate] can be repeated: the same call on the
    world that a successful call left succeeds and changes nothing. *)
Theorem OnMinerSectorsTerminate_repeats r epoch dealIDs (w : World State) u w' :
  OnMinerSectorsTerminate r epoch dealIDs w = Done (u, w') ->
  OnMinerSectorsTerminate r epoch dealIDs w' = Done (tt, w').
Proof.
  intros H.
  apply OnMinerSectorsTerminate_Done in H as (Hcode & st' & Hloop & ->).
  apply terminateDeals_Done in Hloop as (Hst' & Hin & _).
  unfold OnMinerSectorsTerminate, rt.bind, ValidateImmediateCallerType, StateTransaction.
  rewrite Hcode. cbn.
  rewrite terminateDeals_settled; [reflexivity|].
  intros id p Hid Hp. rewrite Hst' in Hp. cbn in Hp.
  destruct (Hin id p Hid Hp) as [Hprov Hlive]. split; [exact Hprov|].
  intros Hend. destruct (Hlive Hend) as (state & _ & Hstate').
  exists (slashedAt epoch state). split; [exact Hstate' | apply slashedAt_idem].
Qed.

Lemma OnMinerSectorsTerminate_repeats_witness :
  let active :=
    outcome (ActivateDeals fixture.Market.policy (fixture.Market.minerRuntime 50 1000)
               [7; 8] 4000) fixture.Market.publishedWorld in
  let run := OnMinerSectorsTerminate (fixture.Market.minerRuntime 250 1000) 250 [8; 7] in
  run active = Done (tt, outcome run active)
  /\ run (outcome run active) = Done (tt, outcome run active).
Proof.
  intros active run.
  assert (Hrun : run active = Done (tt, outcome run active)) by (vm_compute; reflexivity).
  split; [exact Hrun|].
  exact (OnMinerSectorsTerminate_repeats (fixture.Market.minerRuntime 250 1000) 250 [8; 7]
           active tt (outcome run active) Hrun).
Defined.

(** X22.  Activation followed by termination: when a miner activates deals
    at epoch [a] and the containing sector is then terminated at [epoch],
    every one of these deals that ends after [epoch] is left active since
    [a] and marked with the slash epoch [epoch]; those that end by [epoch]
    stay active and unmarked. *)
Theorem activated_deals_are_slashed_on_termination
        pol r1 r2 dealIDs sectorExpiry epoch (w : World State) u1 w1 u2 w2 :
  ActivateDeals pol r1 dealIDs sectorExpiry w = Done (u1, w1) ->
  OnMinerSectorsTerminate r2 epoch dealIDs w1 = Done (u2, w2) ->
  forall id p,
    In id dealIDs -> Proposals (state w) !! id = Some p ->
    Caller r2 = Caller r1
    /\ States (state w2) !! id
       = Some (mkDealState (CurrEpoch r1) epochUndefined
                 (if EndEpoch p <=? epoch then epochUndefined else epoch)).
Proof.
  intros H1 H2 id p Hid Hp.
  apply ActivateDeals_Done in H1 as (_ & [[[dw vw] ds] Hv] & st1 & Hloop1 & ->).
  apply validateAndComputeDealWeight_Val in Hv as (_ & deals & Hall & _).
  apply activateDeals_Done in Hloop1 as (Hst1 & Hin1 & _).
  destruct (Hin1 id Hid) as (_ & Hactive & _).
  assert (Hprov1 : Provider p = Caller r1).
  { clear -Hall Hid Hp. induction Hall as [|id' p' ids ps Hv Hall IH]; [destruct Hid|].
    destruct Hid as [<-|Hid]; [|auto]. destruct Hv as (Hp' & Hprov & _). congruence. }
  apply OnMinerSectorsTerminate_Done in H2 as (_ & st2 & Hloop2 & ->).
  apply terminateDeals_Done in Hloop2 as (_ & Hin2 & Hout2). cbn in Hin2, Hout2 |- *.
  assert (Hp1 : Proposals st1 !! id = Some p) by (rewrite Hst1; exact Hp).
  destruct (Hin2 id p Hid Hp1) as [Hprov2 Hlive]. split; [congruence|].
  destruct (Z.leb_spec (EndEpoch p) epoch) as [Hexp|Hexp].
  - rewrite Hout2 by eauto. exact Hactive.
  - destruct (Hlive Hexp) as (state & Hstate & ->).
    rewrite Hactive in Hstate. injection Hstate as <-. reflexivity.
Qed.

Lemma activated_deals_are_slashed_on_termination_witness :
  let pol := fixture.Market.policy in
  let activate := ActivateDeals pol (fixture.Market.minerRuntime 50 1000) [7; 8] 4000 in
  let w1 := outcome activate fixture.Market.publishedWorld in
  let terminate := OnMinerSectorsTerminate (fixture.Market.minerRuntime 150 1000) 150 [7; 8] in
  let w2 := outcome terminate w1 in
  (activate fixture.Market.publishedWorld = Done (tt, w1) /\ terminate w1 = Done (tt, w2))
  /\ States (state w2) !! 7 = Some (mkDealState 50 epochUndefined 150)
  /\ States (state w2) !! 8 = Some (mkDealState 50 epochUndefined 150).
Proof.
  intros pol activate w1 terminate w2.
  assert (H1 : activate fixture.Market.publishedWorld = Done (tt, w1))
    by (vm_compute; reflexivity).
  assert (H2 : terminate w1 = Done (tt, w2)) by (vm_compute; reflexivity).
  split; [auto|].
  pose proof (activated_deals_are_slashed_on_termination pol
                (fixture.Market.minerRuntime 50 1000) (fixture.Market.minerRuntime 150 1000)
                [7; 8] 4000 150 fixture.Market.publishedWorld tt w1 tt w2 H1 H2) as Hall.
  split.
  - destruct (Hall 7 (Proposal (fixture.Market.deal 11 false 100 200))) as [_ ->];
      [cbn; auto | vm_compute; reflexivity | reflexivity].
  - destruct (Hall 8 (Proposal (fixture.Market.deal 13 true 3000 3100))) as [_ ->];
      [cbn; auto | vm_compute; reflexivity | reflexivity].
Defined.

End activation_extra.

(** ** The escrow *)

Module escrow_spec.
Import market miner_spec.

Lemma escrowAddress_Done {W} peers r address (w : W) nominal recipient approved w' :
  escrowAddress peers r address w = Done ((nominal, recipient, approved), w') ->
  w' = w
  /\ ResolveAddress r address = Some nominal
  /\ exists codeID,
       GetActorCodeCID r nominal = Some codeID
       /\ if codeID =? builtin.StorageMinerActorCodeID
          then fst (RequestMinerControlAddrs peers nominal) = exitcode.Ok
               /\ recipient = fst (fst (snd (RequestMinerControlAddrs peers nominal)))
               /\ approved = [recipient;
                              snd (fst (snd (RequestMinerControlAddrs peers nominal)))]
          else recipient = nominal /\ approved = [nominal].
Proof.
  unfold escrowAddress.
  destruct (ResolveAddress r address) as [nominal'|]; [|discriminate].
  destruct (GetActorCodeCID r nominal') as [codeID|] eqn:Hcode; [|discriminate].
  destruct (codeID =? builtin.StorageMinerActorCodeID) eqn:Hminer.
  - destruct (RequestMinerControlAddrs peers nominal')
      as [code [[ownerAddr workerAddr] controllers]] eqn:Hctl.
    intros H. step H as ? w1 H1. apply RequireSuccess_Done in H1 as [-> ->].
    injection H as <- <- <- <-. split; [reflexivity|]. split; [reflexivity|].
    exists codeID. rewrite Hcode, Hminer, Hctl. cbn. auto.
  - intros [= <- <- <- <-]. split; [reflexivity|]. split; [reflexivity|].
    exists codeID. rewrite Hcode, Hminer. auto.
Qed.

Lemma WithdrawBalance_Done bt peers r address amount (w : World State) ex w' :
  WithdrawBalance bt peers r address amount w = Done (ex, w') ->
  exists nominal recipient approved escrow,
    0 <= amount
    /\ escrowAddress (W := World State) peers r address w
       = Done ((nominal, recipient, approved), w)
    /\ In (Caller r) approved
    /\ SubtractWithMinimum bt (EscrowTable (Funds (state w))) nominal amount
         (tableGet (LockedTable (Funds (state w))) nominal)
       = builtin.Val (ex, escrow)
    /\ state w' = set_Funds (set_EscrowTable escrow (Funds (state w))) (state w)
    /\ balance w' = balance w - ex
    /\ sent w' = sent w ++ [mkMessage recipient MethodSend ex].
Proof.
  unfold WithdrawBalance. intros H.
  step H as ? w1 H1. apply guard_Done in H1 as [Hneg ->]. apply Z.ltb_ge in Hneg.
  step H as [[nominal recipient] approved] w1 H1.
  assert (w1 = w) by (by apply escrowAddress_Done in H1 as (-> & _)). subst w1.
  step H as ? w1 H2.
  assert (Hcaller : In (Caller r) approved).
  { revert H2. unfold ValidateImmediateCallerIs.
    destruct (existsb (Z.eqb (Caller r)) approved) eqn:He; [|discriminate]. intros _.
    apply existsb_exists in He as (a & Hin & Ha). apply Z.eqb_eq in Ha. by subst a. }
  apply pure_ValidateImmediateCallerIs in H2. subst w1.
  step H as amountExtracted w1 H3. apply StateTransaction_Done in H3 as (st' & Htx & ->).
  step Htx as st0 ? H0. injection H0 as <- <-.
  step Htx as [ex' escrow] s1 H4. apply RequireNoErr_Done in H4 as [Hsub ->].
  step Htx as ? s2 H5. injection H5 as _ <-. injection Htx as <- <-.
  step H as code w2 H6. step H as ? w3 H7. apply RequireSuccess_Done in H7 as [-> ->].
  injection H as <- <-.
  apply Send_Done in H6 as (Hst & [[Hne _] | (_ & Hbal & Hsent)]); [by destruct Hne|].
  exists nominal, recipient, approved, escrow. cbn in Hst, Hbal, Hsent. auto 10.
Qed.

Lemma AddBalance_Done bt peers r address (w : World State) u w' :
  AddBalance bt peers r address w = Done (u, w') ->
  exists nominal escrow,
    0 < ValueReceived r
    /\ existsb (Z.eqb (CallerCode r)) builtin.CallerTypesSignable = true
    /\ ResolveAddress r address = Some nominal
    /\ Add bt (EscrowTable (Funds (state w))) nominal (ValueReceived r) = builtin.Val escrow
    /\ w' = mkWorld (set_Funds (set_EscrowTable escrow (Funds (state w))) (state w))
              (balance w) (sent w).
Proof.
  unfold AddBalance. intros H.
  step H as ? w1 H1. apply RequirePredicate_Done in H1 as [Hpos ->].
  rewrite Z.gtb_ltb in Hpos. apply Z.ltb_lt in Hpos.
  step H as ? w1 H1.
  assert (Hsign : existsb (Z.eqb (CallerCode r)) builtin.CallerTypesSignable = true).
  { revert H1. unfold ValidateImmediateCallerType.
    destruct (existsb _ _); [reflexivity | discriminate]. }
  apply pure_ValidateImmediateCallerType in H1. subst w1.
  step H as [[nominal recipient] approved] w1 H1.
  apply escrowAddress_Done in H1 as (-> & Hres & _).
  apply StateTransaction_Done in H as (st' & Htx & ->).
  step Htx as st0 ? H0. injection H0 as <- <-.
  step Htx as escrow s1 H4. apply RequireNoErr_Done in H4 as [Hadd ->].
  injection Htx as _ <-.
  exists nominal, escrow. auto 6.
Qed.

End escrow_spec.

Module escrow_extra.
Import market escrow_spec.

(** X23.  The market's [WithdrawBalance] pays out what the escrow table
    gives: for a non-negative amount it takes from the escrow entry of the
    resolved address what [SubtractWithMinimum] extracts above the locked
    balance, returns that amount and sends exactly it to the recipient in
    one message.  For the escrow of a storage miner the recipient is the
    miner's owner and the caller is its owner or worker; for any other
    address the recipient and the caller are that address.  Apart from the
    escrow table the market state is unchanged. *)
Theorem WithdrawBalance_pays_the_recipient
        bt peers r address amount (w : World State) ex w' :
  WithdrawBalance bt peers r address amount w = Done (ex, w') ->
  exists nominal recipient escrow,
    0 <= amount
    /\ ResolveAddress r address = Some nominal
    /\ (GetActorCodeCID r nominal = Some builtin.StorageMinerActorCodeID ->
        let '(_, (ownerAddr, workerAddr, _)) := RequestMinerControlAddrs peers nominal in
        recipient = ownerAddr /\ (Caller r = ownerAddr \/ Caller r = workerAddr))
    /\ (GetActorCodeCID r nominal <> Some builtin.StorageMinerActorCodeID ->
        recipient = nominal /\ Caller r = nominal)
    /\ SubtractWithMinimum bt (EscrowTable (Funds (state w))) nominal amount
         (tableGet (LockedTable (Funds (state w))) nominal)
       = builtin.Val (ex, escrow)
    /\ state w' = set_Funds (set_EscrowTable escrow (Funds (state w))) (state w)
    /\ balance w' = balance w - ex
    /\ sent w' = sent w ++ [mkMessage recipient MethodSend ex].
Proof.
  intros H.
  apply WithdrawBalance_Done in H
    as (nominal & recipient & approved & escrow & Hamount & Hescrow & Hcaller & Hsub & Hst
        & Hbal & Hsent).
  apply escrowAddress_Done in Hescrow as (_ & Hres & codeID & Hcode & Hkind).
  exists nominal, recipient, escrow.
  split; [exact Hamount|]. split; [exact Hres|]. split; [|split; [|auto]].
  - intros Hminer. rewrite Hminer in Hcode. injection Hcode as <-.
    rewrite Z.eqb_refl in Hkind. destruct Hkind as (_ & Hrec & Happ).
    destruct (RequestMinerControlAddrs peers nominal)
      as [code [[ownerAddr workerAddr] controllers]].
    cbn in Hrec, Happ. subst recipient approved. split; [reflexivity|].
    destruct Hcaller as [<-|[<-|[]]]; auto.
  - intros Hother.
    destruct (Z.eqb_spec codeID builtin.StorageMinerActorCodeID) as [->|_];
      [contradiction|].
    destruct Hkind as [-> ->]. split; [reflexivity|].
    destruct Hcaller as [<-|[]]. reflexivity.
Qed.

Lemma WithdrawBalance_pays_the_recipient_witness :
  let bt := fixture.Market.balanceTable in
  let provider := WithdrawBalance bt fixture.Market.peers (fixture.runtime 50 2001) 1000 900 in
  let client := WithdrawBalance bt fixture.Market.peers (fixture.runtime 50 3000) 3000 400 in
  let w := fixture.Market.publishedWorld in
  (provider w = Done (700, outcome provider w) /\ client w = Done (400, outcome client w))
  /\ sent (outcome provider w) = [mkMessage 2000 MethodSend 700]
  /\ sent (outcome client w) = [mkMessage 3000 MethodSend 400]
  /\ balance (outcome provider w) = 4300.
Proof.
  intros bt provider client w.
  assert (H1 : provider w = Done (700, outcome provider w)) by (vm_compute; reflexivity).
  assert (H2 : client w = Done (400, outcome client w)) by (vm_compute; reflexivity).
  split; [auto|].
  destruct (WithdrawBalance_pays_the_recipient bt fixture.Market.peers
              (fixture.runtime 50 2001) 1000 900 w 700 (outcome provider w) H1)
    as (nominal & recipient & escrow & _ & Hres & Hminer & _ & _ & _ & Hbal & Hsent).
  injection Hres as <-. destruct Hminer as [-> _]; [reflexivity|].
  destruct (WithdrawBalance_pays_the_recipient bt fixture.Market.peers
              (fixture.runtime 50 3000) 3000 400 w 400 (outcome client w) H2)
    as (nominal2 & recipient2 & escrow2 & _ & Hres2 & _ & Hother & _ & _ & _ & Hsent2).
  injection Hres2 as <-. destruct Hother as [-> _]; [discriminate|].
  split; [exact Hsent|]. split; [exact Hsent2|]. rewrite Hbal. reflexivity.
Defined.

(** X24.  [AddBalance] takes a positive value only: a message without
    value is refused with [ErrIllegalArgument], whoever sends it.  An
    accepted call comes from an account or a multisig, adds the value to
    the escrow entry of the resolved address through the table's [Add], and
    changes nothing else: no locked balance, no deal, no message. *)
Theorem AddBalance_adds_to_escrow bt peers r address (w : World State) :
  (ValueReceived r <= 0 ->
   AddBalance bt peers r address w
   = Abort exitcode.ErrIllegalArgument "balance to add must be greater than zero")
  /\ (forall u w',
         AddBalance bt peers r address w = Done (u, w') ->
         exists nominal escrow,
           0 < ValueReceived r
           /\ (CallerCode r = builtin.AccountActorCodeID
               \/ CallerCode r = builtin.MultisigActorCodeID)
           /\ ResolveAddress r address = Some nominal
           /\ Add bt (EscrowTable (Funds (state w))) nominal (ValueReceived r)
              = builtin.Val escrow
           /\ w' = mkWorld (set_Funds (set_EscrowTable escrow (Funds (state w))) (state w))
                     (balance w) (sent w)).
Proof.
  split.
  - intros Hle. unfold AddBalance, rt.bind, builtin.RequireParam, builtin.RequirePredicate.
    rewrite Z.gtb_ltb. apply Z.ltb_ge in Hle. rewrite Hle. reflexivity.
  - intros u w' H.
    apply AddBalance_Done in H as (nominal & escrow & Hpos & Hsign & Hres & Hadd & ->).
    exists nominal, escrow. split_and!; try assumption; try reflexivity.
    cbn in Hsign. rewrite orb_false_r in Hsign. apply orb_true_iff in Hsign.
    destruct Hsign as [E|E]; apply Z.eqb_eq in E; auto.
Qed.

Lemma AddBalance_adds_to_escrow_witness :
  let bt := fixture.Market.balanceTable in
  let w := fixture.Market.publishedWorld in
  let run := AddBalance bt fixture.Market.peers (fixture.Market.payingRuntime 50 3000 25) 3000 in
  (ValueReceived (fixture.runtime 50 3000) <= 0
   /\ run w = Done (tt, outcome run w))
  /\ AddBalance bt fixture.Market.peers (fixture.runtime 50 3000) 3000 w
     = Abort exitcode.ErrIllegalArgument "balance to add must be greater than zero"
  /\ tableGet (EscrowTable (Funds (state (outcome run w)))) 3000 = 1025
  /\ LockedTable (Funds (state (outcome run w))) = LockedTable (Funds (state w)).
Proof.
  intros bt w run.
  assert (H1 : ValueReceived (fixture.runtime 50 3000) <= 0) by (vm_compute; discriminate).
  assert (H2 : run w = Done (tt, outcome run w)) by (vm_compute; reflexivity).
  split; [auto|].
  destruct (AddBalance_adds_to_escrow bt fixture.Market.peers (fixture.runtime 50 3000)
              3000 w) as [Hrefused _].
  destruct (AddBalance_adds_to_escrow bt fixture.Market.peers
              (fixture.Market.payingRuntime 50 3000 25) 3000 w) as [_ Hadded].
  split; [exact (Hrefused H1)|].
  destruct (Hadded tt (outcome run w) H2) as (nominal & escrow & _ & _ & Hres & Hadd & ->).
  injection Hres as <-. vm_compute in Hadd. injection Hadd as <-.
  split; reflexivity.
Defined.

End escrow_extra.

(** ** Repayment, proofs for the open deadline, recoveries, power *)

Module accounts_spec.
Import miner builtin miner_spec post_spec faults_spec.

Lemma RepayDebt_Done r (w : World State.t) u w' :
  RepayDebt r w = Done (u, w') ->
  exists fromVesting fromBalance st',
    In (Caller r) (MinerInfo.callers (State.Info (state w)))
    /\ RepayPartialDebtInPriorityOrder (CurrEpoch r) (balance w) (state w)
       = Val ((fromVesting, fromBalance), st')
    /\ state w' = st'
    /\ balance w' = balance w - Z.max (fromVesting + fromBalance) 0
    /\ sent w'
       = sent w
         ++ (if - fromVesting =? 0 then []
             else [mkMessage StoragePowerActorAddr (UpdatePledgeTotal (- fromVesting)) 0])
         ++ (if fromVesting + fromBalance >? 0
             then [mkMessage BurntFundsActorAddr MethodSend (fromVesting + fromBalance)]
             else [])
    /\ balanceInvariant w'.
Proof.
  unfold RepayDebt. intros H.
  step H as balance w1 H1. injection H1 as <- <-.
  step H as [fromVesting fromBalance] w1 H1.
  apply StateTransaction_Done in H1 as (st' & Htx & ->).
  step Htx as st0 ? H0. injection H0 as <- <-.
  step Htx as ? s1 H1. apply control_spec.callers_Done in H1 as [-> Hcaller].
  apply TryMethod_Done in Htx.
  step H as st1 w1 H1. injection H1 as <- <-.
  step H as ? w2 H2. apply notifyPledgeChanged_Done in H2 as (Hst2 & Hbal2 & Hsent2).
  step H as ? w3 H3. apply burnFunds_Done in H3 as (Hst3 & Hbal3 & Hsent3).
  step H as balance' w4 H4. injection H4 as <- <-.
  apply RequireNoErr_Done in H as [Hcheck ->].
  apply CheckBalanceInvariants_Val in Hcheck.
  exists fromVesting, fromBalance, st'. cbn in *.
  split; [exact Hcaller|]. split; [exact Htx|]. split; [congruence|].
  split; [lia|]. split; [by rewrite Hsent3, Hsent2, <- app_assoc|].
  unfold balanceInvariant. rewrite Hst3, Hst2. cbn. lia.
Qed.

Lemma SubmitWindowedPoSt_params_Done {W} pol params (w : W) proof0 w' :
  SubmitWindowedPoSt_params pol params w = Done (proof0, w') ->
  SubmitWindowedPoStParams.Proofs params = [proof0]
  /\ CanWindowPoStProof pol (proof.PoStProofType proof0) = true
  /\ SubmitWindowedPoStParams.Deadline params < WPoStPeriodDeadlines pol
  /\ Z.of_nat (length (SubmitWindowedPoStParams.ChainCommitRand params)) <= RandomnessLength.
Proof.
  unfold SubmitWindowedPoSt_params.
  destruct (SubmitWindowedPoStParams.Proofs params) as [|p [|q rest]]; try discriminate.
  intros H.
  step H as ? w1 H1. apply guard_Done in H1 as [Hcan ->]. apply negb_false_iff in Hcan.
  step H as ? w1 H1. apply guard_Done in H1 as [Hdl ->].
  rewrite Z.geb_leb in Hdl. apply Z.leb_gt in Hdl.
  step H as ? w1 H1. apply guard_Done in H1 as [Hrand ->].
  rewrite Z.gtb_ltb in Hrand. apply Z.ltb_ge in Hrand.
  injection H as <- _. auto.
Qed.

Lemma SubmitWindowedPoSt_open_checks pol r params proof0 st x st' :
  SubmitWindowedPoSt_open pol r params proof0 st = Done (x, st') ->
  let info := State.Info st in
  In (Caller r) (MinerInfo.callers info)
  /\ proof.PoStProofType proof0 = MinerInfo.WindowPoStProofType info
  /\ (exists maxProofSize,
         WindowPoStProofSize pol (MinerInfo.WindowPoStProofType info) = Some maxProofSize
         /\ Z.of_nat (length (proof.ProofBytes proof0))
            <= uint64 (maxProofSize
                       * Z.of_nat (length (SubmitWindowedPoStParams.Partitions params))))
  /\ Z.of_nat (length (SubmitWindowedPoStParams.Partitions params))
     <= loadPartitionsSectorsMax pol (MinerInfo.WindowPoStPartitionSectors info).
Proof.
  intros H info. revert H. unfold SubmitWindowedPoSt_open. intros H.
  step H as st0 ? H0. injection H0 as <- <-. fold info in H.
  step H as maxProofSize s1 H1. apply RequireNoErr_Done in H1 as [Hsize ->].
  step H as ? s1 H1. apply control_spec.callers_Done in H1 as [-> Hcaller].
  step H as ? s1 H1. apply guard_Done in H1 as [Htype ->].
  apply negb_false_iff, Z.eqb_eq in Htype.
  step H as ? s1 H1. apply guard_Done in H1 as [Hbytes ->].
  rewrite Z.gtb_ltb in Hbytes. apply Z.ltb_ge in Hbytes.
  step H as ? s1 H1. apply guard_Done in H1 as [Hparts ->].
  rewrite Z.gtb_ltb in Hparts. apply Z.ltb_ge in Hparts.
  split; [exact Hcaller|]. split; [exact Htype|]. split; [|exact Hparts].
  exists maxProofSize. split; [|exact Hbytes].
  destruct (WindowPoStProofSize pol _); [|discriminate]. by injection Hsize as <-.
Qed.

Lemma addRecoveries_keys {W} pol recoveries :
  forall (toProcess : gmap Z (gmap Z (list Z))) (w : W) toProcess' w',
    addRecoveries pol recoveries toProcess w = Done (toProcess', w') ->
    w' = w
    /\ forall k, is_Some (toProcess' !! k) ->
                 In k (map RecoveryDeclaration.Deadline recoveries)
                 \/ is_Some (toProcess !! k).
Proof.
  induction recoveries as [|term rest IH]; intros toProcess w toProcess' w' H; cbn in H.
  - injection H as <- <-. auto.
  - step H as toProcess1 w1 H1. apply RequireNoErr_Done in H1 as [Hadd ->].
    apply IH in H as [-> Hkeys]. split; [reflexivity|].
    intros k Hk. cbn [map In].
    destruct (Hkeys k Hk) as [Hin|Hk1]; [auto|].
    destruct (DeadlineSectorMap_Add_keys _ _ _ _ _ _ Hadd k Hk1) as [->|Hk0]; auto.
Qed.

Lemma recoverDeadlines_Done pol ops r st info toProcess dlIdxs :
  forall deadlines st0 deadlines' st1,
    recoverDeadlines pol ops r st info toProcess deadlines dlIdxs st0
    = Done (deadlines', st1) ->
    st1 = st0 /\ forall k, ~ In k dlIdxs -> deadlines' !! k = deadlines !! k.
Proof.
  induction dlIdxs as [|dlIdx rest IH]; intros deadlines st0 deadlines' st1 H; cbn in H.
  - injection H as <- <-. auto.
  - step H as deadlines1 s1 H1.
    assert (Hone : s1 = st0 /\ exists deadline, deadlines1 = <[dlIdx := deadline]> deadlines).
    { revert H1. unfold recoverDeadline. intros H1.
      step H1 as targetDeadline s2 H2. apply RequireNoErr_Done in H2 as [_ ->].
      step H1 as ? s2 H2. apply RequireNoErr_Done in H2 as [_ ->].
      step H1 as deadline s2 H2. apply RequireNoErr_Done in H2 as [_ ->].
      step H1 as deadline' s2 H2. apply RequireNoErr_Done in H2 as [_ ->].
      apply RequireNoErr_Done in H1 as [Hupdate ->]. split; [reflexivity|].
      unfold UpdateDeadline in Hupdate.
      destruct (dlIdx >=? WPoStPeriodDeadlines pol); [discriminate|].
      injection Hupdate as <-. eauto. }
    destruct Hone as (-> & deadline & ->).
    apply IH in H as (-> & Hother). split; [reflexivity|].
    intros k Hk. rewrite Hother by (intros Hin; apply Hk; by right).
    apply lookup_insert_ne. intros ->. apply Hk. by left.
Qed.

Lemma DeclareFaultsRecovered_Done pol ops r recoveries (w : World State.t) u w' :
  DeclareFaultsRecovered pol ops r recoveries w = Done (u, w') ->
  exists feeToBurn st1,
    Z.of_nat (length recoveries) <= DeclarationsMax pol
    /\ RepayDebtsOrAbort (balance w) (state w) = Done (feeToBurn, st1)
    /\ In (Caller r) (MinerInfo.callers (State.Info st1))
    /\ (forall dlIdx,
           ~ In dlIdx (map RecoveryDeclaration.Deadline recoveries) ->
           State.Deadlines (state w') !! dlIdx = State.Deadlines st1 !! dlIdx)
    /\ state w' = State.set_Deadlines (State.Deadlines (state w')) st1
    /\ balance w' = balance w - Z.max feeToBurn 0
    /\ sent w' = sent w ++ (if feeToBurn >? 0
                            then [mkMessage BurntFundsActorAddr MethodSend feeToBurn]
                            else [])
    /\ balanceInvariant w'.
Proof.
  unfold DeclareFaultsRecovered. intros H.
  step H as ? w1 H1. apply guard_Done in H1 as [Hmax ->].
  rewrite Z.gtb_ltb in Hmax. apply Z.ltb_ge in Hmax.
  step H as toProcess w1 H1. apply addRecoveries_keys in H1 as [-> Hkeys].
  step H as ? w1 H1. apply RequireNoErr_Done in H1 as [_ ->].
  step H as balance w1 H1. injection H1 as <- <-.
  step H as feeToBurn w1 H1. apply StateTransaction_Done in H1 as (st' & Htx & ->).
  step H as ? w2 H2. apply burnFunds_Done in H2 as (Hst2 & Hbal2 & Hsent2).
  apply checkBalanceInvariants_Done in H as [-> Hinv]. cbn in Hst2, Hbal2, Hsent2.
  unfold DeclareFaultsRecovered_tx in Htx.
  step Htx as fee st1 Hrepay.
  step Htx as st0 ? H0. injection H0 as <- <-.
  step Htx as ? s1 H1. apply control_spec.callers_Done in H1 as [-> Hcaller].
  step Htx as ? s1 H1. apply guard_Done in H1 as [_ ->].
  step Htx as deadlines s1 H1. apply recoverDeadlines_Done in H1 as [-> Hother].
  step Htx as ? s2 H2. injection H2 as _ <-. injection Htx as <- <-.
  exists fee, st1. rewrite Hst2. cbn.
  split_and!; try assumption; try reflexivity.
  intros dlIdx Hdl. apply Hother. intros Hin. apply Hdl.
  apply DeadlineSectorMap_Deadlines_In in Hin.
  destruct (Hkeys dlIdx Hin) as [Hdecl|Hempty]; [exact Hdecl|].
  rewrite lookup_empty in Hempty. by destruct Hempty.
Qed.

Lemma fold_qa (QAPowerForSector : Z -> SectorOnChainInfo.t -> Z) ssize sectors :
  forall qa,
    fold_left (fun qa s => qa + QAPowerForSector ssize s) sectors qa
    = qa + fold_right (fun s sum => QAPowerForSector ssize s + sum) 0 sectors.
Proof.
  induction sectors as [|s rest IH]; intros qa; cbn; [lia|]. rewrite IH. lia.
Qed.

End accounts_spec.

Module accounts_extra.
Import miner builtin accounts_spec.

(** X25.  [RepayDebt], called by the owner, the worker or a control
    address, repays what the state can repay of the fee debt from vesting
    funds first and then from the balance; it tells the power actor that
    the pledge fell by what came from vesting and burns exactly what was
    repaid, in this order and with no message for a zero amount, and ends
    with the balance invariant in place. *)
Theorem RepayDebt_burns_what_is_repaid r (w : World State.t) u w' :
  RepayDebt r w = Done (u, w') ->
  exists fromVesting fromBalance,
    In (Caller r) (MinerInfo.ControlAddresses (State.Info (state w))
                   ++ [MinerInfo.Owner (State.Info (state w));
                       MinerInfo.Worker (State.Info (state w))])
    /\ RepayPartialDebtInPriorityOrder (CurrEpoch r) (balance w) (state w)
       = Val ((fromVesting, fromBalance), state w')
    /\ balance w' = balance w - Z.max (fromVesting + fromBalance) 0
    /\ sent w'
       = sent w
         ++ (if - fromVesting =? 0 then []
             else [mkMessage StoragePowerActorAddr (UpdatePledgeTotal (- fromVesting)) 0])
         ++ (if fromVesting + fromBalance >? 0
             then [mkMessage BurntFundsActorAddr MethodSend (fromVesting + fromBalance)]
             else [])
    /\ balanceInvariant w'.
Proof.
  intros H.
  apply RepayDebt_Done in H
    as (fromVesting & fromBalance & st' & Hcaller & Hrepay & <- & Hbal & Hsent & Hinv).
  exists fromVesting, fromBalance. auto 6.
Qed.

Lemma RepayDebt_burns_what_is_repaid_witness :
  let run := RepayDebt (fixture.runtime 200 2001) in
  let w' := outcome run fixture.Miner.world in
  run fixture.Miner.world = Done (tt, w')
  /\ State.FeeDebt (state w') = 0
  /\ balance w' = 993
  /\ sent w' = [mkMessage StoragePowerActorAddr (UpdatePledgeTotal (-7)) 0;
                mkMessage BurntFundsActorAddr MethodSend 7].
Proof.
  intros run w'.
  assert (Hrun : run fixture.Miner.world = Done (tt, w')) by (vm_compute; reflexivity).
  split; [exact Hrun|].
  destruct (RepayDebt_burns_what_is_repaid (fixture.runtime 200 2001) fixture.Miner.world
              tt w' Hrun)
    as (fromVesting & fromBalance & _ & Hrepay & Hbal & Hsent & _).
  vm_compute in Hrepay. injection Hrepay as <- <-.
  split; [vm_compute; reflexivity|]. split; [rewrite Hbal; reflexivity | exact Hsent].
Defined.

(** X26.  [SubmitWindowedPoSt] takes a submission only for the deadline
    that is open at the current epoch: an accepted submission comes from
    the owner, the worker or a control address, names the index of the
    current deadline, which is open, and carries exactly one proof, of the
    miner's Window PoSt type and within the size allowed for the number of
    partitions, at most the partitions that fit one message and at most
    [RandomnessLength] bytes of randomness; the randomness is the ticket
    randomness of the chain commit epoch.  The balance is left as it
    was. *)
Theorem SubmitWindowedPoSt_takes_the_open_deadline
        pol ops r params (w : World State.t) u w' :
  SubmitWindowedPoSt pol ops r params w = Done (u, w') ->
  let info := State.Info (state w) in
  let dl := DeadlineInfo pol (state w) (CurrEpoch r) in
  exists proof0,
    SubmitWindowedPoStParams.Proofs params = [proof0]
    /\ CanWindowPoStProof pol (proof.PoStProofType proof0) = true
    /\ proof.PoStProofType proof0 = MinerInfo.WindowPoStProofType info
    /\ (exists maxProofSize,
           WindowPoStProofSize pol (MinerInfo.WindowPoStProofType info) = Some maxProofSize
           /\ Z.of_nat (length (proof.ProofBytes proof0))
              <= uint64 (maxProofSize
                         * Z.of_nat (length (SubmitWindowedPoStParams.Partitions params))))
    /\ Z.of_nat (length (SubmitWindowedPoStParams.Partitions params))
       <= loadPartitionsSectorsMax pol (MinerInfo.WindowPoStPartitionSectors info)
    /\ Z.of_nat (length (SubmitWindowedPoStParams.ChainCommitRand params)) <= RandomnessLength
    /\ GetRandomnessFromTickets r DomainSeparationTag_PoStChainCommit
         (SubmitWindowedPoStParams.ChainCommitEpoch params) []
       = SubmitWindowedPoStParams.ChainCommitRand params
    /\ In (Caller r) (MinerInfo.ControlAddresses info
                      ++ [MinerInfo.Owner info; MinerInfo.Worker info])
    /\ dline.IsOpen dl = true
    /\ SubmitWindowedPoStParams.Deadline params = dline.Index dl
    /\ SubmitWindowedPoStParams.Deadline params < WPoStPeriodDeadlines pol
    /\ balance w' = balance w.
Proof.
  intros H info dl.
  apply post_spec.SubmitWindowedPoSt_Done in H
    as (proof0 & postResult & st' & Hparams & Hopen & Hisopen & Hidx & _ & Hrand & _ & _
        & Hbal & _).
  specialize (Hparams w). apply SubmitWindowedPoSt_params_Done in Hparams
    as (Hone & Hcan & Hdl & Hlen).
  apply SubmitWindowedPoSt_open_checks in Hopen as (Hcaller & Htype & Hsize & Hparts).
  exists proof0. split_and!; try assumption.
  revert Hrand. unfold SubmitWindowedPoSt_chainCommitRand.
  destruct (bool_decide _) eqn:Hd; [|discriminate]. intros _.
  by apply bool_decide_eq_true in Hd.
Qed.

Lemma SubmitWindowedPoSt_takes_the_open_deadline_witness :
  let pol := fixture.Miner.policy in
  let ops := fixture.Miner.ops PowerPair.Zero in
  let r := fixture.runtime 130 2001 in
  let run := SubmitWindowedPoSt pol ops r (fixture.Miner.submission 125) in
  run fixture.Miner.world = Done (tt, outcome run fixture.Miner.world)
  /\ dline.Index (DeadlineInfo pol (state fixture.Miner.world) 130) = 0
  /\ dline.IsOpen (DeadlineInfo pol (state fixture.Miner.world) 130) = true
  /\ exists c msg,
       SubmitWindowedPoSt pol ops (fixture.runtime 170 2001) (fixture.Miner.submission 165)
         fixture.Miner.world = Abort c msg.
Proof.
  intros pol ops r run.
  assert (Hrun : run fixture.Miner.world = Done (tt, outcome run fixture.Miner.world))
    by (vm_compute; reflexivity).
  split; [exact Hrun|].
  destruct (SubmitWindowedPoSt_takes_the_open_deadline pol ops r (fixture.Miner.submission 125)
              fixture.Miner.world tt _ Hrun)
    as (proof0 & _ & _ & _ & _ & _ & _ & _ & _ & Hopen & Hidx & _).
  split; [etransitivity; [symmetry; exact Hidx | reflexivity]|]. split; [exact Hopen|].
  exists exitcode.ErrIllegalArgument, "invalid deadline %d at epoch %d, expected %d".
  vm_compute. reflexivity.
Defined.

(** X27.  [PowerForSectors] is the sum of [PowerForSector] over the
    sectors: the raw power is the sector size once per sector and the QA
    power the sum of the sectors' QA powers; so the power of two lists
    together is the sum of their powers. *)
Theorem PowerForSectors_is_the_sum QAPowerForSector ssize sectors sectors' :
  Z.of_nat (length sectors + length sectors') <= MaxUint64 ->
  PowerForSectors QAPowerForSector ssize sectors
  = fold_right (fun s sum => PowerPair.Add (PowerForSector QAPowerForSector ssize s) sum)
      PowerPair.Zero sectors
  /\ PowerForSectors QAPowerForSector ssize (sectors ++ sectors')
     = PowerPair.Add (PowerForSectors QAPowerForSector ssize sectors)
         (PowerForSectors QAPowerForSector ssize sectors').
Proof.
  intros Hlen.
  assert (Hsum : forall l,
             Z.of_nat (length l) <= MaxUint64 ->
             PowerForSectors QAPowerForSector ssize l
             = PowerPair.mk (uint64 ssize * Z.of_nat (length l))
                 (fold_right (fun s sum => QAPowerForSector ssize s + sum) 0 l)).
  { intros l Hl. unfold PowerForSectors.
    rewrite fold_qa, (uint64_id (Z.of_nat (length l))) by lia. f_equal. }
  split.
  - rewrite Hsum by lia. clear. induction sectors as [|s rest IH]; cbn [fold_right length].
    + unfold PowerPair.Zero. f_equal. lia.
    + rewrite <- IH. unfold PowerPair.Add, PowerForSector. cbn. f_equal. lia.
  - rewrite !Hsum by (rewrite ?length_app; lia). unfold PowerPair.Add. cbn.
    rewrite length_app, fold_right_app. f_equal; [lia|].
    clear. induction sectors as [|s rest IH]; cbn; [reflexivity|]. rewrite IH. lia.
Qed.

Lemma PowerForSectors_is_the_sum_witness :
  let qa := fun (size : Z) (s : SectorOnChainInfo.t) =>
              size * SectorOnChainInfo.SectorNumber s in
  let s1 := SectorOnChainInfo.mk 1 8 77 in
  let s2 := SectorOnChainInfo.mk 2 8 78 in
  PowerForSectors qa 2048 ([s1] ++ [s2; s1])
  = PowerPair.Add (PowerForSectors qa 2048 [s1]) (PowerForSectors qa 2048 [s2; s1])
  /\ PowerForSectors qa 2048 [s1; s2; s1] = PowerPair.mk 6144 8192.
Proof.
  intros qa s1 s2.
  destruct (PowerForSectors_is_the_sum qa 2048 [s1] [s2; s1]) as [_ Happ].
  - vm_compute. discriminate.
  - split; [exact Happ | reflexivity].
Defined.

(** X28.  [DeclareFaultsRecovered] first repays the whole fee debt, which
    it burns, and then touches only the deadlines that are declared: after
    a successful call every deadline that no declaration names is as it
    was, nothing but the deadlines differs from the state after the
    repayment, the only message is the burn of the fee, when there is one,
    and the balance invariant holds.  No power is claimed back: that waits
    for the proof. *)
Theorem DeclareFaultsRecovered_touches_only_declared_deadlines
        pol ops r recoveries (w : World State.t) u w' :
  DeclareFaultsRecovered pol ops r recoveries w = Done (u, w') ->
  exists feeToBurn st1,
    Z.of_nat (length recoveries) <= DeclarationsMax pol
    /\ RepayDebtsOrAbort (balance w) (state w) = Done (feeToBurn, st1)
    /\ (forall dlIdx,
           ~ In dlIdx (map RecoveryDeclaration.Deadline recoveries) ->
           State.Deadlines (state w') !! dlIdx = State.Deadlines (state w) !! dlIdx)
    /\ state w' = State.set_Deadlines (State.Deadlines (state w')) st1
    /\ balance w' = balance w - Z.max feeToBurn 0
    /\ sent w' = sent w ++ (if feeToBurn >? 0
                            then [mkMessage BurntFundsActorAddr MethodSend feeToBurn]
                            else [])
    /\ balanceInvariant w'.
Proof.
  intros H.
  apply DeclareFaultsRecovered_Done in H
    as (feeToBurn & st1 & Hmax & Hrepay & _ & Hother & Hst & Hbal & Hsent & Hinv).
  exists feeToBurn, st1. split_and!; try assumption.
  intros dlIdx Hdl. rewrite (Hother dlIdx Hdl).
  apply TryMethod_Done in Hrepay. revert Hrepay. unfold repayDebts.
  destruct (GetUnlockedBalance _ _); [|discriminate].
  destruct (_ <? _); [discriminate|]. by intros [= _ <-].
Qed.

Lemma DeclareFaultsRecovered_touches_only_declared_deadlines_witness :
  let pol := fixture.Miner.policy in
  let run := DeclareFaultsRecovered pol (fixture.Miner.ops PowerPair.Zero)
               (fixture.runtime 200 2001) [RecoveryDeclaration.mk 5 0 [1; 2]] in
  let w' := outcome run fixture.Miner.world in
  run fixture.Miner.world = Done (tt, w')
  /\ State.Deadlines (state w') !! 6 = Some fixture.Miner.deadline
  /\ sent w' = [mkMessage BurntFundsActorAddr MethodSend 7]
  /\ balance w' = 993.
Proof.
  intros pol run w'.
  assert (Hrun : run fixture.Miner.world = Done (tt, w')) by (vm_compute; reflexivity).
  split; [exact Hrun|].
  destruct (DeclareFaultsRecovered_touches_only_declared_deadlines pol
              (fixture.Miner.ops PowerPair.Zero) (fixture.runtime 200 2001)
              [RecoveryDeclaration.mk 5 0 [1; 2]] fixture.Miner.world tt w' Hrun)
    as (feeToBurn & st1 & _ & Hrepay & Hother & _ & Hbal & Hsent & _).
  vm_compute in Hrepay. injection Hrepay as <- _.
  split.
  - rewrite Hother; [vm_compute; reflexivity|]. cbn. intros [E|[]]. discriminate E.
  - split; [exact Hsent | rewrite Hbal; reflexivity].
Defined.

End accounts_extra.
